(* ===== verification/_CoqProject ===== *)
-Q . S2P
Prelude.v
JsInt.v
JsStr.v
JsNum.v
JsVal.v
Effects.v
Words.v
Radix.v
Sha256.v
Ripemd160.v
Addr.v
Script.v
Tx.v
Payments.v
Orders.v
NobleField.v
NoblePoint.v
NobleSign.v
Secp.v
Transfer.v
Market.v
Mint.v
Sell.v
Cancel.v
Api.v
App.v
Sw.v
SwRegister.v
Wordlist.v
Mnemonic.v
Bip32.v
Wallet.v
Dom.v
Qrscan.v
Views.v
Flow.v
FlowProps.v
FlowLock.v
FlowRefine.v
FlowLoad.v
FlowRuns.v
