(* ===== verification/Prelude.v ===== *)
(** * The UAP client of Whippet: a verification development

    Whippet is a Dogecoin-derived chain with a token covenant ("UAP"): an
    output script [<pubkey> <multiplier> OP_MINT] mints a position, and
    [<pubkey> <multiplier> <origin> OP_MINT_TRANSFER] carries it on with its
    lineage.  This development models the JavaScript client of that chain: the
    library [contrib/uap-js] (hashes, addresses, covenant scripts, transactions,
    signing, orders) and the web wallet [contrib/uap-web] built on it (planning
    and publishing of mints, transfers and orders, the client of the indexer, key
    storage, the service worker, and the application itself: its screens, its
    event handlers and the asynchronous work they leave behind).

    ** The program and its parts

    A wallet holds a BIP39 phrase and derives one key from it ([wallet.js],
    [bip32.js]).  The screens of [app.js] ask the indexer for coins, positions and
    orders ([api.js]), plan a transaction ([mint.js], [transfer.js], [market.js],
    [sell.js], [cancel.js]), build and sign it ([uap.js], over [secp.js] and the
    vendored [noble-secp256k1.js]) and broadcast it.  The indexer is not trusted:
    what it says of a position is checked against the transaction bytes that hash
    to its txid.  The service worker ([sw.js], registered by [sw-register.js])
    stands between the client and the network and answers from its cache when
    there is none.  The screens are DOM trees built by [dom.js]; an address can be
    read off a QR code by the camera ([qrscan.js]).

    ** The files

    The language.  [Prelude]: the error monad [res] of a function that may throw,
    byte lists, the shared lemmas and tactics.  [JsInt]: the 32-bit operators and
    little- and big-endian encodings.  [JsStr]: strings (code units below 256) and
    their methods.  [JsNum]: numbers as exact binary64 values, with rounding, NaN,
    the infinities and printing.  [JsVal]: untyped values, property access,
    conversions, [parseFloat].  [Effects]: asynchronous functions over an abstract
    world.  [Words], [Radix]: machine words, buffers and numerals.

    The library [contrib/uap-js].  [Sha256] is [sha256.js]; [Ripemd160] is
    [ripemd160.js]; [Addr] is [addr.js].  [Script] (building and reading
    covenants and metadata), [Tx] (the wire format, the reader, the signature
    hash, the signers), [Payments] (coin selection, payments, transfers, melts)
    and [Orders] (maker orders, fills, cancellations) are the parts of [uap.js].
    [NobleField], [NoblePoint] and [NobleSign] are [noble-secp256k1.js]; [Secp] is
    [secp.js], with the node's [IsValidSignatureEncoding] from
    [src/script/interpreter.cpp].

    The web wallet [contrib/uap-web].  [Transfer], [Market], [Mint], [Sell],
    [Cancel], [Api] and [Sw] are the files of those names, and [SwRegister] is
    [sw-register.js]; [Wordlist] is [wordlist.js]; [Mnemonic] is the BIP39 half of
    [wallet.js]; [Bip32] is [bip32.js]; [Wallet] is the rest of [wallet.js] and the
    sign-in handlers of [app.js] as a session in which each runs to its end.
    [Dom] is [dom.js]; [Qrscan] is [qrscan.js] and the scan of [app.js].

    The application, [app.js].  [App] is its publishing half and its confirmation
    badge; [Views] has every function that builds a part of the page, with the
    state of each flow as a record; [Flow] is the whole page as a machine.  The
    state [Flow.appl] is the module's variables, the wallet objects, the page and
    what is typed into it, and the work that is pending; [Flow.step] takes a click
    on a button that is on the page, a keystroke, the completion of any pending
    task, or a report of the camera or clipboard.  [FlowProps] has the invariant
    of the machine, [FlowLock] what a locked wallet can do, [FlowRefine] that the
    machine implements the badge of [App] and the session of [Wallet], [FlowLoad]
    that no screen is left on its skeleton, and [FlowRuns] runs of it at a sample
    browser and indexer.

    A function of the source is a definition of the same name, with a throw as
    [Throw message], an options object as a record and a loop as a fold or a
    fixpoint; a helper that stands for part of a function is named after what
    the part does.  Where the source takes values off the network, the model
    takes [jsval], so that a missing or ill-typed field is a case and not an
    assumption.  Awaited calls run in [io], over an arbitrary network, clock and
    server.

    ** What is assumed

    Code outside the repository is a parameter with its documented behaviour as a
    class: [Bip32.SubtleLaws] (HMAC-SHA512 returns 64 bytes; AES-GCM decryption
    inverts encryption), the random source (bytes of the length asked for), the
    JSON parser, [fetch], the clock and [TextDecoder].  The application takes
    these together as the class [Flow.Env], with what the browser has of a camera,
    and from the page the class [Dom.Page]: the locale's number format, the source
    text of a function, and four characters outside the alphabet.  Neither class
    has laws.  The components that sign
    take the curve module as the record [Tx.secp] with the class [Tx.SecpLaws]
    of what they need of it; [Secp] shows that the module of the repository
    satisfies it.  Each law has an instance that witnesses it.

    ** What the theorems show

    - Standards.  [sha256], [hmacSha256], [ripemd160] and [pbkdf2Sync] compute what
      FIPS 180-4, RFC 2104, ISO 10118-3 and RFC 8018 define; a mnemonic's key is
      the BIP32 key at the wallet's path; [sign] is the RFC 6979 search and its
      signatures satisfy the ECDSA equation in low-S, strict DER form, as the node
      demands; the addition formula is the group law, and the windowed multiplication
      the n-fold sum.
    - Formats.  Addresses, covenant scripts, transactions, hexadecimal and phrases
      read back as what was written, and nothing else is accepted.
    - Value.  Payments, transfers, melts, mints and fills spend what was selected,
      pay what was asked, return the change, and lose nothing but the fee, which
      is bounded; token satoshis are conserved exactly.
    - Authority.  A signature of all outputs binds the whole transaction; a
      maker's signature binds the offer, survives whatever the taker adds, and an
      order published by one wallet is completed by another; the wallet signs
      only over covenants of its own key; two positions that verify for one
      outpoint are the same unless a hash collides.
    - The untrusted server.  Results of the client have the promised types
      whatever is answered; pagination and polling end; a published fill moves the
      on-chain value; an answer from the cache is never shown as live.
    - Keys.  Locking and unlocking restores the same wallet; an unlock that
      succeeds is consistent; in every reachable session the unlock screen can be
      passed and the wallet screen has its key.
    - The page.  In every state the application can reach, whatever was typed,
      clicked, answered or scanned and in whatever order, the page holds nothing
      the browser would run out of a string, and its buttons are those of the
      current screen; a review shows the plan that its button signs.
    - State over time.  A locked wallet that nobody opens again stays without a key
      and sends only [GET] requests; the badge of the application is that of the
      history of accepted broadcasts and ended polls, in every interleaving; a
      skeleton is gone after at most three answers or failures of the network; its
      sign-in handlers refine the session of [Wallet], whose steps keep an
      invariant; the camera is off whenever a scan has settled; the page reloads
      at most once for a new worker.

    Where the code does not do what it means to, a lemma exhibits it at a
    concrete input ([Mint.planMint_negative_change],
    [Transfer.transfer_size_underestimated], [Wallet.spacing_changes_key],
    [Wallet.lockWallet_keeps_phrase], [Sw.live_answer_lost] and others); where two
    tasks in flight get into each other's way, a run of the application does
    ([FlowRuns.mint_publishes_unconfirmed_plan],
    [FlowRuns.fill_uses_plan_of_other_order], [FlowRuns.lock_screen_undone] and
    others).

    ** Bounds and fuel

    Loops over data are structural.  Numeral conversions run on
    [Radix.fuel_for n], one more than the bits of the number, which
    [Radix.fuel_enough] shows sufficient in any base.  The modular inverse runs on
    fuel that its correctness theorem shows is never exhausted.  Bounds the source
    has itself are kept: 1000 nonce candidates, 100 pages, the attempts of
    polling.  The splitting of a phrase runs on its length, which the proofs show
    enough.  Message lengths are below 2^31 - 8 bytes, as the 32-bit length fields
    of the source require.

    ** Not modelled

    Strings are code units below 256: a ticker or message beyond Latin-1 is
    outside the model.  That the field characteristic is prime is not proved,
    so no theorem says that every signature verifies.  [index.html], the style
    sheet and the manifest are static; layout, focus and rendering by the browser
    are not represented, and a node of the page is its tag, attributes, listeners
    and children.  A task of the application runs its network calls in one go
    when it completes: tasks interleave with each other and with the user, and the
    requests inside one task with nothing.  No theorem says that the network ever
    answers, so none says that a pending task completes.  The tests, the build
    scripts and the command-line examples are left out.  The node (C++), the
    indexer, the faucet and [uaptx] (Go) and the Python test framework are other
    programs; the client is verified against an arbitrary server instead.  Side channels and the
    strength of the passphrase are not in scope. *)

From stdpp Require Import base tactics option list numbers strings pretty.
From Stdlib Require Import ZArith Lia Btauto.

#[global] Open Scope Z_scope.

(** ** The error monad of a JavaScript function

    A call either returns a value or throws an [Error] whose [message] is
    kept exactly as the source builds it. *)

Inductive res (A : Type) : Type :=
| Ok (a : A)
| Throw (message : string).
Arguments Ok {A} a.
Arguments Throw {A} message.

#[global] Instance res_ret : MRet res := λ A a, Ok a.

#[global] Instance res_bind : MBind res := λ A B f m,
  match m with Ok a => f a | Throw e => Throw e end.

#[global] Instance res_fmap : FMap res := λ A B f m,
  match m with Ok a => Ok (f a) | Throw e => Throw e end.

#[global] Instance res_eq_dec `{EqDecision A} : EqDecision (res A).
Proof. solve_decision. Defined.

(** [if (c) throw new Error(e);] in front of the rest of a body. *)
Definition throw_if (c : bool) (e : string) : res unit :=
  if c then Throw e else Ok tt.

(** [try { m } catch (_) { h }], where the handler sees the message. *)
Definition try_catch {A} (m : res A) (h : string → res A) : res A :=
  match m with Ok a => Ok a | Throw e => h e end.

Definition is_ok {A} (m : res A) : bool :=
  match m with Ok _ => true | Throw _ => false end.

(** A loop body run over a list, left to right, stopping at the first throw. *)
Fixpoint mapR {A B} (f : A → res B) (l : list A) : res (list B) :=
  match l with
  | [] => Ok []
  | x :: l => y ← f x; ys ← mapR f l; Ok (y :: ys)
  end.

Lemma bind_Ok {A B} (m : res A) (f : A → res B) b :
  (m ≫= f) = Ok b ↔ ∃ a, m = Ok a ∧ f a = Ok b.
Proof.
  destruct m as [a|e]; simpl; [|by split; [|intros (? & ? & ?)]].
  split; [by exists a|]. by intros (? & [= <-] & ?).
Qed.

Lemma bind_Throw {A B} (m : res A) (f : A → res B) e :
  (m ≫= f) = Throw e ↔ m = Throw e ∨ ∃ a, m = Ok a ∧ f a = Throw e.
Proof.
  destruct m as [a|e']; simpl.
  - split; [eauto|]. by intros [?|(? & [= <-] & ?)].
  - split; [by intros [= ->]; left|]. by intros [[= ->]|(? & ? & ?)].
Qed.

Lemma mapR_Ok {A B} (f : A → res B) l l' :
  mapR f l = Ok l' ↔ Forall2 (λ x y, f x = Ok y) l l'.
Proof.
  revert l'. induction l as [|x l IH]; intros l'; simpl.
  - split; [intros [= <-]; constructor | by inversion 1].
  - rewrite bind_Ok. setoid_rewrite bind_Ok. split.
    + intros (y & Hy & ys & Hys & [= <-]). constructor; [done|by apply IH].
    + inversion 1 as [|? y ? ys Hy Hys]; subst.
      exists y; split; [done|]. exists ys. by rewrite IH.
Qed.

Lemma bind_assoc {A B C} (m : res A) (f : A → res B) (g : B → res C) :
  ((m ≫= f) ≫= g) = (m ≫= λ a, f a ≫= g).
Proof. by destruct m. Qed.

Lemma throw_if_Ok c e u : throw_if c e = Ok u ↔ c = false.
Proof. destruct c, u; naive_solver. Qed.

Lemma throw_if_Throw c e e' : throw_if c e = Throw e' ↔ c = true ∧ e' = e.
Proof. destruct c; naive_solver. Qed.

Lemma Ok_inj {A} (a b : A) : Ok a = Ok b → a = b.
Proof. by intros [= ->]. Qed.

(** [simp_res] reads a successful run backwards: every bind that returned
    splits into the values its parts returned, every guard into the condition
    that did not fire. *)
Ltac simp_res :=
  repeat match goal with
  | H : mbind _ _ = Ok _ |- _ => apply bind_Ok in H as (? & ? & ?)
  | H : throw_if _ _ = Ok _ |- _ => apply throw_if_Ok in H
  | H : Ok _ = Ok _ |- _ => apply Ok_inj in H; subst
  | H : mret _ = Ok _ |- _ => apply Ok_inj in H; subst
  | H : Throw _ = Ok _ |- _ => discriminate H
  | H : Ok _ = Throw _ |- _ => discriminate H
  | u : unit |- _ => destruct u
  | p : (_ * _)%type |- _ => destruct p
  | H : (_ || _) = false |- _ => apply orb_false_iff in H as [? ?]
  | H : (_ && _) = true |- _ => apply andb_true_iff in H as [? ?]
  | H : negb _ = false |- _ => apply negb_false_iff in H
  | H : negb _ = true |- _ => apply negb_true_iff in H
  end.

(** Boolean comparisons of the code, as propositions. *)
Ltac simp_bool :=
  repeat match goal with
  | H : (_ =? _) = true |- _ => apply Z.eqb_eq in H
  | H : (_ =? _) = false |- _ => apply Z.eqb_neq in H
  | H : (_ <? _) = true |- _ => apply Z.ltb_lt in H
  | H : (_ <? _) = false |- _ => apply Z.ltb_ge in H
  | H : (_ <=? _) = true |- _ => apply Z.leb_le in H
  | H : (_ <=? _) = false |- _ => apply Z.leb_gt in H
  | H : (_ >? _) = _ |- _ => rewrite Z.gtb_ltb in H
  | H : (_ || _) = true |- _ => apply orb_true_iff in H
  | H : (_ || _) = false |- _ => apply orb_false_iff in H as [? ?]
  | H : (_ && _) = true |- _ => apply andb_true_iff in H as [? ?]
  | H : (_ && _) = false |- _ => apply andb_false_iff in H
  | H : negb _ = false |- _ => apply negb_false_iff in H
  | H : negb _ = true |- _ => apply negb_true_iff in H
  end.

(** Splits a hypothesis along the branches of the code it is about. *)
Ltac case_in H :=
  repeat (match type of H with
          | context [match ?x with _ => _ end] => destruct x eqn:?
          end; try discriminate H).

(** ** Lengths as [Z]: the [.length] of an array or a string *)

Abbreviation zlen l := (Z.of_nat (length l)).

(** ** Byte arrays

    A [Uint8Array] is the list of its elements, each an integer; [is_bytes]
    says they are in range.  A store of a number into a [Uint8Array] keeps it
    modulo 256 ([u8]). *)

Abbreviation bytes := (list Z).

Definition u8 (n : Z) : Z := n mod 256.

Definition is_byte (b : Z) : Prop := 0 ≤ b < 256.
Definition is_bytes (bs : bytes) : Prop := Forall is_byte bs.

#[global] Instance is_byte_dec b : Decision (is_byte b).
Proof. unfold is_byte. apply _. Defined.
#[global] Instance is_bytes_dec bs : Decision (is_bytes bs).
Proof. unfold is_bytes. apply _. Defined.

(** [Uint8Array.of(...)]. *)
Definition u8of (l : list Z) : bytes := map u8 l.

(** [new Uint8Array(n)]. *)
Definition u8zeros (n : nat) : bytes := replicate n 0.

(** [arr[i]] read at an index known to be in range; the value out of range is
    never used by the definitions that guard their reads. *)
Definition at_ (bs : bytes) (i : Z) : Z :=
  if i <? 0 then 0 else default 0 (bs !! Z.to_nat i).

(** [arr.slice(i, j)] for indices [0 <= i]. *)
Definition slice (bs : bytes) (i j : Z) : bytes :=
  take (Z.to_nat (j - i)) (drop (Z.to_nat i) bs).

Create HintDb bytes.

Lemma u8_byte n : is_byte (u8 n).
Proof. unfold is_byte, u8. apply Z.mod_pos_bound. lia. Qed.
#[export] Hint Resolve u8_byte : bytes.

Lemma u8_small n : is_byte n → u8 n = n.
Proof. intros. by apply Z.mod_small. Qed.

Lemma u8of_bytes l : is_bytes (u8of l).
Proof. apply Forall_map, Forall_true. intros; apply u8_byte. Qed.
#[export] Hint Resolve u8of_bytes : bytes.

Lemma u8of_small l : is_bytes l → u8of l = l.
Proof.
  induction 1; simpl; [done|]. by rewrite u8_small, IHForall.
Qed.

Lemma is_bytes_nil : is_bytes [].
Proof. constructor. Qed.
Lemma is_bytes_cons b bs : is_bytes (b :: bs) ↔ is_byte b ∧ is_bytes bs.
Proof. apply Forall_cons. Qed.
Lemma is_bytes_one b : is_byte b → is_bytes [b].
Proof. intros. by apply Forall_singleton. Qed.
Lemma is_bytes_app bs bs' : is_bytes (bs ++ bs') ↔ is_bytes bs ∧ is_bytes bs'.
Proof. apply Forall_app. Qed.
Lemma is_bytes_app_2 bs bs' : is_bytes bs → is_bytes bs' → is_bytes (bs ++ bs').
Proof. rewrite is_bytes_app. done. Qed.
Lemma is_bytes_take n bs : is_bytes bs → is_bytes (take n bs).
Proof. apply Forall_take. Qed.
Lemma is_bytes_drop n bs : is_bytes bs → is_bytes (drop n bs).
Proof. apply Forall_drop. Qed.
Lemma is_bytes_rev bs : is_bytes bs → is_bytes (reverse bs).
Proof. apply Forall_reverse. Qed.
Lemma is_bytes_zeros n : is_bytes (u8zeros n).
Proof. apply Forall_replicate. split; lia. Qed.
Lemma is_bytes_slice bs i j : is_bytes bs → is_bytes (slice bs i j).
Proof. intros. unfold slice. by apply is_bytes_take, is_bytes_drop. Qed.
Lemma is_bytes_concat l : Forall is_bytes l → is_bytes (List.concat l).
Proof. induction 1; simpl; [constructor|by apply is_bytes_app_2]. Qed.
#[export] Hint Resolve is_bytes_nil is_bytes_one is_bytes_app_2 is_bytes_take is_bytes_drop
  is_bytes_rev is_bytes_zeros is_bytes_slice is_bytes_concat : bytes.

Lemma at_nil i : at_ [] i = 0.
Proof. unfold at_. case_match; [done|]. by rewrite lookup_nil. Qed.

Lemma at_app_l bs bs' i : i < zlen bs → at_ (bs ++ bs') i = at_ bs i.
Proof.
  intros. unfold at_. case_match; simp_bool; [done|].
  rewrite lookup_app_l by lia. done.
Qed.

Lemma at_app_r bs bs' i : zlen bs ≤ i → at_ (bs ++ bs') i = at_ bs' (i - zlen bs).
Proof.
  intros. unfold at_. rewrite (proj2 (Z.ltb_ge _ _)), (proj2 (Z.ltb_ge _ _)) by lia.
  rewrite lookup_app_r by lia. do 2 f_equal. lia.
Qed.

Lemma at_0 b bs : at_ (b :: bs) 0 = b.
Proof. done. Qed.

Lemma at_cons b bs i : 0 < i → at_ (b :: bs) i = at_ bs (i - 1).
Proof. intros. apply (at_app_r [b] bs i). simpl. lia. Qed.

Lemma at_byte bs i : is_bytes bs → is_byte (at_ bs i).
Proof.
  intros Hbs. unfold at_. case_match; [split; lia|].
  destruct (_ !! _) eqn:E; simpl; [|split; lia].
  by eapply Forall_lookup_1 in E.
Qed.
#[export] Hint Resolve at_byte : bytes.

Lemma length_slice bs i j :
  0 ≤ i → i ≤ j → j ≤ zlen bs → zlen (slice bs i j) = j - i.
Proof. intros. unfold slice. rewrite length_take, length_drop. lia. Qed.

Lemma slice_app_mid pre bs post i j :
  i = zlen pre → j = zlen pre + zlen bs → slice (pre ++ bs ++ post) i j = bs.
Proof.
  intros -> ->. unfold slice. rewrite Nat2Z.id, drop_app_length.
  replace (Z.to_nat _) with (length bs) by lia. apply take_app_length.
Qed.

Lemma slice_app_end pre bs i j :
  i = zlen pre → j = zlen pre + zlen bs → slice (pre ++ bs) i j = bs.
Proof. intros. rewrite <-(app_nil_r bs) at 1. by apply slice_app_mid. Qed.

Lemma slice_drop bs i n :
  0 ≤ i → 0 ≤ n → slice bs i (i + n) = take (Z.to_nat n) (drop (Z.to_nat i) bs).
Proof. intros. unfold slice. by replace (i + n - i) with n by lia. Qed.

Lemma slice_slice bs i j :
  0 ≤ i → i ≤ j → j ≤ zlen bs →
  slice bs i j ++ slice bs j (zlen bs) = drop (Z.to_nat i) bs.
Proof.
  intros. unfold slice. rewrite (take_ge (drop (Z.to_nat j) bs)) by (rewrite length_drop; lia).
  replace (Z.to_nat j) with (Z.to_nat i + Z.to_nat (j - i))%nat by lia.
  rewrite <-drop_drop. apply take_drop.
Qed.

Lemma slice_nil bs i : slice bs i i = [].
Proof. unfold slice. by rewrite Z.sub_diag. Qed.

Lemma slice_cons bs i j :
  0 ≤ i → i < j → j ≤ zlen bs → slice bs i j = at_ bs i :: slice bs (i + 1) j.
Proof.
  intros. unfold slice, at_. rewrite (proj2 (Z.ltb_ge _ _)) by lia.
  destruct (lookup_lt_is_Some_2 bs (Z.to_nat i)) as [b Hb]; [lia|].
  rewrite (drop_S _ _ _ Hb), Hb. replace (Z.to_nat (j - i)) with (S (Z.to_nat (j - (i + 1)))) by lia.
  simpl. do 2 f_equal. f_equal. lia.
Qed.

Lemma slice_split bs i j k :
  0 ≤ i → i ≤ j → j ≤ k → k ≤ zlen bs → slice bs i k = slice bs i j ++ slice bs j k.
Proof.
  intros. unfold slice.
  replace (Z.to_nat (k - i)) with (Z.to_nat (j - i) + Z.to_nat (k - j))%nat by lia.
  rewrite <-(take_drop (Z.to_nat (j - i)) (take _ _)), take_take, Nat.min_l by lia. f_equal.
  rewrite <-take_drop_commute, drop_drop. do 2 f_equal. lia.
Qed.

(** A string cut at two offsets. *)
Lemma slice_cut bs i j :
  0 ≤ i → i ≤ j → j ≤ zlen bs →
  bs = take (Z.to_nat i) bs ++ slice bs i j ++ drop (Z.to_nat j) bs.
Proof.
  intros. rewrite <-(take_drop (Z.to_nat i) bs) at 1. f_equal.
  unfold slice. replace (Z.to_nat j) with (Z.to_nat i + Z.to_nat (j - i))%nat by lia.
  rewrite <-drop_drop. by rewrite take_drop.
Qed.

Lemma at_app_0 pre b rest i : i = zlen pre → at_ (pre ++ b :: rest) i = b.
Proof. intros ->. rewrite at_app_r, Z.sub_diag by lia. done. Qed.

Lemma mjoin_cons {A} (a : list A) l : mjoin (a :: l) = a ++ mjoin l.
Proof. done. Qed.

(** A loop that updates an accumulator and may throw. *)
Fixpoint foldR {A B} (f : B → A → res B) (acc : B) (l : list A) : res B :=
  match l with
  | [] => Ok acc
  | x :: l => acc ← f acc x; foldR f acc l
  end.

Lemma foldR_app {A B} (f : B → A → res B) acc l l' :
  foldR f acc (l ++ l') = (acc ← foldR f acc l; foldR f acc l').
Proof.
  revert acc. induction l as [|x l IH]; intros acc; [done|]. simpl.
  destruct (f acc x); simpl; [apply IH|done].
Qed.

Lemma mjoin_app {A} (l k : list (list A)) : mjoin (l ++ k) = mjoin l ++ mjoin k.
Proof.
  induction l as [|a l IH]; [done|]. by rewrite <-app_comm_cons, !mjoin_cons, IH, app_assoc.
Qed.

(** ** Updating a record

    [x <| f := v |>] is [x] with the field [f] set, [x <| f ::= g |>] with [g]
    applied to it.  A record says how it is put together again from its fields
    ([Rebuild]); the setter of a field is found from that. *)

Class Rebuild (R : Type) := rebuild : R → R.
Class Setter {R E : Type} (getter : R → E) := update : (E → E) → R → R.
Arguments update {R E} getter {_} _ _.

#[global] Hint Extern 1 (@Setter ?R ?E ?g) =>
  (let r := eval cbv beta delta [rebuild] in (@rebuild R _) in
   let r := eval red in r in
   exact (λ (f : E → E) (x : R), ltac:(
     let b := eval cbv beta in (r x) in
     match b with context C [g x] => let b' := context C [f (g x)] in exact b' end))) : typeclass_instances.

Notation "x <| g := v |>" := (update g (λ _, v) x) (at level 1, left associativity, g at level 9, v at level 200).
Notation "x <| g ::= f |>" := (update g f x) (at level 1, left associativity, g at level 9, f at level 200).
