(* ===== verification/JsInt.v ===== *)
(** * Integer operators of the language

    JavaScript's bitwise operators work on 32-bit integers whatever the width
    of their operands ([ToInt32], [ToUint32]); [DataView] reads and writes
    fixed-width integers in either byte order.  This file writes both out over
    [Z] and relates them to plain positional arithmetic: byte [k] of a number,
    the number a byte string spells, and the round trips between the two. *)

From stdpp Require Import base tactics option list numbers.
From Stdlib Require Import ZArith Lia.
From S2P Require Import Prelude.

(** ** 32-bit operators *)

Definition to_uint32 (x : Z) : Z := x mod 2 ^ 32.
Definition to_int32 (x : Z) : Z :=
  let m := x mod 2 ^ 32 in if m <? 2 ^ 31 then m else m - 2 ^ 32.

Definition js_and (a b : Z) : Z := Z.land (to_int32 a) (to_int32 b).
Definition js_or (a b : Z) : Z := Z.lor (to_int32 a) (to_int32 b).
Definition js_xor (a b : Z) : Z := Z.lxor (to_int32 a) (to_int32 b).
Definition js_not (a : Z) : Z := Z.lnot (to_int32 a).
Definition js_shl (a n : Z) : Z := to_int32 (Z.shiftl (to_int32 a) (n mod 32)).
Definition js_shr (a n : Z) : Z := Z.shiftr (to_int32 a) (n mod 32).
Definition js_ushr (a n : Z) : Z := Z.shiftr (to_uint32 a) (n mod 32).

Declare Scope js_scope.
Delimit Scope js_scope with js.
Infix ".<<" := js_shl (at level 53, left associativity) : js_scope.
Infix ".>>" := js_shr (at level 53, left associativity) : js_scope.
Infix ".>>>" := js_ushr (at level 53, left associativity) : js_scope.
Infix ".&" := js_and (at level 54, left associativity) : js_scope.
Infix ".^" := js_xor (at level 56, left associativity) : js_scope.
Infix ".|" := js_or (at level 57, left associativity) : js_scope.

(** ** Positional encodings *)

(** The [n] low bytes of [z], least significant first. *)
Fixpoint le_bytes (n : nat) (z : Z) : bytes :=
  match n with
  | O => []
  | S n => z mod 256 :: le_bytes n (z / 256)
  end.

(** The number a byte string spells, least significant byte first. *)
Fixpoint le_num (bs : bytes) : Z :=
  match bs with
  | [] => 0
  | b :: bs => b + 256 * le_num bs
  end.

Definition be_bytes (n : nat) (z : Z) : bytes := reverse (le_bytes n z).
Definition be_num (bs : bytes) : Z := le_num (reverse bs).

(** [DataView#setBigInt64(_, v, true)] and [getBigInt64(_, true)]. *)
Definition set_int64_le (v : Z) : bytes := le_bytes 8 v.
Definition get_int64_le (bs : bytes) : Z :=
  let u := le_num bs in if u <? 2 ^ 63 then u else u - 2 ^ 64.

(** ** Lemmas *)

Lemma to_uint32_range x : 0 ≤ to_uint32 x < 2 ^ 32.
Proof. apply Z.mod_pos_bound. lia. Qed.

Lemma to_int32_range x : - 2 ^ 31 ≤ to_int32 x < 2 ^ 31.
Proof.
  unfold to_int32. pose proof (Z.mod_pos_bound x (2 ^ 32)).
  case_match; simp_bool; lia.
Qed.

Lemma to_int32_small x : - 2 ^ 31 ≤ x < 2 ^ 31 → to_int32 x = x.
Proof.
  intros. unfold to_int32.
  destruct (Z_lt_ge_dec x 0).
  - rewrite <-(Zmod_unique x (2 ^ 32) (-1) (x + 2 ^ 32)) by lia.
    case_match; simp_bool; lia.
  - rewrite Z.mod_small by lia. case_match; simp_bool; lia.
Qed.

Lemma to_int32_mod x : to_int32 x mod 2 ^ 32 = x mod 2 ^ 32.
Proof.
  unfold to_int32. case_match; [by rewrite Z.mod_mod|].
  replace (x mod 2 ^ 32 - 2 ^ 32) with (x mod 2 ^ 32 + (-1) * 2 ^ 32) by lia.
  by rewrite Z_mod_plus_full, Z.mod_mod.
Qed.

Lemma to_int32_congr x y : x mod 2 ^ 32 = y mod 2 ^ 32 → to_int32 x = to_int32 y.
Proof. unfold to_int32. by intros ->. Qed.

Lemma to_int32_idem x : to_int32 (to_int32 x) = to_int32 x.
Proof. apply to_int32_congr, to_int32_mod. Qed.

Lemma testbit_to_int32 x i : 0 ≤ i < 32 → Z.testbit (to_int32 x) i = Z.testbit x i.
Proof.
  intros. rewrite <-(Z.mod_pow2_bits_low (to_int32 x) 32 i) by lia.
  rewrite to_int32_mod. apply Z.mod_pow2_bits_low. lia.
Qed.

Lemma testbit_to_uint32 x i :
  0 ≤ i → Z.testbit (to_uint32 x) i = (i <? 32) && Z.testbit x i.
Proof.
  intros. unfold to_uint32. destruct (Z.ltb_spec i 32).
  - rewrite Z.mod_pow2_bits_low by lia. done.
  - rewrite Z.mod_pow2_bits_high by lia. done.
Qed.

(** Byte [k/8] of a number, as the encoders extract it. *)
Lemma shr_byte x k : 0 ≤ k ≤ 24 → js_and (js_shr x k) 255 = (x / 2 ^ k) mod 256.
Proof.
  intros. unfold js_and, js_shr. change (to_int32 255) with (Z.ones 8).
  rewrite (Z.mod_small k 32) by lia.
  rewrite (to_int32_small (Z.shiftr _ _)).
  2:{ pose proof (to_int32_range x). rewrite Z.shiftr_div_pow2 by lia.
      assert (0 < 2 ^ k) by (apply Z.pow_pos_nonneg; lia).
      split; [apply Z.div_le_lower_bound; nia|apply Z.div_lt_upper_bound; nia]. }
  change 256 with (2 ^ 8). rewrite <-Z.land_ones by lia.
  rewrite <-(Z.shiftr_div_pow2 x) by lia. apply Z.bits_inj'; intros i Hi.
  rewrite !Z.land_spec, !Z.shiftr_spec by lia.
  destruct (Z.ltb_spec i 8).
  - by rewrite testbit_to_int32 by lia.
  - by rewrite Z.ones_spec_high, !andb_false_r by lia.
Qed.

Lemma and_byte x : js_and x 255 = x mod 256.
Proof.
  rewrite <-(Z.div_1_r x) at 2. change 1 with (2 ^ 0). rewrite <-shr_byte by lia.
  unfold js_shr. rewrite Z.mod_0_l, Z.shiftr_0_r by lia.
  unfold js_and. by rewrite to_int32_idem.
Qed.

Lemma ushr_byte x : js_and (js_ushr x 24) 255 = (x / 2 ^ 24) mod 256.
Proof.
  unfold js_ushr. change (24 mod 32) with 24. unfold to_uint32.
  rewrite Z.shiftr_div_pow2 by lia.
  pose proof (Z.mod_pos_bound x (2 ^ 32) ltac:(lia)).
  assert (x mod 2 ^ 32 / 2 ^ 24 < 2 ^ 8) by (apply Z.div_lt_upper_bound; lia).
  assert (0 ≤ x mod 2 ^ 32 / 2 ^ 24) by (apply Z.div_pos; lia).
  rewrite and_byte, Z.mod_small by lia.
  change (2 ^ 32) with (2 ^ 24 * 2 ^ 8). rewrite Z.rem_mul_r by lia.
  rewrite Z.mul_comm, Z.div_add by lia.
  rewrite Z.div_small by (apply Z.mod_pos_bound; lia). done.
Qed.

Lemma lor_shiftl_add a b k : 0 ≤ k → 0 ≤ a < 2 ^ k → Z.lor a (Z.shiftl b k) = a + b * 2 ^ k.
Proof.
  intros Hk Ha.
  assert (Z.land a (Z.shiftl b k) = 0) as Hd.
  { apply Z.bits_inj'; intros i Hi. rewrite Z.land_spec, Z.bits_0.
    destruct (Z.ltb_spec i k).
    - by rewrite Z.shiftl_spec_low, andb_false_r by lia.
    - rewrite <-(Z.mod_small a (2 ^ k)) by lia. by rewrite Z.mod_pow2_bits_high by lia. }
  rewrite <-Z.lxor_lor, <-Z.add_nocarry_lxor by done.
  by rewrite Z.shiftl_mul_pow2 by lia.
Qed.

Lemma lor_mod a b k : 0 ≤ k → Z.lor a b mod 2 ^ k = Z.lor (a mod 2 ^ k) (b mod 2 ^ k).
Proof. intros. by rewrite <-!Z.land_ones, Z.land_lor_distr_l by lia. Qed.

Lemma js_shl_byte b k :
  is_byte b → k = 8 ∨ k = 16 ∨ k = 24 → js_shl b k mod 2 ^ 32 = Z.shiftl b k.
Proof.
  intros [? ?] Hk. unfold js_shl. rewrite to_int32_mod.
  rewrite (to_int32_small b) by lia. rewrite !Z.shiftl_mul_pow2 by (apply Z.mod_pos_bound||destruct_or!; lia).
  destruct Hk as [-> | [-> | ->] ]; apply Z.mod_small; simpl Z.modulo; simpl Z.pow; lia.
Qed.

Lemma read_uint16 b0 b1 :
  is_byte b0 → is_byte b1 → js_or b0 (js_shl b1 8) = le_num [b0; b1].
Proof.
  intros [? ?] [? ?]. unfold js_or, js_shl. change (8 mod 32) with 8.
  rewrite to_int32_idem, !(to_int32_small b0), !(to_int32_small b1) by lia.
  rewrite to_int32_small by (rewrite Z.shiftl_mul_pow2; lia).
  rewrite lor_shiftl_add by lia. simpl. lia.
Qed.

Lemma read_uint32 b0 b1 b2 b3 :
  is_byte b0 → is_byte b1 → is_byte b2 → is_byte b3 →
  js_ushr (js_or (js_or (js_or b0 (js_shl b1 8)) (js_shl b2 16)) (js_shl b3 24)) 0
  = le_num [b0; b1; b2; b3].
Proof.
  intros H0 H1 H2 H3. unfold js_ushr, to_uint32. change (0 mod 32) with 0.
  rewrite Z.shiftr_0_r. unfold js_or. rewrite !lor_mod, !to_int32_mod by lia.
  rewrite !lor_mod, !to_int32_mod by lia. rewrite !lor_mod, !to_int32_mod by lia.
  rewrite !js_shl_byte by auto. destruct H0, H1, H2, H3.
  rewrite (Z.mod_small b0) by lia.
  rewrite (lor_shiftl_add b0 b1 8) by lia.
  rewrite (lor_shiftl_add _ b2 16) by lia.
  rewrite (lor_shiftl_add _ b3 24) by lia. simpl. lia.
Qed.

Lemma length_le_bytes n z : length (le_bytes n z) = n.
Proof. revert z. induction n; intros z; simpl; auto. Qed.

Lemma le_bytes_bytes n z : is_bytes (le_bytes n z).
Proof.
  revert z. induction n; intros z; simpl; [constructor|].
  constructor; [|apply IHn]. apply Z.mod_pos_bound. lia.
Qed.
#[export] Hint Resolve le_bytes_bytes : bytes.

Lemma le_num_le_bytes n z : le_num (le_bytes n z) = z mod 256 ^ Z.of_nat n.
Proof.
  revert z. induction n as [|n IH]; intros z; [by rewrite Z.mod_1_r|].
  simpl le_bytes. simpl le_num. rewrite IH, Nat2Z.inj_succ, Z.pow_succ_r by lia.
  rewrite Z.rem_mul_r by lia. done.
Qed.

Lemma le_num_range bs : is_bytes bs → 0 ≤ le_num bs < 256 ^ zlen bs.
Proof.
  induction 1 as [|b bs [??] _ IH]; simpl le_num; [done|].
  cbn [length]. rewrite Nat2Z.inj_succ, Z.pow_succ_r by lia. lia.
Qed.

Lemma le_bytes_le_num bs : is_bytes bs → le_bytes (length bs) (le_num bs) = bs.
Proof.
  induction 1 as [|b bs [??] Hbs IH]; [done|]. simpl.
  replace (b + 256 * le_num bs) with (b + le_num bs * 256) by lia.
  rewrite Z_mod_plus_full, Z.mod_small, Z.div_add, Z.div_small by lia. by f_equal.
Qed.

Lemma le_num_app bs bs' : le_num (bs ++ bs') = le_num bs + 256 ^ zlen bs * le_num bs'.
Proof.
  induction bs as [|b bs IH]; cbn [app le_num length].
  - rewrite Z.pow_0_r. lia.
  - rewrite IH, Nat2Z.inj_succ, Z.pow_succ_r by lia. ring.
Qed.

Lemma le_num_inj bs bs' :
  is_bytes bs → is_bytes bs' → length bs = length bs' → le_num bs = le_num bs' → bs = bs'.
Proof.
  intros Hb Hb' Hl Hn. rewrite <-(le_bytes_le_num bs), <-(le_bytes_le_num bs') by done.
  congruence.
Qed.

Lemma length_be_bytes n z : length (be_bytes n z) = n.
Proof. unfold be_bytes. by rewrite length_reverse, length_le_bytes. Qed.

Lemma be_bytes_bytes n z : is_bytes (be_bytes n z).
Proof. apply is_bytes_rev, le_bytes_bytes. Qed.
#[export] Hint Resolve be_bytes_bytes : bytes.

Lemma be_num_be_bytes n z : be_num (be_bytes n z) = z mod 256 ^ Z.of_nat n.
Proof. unfold be_num, be_bytes. by rewrite reverse_involutive, le_num_le_bytes. Qed.

Lemma be_bytes_be_num bs : is_bytes bs → be_bytes (length bs) (be_num bs) = bs.
Proof.
  intros. unfold be_bytes, be_num. rewrite <-(length_reverse bs).
  rewrite le_bytes_le_num by auto with bytes. apply reverse_involutive.
Qed.

Lemma be_num_range bs : is_bytes bs → 0 ≤ be_num bs < 256 ^ zlen bs.
Proof.
  intros. unfold be_num. rewrite <-(length_reverse bs).
  apply le_num_range. auto with bytes.
Qed.

Lemma be_num_snoc bs b : be_num (bs ++ [b]) = 256 * be_num bs + b.
Proof. unfold be_num. rewrite reverse_snoc. simpl. lia. Qed.

(** [(n << 8n) | BigInt(b)], the step of the big-endian readers. *)
Lemma be_step n b : 0 ≤ n → is_byte b → Z.lor (Z.shiftl n 8) b = 256 * n + b.
Proof.
  intros ? [? ?]. rewrite Z.lor_comm, lor_shiftl_add by lia. lia.
Qed.

Lemma get_set_int64_le v : - 2 ^ 63 ≤ v < 2 ^ 63 → get_int64_le (set_int64_le v) = v.
Proof.
  intros. unfold get_int64_le, set_int64_le. rewrite le_num_le_bytes.
  change (256 ^ Z.of_nat 8) with (2 ^ 64).
  destruct (Z_lt_ge_dec v 0).
  - rewrite <-(Zmod_unique v (2 ^ 64) (-1) (v + 2 ^ 64)) by lia. case_match; simp_bool; lia.
  - rewrite Z.mod_small by lia. case_match; simp_bool; lia.
Qed.

Lemma set_get_int64_le bs :
  is_bytes bs → length bs = 8%nat → set_int64_le (get_int64_le bs) = bs.
Proof.
  intros Hb Hl. unfold set_int64_le.
  apply le_num_inj; [auto with bytes|done|by rewrite length_le_bytes|].
  pose proof (le_num_range bs Hb) as Hr. rewrite Hl in Hr.
  change (256 ^ Z.of_nat 8) with (2 ^ 64) in Hr.
  rewrite le_num_le_bytes. change (256 ^ Z.of_nat 8) with (2 ^ 64).
  unfold get_int64_le. case_match; simp_bool.
  - apply Z.mod_small. lia.
  - symmetry. apply Z.mod_unique_pos with (-1); lia.
Qed.

(** A decidable property of bytes, checked on all of them. *)
Lemma byte_forall (P : Z → bool) b :
  forallb P (seqZ 0 256) = true → is_byte b → P b = true.
Proof.
  intros H [??]. rewrite forallb_forall in H. apply H, list_elem_of_In, elem_of_seqZ. lia.
Qed.

(** The sign bit of a byte, and the rest of it. *)
Lemma and_0x80 b : is_byte b → (js_and b 0x80 =? 0) = (b <? 128).
Proof.
  intros Hb. apply Bool.eqb_prop.
  by apply (byte_forall (λ b, Bool.eqb (js_and b 0x80 =? 0) (b <? 128))).
Qed.

Lemma and_0x7f b : is_byte b → js_and b 0x7f = b mod 128.
Proof.
  intros Hb. apply Z.eqb_eq.
  by apply (byte_forall (λ b, js_and b 0x7f =? b mod 128)).
Qed.
