(* ===== verification/JsStr.v ===== *)
(** * Strings of the language

    A JavaScript string is a [string] whose characters are its code units.
    [ascii] holds the code units below 256, so the development covers the
    Latin-1 range; what the sources do with text outside it is the same as with
    any other character they do not accept.

    The functions here are the ones the sources call: [trim], [toLowerCase],
    [toUpperCase], [indexOf], [repeat], [padStart], [parseInt(_, 16)],
    [toString(16)], [TextEncoder#encode], [JSON.stringify] of a string, and the
    decimal digits a template literal prints for an integer.  The lemmas are
    about hexadecimal: printing and parsing bytes are inverse, and a hex string
    that parses to given bytes is unique up to letter case. *)

From stdpp Require Import base tactics option list numbers strings pretty.
From Stdlib Require Import ZArith Lia Ascii.
From S2P Require Import Prelude JsInt.

Definition chars (s : string) : list ascii := String.list_ascii_of_string s.
Definition str_of (l : list ascii) : string := String.string_of_list_ascii l.
Definition code (c : ascii) : Z := Z.of_nat (nat_of_ascii c).
Definition chr (z : Z) : ascii := ascii_of_nat (Z.to_nat z).

Definition slen (s : string) : Z := zlen (chars s).

Definition str_eqb (s t : string) : bool := String.eqb s t.

(** [s.repeat(n)] for a one-character [s]. *)
Definition repeat_char (c : ascii) (n : nat) : string := str_of (replicate n c).

(** [s.padStart(n, c)] for a one-character [c]. *)
Definition padStart (s : string) (n : nat) (c : ascii) : string :=
  repeat_char c (n - length (chars s)) +:+ s.

(** [s.indexOf(c)] for a one-character [c]; [-1] when it does not occur. *)
Fixpoint index_from (i : Z) (c : ascii) (l : list ascii) : Z :=
  match l with
  | [] => -1
  | d :: l => if Ascii.eqb c d then i else index_from (i + 1) c l
  end.
Definition indexOf (s : string) (c : ascii) : Z := index_from 0 c (chars s).

(** ** White space and case *)

(** [StrWhiteSpaceChar], in the Latin-1 range. *)
Definition is_space (c : ascii) : bool :=
  let n := code c in ((9 <=? n) && (n <=? 13)) || (n =? 32) || (n =? 160).

Fixpoint trim_start (l : list ascii) : list ascii :=
  match l with
  | c :: l' => if is_space c then trim_start l' else l
  | [] => []
  end.
Definition trim (s : string) : string :=
  str_of (reverse (trim_start (reverse (trim_start (chars s))))).

Definition lower (c : ascii) : ascii :=
  let n := code c in
  if ((65 <=? n) && (n <=? 90)) || ((192 <=? n) && (n <=? 222) && negb (n =? 215))
  then chr (n + 32) else c.
Definition toLowerCase (s : string) : string := str_of (map lower (chars s)).

(** The upper case of U+00DF is two characters; U+00B5 and U+00FF have theirs
    outside Latin-1 and are left as they are, as characters that are neither
    digits nor ASCII letters. *)
Definition upper (c : ascii) : list ascii :=
  let n := code c in
  if n =? 223 then [chr 83; chr 83]
  else if ((97 <=? n) && (n <=? 122)) || ((224 <=? n) && (n <=? 254) && negb (n =? 247))
  then [chr (n - 32)] else [c].
Definition toUpperCase (s : string) : string := str_of (mjoin (map upper (chars s))).

(** ** Hexadecimal *)

(** The digit [c] stands for in base 16. *)
Definition hexval (c : ascii) : option Z :=
  let n := code c in
  if (48 <=? n) && (n <=? 57) then Some (n - 48)
  else if (97 <=? n) && (n <=? 102) then Some (n - 87)
  else if (65 <=? n) && (n <=? 70) then Some (n - 55)
  else None.

Definition hexdigit (d : Z) : ascii := if d <? 10 then chr (48 + d) else chr (87 + d).

(** The longest prefix of hexadecimal digits, [None] when it is empty. *)
Fixpoint hex_prefix (acc : option Z) (l : list ascii) : option Z :=
  match l with
  | c :: l => match hexval c with
              | Some d => hex_prefix (Some (16 * default 0 acc + d)) l
              | None => acc
              end
  | [] => acc
  end.

(** [parseInt(s, 16)]; [None] is NaN. *)
Definition parseInt16 (s : list ascii) : option Z :=
  let s := trim_start s in
  let '(neg, s) :=
    match s with
    | "-"%char :: t => (true, t)
    | "+"%char :: t => (false, t)
    | _ => (false, s)
    end in
  let s := match s with
           | "0"%char :: "x"%char :: t | "0"%char :: "X"%char :: t => t
           | _ => s
           end in
  option_map (λ n, if neg then - n else n) (hex_prefix None s).

(** [n.toString(16)] for a byte. *)
Definition byte_toString16 (b : Z) : string :=
  if b <? 16 then str_of [hexdigit b] else str_of [hexdigit (b / 16); hexdigit (b mod 16)].

(** [/^[0-9a-f]{n}$/.test(s)]. *)
Definition is_lower_hex_char (c : ascii) : bool :=
  let n := code c in ((48 <=? n) && (n <=? 57)) || ((97 <=? n) && (n <=? 102)).
Definition is_lower_hex (s : string) : bool := forallb is_lower_hex_char (chars s).

(** [/^[0-9a-fA-F]*$/.test(s)]. *)
Definition is_hex (s : string) : bool := forallb (λ c, bool_decide (is_Some (hexval c))) (chars s).

(** ** Encodings *)

(** [new TextEncoder().encode(s)]: UTF-8 of code points below 256. *)
Definition utf8_char (c : ascii) : bytes :=
  let n := code c in
  if n <? 128 then [n] else [192 + n / 64; 128 + n mod 64].
Definition utf8 (s : string) : bytes := mjoin (map utf8_char (chars s)).

Definition quote : string := str_of [chr 34].
Definition backslash : string := str_of [chr 92].

Definition json_char (c : ascii) : string :=
  let n := code c in
  if n =? 34 then backslash +:+ quote
  else if n =? 92 then backslash +:+ backslash
  else if n =? 8 then backslash +:+ "b"
  else if n =? 9 then backslash +:+ "t"
  else if n =? 10 then backslash +:+ "n"
  else if n =? 12 then backslash +:+ "f"
  else if n =? 13 then backslash +:+ "r"
  else if n <? 32 then backslash +:+ "u00" +:+ padStart (byte_toString16 n) 2 "0"%char
  else str_of [c].

(** [JSON.stringify(s)] of a string. *)
Definition json_string (s : string) : string :=
  quote +:+ foldr (λ c t, json_char c +:+ t) EmptyString (chars s) +:+ quote.

(** [`${n}`] of an integer. *)
Definition dec (n : Z) : string := pretty n.

(** ** Lemmas *)

Lemma str_of_chars s : str_of (chars s) = s.
Proof. apply String.string_of_list_ascii_of_string. Qed.
Lemma chars_str_of l : chars (str_of l) = l.
Proof. apply String.list_ascii_of_string_of_list_ascii. Qed.

Lemma chars_inj s t : chars s = chars t → s = t.
Proof. intros H. by rewrite <-(str_of_chars s), <-(str_of_chars t), H. Qed.

Lemma chars_app s t : chars (s +:+ t) = chars s ++ chars t.
Proof. induction s; simpl; [done|]. by f_equal. Qed.

Lemma str_of_app l k : str_of (l ++ k) = str_of l +:+ str_of k.
Proof. apply chars_inj. by rewrite chars_app, !chars_str_of. Qed.

Lemma str_eqb_eq s t : str_eqb s t = true ↔ s = t.
Proof. apply String.eqb_eq. Qed.

Lemma code_range c : 0 ≤ code c < 256.
Proof. unfold code. pose proof (nat_ascii_bounded c). lia. Qed.

Lemma code_chr z : 0 ≤ z < 256 → code (chr z) = z.
Proof. intros. unfold code, chr. rewrite nat_ascii_embedding; lia. Qed.

Lemma chr_code c : chr (code c) = c.
Proof. unfold code, chr. rewrite Nat2Z.id. apply ascii_nat_embedding. Qed.

Lemma code_inj c d : code c = code d → c = d.
Proof. intros H. by rewrite <-(chr_code c), <-(chr_code d), H. Qed.

Lemma code_hexdigit d : 0 ≤ d < 16 → code (hexdigit d) = if d <? 10 then 48 + d else 87 + d.
Proof. intros. unfold hexdigit. case_match; simp_bool; rewrite code_chr; lia. Qed.

Lemma hexval_hexdigit d : 0 ≤ d < 16 → hexval (hexdigit d) = Some d.
Proof.
  intros. unfold hexval. rewrite code_hexdigit by done.
  destruct (Z.ltb_spec d 10).
  - rewrite (proj2 (Z.leb_le 48 _)), (proj2 (Z.leb_le _ 57)) by lia. simpl. f_equal. lia.
  - rewrite (proj2 (Z.leb_gt _ 57)), andb_false_r by lia.
    rewrite (proj2 (Z.leb_le 97 _)), (proj2 (Z.leb_le _ 102)) by lia. simpl. f_equal. lia.
Qed.

Lemma hexval_range c d : hexval c = Some d → 0 ≤ d < 16.
Proof. unfold hexval. repeat case_match; intros; simplify_eq; simp_bool; lia. Qed.

(** A character that is a hexadecimal digit is neither white space nor a sign. *)
Lemma hexval_class c d :
  hexval c = Some d → is_space c = false ∧ c ≠ "-"%char ∧ c ≠ "+"%char.
Proof.
  intros H. assert (48 ≤ code c ≤ 102) as Hc.
  { unfold hexval in H. repeat case_match; simplify_eq; simp_bool; lia. }
  split_and!.
  - unfold is_space. rewrite (proj2 (Z.leb_gt _ 13)), andb_false_r by lia.
    rewrite (proj2 (Z.eqb_neq _ 32)) by lia. simpl.
    apply Z.eqb_neq. lia.
  - intros ->. change (code "-") with 45 in Hc. lia.
  - intros ->. change (code "+") with 43 in Hc. lia.
Qed.

Lemma hexval_x c d : hexval c = Some d → c ≠ "x"%char ∧ c ≠ "X"%char.
Proof. by intros H; split; intros ->. Qed.

(** Two hexadecimal digits read as the number they spell. *)
Lemma parseInt16_pair c1 c2 d1 d2 :
  hexval c1 = Some d1 → hexval c2 = Some d2 → parseInt16 [c1; c2] = Some (16 * d1 + d2).
Proof.
  intros H1 H2. destruct (hexval_class _ _ H1) as (Hs & Hm & Hp).
  destruct (hexval_x _ _ H2) as [Hx HX].
  unfold parseInt16. cbn [trim_start]. rewrite Hs.
  replace (match [c1; c2] with
    | "-"%char :: t => (true, t) | "+"%char :: t => (false, t) | _ => (false, [c1; c2]) end)
    with (false, [c1; c2]) by (repeat case_match; naive_solver).
  replace (match [c1; c2] with
    | "0"%char :: "x"%char :: t | "0"%char :: "X"%char :: t => t | _ => [c1; c2] end)
    with [c1; c2] by (repeat case_match; naive_solver).
  cbn [hex_prefix]. rewrite H1. cbn [hex_prefix]. rewrite H2. done.
Qed.

Lemma is_hex_spec s : is_hex s = true ↔ Forall (λ c, is_Some (hexval c)) (chars s).
Proof.
  unfold is_hex. rewrite forallb_forall, Forall_forall.
  setoid_rewrite bool_decide_eq_true. split; intros H x Hx; apply H; by apply list_elem_of_In.
Qed.

Lemma padStart_byte b :
  is_byte b →
  padStart (byte_toString16 b) 2 "0"%char = str_of [hexdigit (b / 16); hexdigit (b mod 16)].
Proof.
  intros [??]. unfold byte_toString16. destruct (Z.ltb_spec b 16).
  - by rewrite Z.div_small, Z.mod_small by lia.
  - done.
Qed.

Lemma utf8_ascii s :
  Forall (λ c, code c < 128) (chars s) → utf8 s = map code (chars s).
Proof.
  unfold utf8. induction 1 as [|c l Hc Hl IH]; [done|].
  rewrite !map_cons, mjoin_cons, IH. unfold utf8_char.
  by rewrite (proj2 (Z.ltb_lt _ _)) by done.
Qed.

Lemma utf8_bytes s : is_bytes (utf8 s).
Proof.
  unfold utf8. induction (chars s) as [|c l IH]; [constructor|].
  rewrite map_cons, mjoin_cons. apply is_bytes_app_2; [|done].
  unfold utf8_char. pose proof (code_range c).
  pose proof (Z.mod_pos_bound (code c) 64 ltac:(lia)).
  assert (code c / 64 < 4) by (apply Z.div_lt_upper_bound; lia).
  assert (0 ≤ code c / 64) by (apply Z.div_pos; lia).
  case_match; simp_bool; repeat (constructor; [split; lia|]); constructor.
Qed.
#[export] Hint Resolve utf8_bytes : bytes.

(** UTF-8 is a prefix code, so an encoding determines the string. *)
Lemma utf8_char_inj c d x y : utf8_char c ++ x = utf8_char d ++ y → c = d ∧ x = y.
Proof.
  unfold utf8_char. intros H. pose proof (code_range c). pose proof (code_range d).
  assert (code c = code d ∧ x = y) as [E ->]; [|split; [by apply code_inj|done]].
  assert (0 ≤ code c / 64) by (apply Z.div_pos; lia).
  assert (0 ≤ code d / 64) by (apply Z.div_pos; lia).
  pose proof (Z.div_mod (code c) 64 ltac:(lia)). pose proof (Z.div_mod (code d) 64 ltac:(lia)).
  destruct (Z.ltb_spec (code c) 128), (Z.ltb_spec (code d) 128); cbn [app] in H; injection H; intros; subst;
    split; try done; lia.
Qed.

#[export] Instance utf8_inj : Inj (=) (=) utf8.
Proof.
  intros s t H. apply chars_inj. unfold utf8 in H. revert H.
  generalize (chars s) as l, (chars t) as k. clear s t.
  assert (∀ c, utf8_char c ≠ []) as Hne by (intros c; unfold utf8_char; by case_match).
  induction l as [|c l IH]; intros [|d k] H; [done|..].
  - rewrite map_cons, mjoin_cons in H. cbn in H. symmetry in H. by apply app_eq_nil in H as [?%Hne _].
  - rewrite map_cons, mjoin_cons in H. cbn in H. by apply app_eq_nil in H as [?%Hne _].
  - rewrite !map_cons, !mjoin_cons in H. apply utf8_char_inj in H as [-> H]. f_equal. by apply IH.
Qed.

(** Decimal numerals are digits, after an optional sign. *)
Definition is_decimal (c : ascii) : Prop := 48 ≤ code c ≤ 57.

Lemma pretty_N_go_digits n s :
  Forall is_decimal (chars s) → Forall is_decimal (chars (pretty_N_go n s)).
Proof.
  revert s. induction (N.lt_wf_0 n) as [n _ IH]; intros s Hs.
  destruct (decide (n = 0%N)) as [->|]; [by rewrite pretty_N_go_0|].
  rewrite pretty_N_go_step by lia. apply IH; [apply N.div_lt; lia|].
  constructor; [|done]. unfold is_decimal, pretty_N_char. by repeat case_match.
Qed.

Lemma dec_digits n : 0 ≤ n → Forall is_decimal (chars (dec n)).
Proof.
  intros Hn. destruct n as [|p|p]; [by repeat constructor| |lia].
  apply (pretty_N_go_digits (Npos p) EmptyString). constructor.
Qed.

#[export] Instance dec_inj : Inj (=) (=) dec.
Proof. intros n m. apply (inj pretty). Qed.

(** The text before the first occurrence of a separator is determined. *)
Lemma split_at_inj {A} (c : A) l l' k k' :
  c ∉ l → c ∉ l' → l ++ c :: k = l' ++ c :: k' → l = l' ∧ k = k'.
Proof.
  revert l'. induction l as [|a l IH]; intros [|b l'] Hl Hl' E; cbn [app] in E.
  - by injection E.
  - injection E as -> _. destruct Hl'. apply list_elem_of_here.
  - injection E as <- _. destruct Hl. apply list_elem_of_here.
  - injection E as <- E. apply not_elem_of_cons in Hl as [_ Hl], Hl' as [_ Hl'].
    by destruct (IH l' Hl Hl' E) as [-> ->].
Qed.
