(* ===== verification/JsNum.v ===== *)
(** * Numbers of the language

    A JavaScript number is an IEEE 754 binary64 value.  A finite one is kept as
    an integer over a power of two in lowest terms, so equal numbers are equal
    terms; the two zeros are one, since nothing in the sources divides by an
    amount.  Every operation is computed exactly over the integers and then
    rounded by [rnd]: to nearest, ties to even, 53 significant bits, subnormals
    and overflow included.

    Satoshi amounts are integers below 2^53, where the operations are exact:
    the [int_*] lemmas say so and the [num] rewrite database applies them, so
    that a theorem about amounts is a theorem about [Z] once its magnitudes are
    known to be safe.  [ceil_div_1000] is the one place where the sources leave
    the integers and come back: the fee [Math.ceil(size * rate / 1000)]. *)

From stdpp Require Import base tactics option list numbers strings pretty.
From Stdlib Require Import ZArith Lia Ascii.
From S2P Require Import Prelude JsInt JsStr.

Inductive Number :=
| NaN
| Inf (neg : bool)
| Fin (m k : Z).  (** m / 2^k, with k = 0 or m odd *)

#[global] Instance Number_eq_dec : EqDecision Number.
Proof. solve_decision. Defined.

Abbreviation Int z := (Fin z 0).

(** ** Rounding *)

(** [n / 2^k] in lowest terms. *)
Fixpoint strip (k : nat) (n : Z) : Number :=
  match k with
  | O => Fin n 0
  | S k' => if Z.even n then strip k' (Z.div2 n) else Fin n (Z.of_nat k)
  end.

(** The integer nearest to [a / d], ties to even. *)
Definition rne (a d : Z) : Z :=
  let q := a / d in
  let r := a mod d in
  if 2 * r <? d then q
  else if d <? 2 * r then q + 1
  else if Z.even q then q else q + 1.

(** The number nearest to [num / den], for [0 < den].  An integer of at most
    53 bits is a number.  Otherwise the scale is the smallest subnormal,
    2^-1074, and [P] is how many low bits of the scaled quotient do not fit in
    53. *)
Definition rnd (num den : Z) : Number :=
  if (den =? 1) && (Z.abs num <=? 2 ^ 53) then Int num else
  let A := Z.abs num * 2 ^ 1074 in
  let P := Z.max 0 (Z.log2 (A / den) - 52) in
  let N := rne A (den * 2 ^ P) * 2 ^ P in
  if 2 ^ 2098 <=? N then Inf (num <? 0)
  else strip 1074 (if num <? 0 then - N else N).

(** ** Arithmetic *)

Definition num_neg (a : Number) : Number :=
  match a with NaN => NaN | Inf s => Inf (negb s) | Fin m k => Fin (- m) k end.

Definition num_add (a b : Number) : Number :=
  match a, b with
  | Fin m k, Fin m' k' => rnd (m * 2 ^ k' + m' * 2 ^ k) (2 ^ (k + k'))
  | NaN, _ | _, NaN => NaN
  | Inf s, Inf s' => if Bool.eqb s s' then Inf s else NaN
  | Inf s, _ | _, Inf s => Inf s
  end.

Definition num_sub (a b : Number) : Number := num_add a (num_neg b).

Definition num_mul (a b : Number) : Number :=
  match a, b with
  | Fin m k, Fin m' k' => rnd (m * m') (2 ^ (k + k'))
  | NaN, _ | _, NaN => NaN
  | Inf s, Inf s' => Inf (xorb s s')
  | Inf s, Fin m _ | Fin m _, Inf s => if m =? 0 then NaN else Inf (xorb s (m <? 0))
  end.

Definition num_div (a b : Number) : Number :=
  match a, b with
  | Fin m k, Fin m' k' =>
      if m' =? 0 then (if m =? 0 then NaN else Inf (m <? 0))
      else rnd (m * 2 ^ k' * Z.sgn m') (Z.abs m' * 2 ^ k)
  | NaN, _ | _, NaN => NaN
  | Inf s, Inf s' => NaN
  | Inf s, Fin m _ => Inf (xorb s (m <? 0))
  | Fin _ _, Inf _ => Int 0
  end.

(** [a < b]; false when either is NaN. *)
Definition num_ltb (a b : Number) : bool :=
  match a, b with
  | NaN, _ | _, NaN => false
  | Fin m k, Fin m' k' => m * 2 ^ k' <? m' * 2 ^ k
  | Inf s, Inf s' => s && negb s'
  | Inf s, Fin _ _ => s
  | Fin _ _, Inf s => negb s
  end.

(** [a === b]. *)
Definition num_eqb (a b : Number) : bool :=
  match a with NaN => false | _ => bool_decide (a = b) end.

Definition num_leb (a b : Number) : bool := num_ltb a b || num_eqb a b.

Definition num_ceil (a : Number) : Number :=
  match a with Fin m k => Int (- (- m / 2 ^ k)) | _ => a end.

Definition num_floor (a : Number) : Number :=
  match a with Fin m k => Int (m / 2 ^ k) | _ => a end.

Definition num_max (a b : Number) : Number :=
  match a, b with
  | NaN, _ | _, NaN => NaN
  | _, _ => if num_ltb a b then b else a
  end.

(** [Number.isInteger], [Number.isSafeInteger], [Number.isFinite]. *)
Definition isInteger (a : Number) : bool :=
  match a with Fin _ k => k =? 0 | _ => false end.
Definition MAX_SAFE_INTEGER : Z := 2 ^ 53 - 1.
Definition isSafeInteger (a : Number) : bool :=
  match a with Fin m k => (k =? 0) && (Z.abs m <=? MAX_SAFE_INTEGER) | _ => false end.
Definition isFinite (a : Number) : bool :=
  match a with Fin _ _ => true | _ => false end.

(** The condition a number is in a test. *)
Definition num_truthy (a : Number) : bool :=
  match a with NaN => false | Inf _ => true | Fin m _ => negb (m =? 0) end.

(** [Number(z)] of a BigInt. *)
Definition of_bigint (z : Z) : Number := rnd z 1.

Declare Scope num_scope.
Delimit Scope num_scope with num.
Bind Scope num_scope with Number.
Infix "+" := num_add : num_scope.
Infix "-" := num_sub : num_scope.
Infix "*" := num_mul : num_scope.
Infix "/" := num_div : num_scope.
Infix "<?" := num_ltb : num_scope.
Infix "<=?" := num_leb : num_scope.
Infix "=?" := num_eqb : num_scope.
Notation "x >? y" := (num_ltb y x) : num_scope.
Notation "x >=? y" := (num_leb y x) : num_scope.

(** ** Printing

    [Number::toString]: the fewest decimal digits that read back as the
    number, closest first, laid out by the language's rules. *)

(** The decimal digits of a natural number and their count. *)
Definition ndigits (s : Z) : Z := slen (dec s).

(** [s * 10^e] as a number. *)
Definition dec_value (s e : Z) : Number :=
  if 0 <=? e then rnd (s * 10 ^ e) 1 else rnd s (10 ^ (- e)).

(** The position of the decimal point of [a / d]: 10^(n-1) <= a/d < 10^n. *)
Fixpoint scan_point (fuel : nat) (n a d : Z) : Z :=
  match fuel with
  | O => n
  | S fuel =>
      if (if 0 <=? n then d * 10 ^ n <=? a else d <=? a * 10 ^ (- n)) then scan_point fuel (n + 1) a d
      else n
  end.

(** The closest [k]-digit decimal that reads back as [x], if there is one. *)
Definition shortest_at (x : Number) (a d n k : Z) : option Z :=
  let e := n - k in
  let '(a', d') := if 0 <=? e then (a, d * 10 ^ e) else (a * 10 ^ (- e), d) in
  let lo := a' / d' in
  let near := if d' <? 2 * (a' mod d') then [lo + 1; lo] else [lo; lo + 1] in
  find (λ s, bool_decide (dec_value s e = x)) near.

Fixpoint shortest (fuel : nat) (x : Number) (a d n k : Z) : Z * Z :=
  match fuel with
  | O => (a / d, k)
  | S fuel =>
      match shortest_at x a d n k with
      | Some s => (s, k)
      | None => shortest fuel x a d n (k + 1)
      end
  end.

Definition zeros (n : Z) : string := repeat_char "0"%char (Z.to_nat n).

Definition take_str (n : Z) (s : string) : string := str_of (take (Z.to_nat n) (chars s)).
Definition drop_str (n : Z) (s : string) : string := str_of (drop (Z.to_nat n) (chars s)).

(** The layout rules, for a significand [s] of [k] digits and point [n]. *)
Definition layout (s : string) (k n : Z) : string :=
  if (k <=? n) && (n <=? 21) then s +:+ zeros (n - k)
  else if (0 <? n) && (n <=? 21) then take_str n s +:+ "." +:+ drop_str n s
  else if (-6 <? n) && (n <=? 0) then "0." +:+ zeros (- n) +:+ s
  else
    let e := n - 1 in
    let es := (if e <? 0 then "-" else "+") +:+ dec (Z.abs e) in
    if k =? 1 then s +:+ "e" +:+ es
    else take_str 1 s +:+ "." +:+ drop_str 1 s +:+ "e" +:+ es.

Definition pos_str (m k : Z) : string :=
  let d := 2 ^ k in
  let n := scan_point 700 (-330) m d in
  let '(s, digits) := shortest 17 (Fin m k) m d n 1 in
  layout (dec s) digits n.

Definition num_str (a : Number) : string :=
  match a with
  | NaN => "NaN"
  | Inf false => "Infinity"
  | Inf true => "-Infinity"
  | Fin m k =>
      if (k =? 0) && (Z.abs m <? 10 ^ 16) then dec m
      else if m <? 0 then "-" +:+ pos_str (- m) k else pos_str m k
  end.

(** ** BigInt(n) *)

Definition to_bigint (a : Number) : res Z :=
  match a with
  | Fin m 0 => Ok m
  | _ => Throw ("The number " +:+ num_str a
                +:+ " cannot be converted to a BigInt because it is not an integer")
  end.

(** ** Lemmas *)

Lemma div2_double n : Z.div2 (2 * n) = n.
Proof. by destruct n. Qed.

Lemma strip_mul k z : strip k (z * 2 ^ Z.of_nat k) = Int z.
Proof.
  revert z. induction k as [|k IH]; intros z; [by rewrite Z.mul_1_r|].
  cbn [strip]. rewrite Nat2Z.inj_succ, Z.pow_succ_r by lia.
  replace (z * (2 * 2 ^ Z.of_nat k)) with (2 * (z * 2 ^ Z.of_nat k)) by lia.
  rewrite Z.even_mul. simpl orb. cbn iota. rewrite div2_double. apply IH.
Qed.

Lemma ceil_strip k n : num_ceil (strip k n) = Int (- (- n / 2 ^ Z.of_nat k)).
Proof.
  revert n. induction k as [|k IH]; intros n; [done|]. cbn [strip].
  destruct (Z.even n) eqn:E; [|done]. rewrite IH.
  apply Z.even_spec in E as [m ->]. rewrite div2_double.
  rewrite Nat2Z.inj_succ, Z.pow_succ_r by lia.
  replace (- (2 * m)) with (2 * - m) by lia.
  by rewrite Z.div_mul_cancel_l by lia.
Qed.

Lemma rne_exact q d : 0 < d → rne (q * d) d = q.
Proof.
  intros. unfold rne. rewrite Z.div_mul, Z.mod_mul by lia.
  destruct (Z.ltb_spec (2 * 0) d); [done|lia].
Qed.

(** The rounding is off by at most half a unit. *)
Lemma rne_error a d : 0 < d → 2 * Z.abs (rne a d * d - a) ≤ d.
Proof.
  intros Hd. unfold rne. pose proof (Z.div_mod a d ltac:(lia)).
  pose proof (Z.mod_pos_bound a d Hd).
  destruct (Z.ltb_spec (2 * (a mod d)) d); [lia|].
  destruct (Z.ltb_spec d (2 * (a mod d))); [lia|]. destruct (Z.even _); lia.
Qed.

(** A quotient that is an integer of at most 53 bits is exact. *)
Lemma rnd_exact z d : 0 < d → Z.abs z ≤ 2 ^ 53 → rnd (z * d) d = Int z.
Proof.
  intros Hd Hz. unfold rnd. case_match.
  { simp_bool. subst. by rewrite Z.mul_1_r. }
  rewrite Z.abs_mul, (Z.abs_eq d) by lia.
  replace (Z.abs z * d * 2 ^ 1074) with (Z.abs z * 2 ^ 1074 * d) by lia.
  rewrite Z.div_mul by lia.
  destruct (decide (z = 0)) as [->|Hz0].
  { simpl Z.abs. rewrite Z.mul_0_l. change (Z.log2 0) with 0. change (Z.max 0 (0 - 52)) with 0.
    rewrite Z.pow_0_r, !Z.mul_1_r, !Z.mul_0_l.
    rewrite (rne_exact 0 d Hd : rne 0 d = 0). apply (strip_mul 1074 0). }
  rewrite Z.log2_mul_pow2 by lia.
  set (L := Z.log2 (Z.abs z)).
  assert (0 ≤ L) by apply Z.log2_nonneg.
  assert (L ≤ 53) by (change 53 with (Z.log2 (2 ^ 53)); by apply Z.log2_le_mono).
  replace (Z.max 0 (1074 + L - 52)) with (1022 + L) by lia.
  assert (∃ q, Z.abs z * 2 ^ 1074 = q * 2 ^ (1022 + L)) as [q Hq].
  { destruct (decide (L = 53)) as [HL|].
    - exists (2 ^ 52). rewrite HL, <-Z.pow_add_r by lia.
      assert (Z.abs z = 2 ^ 53) as ->.
      { pose proof (Z.log2_spec (Z.abs z) ltac:(lia)) as Hl.
        fold L in Hl. rewrite HL in Hl. lia. }
      by rewrite <-Z.pow_add_r.
    - exists (Z.abs z * 2 ^ (52 - L)). rewrite <-Z.mul_assoc, <-Z.pow_add_r by lia.
      do 2 f_equal. lia. }
  replace (Z.abs z * 2 ^ 1074 * d) with (q * (d * 2 ^ (1022 + L))) by lia.
  rewrite rne_exact by (apply Z.mul_pos_pos; [done|apply Z.pow_pos_nonneg; lia]).
  rewrite <-Hq. rewrite (proj2 (Z.leb_gt _ _)).
  2:{ change (2 ^ 2098) with (2 ^ 1024 * 2 ^ 1074). apply Z.mul_lt_mono_pos_r; [done|].
      eapply Z.le_lt_trans; [apply Hz|]. by vm_compute. }
  assert ((z * d <? 0) = (z <? 0)) as ->.
  { destruct (Z.ltb_spec z 0); [apply Z.ltb_lt|apply Z.ltb_ge]; nia. }
  destruct (Z.ltb_spec z 0).
  - replace (- (Z.abs z * 2 ^ 1074)) with (z * 2 ^ 1074) by lia. apply (strip_mul 1074 z).
  - replace (Z.abs z) with z by lia. apply (strip_mul 1074 z).
Qed.

(** ** Safe integers *)

Create Rewrite HintDb num.

Lemma int_add a b : Z.abs (a + b) ≤ 2 ^ 53 → num_add (Int a) (Int b) = Int (a + b).
Proof.
  intros. cbn [num_add]. rewrite Z.pow_0_r, !Z.mul_1_r.
  rewrite <-(Z.mul_1_r (a + b)) at 1. by apply (rnd_exact _ 1).
Qed.

Lemma int_sub a b : Z.abs (a - b) ≤ 2 ^ 53 → num_sub (Int a) (Int b) = Int (a - b).
Proof. apply (int_add a (- b)). Qed.

Lemma int_mul a b : Z.abs (a * b) ≤ 2 ^ 53 → num_mul (Int a) (Int b) = Int (a * b).
Proof.
  intros. cbn [num_mul]. rewrite <-(Z.mul_1_r (a * b)) at 1. by apply (rnd_exact _ 1).
Qed.

Lemma int_ltb a b : num_ltb (Int a) (Int b) = (a <? b).
Proof. cbn [num_ltb]. by rewrite Z.pow_0_r, !Z.mul_1_r. Qed.

Lemma int_eqb a b : num_eqb (Int a) (Int b) = (a =? b).
Proof.
  cbn [num_eqb]. destruct (Z.eqb_spec a b) as [->|]; [by apply bool_decide_eq_true|].
  apply bool_decide_eq_false. congruence.
Qed.

Lemma int_leb a b : num_leb (Int a) (Int b) = (a <=? b).
Proof.
  unfold num_leb. rewrite int_ltb, int_eqb.
  destruct (Z.leb_spec a b), (Z.ltb_spec a b), (Z.eqb_spec a b); lia || done.
Qed.

Lemma int_truthy a : num_truthy (Int a) = negb (a =? 0).
Proof. done. Qed.

#[export] Hint Rewrite int_ltb int_leb int_eqb int_truthy : num.
#[export] Hint Rewrite int_add int_sub int_mul using lia : num.

(** The ceiling of [a / d]. *)
Definition cdiv (a d : Z) : Z := - (- a / d).

Lemma cdiv_spec a d c : 0 < d → d * (c - 1) < a ≤ d * c → cdiv a d = c.
Proof.
  intros Hd Ha. unfold cdiv.
  rewrite <-(Z.div_unique_pos (- a) d (- c) (d * c - a)) by lia. lia.
Qed.

Lemma cdiv_bounds a d : 0 < d → d * (cdiv a d - 1) < a ≤ d * cdiv a d.
Proof.
  intros Hd. unfold cdiv. pose proof (Z.div_mod (- a) d ltac:(lia)).
  pose proof (Z.mod_pos_bound (- a) d Hd). nia.
Qed.

(** [Math.ceil(x / 1000)] of an integer of at most 53 bits is the exact
    ceiling: the rounding of the quotient never reaches the next integer. *)
Lemma ceil_div_1000 x :
  0 ≤ x ≤ 2 ^ 53 → num_ceil (num_div (Int x) (Int 1000)) = Int (cdiv x 1000).
Proof.
  intros Hx. cbn [num_div]. simpl (1000 =? 0). cbn iota.
  rewrite Z.pow_0_r, !Z.mul_1_r. change (Z.sgn 1000) with 1.
  change (Z.abs 1000) with 1000.
  pose proof (cdiv_bounds x 1000 ltac:(lia)) as Hc. set (c := cdiv x 1000) in *. clearbody c.
  destruct (decide (x = c * 1000)) as [->|Hne].
  { rewrite rnd_exact by lia. cbn [num_ceil]. rewrite Z.pow_0_r, Z.div_1_r. f_equal. lia. }
  unfold rnd. change (1000 =? 1) with false. cbn [andb].
  rewrite (Z.abs_eq x) by lia. rewrite (proj2 (Z.ltb_ge x 0)) by lia.
  set (A := x * 2 ^ 1074). set (P := Z.max 0 _).
  assert (0 ≤ P ≤ 1065) as HP.
  { unfold P. enough (Z.log2 (A / 1000) ≤ 1117) by lia.
    apply Z.lt_succ_r, Z.log2_lt_pow2.
    - apply Z.div_str_pos. unfold A. assert (1 * 1000 ≤ 1 * 2 ^ 1074) by (by vm_compute).
      assert (1 ≤ x) by lia. split; [lia|].
      trans (1 * 2 ^ 1074); [by vm_compute|]. apply Z.mul_le_mono_nonneg_r; [by vm_compute|lia].
    - apply Z.div_lt_upper_bound; [lia|]. unfold A.
      eapply Z.le_lt_trans; [apply Z.mul_le_mono_nonneg_r; [|apply Hx]|]; by vm_compute. }
  clearbody P.
  pose proof (rne_error A (1000 * 2 ^ P)) as He.
  assert (0 < 2 ^ P) by (apply Z.pow_pos_nonneg; lia).
  specialize (He ltac:(lia)). set (n := rne A (1000 * 2 ^ P)) in *. clearbody n.
  assert (500 * 2 ^ P < 2 ^ 1074) as HPs.
  { eapply Z.le_lt_trans; [apply Z.mul_le_mono_nonneg_l, Z.pow_le_mono_r; [lia..|apply HP]|].
    by vm_compute. }
  set (N := n * 2 ^ P) in *.
  assert (Z.abs (1000 * N - A) ≤ 500 * 2 ^ P) by (unfold N; lia).
  assert (2 ^ 1074 * (c - 1) < N ≤ 2 ^ 1074 * c) as HN.
  { unfold A in *. set (T := 2 ^ 1074) in *. clearbody T N. clear He. nia. }
  assert (c ≤ 2 ^ 53) by lia.
  rewrite (proj2 (Z.leb_gt _ _)).
  2:{ eapply Z.le_lt_trans; [apply HN|].
      eapply Z.le_lt_trans; [apply Z.mul_le_mono_nonneg_l; [by vm_compute|done]|]. by vm_compute. }
  rewrite ceil_strip. f_equal. apply (cdiv_spec N (2 ^ 1074) c); [by vm_compute|done].
Qed.

Lemma of_bigint_safe z : Z.abs z ≤ 2 ^ 53 → of_bigint z = Int z.
Proof. intros. unfold of_bigint. rewrite <-(Z.mul_1_r z) at 1. by apply rnd_exact. Qed.

(** ** Comparing with integers outside the safe range *)

Lemma ltb_strip_r a k n : num_ltb (Int a) (strip k n) = (a * 2 ^ Z.of_nat k <? n).
Proof.
  revert n. induction k as [|k IH]; intros n; [by rewrite Z.mul_1_r; apply int_ltb|].
  cbn [strip]. destruct (Z.even n) eqn:E.
  - rewrite IH. apply Z.even_spec in E as [m ->]. rewrite div2_double.
    rewrite Nat2Z.inj_succ, Z.pow_succ_r by lia.
    destruct (Z.ltb_spec (a * 2 ^ Z.of_nat k) m), (Z.ltb_spec (a * (2 * 2 ^ Z.of_nat k)) (2 * m));
      lia || done.
  - cbn [num_ltb]. by rewrite Z.pow_0_r, Z.mul_1_r.
Qed.

Lemma ltb_strip_l a k n : num_ltb (strip k n) (Int a) = (n <? a * 2 ^ Z.of_nat k).
Proof.
  revert n. induction k as [|k IH]; intros n; [by rewrite Z.mul_1_r; apply int_ltb|].
  cbn [strip]. destruct (Z.even n) eqn:E.
  - rewrite IH. apply Z.even_spec in E as [m ->]. rewrite div2_double.
    rewrite Nat2Z.inj_succ, Z.pow_succ_r by lia.
    destruct (Z.ltb_spec m (a * 2 ^ Z.of_nat k)), (Z.ltb_spec (2 * m) (a * (2 * 2 ^ Z.of_nat k)));
      lia || done.
  - cbn [num_ltb]. by rewrite Z.pow_0_r, Z.mul_1_r.
Qed.

(** A BigInt beyond 53 bits becomes a number beyond 2^52. *)
Lemma of_bigint_large z :
  2 ^ 53 < Z.abs z < 2 ^ 64 →
  ∃ N, of_bigint z = strip 1074 (if z <? 0 then - N else N) ∧ 2 ^ 52 * 2 ^ 1074 < N.
Proof.
  intros Hz. unfold of_bigint, rnd. change (1 =? 1) with true. cbn [andb].
  rewrite (proj2 (Z.leb_gt _ _)) by lia. rewrite Z.div_1_r, Z.mul_1_l.
  rewrite Z.log2_mul_pow2 by lia.
  set (L := Z.log2 (Z.abs z)).
  assert (53 ≤ L ≤ 63) as HL.
  { split.
    - change 53 with (Z.log2 (2 ^ 53)). apply Z.log2_le_mono. lia.
    - apply Z.lt_succ_r, Z.log2_lt_pow2; [lia|]. apply Hz. }
  replace (Z.max 0 (1074 + L - 52)) with (1022 + L) by lia.
  assert (0 < 2 ^ (1022 + L)) as HP by (apply Z.pow_pos_nonneg; lia).
  pose proof (rne_error (Z.abs z * 2 ^ 1074) (2 ^ (1022 + L)) HP) as He.
  set (n := rne _ _) in *. clearbody n. clearbody L.
  assert (2 ^ (1022 + L) ≤ 2 ^ 11 * 2 ^ 1074) as HPs.
  { rewrite <-Z.pow_add_r by lia. apply Z.pow_le_mono_r; lia. }
  set (N := n * 2 ^ (1022 + L)) in *. clearbody N.
  exists N.
  assert (0 < 2 ^ 1074) as HT by done.
  assert (2 ^ 2098 = 2 ^ 1024 * 2 ^ 1074) as E by (by rewrite <-Z.pow_add_r).
  assert (2 ^ 66 ≤ 2 ^ 1024) as HE by (by vm_compute). revert HE. rewrite E. clear E.
  generalize dependent (2 ^ 1024). intros T' HE.
  generalize dependent (2 ^ (1022 + L)). intros Q.
  generalize dependent (2 ^ 1074). intros T Hq HPs HT He.
  rewrite (proj2 (Z.leb_gt _ _)) by nia. split; [done|nia].
Qed.

Lemma ltb_of_bigint_r a z :
  Z.abs a ≤ 2 ^ 52 → Z.abs z < 2 ^ 64 → num_ltb (Int a) (of_bigint z) = (a <? z).
Proof.
  intros Ha Hz. destruct (decide (Z.abs z ≤ 2 ^ 53)).
  { rewrite of_bigint_safe, int_ltb by done. done. }
  destruct (of_bigint_large z) as (N & -> & HN); [lia|]. rewrite ltb_strip_r.
  change (2 ^ Z.of_nat 1074) with (2 ^ 1074).
  assert (0 < 2 ^ 1074) as HT by done. generalize dependent (2 ^ 1074). intros T HN HT.
  destruct (Z.ltb_spec z 0), (Z.ltb_spec a z); try lia; apply Z.ltb_lt || apply Z.ltb_ge; nia.
Qed.

Lemma ltb_of_bigint_l a z :
  Z.abs a ≤ 2 ^ 52 → Z.abs z < 2 ^ 64 → num_ltb (of_bigint z) (Int a) = (z <? a).
Proof.
  intros Ha Hz. destruct (decide (Z.abs z ≤ 2 ^ 53)).
  { rewrite of_bigint_safe, int_ltb by done. done. }
  destruct (of_bigint_large z) as (N & -> & HN); [lia|]. rewrite ltb_strip_l.
  change (2 ^ Z.of_nat 1074) with (2 ^ 1074).
  assert (0 < 2 ^ 1074) as HT by done. generalize dependent (2 ^ 1074). intros T HN HT.
  destruct (Z.ltb_spec z 0), (Z.ltb_spec z a); try lia; apply Z.ltb_lt || apply Z.ltb_ge; nia.
Qed.
