(* ===== verification/JsVal.v ===== *)
(** * Values of the language

    What a function of the web wallet is handed by its caller or by the relay
    is a value of no particular shape: a field may be missing, null, or of the
    wrong type, and the sources check for that.  [jsval] is such a value.

    The operations are the ones the sources apply before they know the type:
    property access, truthiness, [String(v)], [Number(v)], [parseFloat],
    [Array.isArray], [Number.isInteger] and the [typeof] tests, which are
    matches on the constructor. *)

From stdpp Require Import base tactics option list numbers strings pretty.
From Stdlib Require Import ZArith Lia Ascii.
From S2P Require Import Prelude JsInt JsStr JsNum.

Inductive jsval :=
| Undef
| Null
| VBool (b : bool)
| Num (n : Number)
| Str (s : string)
| U8 (b : bytes)  (** a [Uint8Array] *)
| Arr (l : list jsval)
| Obj (fields : list (string * jsval)).

(** ** Properties *)

Fixpoint assoc {A} (k : string) (l : list (string * A)) : option A :=
  match l with
  | [] => None
  | (k', v) :: l => if str_eqb k' k then Some v else assoc k l
  end.

(** [v.k] of a value that is neither [undefined] nor [null]. *)
Definition field (v : jsval) (k : string) : jsval :=
  match v with
  | Obj fields => default Undef (assoc k fields)
  | Arr l => if str_eqb k "length" then Num (Int (zlen l)) else Undef
  | U8 b => if str_eqb k "length" then Num (Int (zlen b)) else Undef
  | Str s => if str_eqb k "length" then Num (Int (slen s)) else Undef
  | _ => Undef
  end.

Definition get (v : jsval) (k : string) : res jsval :=
  match v with
  | Undef => Throw ("Cannot read properties of undefined (reading '" +:+ k +:+ "')")
  | Null => Throw ("Cannot read properties of null (reading '" +:+ k +:+ "')")
  | _ => Ok (field v k)
  end.

(** ** Tests *)

Definition truthy (v : jsval) : bool :=
  match v with
  | Undef | Null => false
  | VBool b => b
  | Num n => num_truthy n
  | Str s => negb (str_eqb s EmptyString)
  | U8 _ | Arr _ | Obj _ => true
  end.

(** [v === true]. *)
Definition is_true (v : jsval) : bool := match v with VBool b => b | _ => false end.

(** [v === undefined || v === null]. *)
Definition is_nullish (v : jsval) : bool := match v with Undef | Null => true | _ => false end.

(** [typeof v === 'object'], which [null] also satisfies. *)
Definition is_object (v : jsval) : bool :=
  match v with Null | U8 _ | Arr _ | Obj _ => true | _ => false end.

(** [Number.isInteger(v)], and [Number.isFinite(v)]. *)
Definition v_isInteger (v : jsval) : bool := match v with Num n => isInteger n | _ => false end.
Definition v_isFinite (v : jsval) : bool := match v with Num n => isFinite n | _ => false end.

(** A value that a test has shown to be a number, a string, bytes. *)
Definition as_num (v : jsval) : Number := match v with Num n => n | _ => NaN end.
Definition as_str (v : jsval) : string := match v with Str s => s | _ => EmptyString end.

(** [typeof v === 'string' && /^[0-9a-fA-F]{n}$/.test(v)]. *)
Definition is_hex_of (n : Z) (v : jsval) : bool :=
  match v with Str s => is_hex s && (slen s =? n) | _ => false end.

(** [/^[0-9a-f]{n}$/.test(s)]. *)
Definition is_lower_hex_of (n : Z) (s : string) : bool := is_lower_hex s && (slen s =? n).

(** ** Conversions *)

Definition join (sep : string) (l : list string) : string :=
  match l with
  | [] => EmptyString
  | s :: l => fold_left (λ acc t, acc +:+ sep +:+ t) l s
  end.

(** [String(v)]; objects are plain objects, with the inherited [toString]. *)
Fixpoint js_String (v : jsval) : string :=
  match v with
  | Undef => "undefined"
  | Null => "null"
  | VBool b => if b then "true" else "false"
  | Num n => num_str n
  | Str s => s
  | U8 b => join "," (map dec b)
  | Arr l => join "," (map (λ v, match v with Undef | Null => EmptyString | _ => js_String v end) l)
  | Obj _ => "[object Object]"
  end.

Definition decimal_digit (c : ascii) : option Z :=
  let n := code c in if (48 <=? n) && (n <=? 57) then Some (n - 48) else None.

(** The longest run of decimal digits: its value, its length and what follows. *)
Fixpoint take_digits (acc count : Z) (l : list ascii) : Z * Z * list ascii :=
  match l with
  | c :: l' => match decimal_digit c with
               | Some d => take_digits (10 * acc + d) (count + 1) l'
               | None => (acc, count, l)
               end
  | [] => (acc, count, [])
  end.

Fixpoint strip_prefix (p l : list ascii) : option (list ascii) :=
  match p, l with
  | [], _ => Some l
  | c :: p, d :: l => if Ascii.eqb c d then strip_prefix p l else None
  | _ :: _, [] => None
  end.

(** An optional sign. *)
Definition take_sign (l : list ascii) : bool * list ascii :=
  match l with
  | "-"%char :: l => (true, l)
  | "+"%char :: l => (false, l)
  | _ => (false, l)
  end.

(** An exponent part, zero where there is none. *)
Definition take_exponent (l : list ascii) : Z * list ascii :=
  match l with
  | "e"%char :: t | "E"%char :: t =>
      let '(neg, t) := take_sign t in
      let '(e, count, rest) := take_digits 0 0 t in
      if count =? 0 then (0, l) else (if neg then - e else e, rest)
  | _ => (0, l)
  end.

(** [StrDecimalLiteral]: the longest prefix that is one, and what follows. *)
Definition take_decimal (l : list ascii) : option (Number * list ascii) :=
  let '(neg, l) := take_sign l in
  match strip_prefix (chars "Infinity") l with
  | Some rest => Some (Inf neg, rest)
  | None =>
      let '(whole, n1, rest) := take_digits 0 0 l in
      let '(digits, n2, rest) :=
        match rest with
        | "."%char :: t =>
            let '(digits, n2, rest') := take_digits whole 0 t in
            if (n1 =? 0) && (n2 =? 0) then (whole, 0, rest) else (digits, n2, rest')
        | _ => (whole, 0, rest)
        end in
      if (n1 =? 0) && (n2 =? 0) then None
      else
        let '(e, rest) := take_exponent rest in
        let v := dec_value digits (e - n2) in
        Some (if neg then num_neg v else v, rest)
  end.

Definition js_parseFloat (s : string) : Number :=
  match take_decimal (trim_start (chars s)) with Some (v, _) => v | None => NaN end.

(** The digits of a [0x], [0o] or [0b] literal. *)
Fixpoint radix_digits (base acc : Z) (l : list ascii) : option Z :=
  match l with
  | [] => Some acc
  | c :: l => match hexval c with
              | Some d => if d <? base then radix_digits base (base * acc + d) l else None
              | None => None
              end
  end.

Definition radix_literal (base : Z) (l : list ascii) : Number :=
  match l with
  | [] => NaN
  | _ => match radix_digits base 0 l with Some n => of_bigint n | None => NaN end
  end.

(** [StringToNumber]. *)
Definition string_to_number (s : string) : Number :=
  match chars (trim s) with
  | [] => Int 0
  | "0"%char :: "x"%char :: t | "0"%char :: "X"%char :: t => radix_literal 16 t
  | "0"%char :: "o"%char :: t | "0"%char :: "O"%char :: t => radix_literal 8 t
  | "0"%char :: "b"%char :: t | "0"%char :: "B"%char :: t => radix_literal 2 t
  | l => match take_decimal l with Some (v, []) => v | _ => NaN end
  end.

(** [Number(v)]. *)
Definition js_Number (v : jsval) : Number :=
  match v with
  | Undef => NaN
  | Null => Int 0
  | VBool b => Int (if b then 1 else 0)
  | Num n => n
  | Str s => string_to_number s
  | U8 _ | Arr _ | Obj _ => string_to_number (js_String v)
  end.

(** The integer the bit operators convert a number to, before its wrap-around. *)
Definition int_of (n : Number) : Z := match n with Fin m k => Z.quot m (2 ^ k) | _ => 0 end.

(** ** Lemmas *)

Lemma v_isInteger_inv v : v_isInteger v = true → ∃ z, v = Num (Int z).
Proof.
  destruct v as [| | |[| |m k]| | | |]; try done. cbn. intros ->%Z.eqb_eq. by exists m.
Qed.

Lemma is_hex_of_inv n v : is_hex_of n v = true → ∃ s, v = Str s ∧ is_hex s = true ∧ slen s = n.
Proof. destruct v; try done. cbn. intros H. simp_bool. eauto. Qed.

Lemma is_true_inv v : is_true v = true ↔ v = VBool true.
Proof. destruct v as [| |[]| | | | |]; done. Qed.

Lemma int_of_Int z : int_of (Int z) = z.
Proof. cbn. apply Z.quot_1_r. Qed.

(** Literals the conversions accept and refuse. *)
Lemma conversions_evaluate :
  js_parseFloat " 12.5kg" = Fin 25 1 ∧ js_parseFloat ".e1" = NaN ∧ js_parseFloat "1e3" = Int 1000
  ∧ string_to_number "0x10" = Int 16 ∧ string_to_number "12 3" = NaN ∧ string_to_number " " = Int 0
  ∧ js_String (Arr [Num (Int 1); Null; Str "a"]) = "1,,a".
Proof. vm_compute. split_and!; reflexivity. Qed.
