(* ===== verification/Effects.v ===== *)
(** * Effects: an asynchronous function of the web application

    A function that awaits the network, the clock or storage is a function of
    the world it runs in: it returns the world it leaves and, as any JavaScript
    function, a value or a thrown error.  What the world is stays abstract; the
    code sees it only through the functions it is given ([fetchImpl], [sleep]).
    The calls one function awaits run in program order. *)

From stdpp Require Import base tactics option list strings.
From S2P Require Import Prelude.

Definition io (W A : Type) : Type := W → W * res A.

Section io.
Context {W : Type}.

#[global] Instance io_ret : MRet (io W) := λ A a w, (w, Ok a).

#[global] Instance io_bind : MBind (io W) := λ A B f m w,
  match m w with
  | (w, Ok a) => f a w
  | (w, Throw e) => (w, Throw e)
  end.

(** Synchronous code inside an asynchronous function. *)
Definition lift {A} (m : res A) : io W A := λ w, (w, m).

(** [try { m } catch (e) { h }]. *)
Definition io_try {A} (m : io W A) (h : string → io W A) : io W A := λ w,
  match m w with
  | (w, Ok a) => (w, Ok a)
  | (w, Throw e) => h e w
  end.

Lemma io_bind_Ok {A B} (m : io W A) (f : A → io W B) w w' b :
  (m ≫= f) w = (w', Ok b) ↔ ∃ w1 a, m w = (w1, Ok a) ∧ f a w1 = (w', Ok b).
Proof.
  unfold mbind, io_bind. destruct (m w) as [w1 [a|e]]; [|by split; [|intros (? & ? & ? & ?)]].
  split; [by exists w1, a|]. by intros (? & ? & [= <- <-] & ?).
Qed.

Lemma lift_Ok {A} (m : res A) w w' a : lift m w = (w', Ok a) ↔ w' = w ∧ m = Ok a.
Proof. unfold lift. naive_solver. Qed.

Lemma io_ret_Ok {A} (a b : A) w w' : io_ret A a w = (w', Ok b) ↔ w' = w ∧ a = b.
Proof. unfold io_ret. naive_solver. Qed.

Lemma io_try_Ok {A} (m : io W A) h w w' a :
  io_try m h w = (w', Ok a) ↔
  m w = (w', Ok a) ∨ ∃ w1 e, m w = (w1, Throw e) ∧ h e w1 = (w', Ok a).
Proof. unfold io_try. destruct (m w) as [w1 [b|e]]; naive_solver. Qed.

End io.

(** ** What a call can do to the world *)

Section keeps.
Context {W : Type} (R : relation W) `{!PreOrder R}.

(** Whatever it returns, the call leaves a world related to the one it ran in. *)
Definition keeps {A} (m : io W A) : Prop := ∀ w, R w (m w).1.

Lemma keeps_ret {A} (a : A) : keeps (mret a).
Proof. intros w. simpl. reflexivity. Qed.
Lemma keeps_lift {A} (m : res A) : keeps (lift m).
Proof. intros w. simpl. reflexivity. Qed.
Lemma keeps_bind {A B} (m : io W A) (f : A → io W B) : keeps m → (∀ a, keeps (f a)) → keeps (m ≫= f).
Proof.
  intros Hm Hf w. specialize (Hm w). unfold mbind, io_bind. destruct (m w) as [w' [a|e]]; simpl in *; [|done].
  etrans; [exact Hm|apply Hf].
Qed.
Lemma keeps_try {A} (m : io W A) h : keeps m → (∀ e, keeps (h e)) → keeps (io_try m h).
Proof.
  intros Hm Hh w. specialize (Hm w). unfold io_try. destruct (m w) as [w' [a|e]]; simpl in *; [done|].
  etrans; [exact Hm|apply Hh].
Qed.
End keeps.

Create HintDb reads.
#[export] Hint Resolve keeps_ret keeps_lift keeps_bind keeps_try : reads.
#[export] Hint Extern 0 (PreOrder _) => assumption : reads.
#[export] Hint Extern 2 (keeps _ (if ?b then _ else _)) => destruct b : reads.
#[export] Hint Extern 2 (keeps _ (match ?x with _ => _ end)) => destruct x : reads.

(** [simp_io] reads a successful asynchronous run backwards, as [simp_res]
    does a synchronous one. *)
Ltac simp_io :=
  repeat match goal with
  | H : mbind _ _ _ = (_, Ok _) |- _ => apply io_bind_Ok in H as (? & ? & ? & ?)
  | H : lift _ _ = (_, Ok _) |- _ => apply lift_Ok in H as [-> ?]
  | H : mret _ _ = (_, Ok _) |- _ => apply io_ret_Ok in H as [-> ?]; subst
  | _ => progress simp_res
  end.
