(* ===== verification/Words.v ===== *)
(** * Machine words and byte buffers

    What the two hash functions share.  [Word] is arithmetic on 32-bit words as
    the standards state it, on integers in [0, 2^32).  The JavaScript operators
    of [JsInt] leave their results signed; the [u32_*] lemmas say that each of
    them, brought back to unsigned, is the operation on words, and the [u32]
    rewrite database pushes [u32] through an expression.  [set_at] is the write
    of an array into a larger one. *)

From stdpp Require Import base tactics option list numbers.
From Stdlib Require Import ZArith Lia.
From S2P Require Import Prelude JsInt.

Module Word.
Definition add (x y : Z) : Z := (x + y) mod 2 ^ 32.
Definition compl (x : Z) : Z := 2 ^ 32 - 1 - x.
Definition rotr (n x : Z) : Z := Z.lor (Z.shiftr x n) (Z.shiftl x (32 - n) mod 2 ^ 32).
Definition rotl (n x : Z) : Z := Z.lor (Z.shiftl x n mod 2 ^ 32) (Z.shiftr x (32 - n)).
End Word.

(** [out.set(a, offset)] on a [Uint8Array] that has room for it. *)
Definition set_at (out : bytes) (offset : nat) (a : bytes) : bytes :=
  take offset out ++ a ++ drop (offset + length a) out.

(** ** Buffers *)

Lemma length_set_at out i a :
  (i + length a ≤ length out)%nat → length (set_at out i a) = length out.
Proof. intros. unfold set_at. rewrite !length_app, length_take, length_drop. lia. Qed.

Lemma set_at_app pre old post new :
  length old = length new → set_at (pre ++ old ++ post) (length pre) new = pre ++ new ++ post.
Proof.
  intros Hl. unfold set_at. rewrite take_app_length. f_equal. f_equal.
  rewrite <-Hl. rewrite app_assoc, <-length_app. by rewrite drop_app_length.
Qed.

Lemma set_at_0 old post new :
  length old = length new → set_at (old ++ post) 0 new = new ++ post.
Proof. apply (set_at_app []). Qed.

Lemma set_at_bytes out i a : is_bytes out → is_bytes a → is_bytes (set_at out i a).
Proof. intros. unfold set_at. auto 10 with bytes. Qed.
#[export] Hint Resolve set_at_bytes : bytes.

(** ** Operators modulo 2^32 *)

Abbreviation u32 := to_uint32.

Lemma u32_small x : 0 ≤ x < 2 ^ 32 → u32 x = x.
Proof. apply Z.mod_small. Qed.

Lemma u32_congr x y : x mod 2 ^ 32 = y mod 2 ^ 32 → u32 x = u32 y.
Proof. done. Qed.

Lemma u32_add a b : u32 (a + b) = Word.add (u32 a) (u32 b).
Proof. unfold to_uint32, Word.add. by rewrite <-Zplus_mod. Qed.

Lemma u32_int32 a : u32 (to_int32 a) = u32 a.
Proof. apply to_int32_mod. Qed.

Lemma js_or_0 a : js_or a 0 = to_int32 a.
Proof. unfold js_or. change (to_int32 0) with 0. apply Z.lor_0_r. Qed.

Lemma u32_or0 a : u32 (js_or a 0) = u32 a.
Proof. by rewrite js_or_0, u32_int32. Qed.

(** Two words are equal when their 32 low bits are. *)
Lemma u32_bits x y :
  (∀ i, 0 ≤ i < 32 → Z.testbit x i = Z.testbit y i) → u32 x = u32 y.
Proof.
  intros H. apply Z.bits_inj'; intros i Hi. rewrite !testbit_to_uint32 by lia.
  destruct (Z.ltb_spec i 32); [|done]. by rewrite H by lia.
Qed.

Lemma u32_idem x : u32 (u32 x) = u32 x.
Proof. apply Z.mod_mod. lia. Qed.

Lemma u32_id x y : 0 ≤ y < 2 ^ 32 → u32 x = u32 y → u32 x = y.
Proof. intros Hy ->. by apply u32_small. Qed.

Lemma land_range a b : 0 ≤ a < 2 ^ 32 → 0 ≤ Z.land a b < 2 ^ 32.
Proof.
  intros Ha. rewrite <-(Z.mod_small a (2 ^ 32)), <-Z.land_ones by lia.
  rewrite (Z.land_comm a), <-Z.land_assoc, Z.land_comm, Z.land_ones by lia.
  apply Z.mod_pos_bound. lia.
Qed.

Lemma lor_range a b k : 0 ≤ k → 0 ≤ a < 2 ^ k → 0 ≤ b < 2 ^ k → 0 ≤ Z.lor a b < 2 ^ k.
Proof.
  intros Hk Ha Hb. rewrite <-(Z.mod_small a (2 ^ k)), <-(Z.mod_small b (2 ^ k)) by lia.
  rewrite <-lor_mod by lia. apply Z.mod_pos_bound. lia.
Qed.

Lemma lxor_range a b k : 0 ≤ k → 0 ≤ a < 2 ^ k → 0 ≤ b < 2 ^ k → 0 ≤ Z.lxor a b < 2 ^ k.
Proof.
  intros Hk Ha Hb.
  assert (Z.lxor a b = Z.lxor a b mod 2 ^ k) as ->; [|apply Z.mod_pos_bound; lia].
  rewrite <-(Z.mod_small a (2 ^ k)), <-(Z.mod_small b (2 ^ k)) at 1 by lia.
  apply Z.bits_inj'; intros i Hi. rewrite Z.lxor_spec.
  destruct (Z.ltb_spec i k).
  - rewrite !Z.mod_pow2_bits_low by lia. by rewrite Z.lxor_spec.
  - by rewrite !Z.mod_pow2_bits_high by lia.
Qed.

Lemma u32_and a b : u32 (js_and a b) = Z.land (u32 a) (u32 b).
Proof.
  pose proof (to_uint32_range a). pose proof (to_uint32_range b).
  apply u32_id; [apply land_range; lia|]. apply u32_bits; intros i Hi.
  unfold js_and. rewrite !Z.land_spec, !testbit_to_int32, !testbit_to_uint32 by lia.
  by rewrite (proj2 (Z.ltb_lt i 32)) by lia.
Qed.

Lemma u32_or a b : u32 (js_or a b) = Z.lor (u32 a) (u32 b).
Proof.
  pose proof (to_uint32_range a). pose proof (to_uint32_range b).
  apply u32_id; [apply lor_range; lia|]. apply u32_bits; intros i Hi.
  unfold js_or. rewrite !Z.lor_spec, !testbit_to_int32, !testbit_to_uint32 by lia.
  by rewrite (proj2 (Z.ltb_lt i 32)) by lia.
Qed.

Lemma u32_xor a b : u32 (js_xor a b) = Z.lxor (u32 a) (u32 b).
Proof.
  pose proof (to_uint32_range a). pose proof (to_uint32_range b).
  apply u32_id; [apply lxor_range; lia|]. apply u32_bits; intros i Hi.
  unfold js_xor. rewrite !Z.lxor_spec, !testbit_to_int32, !testbit_to_uint32 by lia.
  by rewrite (proj2 (Z.ltb_lt i 32)) by lia.
Qed.

Lemma u32_not a : u32 (js_not a) = Word.compl (u32 a).
Proof.
  pose proof (to_uint32_range a). unfold js_not, Word.compl.
  pose proof (Z.add_lnot_diag (to_int32 a)).
  assert (∃ k, Z.lnot (to_int32 a) = 2 ^ 32 - 1 - u32 a + k * 2 ^ 32) as [k ->].
  { unfold to_int32 in *. fold (u32 a) in *.
    case_match; [exists (-1)|exists 0]; lia. }
  unfold to_uint32 at 1. rewrite Z_mod_plus_full. apply Z.mod_small. lia.
Qed.

Lemma u32_ushr a n : 0 ≤ n < 32 → u32 (js_ushr a n) = Z.shiftr (u32 a) n.
Proof.
  intros. unfold js_ushr. rewrite (Z.mod_small n) by lia. apply u32_small.
  pose proof (to_uint32_range a). rewrite Z.shiftr_div_pow2 by lia.
  assert (0 < 2 ^ n) by (apply Z.pow_pos_nonneg; lia).
  split; [apply Z.div_pos; lia|]. apply Z.div_lt_upper_bound; nia.
Qed.

Lemma u32_shl a n : 0 ≤ n < 32 → u32 (js_shl a n) = Z.shiftl (u32 a) n mod 2 ^ 32.
Proof.
  intros. unfold js_shl. rewrite (Z.mod_small n), u32_int32 by lia.
  apply u32_bits; intros i Hi. rewrite !Z.shiftl_spec by lia.
  destruct (Z.ltb_spec i n); [by rewrite !Z.testbit_neg_r by lia|].
  rewrite testbit_to_int32, testbit_to_uint32 by lia.
  by rewrite (proj2 (Z.ltb_lt (i - n) 32)) by lia.
Qed.

Create Rewrite HintDb u32.
#[export] Hint Rewrite u32_add u32_or0 u32_and u32_xor u32_not u32_idem : u32.
#[export] Hint Rewrite u32_ushr using lia : u32.

Definition is_word (x : Z) : Prop := 0 ≤ x < 2 ^ 32.

Lemma nth_word i w : Forall is_word w → is_word (nth i w 0).
Proof.
  intros Hw. revert i. induction Hw; intros [|i]; simpl; auto; by split.
Qed.

Lemma u32_word x : is_word x → u32 x = x.
Proof. apply u32_small. Qed.

Lemma u32_nth i w : Forall is_word w → u32 (nth i w 0) = nth i w 0.
Proof. intros. by apply u32_word, nth_word. Qed.
#[export] Hint Rewrite u32_nth using done : u32.

Lemma to_uint32_word x : is_word (u32 x).
Proof. apply to_uint32_range. Qed.
#[export] Hint Resolve to_uint32_word : bytes.

Lemma add_rev a b c d :
  Word.add (Word.add (Word.add a b) c) d = Word.add (Word.add (Word.add d c) b) a.
Proof.
  unfold Word.add. rewrite !(Zplus_mod_idemp_l (_ + _)), <-!(Z.add_assoc (_ mod _)).
  rewrite !(Zplus_mod_idemp_l (_ + _)). apply (f_equal (λ x, x mod 2 ^ 32)). lia.
Qed.


(** ** Merkle-Damgard padding

    Both hash functions fill a zeroed buffer of [((n + 8) >> 6) * 64 + 64]
    bytes in place: the message, 0x80 behind it, the bit length in the last
    eight bytes. *)

Lemma pad_length n :
  0 ≤ n → n + 8 < 2 ^ 31 →
  Z.to_nat (js_shr (n + 8) 6 * 64 + 64) = (Z.to_nat n + 1 + Z.to_nat ((55 - n) mod 64) + 8)%nat.
Proof.
  intros. unfold js_shr. rewrite to_int32_small by lia.
  change (6 mod 32) with 6. rewrite Z.shiftr_div_pow2 by lia. change (2 ^ 6) with 64.
  pose proof (Z.div_mod (n + 8) 64 ltac:(lia)).
  pose proof (Z.mod_pos_bound (n + 8) 64 ltac:(lia)).
  rewrite <-(Z.mod_unique_pos (55 - n) 64 (- ((n + 8) / 64))
    (63 - (n + 8) mod 64)) by lia. lia.
Qed.

Lemma pad_buffer m len :
  zlen m + 8 < 2 ^ 31 → length len = 8%nat →
  let padLen := Z.to_nat (js_shr (zlen m + 8) 6 * 64 + 64) in
  set_at (set_at (set_at (u8zeros padLen) 0 m) (length m) [0x80]) (padLen - 8) len
  = m ++ [0x80] ++ replicate (Z.to_nat ((55 - zlen m) mod 64)) 0 ++ len.
Proof.
  intros Hm Hlen padLen. unfold padLen. rewrite pad_length, Nat2Z.id by lia.
  set (k := Z.to_nat ((55 - zlen m) mod 64)).
  unfold u8zeros. rewrite !replicate_add, <-!app_assoc.
  rewrite set_at_0 by apply length_replicate.
  rewrite (set_at_app m (replicate 1 0) _ [0x80]) by done.
  replace (length m + 1 + k + 8 - 8)%nat with (length (m ++ [128] ++ replicate k 0)).
  2:{ rewrite !length_app, length_replicate. simpl. lia. }
  replace (m ++ [128] ++ replicate k 0 ++ replicate 8 0)
    with ((m ++ [128] ++ replicate k 0) ++ replicate 8 0 ++ []).
  2:{ by rewrite app_nil_r, <-!app_assoc. }
  rewrite set_at_app by (by rewrite Hlen, length_replicate).
  by rewrite app_nil_r, <-!app_assoc.
Qed.

Lemma pad_buffer_bytes m len n :
  is_bytes m → is_bytes len →
  is_bytes (set_at (set_at (set_at (u8zeros n) 0 m) (length m) [0x80]) (n - 8) len).
Proof.
  intros. apply set_at_bytes; [|done].
  apply set_at_bytes; [auto with bytes|]. constructor; [by split|constructor].
Qed.
