(* ===== verification/Radix.v ===== *)
(** * Positional numerals

    The digits of a natural number in a base, most significant first, produced
    by repeated division the way [base58Encode], [base58Decode] and
    [scriptNumBytes] do it, and the value of a digit string.  Numerals without
    a leading zero and naturals are in bijection. *)

From stdpp Require Import base tactics option list numbers.
From Stdlib Require Import ZArith Lia.
From S2P Require Import Prelude JsInt.

Section radix.
Context (B : Z) (HB : 2 ≤ B).

(** [while (n > 0) { acc.unshift(n % B); n = n / B; }], given enough fuel. *)
Fixpoint to_digits (fuel : nat) (n : Z) (acc : list Z) : list Z :=
  match fuel with
  | O => acc
  | S fuel => if 0 <? n then to_digits fuel (n / B) (n mod B :: acc) else acc
  end.

(** [for (d of ds) n = n * B + d;] *)
Definition of_digits (n : Z) (ds : list Z) : Z := fold_left (λ n d, n * B + d) ds n.

(** One more iteration than the number has bits is always enough. *)
Definition fuel_for (n : Z) : nat := S (Z.to_nat (Z.log2 n)).

Definition is_digit (d : Z) : Prop := 0 ≤ d < B.

(** No leading zero. *)
Definition canonical (ds : list Z) : Prop :=
  Forall is_digit ds ∧ match ds with d :: _ => d ≠ 0 | [] => True end.

Lemma fuel_step n fuel :
  0 < n → n < 2 ^ Z.of_nat (S fuel) → 0 ≤ n / B < 2 ^ Z.of_nat fuel.
Proof.
  intros Hn Hf. rewrite Nat2Z.inj_succ, Z.pow_succ_r in Hf by lia.
  split; [apply Z.div_pos; lia|]. apply Z.div_lt_upper_bound; nia.
Qed.

Lemma fuel_enough n : 0 ≤ n → n < 2 ^ Z.of_nat (fuel_for n).
Proof.
  intros Hn. unfold fuel_for. rewrite Nat2Z.inj_succ, Z2Nat.id by apply Z.log2_nonneg.
  destruct (decide (n = 0)) as [->|]; [done|]. apply Z.log2_spec. lia.
Qed.

Lemma to_digits_acc fuel n acc : to_digits fuel n acc = to_digits fuel n [] ++ acc.
Proof.
  revert n acc. induction fuel as [|fuel IH]; intros n acc; [done|]. cbn [to_digits].
  case_match; [|done]. rewrite IH, (IH _ [_]), <-app_assoc. done.
Qed.

Lemma to_digits_snoc fuel n :
  0 < n → to_digits (S fuel) n [] = to_digits fuel (n / B) [] ++ [n mod B].
Proof.
  intros. cbn [to_digits]. rewrite (proj2 (Z.ltb_lt _ _)) by lia. apply to_digits_acc.
Qed.

Lemma of_digits_app n ds es : of_digits n (ds ++ es) = of_digits (of_digits n ds) es.
Proof. apply fold_left_app. Qed.

Lemma of_digits_snoc n ds d : of_digits n (ds ++ [d]) = of_digits n ds * B + d.
Proof. apply of_digits_app. Qed.

(** Any sufficient fuel gives the same digits. *)
Lemma to_digits_fuel f1 f2 n :
  0 ≤ n → n < 2 ^ Z.of_nat f1 → n < 2 ^ Z.of_nat f2 → to_digits f1 n [] = to_digits f2 n [].
Proof.
  revert f2 n. induction f1 as [|f1 IH]; intros f2 n Hn H1 H2.
  - assert (n = 0) as -> by (simpl in H1; lia). by destruct f2.
  - destruct (decide (n = 0)) as [->|]; [by destruct f2|].
    destruct f2 as [|f2]; [simpl in H2; lia|].
    rewrite !to_digits_snoc by lia. f_equal.
    pose proof (fuel_step n f1 ltac:(lia) H1). pose proof (fuel_step n f2 ltac:(lia) H2).
    apply IH; lia.
Qed.

Lemma of_to_digits fuel n :
  0 ≤ n → n < 2 ^ Z.of_nat fuel → of_digits 0 (to_digits fuel n []) = n.
Proof.
  revert n. induction fuel as [|fuel IH]; intros n Hn Hf; [simpl in *; lia|].
  destruct (decide (n = 0)) as [->|]; [done|].
  rewrite to_digits_snoc, of_digits_app by lia.
  pose proof (fuel_step n fuel ltac:(lia) Hf). rewrite IH by lia. simpl. rewrite Z.mul_comm. symmetry. apply Z.div_mod. lia.
Qed.

Lemma to_digits_canonical fuel n :
  0 ≤ n → n < 2 ^ Z.of_nat fuel → canonical (to_digits fuel n []).
Proof.
  revert n. induction fuel as [|fuel IH]; intros n Hn Hf; [by split|].
  destruct (decide (n = 0)) as [->|]; [by split|].
  rewrite to_digits_snoc by lia.
  pose proof (Z.mod_pos_bound n B ltac:(lia)).
  destruct (fuel_step n fuel) as [H1 H2]; [lia|done|].
  destruct (IH (n / B) H1 H2) as [Hd Hz].
  split; [apply Forall_app; repeat constructor; [done|lia..]|].
  destruct (to_digits fuel (n / B) []) as [|d ds] eqn:E; simpl; [|done].
  assert (n / B = 0) as H0.
  { rewrite <-(of_to_digits fuel (n / B)) by done. by rewrite E. }
  rewrite (Z.div_mod n B) in n0 by lia. lia.
Qed.

Lemma of_digits_nonneg ds : Forall is_digit ds → 0 ≤ of_digits 0 ds.
Proof.
  intros H. induction ds as [|d ds IH] using rev_ind; [done|].
  rewrite Forall_app, Forall_singleton in H; destruct H as (Hds & Hd0 & Hd1).
  rewrite of_digits_snoc. specialize (IH Hds). nia.
Qed.

Lemma of_digits_pos ds : canonical ds → ds ≠ [] → 0 < of_digits 0 ds.
Proof.
  intros [H Hz]. induction ds as [|d ds IH] using rev_ind; [done|]. intros _.
  rewrite Forall_app, Forall_singleton in H; destruct H as (Hds & Hd0 & Hd1).
  rewrite of_digits_snoc. destruct ds as [|d' ds]; [simpl in *; lia|].
  specialize (IH Hds Hz ltac:(done)). nia.
Qed.

(** A canonical numeral of [n] digits is at least B^(n-1). *)
Lemma of_digits_lower ds :
  canonical ds → ds ≠ [] → B ^ (zlen ds - 1) ≤ of_digits 0 ds.
Proof.
  intros Hc. induction ds as [|d ds IH] using rev_ind; [done|]. intros _.
  pose proof (of_digits_pos _ Hc ltac:(by destruct ds)) as Hpos.
  destruct Hc as [H Hz]. rewrite Forall_app, Forall_singleton in H. destruct H as (Hds & Hd0 & Hd1).
  rewrite length_app. cbn [length].
  destruct ds as [|d' ds]; [simpl; simpl in *; lia|].
  specialize (IH (conj Hds Hz) ltac:(done)).
  rewrite of_digits_snoc. rewrite Nat2Z.inj_add, Z.add_simpl_r.
  replace (zlen (d' :: ds)) with (Z.succ (zlen (d' :: ds) - 1)) by lia.
  rewrite Z.pow_succ_r by (cbn [length]; lia). nia.
Qed.

Lemma to_of_digits ds fuel :
  canonical ds → of_digits 0 ds < 2 ^ Z.of_nat fuel → to_digits fuel (of_digits 0 ds) [] = ds.
Proof.
  revert fuel. induction ds as [|d ds IH] using rev_ind; intros fuel Hc Hf.
  { by destruct fuel. }
  pose proof (of_digits_pos _ Hc ltac:(by destruct ds)) as Hpos.
  destruct fuel as [|fuel]; [simpl in Hf; lia|].
  rewrite to_digits_snoc by done.
  destruct Hc as [H Hz]. rewrite Forall_app, Forall_singleton in H; destruct H as (Hds & Hd0 & Hd1).
  assert (of_digits 0 (ds ++ [d]) = of_digits 0 ds * B + d) as E by apply of_digits_snoc.
  assert (of_digits 0 (ds ++ [d]) / B = of_digits 0 ds) as E1.
  { rewrite E, Z.div_add_l, Z.div_small by lia. lia. }
  assert (of_digits 0 (ds ++ [d]) mod B = d) as E2.
  { rewrite E, Z.add_comm, Z_mod_plus_full, Z.mod_small by lia. done. }
  rewrite E1, E2. f_equal. apply IH.
  - split; [done|]. by destruct ds.
  - rewrite <-E1. by apply fuel_step.
Qed.

(** Leading zeros do not change the value. *)
Lemma of_digits_zeros k ds : of_digits 0 (replicate k 0 ++ ds) = of_digits 0 ds.
Proof. induction k as [|k IH]; [done|]. simpl. rewrite <-IH. done. Qed.

Lemma to_digits_range fuel n : 0 ≤ n → Forall is_digit (to_digits fuel n []).
Proof.
  revert n. induction fuel as [|fuel IH]; intros n Hn; [constructor|].
  destruct (decide (n = 0)) as [->|]; [constructor|].
  rewrite to_digits_snoc by lia. apply Forall_app. split.
  - apply IH. apply Z.div_pos; lia.
  - repeat constructor; apply Z.mod_pos_bound; lia.
Qed.

End radix.

(** The leading elements equal to [x], and the rest. *)
Fixpoint count_leading {A} `{EqDecision A} (x : A) (l : list A) : nat :=
  match l with
  | y :: l => if decide (y = x) then S (count_leading x l) else O
  | [] => O
  end.

Lemma count_leading_spec {A} `{EqDecision A} (x : A) l :
  let k := count_leading x l in
  l = replicate k x ++ drop k l ∧ match drop k l with y :: _ => y ≠ x | [] => True end.
Proof.
  induction l as [|y l [IH IH']]; [done|]. simpl. case_decide as E; [|done].
  subst. simpl. split; [by f_equal|done].
Qed.

Lemma count_leading_app {A} `{EqDecision A} (x : A) k l :
  match l with y :: _ => y ≠ x | [] => True end → count_leading x (replicate k x ++ l) = k.
Proof.
  intros Hl. induction k as [|k IH]; simpl.
  - destruct l as [|y l]; [done|]. simpl. by rewrite decide_False.
  - rewrite decide_True by done. by f_equal.
Qed.
