(* ===== verification/Sha256.v ===== *)
(** * SHA-256 and HMAC-SHA256: [contrib/uap-js/sha256.js]

    The first part translates the JavaScript: 32-bit operators on numbers that
    are signed wherever the source leaves them signed ([| 0], [~], [<<]), a
    [Uint32Array] that brings what is stored in it back to unsigned, in-place
    writes into a zeroed padding buffer.  The second part is SHA-256 as FIPS
    180-4 states it, over unsigned words modulo 2^32, with the padding as a
    concatenation and the message schedule as a recurrence.  The third part
    relates the two. *)

From stdpp Require Import base tactics option list numbers.
From Stdlib Require Import ZArith Lia.
From S2P Require Import Prelude JsInt Words.

(** ** The program *)

(** [concatBytes(...arrays)]: one buffer of the total length, each array
    copied at the running offset. *)
Definition concatBytes (arrays : list bytes) : bytes :=
  let len := fold_left (λ len a, (len + length a)%nat) arrays 0%nat in
  fst (fold_left (λ '(out, offset) a, (set_at out offset a, (offset + length a)%nat))
         arrays (u8zeros len, 0%nat)).

Module Sha.

(** Row by row, as the source lays the table out. *)
Definition K : list Z :=
  [0x428a2f98; 0x71374491; 0xb5c0fbcf; 0xe9b5dba5; 0x3956c25b; 0x59f111f1; 0x923f82a4; 0xab1c5ed5] ++
  [0xd807aa98; 0x12835b01; 0x243185be; 0x550c7dc3; 0x72be5d74; 0x80deb1fe; 0x9bdc06a7; 0xc19bf174] ++
  [0xe49b69c1; 0xefbe4786; 0x0fc19dc6; 0x240ca1cc; 0x2de92c6f; 0x4a7484aa; 0x5cb0a9dc; 0x76f988da] ++
  [0x983e5152; 0xa831c66d; 0xb00327c8; 0xbf597fc7; 0xc6e00bf3; 0xd5a79147; 0x06ca6351; 0x14292967] ++
  [0x27b70a85; 0x2e1b2138; 0x4d2c6dfc; 0x53380d13; 0x650a7354; 0x766a0abb; 0x81c2c92e; 0x92722c85] ++
  [0xa2bfe8a1; 0xa81a664b; 0xc24b8b70; 0xc76c51a3; 0xd192e819; 0xd6990624; 0xf40e3585; 0x106aa070] ++
  [0x19a4c116; 0x1e376c08; 0x2748774c; 0x34b0bcb5; 0x391c0cb3; 0x4ed8aa4a; 0x5b9cca4f; 0x682e6ff3] ++
  [0x748f82ee; 0x78a5636f; 0x84c87814; 0x8cc70208; 0x90befffa; 0xa4506ceb; 0xbef9a3f7; 0xc67178f2].

Definition rotr (x n : Z) : Z := js_or (js_ushr x n) (js_shl x (32 - n)).

(** [view.getUint32(i, false)]. *)
Definition get_uint32_be (bs : bytes) (i : nat) : Z := be_num (take 4 (drop i bs)).

(** The initial hash value. *)
Definition H_init : list Z :=
  [0x6a09e667; 0xbb67ae85; 0x3c6ef372; 0xa54ff53a;
   0x510e527f; 0x9b05688c; 0x1f83d9ab; 0x5be0cd19].

(** [((message.length + 8) >> 6) * 64 + 64]. *)
Definition padLen (n : Z) : Z := js_shr (n + 8) 6 * 64 + 64.

(** The padding buffer: zeros, the message, 0x80 and the bit length. *)
Definition padded (message : bytes) : bytes :=
  let bitLen := zlen message * 8 in
  let padLen := Z.to_nat (padLen (zlen message)) in
  let buf := u8zeros padLen in
  let buf := set_at buf 0 message in
  let buf := set_at buf (length message) [0x80] in
  set_at buf (padLen - 8) (be_bytes 8 bitLen).

(** One iteration of the schedule loop, [w] holding the words so far. *)
Definition schedule_step (w : list Z) (i : nat) : list Z :=
  let w15 := nth (i - 15) w 0 in
  let w2 := nth (i - 2) w 0 in
  let s0 := js_xor (js_xor (rotr w15 7) (rotr w15 18)) (js_ushr w15 3) in
  let s1 := js_xor (js_xor (rotr w2 17) (rotr w2 19)) (js_ushr w2 10) in
  w ++ [to_uint32 (js_or (nth (i - 16) w 0 + s0 + nth (i - 7) w 0 + s1) 0)].

Definition schedule (padded : bytes) (offset : nat) : list Z :=
  let w := map (λ i, get_uint32_be padded (offset + i * 4)) (seq 0 16) in
  fold_left schedule_step (seq 16 48) w.

(** The working variables [a, b, c, d, e, f, g, hh]. *)
Record vars := Vars { va : Z; vb : Z; vc : Z; vd : Z; ve : Z; vf : Z; vg : Z; vh : Z }.

Definition round (w : list Z) (s : vars) (i : nat) : vars :=
  let '(Vars a b c d e f g hh) := s in
  let S1 := js_xor (js_xor (rotr e 6) (rotr e 11)) (rotr e 25) in
  let ch := js_xor (js_and e f) (js_and (js_not e) g) in
  let temp1 := js_or (hh + S1 + ch + nth i K 0 + nth i w 0) 0 in
  let S0 := js_xor (js_xor (rotr a 2) (rotr a 13)) (rotr a 22) in
  let maj := js_xor (js_xor (js_and a b) (js_and a c)) (js_and b c) in
  let temp2 := js_or (S0 + maj) 0 in
  Vars (js_or (temp1 + temp2) 0) a b c (js_or (d + temp1) 0) e f g.

Definition vars_of (h : list Z) : vars :=
  Vars (nth 0 h 0) (nth 1 h 0) (nth 2 h 0) (nth 3 h 0)
       (nth 4 h 0) (nth 5 h 0) (nth 6 h 0) (nth 7 h 0).

Definition vars_list (s : vars) : list Z :=
  [va s; vb s; vc s; vd s; ve s; vf s; vg s; vh s].

(** The body of the block loop: [h[k] = (h[k] + v) | 0], stored unsigned. *)
Definition block (padded : bytes) (h : list Z) (offset : nat) : list Z :=
  let s := fold_left (round (schedule padded offset)) (seq 0 64) (vars_of h) in
  zip_with (λ x y, to_uint32 (js_or (x + y) 0)) h (vars_list s).

(** The offsets [0, 64, ...] below [n]. *)
Definition offsets (n : nat) : list nat := map (λ k, (k * 64)%nat) (seq 0 (n / 64)).

End Sha.
Import Sha.

Definition sha256 (message : bytes) : bytes :=
  let padded := padded message in
  let h := fold_left (block padded) (offsets (length padded)) H_init in
  mjoin (map (be_bytes 4) h).

Definition hash256 (message : bytes) : bytes := sha256 (sha256 message).

Definition HMAC_BLOCK_SIZE : nat := 64.

Definition hmacSha256 (key : bytes) (messageParts : list bytes) : bytes :=
  let key := if (HMAC_BLOCK_SIZE <? length key)%nat then sha256 key else key in
  let paddedKey := set_at (u8zeros HMAC_BLOCK_SIZE) 0 key in
  let ipad := map (λ i, u8 (js_xor (nth i paddedKey 0) 0x36)) (seq 0 HMAC_BLOCK_SIZE) in
  let opad := map (λ i, u8 (js_xor (nth i paddedKey 0) 0x5c)) (seq 0 HMAC_BLOCK_SIZE) in
  let message := concatBytes messageParts in
  let inner := sha256 (concatBytes [ipad; message]) in
  sha256 (concatBytes [opad; inner]).

(** ** FIPS 180-4 *)

Module FIPS.
Definition SHR (n x : Z) : Z := Z.shiftr x n.

(** Section 4.1.2. *)
Definition Ch (x y z : Z) : Z := Z.lxor (Z.land x y) (Z.land (Word.compl x) z).
Definition Maj (x y z : Z) : Z := Z.lxor (Z.lxor (Z.land x y) (Z.land x z)) (Z.land y z).
Definition Sigma0 (x : Z) : Z := Z.lxor (Z.lxor (Word.rotr 2 x) (Word.rotr 13 x)) (Word.rotr 22 x).
Definition Sigma1 (x : Z) : Z := Z.lxor (Z.lxor (Word.rotr 6 x) (Word.rotr 11 x)) (Word.rotr 25 x).
Definition sigma0 (x : Z) : Z := Z.lxor (Z.lxor (Word.rotr 7 x) (Word.rotr 18 x)) (SHR 3 x).
Definition sigma1 (x : Z) : Z := Z.lxor (Z.lxor (Word.rotr 17 x) (Word.rotr 19 x)) (SHR 10 x).

(** Section 5.1.1, for messages of whole bytes: 0x80, the least number of
    zero bytes that leaves room for the length, the length in bits. *)
Definition pad (m : bytes) : bytes :=
  m ++ [0x80] ++ replicate (Z.to_nat ((55 - zlen m) mod 64)) 0 ++ be_bytes 8 (8 * zlen m).

(** Section 5.2.1: blocks of sixteen big-endian words. *)
Definition blocks (p : bytes) : list (list Z) :=
  map (λ k, map (λ i, be_num (take 4 (drop (k * 64 + i * 4) p))) (seq 0 16))
    (seq 0 (length p / 64)).

(** Section 6.2.2, step 1. *)
Definition W (M : list Z) : list Z :=
  fold_left (λ W t,
    W ++ [Word.add (Word.add (Word.add (sigma1 (nth (t - 2) W 0)) (nth (t - 7) W 0))
                   (sigma0 (nth (t - 15) W 0))) (nth (t - 16) W 0)])
    (seq 16 48) M.

(** Step 3. *)
Definition step (W : list Z) (s : vars) (t : nat) : vars :=
  let T1 := Word.add (Word.add (Word.add (Word.add (vh s) (Sigma1 (ve s))) (Ch (ve s) (vf s) (vg s)))
                     (nth t K 0)) (nth t W 0) in
  let T2 := Word.add (Sigma0 (va s)) (Maj (va s) (vb s) (vc s)) in
  Vars (Word.add T1 T2) (va s) (vb s) (vc s) (Word.add (vd s) T1) (ve s) (vf s) (vg s).

(** Steps 2 to 4. *)
Definition compress (H : list Z) (M : list Z) : list Z :=
  zip_with Word.add H (vars_list (fold_left (step (W M)) (seq 0 64) (vars_of H))).

Definition digest (m : bytes) : bytes :=
  mjoin (map (be_bytes 4) (fold_left compress (blocks (pad m)) H_init)).

(** RFC 2104 over this hash, for a key of bytes. *)
Definition hmac (key m : bytes) : bytes :=
  let k := if (64 <? length key)%nat then digest key else key in
  let k := k ++ replicate (64 - length k) 0 in
  digest (map (Z.lxor 0x5c) k ++ digest (map (Z.lxor 0x36) k ++ m)).
End FIPS.

(** ** Buffers *)

Lemma fold_len_acc (arrays : list bytes) n :
  fold_left (λ len a, (len + length a)%nat) arrays n = (n + length (mjoin arrays))%nat.
Proof.
  revert n. induction arrays as [|a l IH]; intros n; simpl; [lia|].
  rewrite IH, length_app. lia.
Qed.

Lemma concat_fold (arrays : list bytes) pre :
  fst (fold_left (λ '(out, offset) a, (set_at out offset a, (offset + length a)%nat))
         arrays (pre ++ u8zeros (length (mjoin arrays)), length pre))
  = pre ++ mjoin arrays.
Proof.
  revert pre. induction arrays as [|a l IH]; intros pre; [done|].
  simpl. rewrite length_app. unfold u8zeros. rewrite replicate_add.
  rewrite set_at_app by apply length_replicate.
  rewrite app_assoc, <-length_app. unfold u8zeros in IH. by rewrite IH, <-app_assoc.
Qed.

(** The copy loop of [concatBytes] is concatenation. *)
Lemma concatBytes_join arrays : concatBytes arrays = mjoin arrays.
Proof. unfold concatBytes. rewrite fold_len_acc. apply (concat_fold arrays []). Qed.

Lemma concatBytes_bytes arrays : Forall is_bytes arrays → is_bytes (concatBytes arrays).
Proof. rewrite concatBytes_join. induction 1; simpl; auto with bytes. Qed.

Lemma u32_rotr x n : 0 < n < 32 → u32 (rotr x n) = Word.rotr n (u32 x).
Proof.
  intros. unfold rotr, Word.rotr. by rewrite u32_or, u32_ushr, u32_shl by lia.
Qed.
#[export] Hint Rewrite u32_rotr using lia : u32.

(** ** The JavaScript computes FIPS 180-4 *)

Lemma schedule_step_fips w i :
  Forall is_word w →
  schedule_step w i
  = w ++ [Word.add (Word.add (Word.add (FIPS.sigma1 (nth (i - 2) w 0)) (nth (i - 7) w 0))
                     (FIPS.sigma0 (nth (i - 15) w 0))) (nth (i - 16) w 0)].
Proof.
  intros Hw. unfold schedule_step. do 2 f_equal.
  autorewrite with u32. rewrite add_rev. done.
Qed.

Lemma schedule_fold_fips ts w :
  Forall is_word w →
  fold_left schedule_step ts w
  = fold_left (λ W t,
      W ++ [Word.add (Word.add (Word.add (FIPS.sigma1 (nth (t - 2) W 0)) (nth (t - 7) W 0))
                     (FIPS.sigma0 (nth (t - 15) W 0))) (nth (t - 16) W 0)]) ts w
  ∧ Forall is_word (fold_left schedule_step ts w).
Proof.
  revert w. induction ts as [|i ts IH]; intros w Hw; [done|]. cbn [fold_left].
  rewrite <-schedule_step_fips by done. apply IH.
  unfold schedule_step. apply Forall_app. split; [done|].
  constructor; [apply to_uint32_word|constructor].
Qed.

Lemma get_uint32_word bs i : is_bytes bs → is_word (get_uint32_be bs i).
Proof.
  intros Hb. unfold get_uint32_be.
  pose proof (be_num_range (take 4 (drop i bs)) ltac:(auto with bytes)) as Hr.
  split; [lia|]. eapply Z.lt_le_trans; [apply Hr|].
  change (2 ^ 32) with (256 ^ 4). apply Z.pow_le_mono_r; [lia|].
  rewrite length_take. lia.
Qed.

Lemma schedule_fips p off :
  is_bytes p →
  schedule p off = FIPS.W (map (λ i, get_uint32_be p (off + i * 4)) (seq 0 16))
  ∧ Forall is_word (schedule p off).
Proof.
  intros. apply schedule_fold_fips, Forall_map, Forall_true.
  intros; by apply get_uint32_word.
Qed.

Definition u32_vars (s : vars) : vars :=
  let '(Vars a b c d e f g hh) := s in
  Vars (u32 a) (u32 b) (u32 c) (u32 d) (u32 e) (u32 f) (u32 g) (u32 hh).

Lemma K_words : Forall is_word K.
Proof. unfold K. repeat (constructor; [by split|]). constructor. Qed.

Lemma round_fips w s i :
  Forall is_word w → u32_vars (round w s i) = FIPS.step w (u32_vars s) i.
Proof.
  intros Hw. pose proof K_words. destruct s. unfold round, FIPS.step.
  cbn [u32_vars va vb vc vd ve vf vg vh]. by autorewrite with u32.
Qed.

Lemma rounds_fips w ts s :
  Forall is_word w →
  u32_vars (fold_left (round w) ts s) = fold_left (FIPS.step w) ts (u32_vars s).
Proof.
  intros Hw. revert s. induction ts as [|i ts IH]; intros s; [done|]. cbn [fold_left].
  by rewrite IH, round_fips.
Qed.

Lemma u32_vars_of h : Forall is_word h → u32_vars (vars_of h) = vars_of h.
Proof. intros. unfold vars_of, u32_vars. by rewrite !u32_nth by done. Qed.

Lemma zip_add h s :
  Forall is_word h →
  zip_with (λ x y, to_uint32 (js_or (x + y) 0)) h (vars_list s)
  = zip_with Word.add h (vars_list (u32_vars s)).
Proof.
  intros Hh. destruct s. unfold vars_list. cbn [u32_vars va vb vc vd ve vf vg vh].
  set (l := [va0; vb0; vc0; vd0; ve0; vf0; vg0; vh0]).
  change [u32 va0; _; _; _; _; _; _; _] with (map u32 l).
  generalize l. clear l. induction Hh as [|x h Hx Hh IH]; intros [|y l]; simpl; [done..|].
  rewrite u32_or0, u32_add, (u32_word x) by done. f_equal. apply IH.
Qed.

Lemma block_words p h off : Forall is_word (block p h off).
Proof.
  unfold block. generalize (vars_list (fold_left (round (schedule p off)) (seq 0 64) (vars_of h))).
  induction h as [|x h IH]; intros [|y l]; simpl; constructor; auto using to_uint32_word.
Qed.

Lemma block_fips p h off :
  is_bytes p → Forall is_word h →
  block p h off = FIPS.compress h (map (λ i, get_uint32_be p (off + i * 4)) (seq 0 16)).
Proof.
  intros Hp Hh. destruct (schedule_fips p off Hp) as [Hs Hw].
  unfold block, FIPS.compress. rewrite zip_add by done.
  rewrite rounds_fips, u32_vars_of by done. by rewrite Hs.
Qed.

Lemma blocks_fips p ks h :
  is_bytes p → Forall is_word h →
  fold_left (block p) (map (λ k, (k * 64)%nat) ks) h
  = fold_left FIPS.compress
      (map (λ k, map (λ i, be_num (take 4 (drop (k * 64 + i * 4) p))) (seq 0 16)) ks) h.
Proof.
  intros Hp. revert h. induction ks as [|k ks IH]; intros h Hh; [done|].
  cbn [map fold_left]. rewrite IH by apply block_words. by rewrite block_fips.
Qed.

Lemma H_init_words : Forall is_word H_init.
Proof. unfold H_init. repeat (constructor; [by split|]). constructor. Qed.

(** The buffer the code fills is the message FIPS pads. *)
Lemma padded_fips m : zlen m + 8 < 2 ^ 31 → padded m = FIPS.pad m.
Proof.
  intros Hm. unfold padded, FIPS.pad, padLen. rewrite pad_buffer, Z.mul_comm; [done..|].
  apply length_be_bytes.
Qed.

Lemma padded_bytes m : is_bytes m → is_bytes (padded m).
Proof. intros. apply pad_buffer_bytes; auto with bytes. Qed.

Lemma sha256_fips m : is_bytes m → zlen m + 8 < 2 ^ 31 → sha256 m = FIPS.digest m.
Proof.
  intros Hb Hm. unfold sha256, FIPS.digest, offsets, FIPS.blocks.
  rewrite blocks_fips by auto using H_init_words, padded_bytes.
  by rewrite padded_fips.
Qed.

(** ** The digest *)

Lemma sha256_bytes m : is_bytes (sha256 m).
Proof.
  unfold sha256. induction (fold_left _ _ _) as [|x l IH]; [constructor|].
  apply is_bytes_app_2; [apply be_bytes_bytes|done].
Qed.
#[export] Hint Resolve sha256_bytes : bytes.

Lemma length_block p h off : length h = 8%nat → length (block p h off) = 8%nat.
Proof. intros Hh. unfold block. rewrite length_zip_with, Hh. done. Qed.

Lemma length_blocks p os h :
  length h = 8%nat → length (fold_left (block p) os h) = 8%nat.
Proof.
  revert h. induction os as [|o os IH]; intros h Hh; [done|].
  apply IH. by apply length_block.
Qed.

Lemma length_sha256 m : length (sha256 m) = 32%nat.
Proof.
  unfold sha256. pose proof (length_blocks (padded m) (offsets (length (padded m))) H_init eq_refl) as Hl.
  revert Hl. generalize (fold_left (block (padded m)) (offsets (length (padded m))) H_init).
  assert (∀ l, length (mjoin (map (be_bytes 4) l)) = (4 * length l)%nat) as Hj.
  { induction l as [|x l IH]; [done|].
    rewrite map_cons, mjoin_cons, length_cons, length_app, length_be_bytes, IH. lia. }
  intros l Hl. by rewrite Hj, Hl.
Qed.

Lemma hash256_bytes m : is_bytes (hash256 m).
Proof. apply sha256_bytes. Qed.
Lemma length_hash256 m : length (hash256 m) = 32%nat.
Proof. apply length_sha256. Qed.
#[export] Hint Resolve hash256_bytes : bytes.

Lemma hash256_fips m :
  is_bytes m → zlen m + 8 < 2 ^ 31 → hash256 m = FIPS.digest (FIPS.digest m).
Proof.
  intros. unfold hash256. rewrite (sha256_fips (sha256 m)).
  - by rewrite sha256_fips.
  - apply sha256_bytes.
  - rewrite length_sha256. lia.
Qed.

(** ** HMAC *)

Lemma xor_byte b c : is_byte b → is_byte c → u8 (js_xor b c) = Z.lxor c b.
Proof.
  intros [??] [??]. unfold js_xor. rewrite !to_int32_small by lia.
  rewrite Z.lxor_comm. apply u8_small. apply (lxor_range c b 8); lia.
Qed.

Lemma pad_key (k : bytes) c :
  is_bytes k → (length k ≤ 64)%nat → is_byte c →
  map (λ i, u8 (js_xor (nth i (set_at (u8zeros 64) 0 k) 0) c)) (seq 0 64)
  = map (Z.lxor c) (k ++ replicate (64 - length k) 0).
Proof.
  intros Hk Hl Hc.
  assert (set_at (u8zeros 64) 0 k = k ++ replicate (64 - length k) 0) as ->.
  { unfold set_at, u8zeros. by rewrite drop_replicate. }
  set (p := k ++ _).
  assert (is_bytes p) as Hp.
  { apply is_bytes_app_2; [done|apply is_bytes_zeros]. }
  assert (length p = 64%nat) as Hlp.
  { unfold p. rewrite length_app, length_replicate. lia. }
  rewrite <-Hlp. clearbody p. clear Hlp Hk Hl k. induction Hp as [|b p Hb Hp IH]; [done|].
  cbn [length seq map nth]. rewrite xor_byte by done. f_equal.
  rewrite <-seq_shift, map_map. apply IH.
Qed.

Lemma hmacSha256_fips key parts :
  is_bytes key → Forall is_bytes parts →
  zlen key + 8 < 2 ^ 31 → zlen (mjoin parts) + 72 < 2 ^ 31 →
  hmacSha256 key parts = FIPS.hmac key (mjoin parts).
Proof.
  intros Hk Hp Hlk Hlp. unfold hmacSha256, FIPS.hmac, HMAC_BLOCK_SIZE.
  rewrite <-(sha256_fips key) by done.
  set (k := if (64 <? length key)%nat then sha256 key else key).
  assert (is_bytes k ∧ (length k ≤ 64)%nat) as [Hk' Hl].
  { unfold k. destruct (Nat.ltb_spec 64 (length key)); [|by split; [|lia]].
    split; [apply sha256_bytes|]. rewrite length_sha256. lia. }
  rewrite !pad_key by (done || (split; lia)).
  rewrite !concatBytes_join. cbn [mjoin list_join]. rewrite !app_nil_r.
  assert (∀ c, is_byte c → is_bytes (map (Z.lxor c) (k ++ replicate (64 - length k) 0))
            ∧ zlen (map (Z.lxor c) (k ++ replicate (64 - length k) 0)) = 64) as Hpad.
  { intros c [??]. split.
    - assert (is_bytes (k ++ replicate (64 - length k) 0)) as Hz.
      { apply is_bytes_app_2; [done|apply is_bytes_zeros]. }
      apply Forall_map. eapply Forall_impl; [|exact Hz].
      intros x [??]. unfold is_byte. apply (lxor_range c x 8); lia.
    - rewrite length_map, length_app, length_replicate. lia. }
  destruct (Hpad 0x36) as [Hi1 Hi2]; [by split|]. destruct (Hpad 0x5c) as [Ho1 Ho2]; [by split|].
  assert (is_bytes (mjoin parts)) by (rewrite <-concatBytes_join; by apply concatBytes_bytes).
  rewrite (sha256_fips (_ ++ mjoin parts)).
  - rewrite sha256_fips; [done|..].
    + rewrite <-sha256_fips; auto with bytes. rewrite length_app. lia.
    + rewrite <-sha256_fips; [rewrite length_app, length_sha256; lia|auto with bytes|].
      rewrite length_app. lia.
  - auto with bytes.
  - rewrite length_app. lia.
Qed.

Lemma hmacSha256_bytes key parts : is_bytes (hmacSha256 key parts).
Proof. apply sha256_bytes. Qed.
Lemma length_hmacSha256 key parts : length (hmacSha256 key parts) = 32%nat.
Proof. apply length_sha256. Qed.
#[export] Hint Resolve hmacSha256_bytes : bytes.

(** ** Properties *)

(** C39 For every message below 2^31 - 8 bytes, [sha256] returns the digest FIPS
    180-4 defines, thirty-two bytes long: the signed 32-bit arithmetic and the
    in-place padding buffer compute the standard's words and blocks. *)
Theorem sha256_implements_fips180 m :
  is_bytes m → zlen m + 8 < 2 ^ 31 →
  sha256 m = FIPS.digest m ∧ length (sha256 m) = 32%nat.
Proof. intros. split; [by apply sha256_fips|apply length_sha256]. Qed.

(** The digest of "abc" in FIPS 180-4's example, through the theorem. *)
Lemma sha256_implements_fips180_witness :
  be_num (FIPS.digest [97; 98; 99])
  = 0xba7816bf8f01cfea414140de5dae2223b00361a396177a9cb410ff61f20015ad.
Proof.
  rewrite <-(proj1 (sha256_implements_fips180 [97; 98; 99]
    ltac:(apply (bool_decide_unpack (is_bytes _)); by vm_compute) ltac:(by vm_compute))).
  vm_compute. reflexivity.
Defined.

(** [hmacSha256] is RFC 2104's HMAC over SHA-256 of the concatenation of its
    message parts, for keys of any length, including those longer than a block
    that are hashed first. *)
Theorem hmacSha256_implements_rfc2104 key parts :
  is_bytes key → Forall is_bytes parts →
  zlen key + 8 < 2 ^ 31 → zlen (mjoin parts) + 72 < 2 ^ 31 →
  hmacSha256 key parts = FIPS.hmac key (mjoin parts)
  ∧ length (hmacSha256 key parts) = 32%nat.
Proof. intros. split; [by apply hmacSha256_fips|apply length_hmacSha256]. Qed.

(** RFC 4231, test case 1, with the message in two parts. *)
Lemma hmacSha256_implements_rfc2104_witness :
  be_num (FIPS.hmac (replicate 20 0x0b) [72; 105; 32; 84; 104; 101; 114; 101])
  = 0xb0344c61d8db38535ca8afceaf0bf12b881dc200c9833da726e9376c2e32cff7.
Proof.
  change [72; 105; 32; 84; 104; 101; 114; 101]
    with (mjoin (M:=list) [[72; 105; 32]; [84; 104; 101; 114; 101]]).
  rewrite <-(proj1 (hmacSha256_implements_rfc2104 (replicate 20 0x0b)
    [[72; 105; 32]; [84; 104; 101; 114; 101]]
    ltac:(apply (bool_decide_unpack (is_bytes _)); by vm_compute)
    ltac:(apply (bool_decide_unpack (Forall is_bytes _)); by vm_compute)
    ltac:(by vm_compute) ltac:(by vm_compute))).
  vm_compute. reflexivity.
Defined.
