(* ===== verification/Ripemd160.v ===== *)
(** * RIPEMD-160: [contrib/uap-js/ripemd160.js]

    The translation of the JavaScript (signed 32-bit operators, in-place
    padding), RIPEMD-160 as ISO/IEC 10118-3 states it over unsigned words, and
    the proof that the first computes the second. *)

From stdpp Require Import base tactics option list numbers.
From Stdlib Require Import ZArith Lia.
From S2P Require Import Prelude JsInt Words.

(** ** The program *)

Module Rmd.

Definition rol (x n : Z) : Z := js_or (js_shl x n) (js_ushr x (32 - n)).

Definition f (j : nat) (x y z : Z) : Z :=
  if (j <? 16)%nat then js_xor (js_xor x y) z
  else if (j <? 32)%nat then js_or (js_and x y) (js_and (js_not x) z)
  else if (j <? 48)%nat then js_xor (js_or x (js_not y)) z
  else if (j <? 64)%nat then js_or (js_and x z) (js_and y (js_not z))
  else js_xor x (js_or y (js_not z)).

Definition zl : list nat :=
  [0; 1; 2; 3; 4; 5; 6; 7; 8; 9; 10; 11; 12; 13; 14; 15;
   7; 4; 13; 1; 10; 6; 15; 3; 12; 0; 9; 5; 2; 14; 11; 8;
   3; 10; 14; 4; 9; 15; 8; 1; 2; 7; 0; 6; 13; 11; 5; 12;
   1; 9; 11; 10; 0; 8; 12; 4; 13; 3; 7; 15; 14; 5; 6; 2;
   4; 0; 5; 9; 7; 12; 2; 10; 14; 1; 3; 8; 11; 6; 15; 13]%nat.
Definition sl : list Z :=
  [11; 14; 15; 12; 5; 8; 7; 9; 11; 13; 14; 15; 6; 7; 9; 8;
   7; 6; 8; 13; 11; 9; 7; 15; 7; 12; 15; 9; 11; 7; 13; 12;
   11; 13; 6; 7; 14; 9; 13; 15; 14; 8; 13; 6; 5; 12; 7; 5;
   11; 12; 14; 15; 14; 15; 9; 8; 9; 14; 5; 6; 8; 6; 5; 12;
   9; 15; 5; 11; 6; 8; 13; 12; 5; 12; 13; 14; 11; 8; 5; 6].
Definition kl : list Z := [0x00000000; 0x5a827999; 0x6ed9eba1; 0x8f1bbcdc; 0xa953fd4e].
Definition zr : list nat :=
  [5; 14; 7; 0; 9; 2; 11; 4; 13; 6; 15; 8; 1; 10; 3; 12;
   6; 11; 3; 7; 0; 13; 5; 10; 14; 15; 8; 12; 4; 9; 1; 2;
   15; 5; 1; 3; 7; 14; 6; 9; 11; 8; 12; 2; 10; 0; 4; 13;
   8; 6; 4; 1; 3; 11; 15; 0; 5; 12; 2; 13; 9; 7; 10; 14;
   12; 15; 10; 4; 1; 5; 8; 7; 6; 2; 13; 14; 0; 3; 9; 11]%nat.
Definition sr : list Z :=
  [8; 9; 9; 11; 13; 15; 15; 5; 7; 7; 8; 11; 14; 14; 12; 6;
   9; 13; 15; 7; 12; 8; 9; 11; 7; 7; 12; 7; 6; 15; 13; 11;
   9; 7; 15; 11; 8; 6; 6; 14; 12; 13; 5; 14; 13; 13; 7; 5;
   15; 5; 8; 11; 14; 14; 6; 14; 6; 9; 12; 9; 12; 5; 15; 8;
   8; 5; 12; 9; 12; 5; 14; 6; 8; 13; 6; 5; 15; 13; 11; 11].
Definition kr : list Z := [0x50a28be6; 0x5c4dd124; 0x6d703ef3; 0x7a6d76e9; 0x00000000].

(** Five chaining variables: [h0 .. h4], or a line's [a b c d e]. *)
Record state := State { sa : Z; sb : Z; sc : Z; sd : Z; se : Z }.

(** [view.getUint32(i, true)]. *)
Definition get_uint32_le (bs : bytes) (i : nat) : Z := le_num (take 4 (drop i bs)).

(** The body of either line's loop; the right line calls [f] with [79 - j]. *)
Definition line_step (fj : nat) (x k s : Z) (v : state) : state :=
  let '(State a b c d e) := v in
  let t := js_or (a + f fj b c d + x + k) 0 in
  let rotated := rol t s in
  let newB := js_or (rotated + e) 0 in
  State e newB b (rol c 10) d.

Definition left_step (X : list Z) (v : state) (j : nat) : state :=
  line_step j (nth (nth j zl 0%nat) X 0) (nth (j / 16) kl 0) (nth j sl 0) v.

Definition right_step (X : list Z) (v : state) (j : nat) : state :=
  line_step (79 - j) (nth (nth j zr 0%nat) X 0) (nth (j / 16) kr 0) (nth j sr 0) v.

Definition h_init : state :=
  State 0x67452301 0xefcdab89 0x98badcfe 0x10325476 0xc3d2e1f0.

(** The body of the block loop. *)
Definition rmd_block (padded : bytes) (h : state) (offset : nat) : state :=
  let X := map (λ i, get_uint32_le padded (offset + i * 4)) (seq 0 16) in
  let l := fold_left (left_step X) (seq 0 80) h in
  let r := fold_left (right_step X) (seq 0 80) h in
  let '(State h0 h1 h2 h3 h4) := h in
  let t := js_or (h1 + sc l + sd r) 0 in
  State t (js_or (h2 + sd l + se r) 0) (js_or (h3 + se l + sa r) 0)
    (js_or (h4 + sa l + sb r) 0) (js_or (h0 + sb l + sc r) 0).

Definition rmd_padded (bs : bytes) : bytes :=
  let bitLen := zlen bs * 8 in
  let padLen := Z.to_nat (js_shr (zlen bs + 8) 6 * 64 + 64) in
  let padded := u8zeros padLen in
  let padded := set_at padded 0 bs in
  let padded := set_at padded (length bs) [0x80] in
  set_at padded (padLen - 8) (le_bytes 8 bitLen).

End Rmd.
Import Rmd.

Definition ripemd160 (bs : bytes) : bytes :=
  let padded := rmd_padded bs in
  let h := fold_left (rmd_block padded)
             (map (λ k, (k * 64)%nat) (seq 0 (length padded / 64))) h_init in
  le_bytes 4 (sa h) ++ le_bytes 4 (sb h) ++ le_bytes 4 (sc h)
    ++ le_bytes 4 (sd h) ++ le_bytes 4 (se h).

(** ** ISO/IEC 10118-3, dedicated hash function 1 *)

Module ISO.

(** The round functions, on words. *)
Definition f1 (x y z : Z) : Z := Z.lxor (Z.lxor x y) z.
Definition f2 (x y z : Z) : Z := Z.lor (Z.land x y) (Z.land (Word.compl x) z).
Definition f3 (x y z : Z) : Z := Z.lxor (Z.lor x (Word.compl y)) z.
Definition f4 (x y z : Z) : Z := Z.lor (Z.land x z) (Z.land y (Word.compl z)).
Definition f5 (x y z : Z) : Z := Z.lxor x (Z.lor y (Word.compl z)).

Definition phi (i : nat) : Z → Z → Z → Z :=
  match (i / 16)%nat with 0%nat => f1 | 1%nat => f2 | 2%nat => f3 | 3%nat => f4 | _ => f5 end.

Definition pad (m : bytes) : bytes :=
  m ++ [0x80] ++ replicate (Z.to_nat ((55 - zlen m) mod 64)) 0 ++ le_bytes 8 (8 * zlen m).

Definition blocks (p : bytes) : list (list Z) :=
  map (λ k, map (λ i, le_num (take 4 (drop (k * 64 + i * 4) p))) (seq 0 16))
    (seq 0 (length p / 64)).

(** One step of a line: W is the rotated sum of the variable, the round
    function, the data word and the constant. *)
Definition step (g : Z → Z → Z → Z) (x k s : Z) (v : state) : state :=
  let W := Word.add (Word.rotl s
             (Word.add (Word.add (Word.add (sa v) (g (sb v) (sc v) (sd v))) x) k)) (se v) in
  State (se v) W (sb v) (Word.rotl 10 (sc v)) (sd v).

Definition left (Z_ : list Z) (v : state) : state :=
  fold_left (λ v i, step (phi i) (nth (nth i zl 0%nat) Z_ 0) (nth (i / 16) kl 0) (nth i sl 0) v)
    (seq 0 80) v.
Definition right (Z_ : list Z) (v : state) : state :=
  fold_left (λ v i, step (phi (79 - i)) (nth (nth i zr 0%nat) Z_ 0) (nth (i / 16) kr 0) (nth i sr 0) v)
    (seq 0 80) v.

Definition compress (Y : state) (Z_ : list Z) : state :=
  let l := left Z_ Y in
  let r := right Z_ Y in
  State (Word.add (Word.add (sb Y) (sc l)) (sd r)) (Word.add (Word.add (sc Y) (sd l)) (se r))
        (Word.add (Word.add (sd Y) (se l)) (sa r)) (Word.add (Word.add (se Y) (sa l)) (sb r))
        (Word.add (Word.add (sa Y) (sb l)) (sc r)).

Definition rmd160 (m : bytes) : bytes :=
  let h := fold_left compress (blocks (pad m)) h_init in
  mjoin (map (le_bytes 4) [sa h; sb h; sc h; sd h; se h]).

End ISO.

(** ** The JavaScript computes it *)

Lemma u32_rol x n : 0 < n < 32 → u32 (rol x n) = Word.rotl n (u32 x).
Proof. intros. unfold rol, Word.rotl. by rewrite u32_or, u32_shl, u32_ushr by lia. Qed.

Lemma u32_f j x y z : (j < 80)%nat → u32 (f j x y z) = ISO.phi j (u32 x) (u32 y) (u32 z).
Proof.
  intros Hj. unfold f, ISO.phi.
  destruct (Nat.ltb_spec j 16).
  { rewrite <-(Nat.div_unique j 16 0 j) by lia. by autorewrite with u32. }
  destruct (Nat.ltb_spec j 32).
  { rewrite <-(Nat.div_unique j 16 1 (j - 16)) by lia. rewrite u32_or. by autorewrite with u32. }
  destruct (Nat.ltb_spec j 48).
  { rewrite <-(Nat.div_unique j 16 2 (j - 32)) by lia. rewrite u32_xor, u32_or. by autorewrite with u32. }
  destruct (Nat.ltb_spec j 64).
  { rewrite <-(Nat.div_unique j 16 3 (j - 48)) by lia. rewrite u32_or. by autorewrite with u32. }
  rewrite <-(Nat.div_unique j 16 4 (j - 64)) by lia. rewrite u32_xor, u32_or. by autorewrite with u32.
Qed.

Definition u32_state (v : state) : state :=
  State (u32 (sa v)) (u32 (sb v)) (u32 (sc v)) (u32 (sd v)) (u32 (se v)).

Lemma line_step_iso j x k s v :
  (j < 80)%nat → is_word x → is_word k → 0 < s < 32 →
  u32_state (line_step j x k s v) = ISO.step (ISO.phi j) x k s (u32_state v).
Proof.
  intros Hj Hx Hk Hs. destruct v. unfold line_step, ISO.step, u32_state.
  cbn [sa sb sc sd se]. autorewrite with u32.
  rewrite !u32_rol, u32_or0 by lia. autorewrite with u32.
  by rewrite u32_f, (u32_word x), (u32_word k) by done.
Qed.

(** A fold whose steps agree on the indices it visits. *)
Lemma fold_steps {A B} (h : A → B) (g : A → nat → A) (g' : B → nat → B) ts v :
  Forall (λ i, ∀ v, h (g v i) = g' (h v) i) ts →
  h (fold_left g ts v) = fold_left g' ts (h v).
Proof.
  intros Hts. revert v. induction Hts as [|i ts Hi Hts IH]; intros v; [done|].
  cbn [fold_left]. by rewrite IH, Hi.
Qed.

Lemma shifts_range :
  Forall (λ s, 0 < s < 32) sl ∧ Forall (λ s, 0 < s < 32) sr.
Proof. unfold sl, sr. split; repeat (constructor; [lia|]); constructor. Qed.

Lemma consts_words : Forall is_word kl ∧ Forall is_word kr.
Proof. unfold kl, kr. split; repeat (constructor; [by split|]); constructor. Qed.

Lemma nth_Forall {A} (P : A → Prop) l d i : Forall P l → (i < length l)%nat → P (nth i l d).
Proof. intros Hl Hi. apply (proj1 (List.Forall_forall P l) Hl), nth_In, Hi. Qed.

Lemma left_iso X v :
  Forall is_word X →
  u32_state (fold_left (left_step X) (seq 0 80) v) = ISO.left X (u32_state v).
Proof.
  intros HX. apply fold_steps, Forall_seq. intros j Hj v'.
  apply line_step_iso; [lia|by apply nth_word|apply nth_word, consts_words|].
  apply (nth_Forall (λ s, 0 < s < 32)); [apply shifts_range|]. simpl. lia.
Qed.

Lemma right_iso X v :
  Forall is_word X →
  u32_state (fold_left (right_step X) (seq 0 80) v) = ISO.right X (u32_state v).
Proof.
  intros HX. apply fold_steps, Forall_seq. intros j Hj v'.
  apply line_step_iso; [lia|by apply nth_word|apply nth_word, consts_words|].
  apply (nth_Forall (λ s, 0 < s < 32)); [apply shifts_range|]. simpl. lia.
Qed.

Lemma le_word bs i : is_bytes bs → is_word (get_uint32_le bs i).
Proof.
  intros Hb. unfold get_uint32_le.
  pose proof (le_num_range (take 4 (drop i bs)) ltac:(auto with bytes)) as Hr.
  split; [lia|]. eapply Z.lt_le_trans; [apply Hr|].
  change (2 ^ 32) with (256 ^ 4). apply Z.pow_le_mono_r; [lia|].
  rewrite length_take. lia.
Qed.

Lemma block_iso p h off :
  is_bytes p →
  u32_state (rmd_block p h off)
  = ISO.compress (u32_state h) (map (λ i, get_uint32_le p (off + i * 4)) (seq 0 16)).
Proof.
  intros Hp. unfold rmd_block, ISO.compress.
  set (X := map _ _).
  assert (Forall is_word X) as HX.
  { apply Forall_map, Forall_true. intros. by apply le_word. }
  rewrite <-left_iso, <-right_iso by done.
  destruct h. unfold u32_state. cbn [sa sb sc sd se]. by autorewrite with u32.
Qed.

Lemma blocks_iso p ks h :
  is_bytes p →
  u32_state (fold_left (rmd_block p) (map (λ k, (k * 64)%nat) ks) h)
  = fold_left ISO.compress
      (map (λ k, map (λ i, le_num (take 4 (drop (k * 64 + i * 4) p))) (seq 0 16)) ks)
      (u32_state h).
Proof.
  intros Hp. revert h. induction ks as [|k ks IH]; intros h; [done|].
  cbn [map fold_left]. by rewrite IH, block_iso.
Qed.

Lemma rmd_padded_iso m : zlen m + 8 < 2 ^ 31 → rmd_padded m = ISO.pad m.
Proof.
  intros Hm. unfold rmd_padded, ISO.pad. rewrite pad_buffer, Z.mul_comm; [done..|].
  apply length_le_bytes.
Qed.

Lemma le_bytes_u32 x : le_bytes 4 (u32 x) = le_bytes 4 x.
Proof.
  apply le_num_inj; [auto with bytes..| |].
  - by rewrite !length_le_bytes.
  - rewrite !le_num_le_bytes. apply Z.mod_mod. lia.
Qed.

Lemma ripemd160_iso m :
  is_bytes m → zlen m + 8 < 2 ^ 31 → ripemd160 m = ISO.rmd160 m.
Proof.
  intros Hb Hm. unfold ripemd160, ISO.rmd160, ISO.blocks.
  rewrite <-rmd_padded_iso by done.
  pose proof (blocks_iso (rmd_padded m) (seq 0 (length (rmd_padded m) / 64)) h_init) as Hi.
  change (u32_state h_init) with h_init in Hi.
  rewrite <-Hi by (apply pad_buffer_bytes; auto with bytes).
  rewrite !map_cons, !mjoin_cons. cbn [map mjoin list_join]. rewrite app_nil_r.
  unfold u32_state. cbn [sa sb sc sd se]. by rewrite !le_bytes_u32.
Qed.

Lemma ripemd160_bytes m : is_bytes (ripemd160 m).
Proof. unfold ripemd160. auto 10 with bytes. Qed.
#[export] Hint Resolve ripemd160_bytes : bytes.

Lemma length_ripemd160 m : length (ripemd160 m) = 20%nat.
Proof. unfold ripemd160. by rewrite !length_app, !length_le_bytes. Qed.

(** ** Properties *)

(** For every message below 2^31 - 8 bytes, [ripemd160] returns the 20-byte
    digest of ISO/IEC 10118-3's dedicated hash function 1. *)
Theorem ripemd160_implements_iso10118 m :
  is_bytes m → zlen m + 8 < 2 ^ 31 →
  ripemd160 m = ISO.rmd160 m ∧ length (ripemd160 m) = 20%nat.
Proof. intros. split; [by apply ripemd160_iso|apply length_ripemd160]. Qed.

(** The published digest of "abc", through the theorem. *)
Lemma ripemd160_implements_iso10118_witness :
  be_num (ISO.rmd160 [97; 98; 99]) = 0x8eb208f7e05d987a9b044a8e98c6b087f15a0bfc.
Proof.
  rewrite <-(proj1 (ripemd160_implements_iso10118 [97; 98; 99]
    ltac:(apply (bool_decide_unpack (is_bytes _)); by vm_compute) ltac:(by vm_compute))).
  vm_compute. reflexivity.
Defined.
