(* ===== verification/Addr.v ===== *)
(** * Addresses: [contrib/uap-js/addr.js]

    Base58, Base58Check and the conversion between pay-to-pubkey-hash
    addresses and their scripts.  The theorems: Base58 is a bijection between
    byte strings and strings over its alphabet, Base58Check decoding inverts
    encoding and accepts nothing else, and an address converts to a script and
    back without loss, while an address of any other kind is refused. *)

From stdpp Require Import base tactics option list numbers strings pretty.
From Stdlib Require Import ZArith Lia Ascii.
From S2P Require Import Prelude JsInt JsStr Words Radix Sha256 Ripemd160.

Definition ALPHABET : string :=
  "123456789ABCDEFGHJKLMNPQRSTUVWXYZabcdefghijkmnopqrstuvwxyz".

Definition hash160 (bs : bytes) : bytes := ripemd160 (sha256 bs).

(** [ALPHABET[d]]. *)
Definition base58_char (d : Z) : ascii := default "1"%char (chars ALPHABET !! Z.to_nat d).

(** [while (num > 0n) { encoded = ALPHABET[Number(num % 58n)] + encoded; num = num / 58n; }] *)
Fixpoint encode_loop (fuel : nat) (num : Z) (encoded : string) : string :=
  match fuel with
  | O => encoded
  | S fuel =>
      if 0 <? num
      then encode_loop fuel (num / 58) (str_of [base58_char (num mod 58)] +:+ encoded)
      else encoded
  end.

Definition base58Encode (bs : bytes) : string :=
  let leadingZeros := count_leading 0 bs in
  let num := fold_left (λ num b, Z.lor (Z.shiftl num 8) b) bs 0 in
  let encoded :=
    if (num =? 0) && (0 <? zlen bs) then EmptyString
    else if num =? 0 then EmptyString
    else encode_loop (fuel_for num) num EmptyString in
  repeat_char "1"%char leadingZeros +:+ encoded.

Definition decode_digit (num : Z) (c : ascii) : res Z :=
  let digit := indexOf ALPHABET c in
  if digit =? -1 then Throw ("invalid base58 character: " +:+ str_of [c])
  else Ok (num * 58 + digit).

(** [while (num > 0n) { bytes.unshift(Number(num & 0xffn)); num = num >> 8n; }] *)
Fixpoint bytes_loop (fuel : nat) (num : Z) (bs : bytes) : bytes :=
  match fuel with
  | O => bs
  | S fuel =>
      if 0 <? num then bytes_loop fuel (Z.shiftr num 8) (Z.land num 0xff :: bs) else bs
  end.

Definition base58Decode (str : string) : res bytes :=
  let leadingOnes := count_leading "1"%char (chars str) in
  num ← foldR decode_digit 0 (drop leadingOnes (chars str));
  let bs := bytes_loop (fuel_for num) num [] in
  Ok (set_at (u8zeros (leadingOnes + length bs)) leadingOnes (u8of bs)).

Definition base58checkEncode (payload : bytes) (version : Z) : string :=
  let versionByte := u8of [version] in
  let toHash := concatBytes [versionByte; payload] in
  let checksum := hash256 toHash in
  let withChecksum := concatBytes [toHash; slice checksum 0 4] in
  base58Encode withChecksum.

Record decoded := Decoded { version : Z; payload : bytes }.

Definition base58checkDecode (str : string) : res decoded :=
  decoded ← base58Decode str;
  let n := zlen decoded in
  _ ← throw_if (n <? 5) "base58check string too short";
  let version := at_ decoded 0 in
  let payload := slice decoded 1 (n - 4) in
  let checksum := slice decoded (n - 4) n in
  let toHash := concatBytes [u8of [version]; payload] in
  let expectedChecksum := slice (hash256 toHash) 0 4 in
  let checksumOk :=
    fold_left (λ ok i, if negb (at_ checksum i =? at_ expectedChecksum i) then false else ok)
      [0; 1; 2; 3] true in
  _ ← throw_if (negb checksumOk) "invalid base58check checksum";
  Ok (Decoded version payload).

Definition buildP2PKHScript (pubkey : bytes) : bytes :=
  let h := hash160 pubkey in
  concatBytes [u8of [0x76; 0xa9; 0x14]; h; u8of [0x88; 0xac]].

Definition pubkeyToAddress (pubkey : bytes) (version : Z) : string :=
  base58checkEncode (hash160 pubkey) version.

Record versions := Versions { PUBKEY_ADDRESS : Z; SCRIPT_ADDRESS : Z; SECRET_KEY : Z }.

Definition mainnet : versions := Versions 0x49 0x16 0x9e.
Definition testnet : versions := Versions 0x71 0xc4 0xf1.
Definition regtest : versions := Versions 0x49 0xc4 0xef.
Definition VERSIONS : list (string * versions) :=
  [("mainnet", mainnet); ("testnet", testnet); ("regtest", regtest)].

Definition p2pkhVersions : list Z := map (λ v, PUBKEY_ADDRESS v.2) VERSIONS.

Definition addressToScript (address : string) : res bytes :=
  '(Decoded version payload) ← base58checkDecode address;
  _ ← throw_if (negb (existsb (Z.eqb version) p2pkhVersions))
        ("addressToScript: refusing to encode address version byte 0x"
         +:+ padStart (byte_toString16 version) 2 "0"%char +:+ " as a P2PKH output. "
         +:+ "Only pay-to-pubkey-hash addresses are supported; "
         +:+ "a P2SH (or otherwise unknown) address encoded this way would be unspendable.");
  _ ← throw_if (negb (zlen payload =? 20))
        ("addressToScript: expected a 20-byte hash160 payload, got "
         +:+ dec (zlen payload) +:+ " bytes");
  Ok (concatBytes [u8of [0x76; 0xa9; 0x14]; payload; u8of [0x88; 0xac]]).

Definition scriptToAddress (script : bytes) (version : Z) : res string :=
  _ ← throw_if (negb (zlen script =? 25)) "script length is not 25";
  _ ← throw_if (negb (at_ script 0 =? 0x76)) "script does not start with OP_DUP";
  _ ← throw_if (negb (at_ script 1 =? 0xa9)) "script does not have OP_HASH160";
  _ ← throw_if (negb (at_ script 2 =? 0x14)) "script does not have PUSH(20)";
  _ ← throw_if (negb (at_ script 23 =? 0x88)) "script does not have OP_EQUALVERIFY";
  _ ← throw_if (negb (at_ script 24 =? 0xac)) "script does not end with OP_CHECKSIG";
  let hash := slice script 3 23 in
  Ok (base58checkEncode hash version).

(** ** The alphabet *)

Lemma indexOf_char d : 0 ≤ d < 58 → indexOf ALPHABET (base58_char d) = d.
Proof.
  intros Hd.
  assert (forallb (λ d, indexOf ALPHABET (base58_char d) =? d) (seqZ 0 58) = true) as H
    by (vm_compute; reflexivity).
  rewrite forallb_forall in H. apply Z.eqb_eq, H, list_elem_of_In, elem_of_seqZ. lia.
Qed.

Lemma char_indexOf c :
  indexOf ALPHABET c ≠ -1 →
  0 ≤ indexOf ALPHABET c < 58 ∧ base58_char (indexOf ALPHABET c) = c.
Proof.
  intros Hc. rewrite <-(chr_code c) in *. revert Hc.
  assert (forallb (λ z, let i := indexOf ALPHABET (chr z) in
            (i =? -1) || ((0 <=? i) && (i <? 58) && Ascii.eqb (base58_char i) (chr z)))
          (seqZ 0 256) = true) as H by (vm_compute; reflexivity).
  rewrite forallb_forall in H. specialize (H (code c)).
  rewrite <-list_elem_of_In, elem_of_seqZ in H. pose proof (code_range c).
  specialize (H ltac:(lia)). intros Hc.
  apply orb_true_iff in H as [H|H]; simp_bool; [done|].
  split; [lia|]. by apply Ascii.eqb_eq.
Qed.

Lemma base58_char_one d : 0 ≤ d < 58 → base58_char d = "1"%char → d = 0.
Proof.
  intros Hd H. rewrite <-(indexOf_char d), H by done. done.
Qed.

(** ** Base58 *)

Lemma base256 bs n :
  0 ≤ n → is_bytes bs →
  fold_left (λ num b, Z.lor (Z.shiftl num 8) b) bs n = of_digits 256 n bs.
Proof.
  intros Hn Hb. revert n Hn. induction Hb as [|b bs Hb Hbs IH]; intros n Hn; [done|].
  cbn [fold_left of_digits]. rewrite be_step by done. destruct Hb.
  rewrite IH by lia. unfold of_digits. cbn [fold_left]. f_equal. lia.
Qed.

Lemma encode_loop_digits fuel num acc :
  chars (encode_loop fuel num acc) = map base58_char (to_digits 58 fuel num []) ++ chars acc.
Proof.
  revert num acc. induction fuel as [|fuel IH]; intros num acc; [done|].
  cbn [encode_loop]. case_match.
  - rewrite to_digits_snoc by (simp_bool; lia).
    rewrite IH, chars_app, chars_str_of, map_app, <-app_assoc. done.
  - cbn [to_digits]. by rewrite H.
Qed.

Lemma bytes_loop_digits fuel num acc :
  0 ≤ num → bytes_loop fuel num acc = to_digits 256 fuel num acc.
Proof.
  revert num acc. induction fuel as [|fuel IH]; intros num acc Hn; [done|].
  cbn [bytes_loop to_digits]. case_match; [|done].
  rewrite Z.shiftr_div_pow2 by lia. change 0xff with (Z.ones 8). rewrite Z.land_ones by lia.
  apply IH. apply Z.div_pos; lia.
Qed.

(** The string of a byte string: a one for each leading zero, then the
    canonical base-58 numeral. *)
Lemma base58Encode_spec k bs :
  is_bytes bs → match bs with b :: _ => b ≠ 0 | [] => True end →
  let num := of_digits 256 0 bs in
  chars (base58Encode (replicate k 0 ++ bs))
  = replicate k "1"%char ++ map base58_char (to_digits 58 (fuel_for num) num []).
Proof.
  intros Hb Hz num. unfold base58Encode. rewrite count_leading_app by done.
  rewrite base256 by (done || (apply is_bytes_app_2; [apply is_bytes_zeros|done])).
  rewrite of_digits_zeros. fold num. unfold repeat_char. rewrite chars_app, chars_str_of.
  f_equal. destruct (Z.eqb_spec num 0) as [->|Hn].
  - by destruct (0 <? _).
  - simpl andb. cbn iota. rewrite encode_loop_digits. apply app_nil_r.
Qed.

Lemma decode_digit_char num d :
  is_digit 58 d → decode_digit num (base58_char d) = Ok (num * 58 + d).
Proof.
  intros Hd. unfold decode_digit. rewrite indexOf_char by done.
  destruct (Z.eqb_spec d (-1)); [destruct Hd; lia|done].
Qed.

(** A string: ones, then digits the first of which is not zero. *)
Lemma decode_digits num ds :
  Forall (is_digit 58) ds →
  foldR decode_digit num (map base58_char ds) = Ok (of_digits 58 num ds).
Proof.
  intros Hd. revert num. induction Hd as [|d ds Hd Hds IH]; intros num; [done|].
  cbn [map foldR]. rewrite decode_digit_char by done. apply IH.
Qed.

Lemma decode_digits_inv num l n :
  foldR decode_digit num l = Ok n →
  ∃ ds, l = map base58_char ds ∧ Forall (is_digit 58) ds ∧ n = of_digits 58 num ds.
Proof.
  revert num. induction l as [|c l IH]; intros num H; simpl in H; simp_res.
  - by exists [].
  - apply IH in H0 as (ds & -> & Hds & ->). unfold decode_digit in H.
    case_match; simp_res. simp_bool.
    destruct (char_indexOf c) as [Hr Hc]; [done|].
    exists (indexOf ALPHABET c :: ds). cbn [map]. rewrite Hc. split_and!; [done| |done].
    by constructor.
Qed.

Lemma base58Decode_spec k ds :
  canonical 58 ds →
  let num := of_digits 58 0 ds in
  base58Decode (str_of (replicate k "1"%char ++ map base58_char ds))
  = Ok (replicate k 0 ++ to_digits 256 (fuel_for num) num []).
Proof.
  intros [Hd Hz] num. unfold base58Decode. rewrite chars_str_of.
  assert (match map base58_char ds with c :: _ => c ≠ "1"%char | [] => True end) as Hz'.
  { destruct ds as [|d ds]; [done|]. simpl. intros E. apply Hz.
    apply base58_char_one; [|done]. by inversion Hd. }
  rewrite count_leading_app, drop_app_length' by (done || by rewrite length_replicate).
  rewrite decode_digits by done. fold num. cbn [mbind res_bind].
  assert (0 ≤ num) by (apply of_digits_nonneg; [lia|done]).
  rewrite bytes_loop_digits by done. f_equal. unfold u8zeros.
  rewrite u8of_small by (by apply to_digits_range).
  rewrite replicate_add.
  set (bs := to_digits 256 _ _ _).
  pose proof (set_at_app (replicate k 0) (replicate (length bs) 0) [] bs) as E.
  rewrite !app_nil_r, !length_replicate in E. by apply E.
Qed.

Lemma base58_decode_encode bs : is_bytes bs → base58Decode (base58Encode bs) = Ok bs.
Proof.
  intros Hb. destruct (count_leading_spec 0 bs) as [E Hz].
  set (k := count_leading 0 bs) in *. set (cs := drop k bs) in *.
  assert (is_bytes cs) as Hc by (unfold cs; auto with bytes).
  rewrite E. rewrite <-(str_of_chars (base58Encode _)), base58Encode_spec by done.
  pose proof (of_digits_nonneg 256 ltac:(lia) cs Hc).
  rewrite base58Decode_spec.
  - rewrite of_to_digits by (lia || by apply fuel_enough). do 2 f_equal.
    apply to_of_digits; [lia|by split|by apply fuel_enough].
  - apply to_digits_canonical; [lia|done|by apply fuel_enough].
Qed.

Lemma base58_encode_decode s bs : base58Decode s = Ok bs → base58Encode bs = s ∧ is_bytes bs.
Proof.
  destruct (count_leading_spec "1"%char (chars s)) as [E Hz].
  intros H. assert (H' := H). unfold base58Decode in H. simp_res.
  set (k := count_leading _ _) in *.
  apply decode_digits_inv in H as (ds & Hl & Hd & ->).
  rewrite Hl in E, Hz.
  assert (canonical 58 ds) as Hc.
  { split; [done|]. destruct ds as [|d ds]; [done|]. simpl in Hz. by intros ->. }
  assert (s = str_of (replicate k "1"%char ++ map base58_char ds)) as Es.
  { by rewrite <-E, str_of_chars. }
  rewrite Es, base58Decode_spec in H' by done. apply Ok_inj in H' as <-.
  pose proof (of_digits_nonneg 58 ltac:(lia) ds Hd).
  destruct (to_digits_canonical 256 ltac:(lia) (fuel_for (of_digits 58 0 ds)) (of_digits 58 0 ds))
    as [Hb Hz2]; [done|by apply fuel_enough|].
  split.
  - apply chars_inj. rewrite base58Encode_spec by done. cbv zeta.
    rewrite Es, chars_str_of, of_to_digits by (lia || by apply fuel_enough).
    rewrite to_of_digits; [done|lia|done|by apply fuel_enough].
  - apply is_bytes_app_2; [apply is_bytes_zeros|done].
Qed.

(** ** Base58Check *)

(** The bytes Base58Check encodes: version, payload, checksum. *)
Definition check_bytes (v : Z) (p : bytes) : bytes := (v :: p) ++ take 4 (hash256 (v :: p)).

Lemma check_bytes_bytes v p : is_byte v → is_bytes p → is_bytes (check_bytes v p).
Proof.
  intros. unfold check_bytes. apply is_bytes_app_2; [by constructor|auto with bytes].
Qed.

Lemma length_check_bytes v p : zlen (check_bytes v p) = zlen p + 5.
Proof.
  unfold check_bytes. rewrite length_app, length_take, length_hash256. simpl length. lia.
Qed.

Lemma base58checkEncode_bytes v p :
  is_byte v → base58checkEncode p v = base58Encode (check_bytes v p).
Proof.
  intros Hv. unfold base58checkEncode. rewrite !concatBytes_join.
  unfold u8of, check_bytes, slice. cbn [map]. rewrite u8_small by done.
  cbn [mjoin list_join]. by rewrite !app_nil_r, drop_0.
Qed.

Lemma checksum_cmp a b :
  length a = 4%nat → length b = 4%nat →
  fold_left (λ ok i, if negb (at_ a i =? at_ b i) then false else ok) [0; 1; 2; 3] true = true
  ↔ a = b.
Proof.
  intros Ha Hb. destruct a as [|a0 [|a1 [|a2 [|a3 [|]]]]], b as [|b0 [|b1 [|b2 [|b3 [|]]]]];
    try done. unfold at_. simpl.
  split; [|by intros [= -> -> -> ->]; rewrite !Z.eqb_refl].
  destruct (Z.eqb_spec a3 b3); [|done]. destruct (Z.eqb_spec a2 b2); [|done].
  destruct (Z.eqb_spec a1 b1); [|done]. destruct (Z.eqb_spec a0 b0); [|done].
  by simplify_eq.
Qed.

(** A byte string of at least five bytes splits into version, payload and
    the last four. *)
Lemma check_split d :
  5 ≤ zlen d →
  d = (at_ d 0 :: slice d 1 (zlen d - 4)) ++ slice d (zlen d - 4) (zlen d)
  ∧ length (slice d (zlen d - 4) (zlen d)) = 4%nat.
Proof.
  intros Hd. split.
  - simpl. rewrite slice_slice by lia. destruct d; [simpl in Hd; lia|done].
  - unfold slice. rewrite length_take, length_drop. lia.
Qed.

Lemma base58checkDecode_spec s v p :
  base58checkDecode s = Ok (Decoded v p)
  ↔ is_byte v ∧ is_bytes p ∧ base58checkEncode p v = s.
Proof.
  split.
  - unfold base58checkDecode. intros H. simp_res. rename x into d.
    apply base58_encode_decode in H as [<- Hb]. simp_bool. simplify_eq.
    destruct (check_split d) as [Hd Hl]; [lia|].
    assert (is_byte (at_ d 0)) as Hv by auto with bytes.
    assert (is_bytes (slice d 1 (zlen d - 4))) as Hp by auto with bytes.
    split_and!; [done..|].
    rewrite base58checkEncode_bytes by done. f_equal.
    rewrite concatBytes_join in *. unfold u8of in *. cbn [map] in *.
    rewrite (u8_small _ Hv) in *. cbn [mjoin list_join] in *. rewrite app_nil_r in *.
    unfold check_bytes. trans ((at_ d 0 :: slice d 1 (zlen d - 4)) ++ slice d (zlen d - 4) (zlen d));
      [|done].
    f_equal. symmetry. apply checksum_cmp; [done| |done].
    by rewrite length_take, length_hash256.
  - intros (Hv & Hp & <-). rewrite base58checkEncode_bytes by done.
    unfold base58checkDecode.
    rewrite base58_decode_encode by (by apply check_bytes_bytes).
    cbn [mbind res_bind]. pose proof (length_check_bytes v p) as Hl. rewrite Hl.
    rewrite (proj2 (Z.ltb_ge _ _)) by lia. cbn [throw_if mbind res_bind].
    assert (at_ (check_bytes v p) 0 = v) as -> by done.
    assert (slice (check_bytes v p) 1 (zlen p + 5 - 4) = p) as ->.
    { apply (slice_app_mid [v] p); simpl; lia. }
    assert (slice (check_bytes v p) (zlen p + 5 - 4) (zlen p + 5) = take 4 (hash256 (v :: p))) as ->.
    { apply slice_app_end; rewrite ?length_take, ?length_hash256; simpl length; lia. }
    rewrite concatBytes_join. unfold u8of. cbn [map]. rewrite u8_small by done.
    cbn [mjoin list_join]. rewrite app_nil_r.
    change (slice (hash256 ([v] ++ p)) 0 4) with (take 4 (hash256 (v :: p))).
    assert (length (take 4 (hash256 (v :: p))) = 4%nat) as H4
      by (by rewrite length_take, length_hash256).
    by rewrite (proj2 (checksum_cmp _ _ H4 H4) eq_refl).
Qed.

(** ** Scripts *)

Definition p2pkh_script (h : bytes) : bytes := [0x76; 0xa9; 0x14] ++ h ++ [0x88; 0xac].

Lemma p2pkh_concat h : concatBytes [u8of [0x76; 0xa9; 0x14]; h; u8of [0x88; 0xac]] = p2pkh_script h.
Proof. by rewrite concatBytes_join. Qed.

Lemma hash160_bytes bs : is_bytes (hash160 bs).
Proof. apply ripemd160_bytes. Qed.
#[export] Hint Resolve hash160_bytes : bytes.
Lemma length_hash160 bs : length (hash160 bs) = 20%nat.
Proof. apply length_ripemd160. Qed.

Lemma buildP2PKHScript_spec pk : buildP2PKHScript pk = p2pkh_script (hash160 pk).
Proof. apply p2pkh_concat. Qed.

(** What [addressToScript] accepts, and what it makes of it. *)
Lemma addressToScript_spec a s :
  addressToScript a = Ok s
  ↔ ∃ v h, v ∈ p2pkhVersions ∧ is_bytes h ∧ length h = 20%nat
           ∧ a = base58checkEncode h v ∧ s = p2pkh_script h.
Proof.
  unfold addressToScript. rewrite bind_Ok. split.
  - intros ([v h] & Hd & H). apply base58checkDecode_spec in Hd as (Hv & Hh & <-). simp_res.
    simp_bool. exists v, h. split_and!; [|done|lia|done|apply p2pkh_concat].
    apply existsb_exists in H as (x & Hx & E). simp_bool. subst. by apply list_elem_of_In.
  - intros (v & h & Hv & Hh & Hl & -> & ->).
    assert (existsb (Z.eqb v) p2pkhVersions = true) as He.
    { apply existsb_exists. exists v. split; [by apply list_elem_of_In|apply Z.eqb_refl]. }
    exists (Decoded v h). split.
    + apply base58checkDecode_spec. split_and!; [|done..].
      assert (Forall is_byte p2pkhVersions) as Hall by (apply (bool_decide_unpack (is_bytes _)); by vm_compute).
      by eapply Forall_forall in Hall.
    + by rewrite He, Hl, p2pkh_concat.
Qed.

Lemma slice_p2pkh h : length h = 20%nat → slice (p2pkh_script h) 3 23 = h.
Proof. intros Hl. apply (slice_app_mid [0x76; 0xa9; 0x14]); simpl length; lia. Qed.

Lemma scriptToAddress_spec s v a :
  is_bytes s →
  scriptToAddress s v = Ok a
  ↔ ∃ h, is_bytes h ∧ length h = 20%nat ∧ s = p2pkh_script h ∧ a = base58checkEncode h v.
Proof.
  intros Hs. split.
  - unfold scriptToAddress. intros H. simp_res. simp_bool.
    exists (slice s 3 23). split_and!; [auto with bytes| | |done].
    + pose proof (length_slice s 3 23). lia.
    + assert (length s = 25%nat) as Hl by lia. clear H.
      do 25 (destruct s as [|? s]; [done|]). destruct s; [|done].
      unfold at_ in *. simpl in *. by subst.
  - intros (h & Hh & Hl & -> & ->). unfold scriptToAddress.
    rewrite slice_p2pkh by done.
    do 20 (destruct h as [|? h]; [done|]). by destruct h.
Qed.

(** ** Properties *)

(** Base58 is a bijection between byte strings and the strings over its
    alphabet: decoding inverts encoding, and a string that decodes is the
    encoding of what it decodes to, leading zero bytes and ones included. *)
Theorem base58_bijection bs s :
  is_bytes bs →
  base58Decode (base58Encode bs) = Ok bs
  ∧ (base58Decode s = Ok bs ↔ base58Encode bs = s).
Proof.
  intros Hb. split; [by apply base58_decode_encode|]. split.
  - apply base58_encode_decode.
  - intros <-. by apply base58_decode_encode.
Qed.

Lemma base58_bijection_witness :
  base58Decode "11StV1DL6CwTryKyV"
  = Ok [0; 0; 104; 101; 108; 108; 111; 32; 119; 111; 114; 108; 100].
Proof.
  apply (base58_bijection [0; 0; 104; 101; 108; 108; 111; 32; 119; 111; 114; 108; 100]).
  - apply (bool_decide_unpack (is_bytes _)). by vm_compute.
  - by vm_compute.
Defined.

(** [base58checkDecode] accepts exactly the strings [base58checkEncode]
    produces and returns what was encoded; any other string throws. *)
Theorem base58checkDecode_iff s v p :
  base58checkDecode s = Ok (Decoded v p)
  ↔ is_byte v ∧ is_bytes p ∧ base58checkEncode p v = s.
Proof. apply base58checkDecode_spec. Qed.

(** C40 [addressToScript] and [scriptToAddress] are inverse on pay-to-pubkey-hash
    addresses of a known network: the script of an address names the 20-byte
    hash inside it, the address of the script is the address again, and an
    address of any other version byte (a script hash) or payload length is
    refused. *)
Theorem addressToScript_iff a s :
  is_bytes s →
  addressToScript a = Ok s
  ↔ ∃ v, v ∈ p2pkhVersions ∧ scriptToAddress s v = Ok a.
Proof.
  intros Hs. rewrite addressToScript_spec. setoid_rewrite scriptToAddress_spec; [|done]. split.
  - intros (v & h & ? & ? & ? & -> & ->). exists v. split; [done|]. by exists h.
  - intros (v & ? & h & ? & ? & -> & ->). by exists v, h.
Qed.

Lemma addressToScript_iff_witness :
  addressToScript (base58checkEncode (replicate 20 9) 0x71) = Ok (p2pkh_script (replicate 20 9)).
Proof.
  assert (is_bytes (replicate 20 9)) as Hh by (apply (bool_decide_unpack (is_bytes _)); by vm_compute).
  assert (is_bytes (p2pkh_script (replicate 20 9))) as Hs by (apply (bool_decide_unpack (is_bytes _)); by vm_compute).
  apply (addressToScript_iff (base58checkEncode (replicate 20 9) 0x71) (p2pkh_script (replicate 20 9)) Hs).
  exists 0x71. split; [apply (bool_decide_unpack (_ ∈ p2pkhVersions)); by vm_compute|].
  apply scriptToAddress_spec; [exact Hs|]. exists (replicate 20 9). by split_and!.
Defined.
