(* ===== verification/Script.v ===== *)
(** * UAP scripts: [contrib/uap-js/uap.js], script building and reading

    Hexadecimal helpers, minimal pushes and script numbers, the mint and
    transfer covenants, the lineage origin of a spend, the reader of covenant
    scripts and the metadata record of a mint.

    The central result is that building and reading are exact inverses: a
    script parses to given fields if and only if it is the one script the
    builder emits for them, so no second encoding of a position exists.  It is
    proved through [raw], the byte encoding of one script element, and
    [readPushes_spec], which says the reader splits a script into elements in
    the only possible way. *)

From stdpp Require Import base tactics option list numbers strings pretty.
From Stdlib Require Import ZArith Lia Ascii.
From S2P Require Import Prelude JsInt JsStr JsNum Words Radix Sha256.

(** ** Constants *)

Definition OP_MINT : Z := 0xb5.
Definition OP_MINT_TRANSFER : Z := 0xba.
Definition OP_PUSHDATA1 : Z := 0x4c.
Definition OP_PUSHDATA2 : Z := 0x4d.
Definition OP_PUSHDATA4 : Z := 0x4e.
Definition OP_CODESEPARATOR : Z := 0xab.
Definition OP_0 : Z := 0x00.
Definition OP_1 : Z := 0x51.

Definition SIGHASH_ALL : Z := 1.
Definition COIN : Z := 100000000.

Definition RECOMMENDED_MIN_TX_FEE : Z := COIN / 100.
Definition DEFAULT_DUST_LIMIT : Z := RECOMMENDED_MIN_TX_FEE.
Definition DEFAULT_HARD_DUST_LIMIT : Z := DEFAULT_DUST_LIMIT / 10.
Definition DEFAULT_TRANSACTION_MAXFEE : Z := RECOMMENDED_MIN_TX_FEE * 10000.

(** ** Byte helpers *)

(** The loop of [hexToBytes]: two characters at a time, a pair that is not a
    number stored as zero. *)
Fixpoint hex_pairs (l : list ascii) : bytes :=
  match l with
  | c1 :: c2 :: l => u8 (default 0 (parseInt16 [c1; c2])) :: hex_pairs l
  | _ => []
  end.

Definition hexToBytes (hex : string) : res bytes :=
  _ ← throw_if (negb (slen hex mod 2 =? 0)) "invalid hex string";
  Ok (hex_pairs (chars hex)).

Definition bytesToHex (bs : bytes) : string :=
  foldr (λ b s, padStart (byte_toString16 b) 2 "0"%char +:+ s) EmptyString bs.

Definition reverseBytes (bs : bytes) : bytes := reverse (u8of bs).

(** ** Script building *)

Definition pushData (data : bytes) : res bytes :=
  let n := zlen data in
  if n <? OP_PUSHDATA1 then Ok (concatBytes [u8of [n]; data])
  else if n <=? 0xff then Ok (concatBytes [u8of [OP_PUSHDATA1; n]; data])
  else if n <=? 0xffff
  then Ok (concatBytes [u8of [OP_PUSHDATA2; js_and n 0xff; js_and (js_shr n 8) 0xff]; data])
  else Throw "push too large for this helper".

(** [while (abs > 0) { out.push(abs & 0xff); abs = Math.floor(abs / 256); }] *)
Fixpoint num_loop (fuel : nat) (abs : Z) (out : bytes) : bytes :=
  match fuel with
  | O => out
  | S fuel => if 0 <? abs then num_loop fuel (abs / 256) (out ++ [js_and abs 0xff]) else out
  end.

(** [out[out.length - 1]], and the array with it replaced. *)
Definition last_of (out : bytes) : Z := at_ out (zlen out - 1).
Definition set_last (out : bytes) (b : Z) : bytes := take (length out - 1) out ++ [b].

Definition scriptNumBytes (n : Z) : bytes :=
  if n =? 0 then []
  else
    let neg := n <? 0 in
    let abs := if neg then - n else n in
    let out := num_loop (fuel_for abs) abs [] in
    let out :=
      if negb (js_and (last_of out) 0x80 =? 0) then out ++ [if neg then 0x80 else 0x00]
      else if neg then set_last out (js_or (last_of out) 0x80)
      else out in
    u8of out.

Definition encodeUint32LE (n : Z) : bytes :=
  u8of [js_and n 0xff; js_and (js_shr n 8) 0xff; js_and (js_shr n 16) 0xff;
        js_and (js_ushr n 24) 0xff].

(** The integer a number is, where the code has checked that it is one. *)
Definition num_Z (n : Number) : Z := match n with Fin m _ => m | _ => 0 end.

Definition deriveOrigin (txid : string) (vout : Number) : res bytes :=
  txidBytes ← hexToBytes txid;
  _ ← throw_if (negb (zlen txidBytes =? 32))
        ("txid must be exactly 32 bytes, got " +:+ dec (zlen txidBytes));
  _ ← throw_if (negb (isInteger vout) || (vout <? Int 0)%num || (vout >? Int 0xffffffff)%num)
        "vout must be an unsigned 32-bit integer";
  let reversed := reverseBytes txidBytes in
  let voutLE := encodeUint32LE (num_Z vout) in
  let preimage := concatBytes [reversed; voutLE] in
  Ok (sha256 preimage).

Definition originForSpend (scriptCode : option bytes) (txid : string) (vout : Number) : res bytes :=
  match scriptCode with
  | None => Throw "originForSpend needs the scriptCode of the position being spent"
  | Some scriptCode =>
      _ ← throw_if (zlen scriptCode <? 1)
            "originForSpend needs the scriptCode of the position being spent";
      let last := at_ scriptCode (zlen scriptCode - 1) in
      if last =? OP_MINT then deriveOrigin txid vout
      else if last =? OP_MINT_TRANSFER then
        let n := zlen scriptCode in
        _ ← throw_if ((n <? 34) || negb (at_ scriptCode (n - 34) =? 0x20))
              "transfer scriptCode does not carry a 32-byte origin push";
        Ok (slice scriptCode (n - 33) (n - 1))
      else Throw "scriptCode is not a UAP mint or transfer covenant"
  end.

Definition pushMultiplier (n : Number) : res bytes :=
  _ ← throw_if (negb (isInteger n) || (n <? Int 0)%num || (n >? Int 2147483647)%num)
        "multiplier must be an integer in [0, 2147483647]";
  if (n =? Int 0)%num then Ok (u8of [OP_0])
  else if (n <=? Int 16)%num then Ok (u8of [OP_1 + (num_Z n - 1)])
  else pushData (scriptNumBytes (num_Z n)).

Definition buildMintScript (pubkey : bytes) (multiplier : Number) : res bytes :=
  a ← pushData pubkey;
  b ← pushMultiplier multiplier;
  Ok (concatBytes [a; b; u8of [OP_MINT]]).

Definition buildTransferScript (pubkey : bytes) (multiplier : Number) (origin : option bytes)
    : res bytes :=
  match origin with
  | None => Throw "buildTransferScript requires origin parameter (32-byte Uint8Array)"
  | Some origin =>
      _ ← throw_if (negb (zlen origin =? 32))
            ("origin must be exactly 32 bytes, got " +:+ dec (zlen origin));
      a ← pushData pubkey;
      b ← pushMultiplier multiplier;
      c ← pushData origin;
      Ok (concatBytes [a; b; c; u8of [OP_MINT_TRANSFER]])
  end.

(** ** Reading a script back *)

Record push := scriptPush { isPush : bool; opcode : Z; data : bytes }.

(** The length a [PUSHDATA] opcode announces at offset [i], with the number of
    bytes that spell it. *)
Definition pushdata_len (script : bytes) (i : Z) (w : nat) : Z :=
  match w with
  | 1%nat => at_ script i
  | 2%nat => js_or (at_ script i) (js_shl (at_ script (i + 1)) 8)
  | _ => js_ushr (js_or (js_or (js_or (at_ script i) (js_shl (at_ script (i + 1)) 8))
                          (js_shl (at_ script (i + 2)) 16)) (js_shl (at_ script (i + 3)) 24)) 0
  end.

(** One of the three [PUSHDATA] branches of [readPushes], [i] just past the
    opcode: the element and the offset behind it. *)
Definition read_pushdata (script : bytes) (i b : Z) (w : nat) (name : string) : res (push * Z) :=
  _ ← throw_if (i + Z.of_nat w >? zlen script) ("truncated " +:+ name);
  let n := pushdata_len script i w in
  let i := i + Z.of_nat w in
  _ ← throw_if (i + n >? zlen script) ("truncated " +:+ name +:+ " payload");
  Ok (scriptPush true b (slice script i (i + n)), i + n).

(** The body of the loop of [readPushes], at offset [i]. *)
Definition read_push (script : bytes) (i : Z) : res (push * Z) :=
  let b := at_ script i in
  let i := i + 1 in
  if (1 <=? b) && (b <=? 0x4b) then
    _ ← throw_if (i + b >? zlen script) ("truncated push at offset " +:+ dec (i - 1));
    Ok (scriptPush true b (slice script i (i + b)), i + b)
  else if b =? OP_PUSHDATA1 then read_pushdata script i b 1 "PUSHDATA1"
  else if b =? OP_PUSHDATA2 then read_pushdata script i b 2 "PUSHDATA2"
  else if b =? OP_PUSHDATA4 then read_pushdata script i b 4 "PUSHDATA4"
  else if b =? OP_0 then Ok (scriptPush true b [], i)
  else Ok (scriptPush false b [], i).

(** [while (i < script.length)]; every iteration moves on by a byte or more. *)
Fixpoint read_loop (fuel : nat) (script : bytes) (i : Z) (out : list push) : res (list push) :=
  match fuel with
  | O => Ok out
  | S fuel =>
      if i <? zlen script then
        '(p, i) ← read_push script i; read_loop fuel script i (out ++ [p])
      else Ok out
  end.

Definition readPushes (script : bytes) : res (list push) :=
  read_loop (length script) script 0 [].

Definition isMinimalPush (p : push) : bool :=
  let n := zlen (data p) in
  let d0 := at_ (data p) 0 in
  if n =? 0 then opcode p =? OP_0
  else if (n =? 1) && (1 <=? d0) && (d0 <=? 16) then opcode p =? 0x50 + d0
  else if (n =? 1) && (d0 =? 0x81) then opcode p =? 0x4f
  else if n <=? 75 then opcode p =? n
  else if n <=? 255 then opcode p =? OP_PUSHDATA1
  else if n <=? 65535 then opcode p =? OP_PUSHDATA2
  else true.

Definition isMinimalScriptNum (data : bytes) : bool :=
  let n := zlen data in
  if n =? 0 then true
  else if js_and (at_ data (n - 1)) 0x7f =? 0
  then (1 <? n) && negb (js_and (at_ data (n - 2)) 0x80 =? 0)
  else true.

(** [result |= BigInt(data[i]) << BigInt(8 * i)], over the indices in order. *)
Definition num_or_loop (data : bytes) : Z :=
  fold_left (λ result i, Z.lor result (Z.shiftl (nth i data 0) (8 * Z.of_nat i)))
    (seq 0 (length data)) 0.

Definition scriptNumToInt64 (data : bytes) : res Number :=
  let n := zlen data in
  if n =? 0 then Ok (Int 0)
  else
    _ ← throw_if (n >? 8) ("script number too long (" +:+ dec n +:+ " bytes)");
    let result := num_or_loop data in
    let result :=
      if negb (js_and (at_ data (n - 1)) 0x80 =? 0)
      then - Z.land result (Z.lnot (Z.shiftl 0x80 (8 * (n - 1))))
      else result in
    Ok (of_bigint result).

Record uap_script :=
  UapScript { pubkey : bytes; multiplier : Number; origin : bytes; isMint : bool }.

(** The multiplier element of a covenant, [None] when it is not canonical. *)
Definition read_multiplier (mult : push) : option Number :=
  if negb (isPush mult) && (0x51 <=? opcode mult) && (opcode mult <=? 0x60)
  then Some (Int (opcode mult - 0x50))
  else if isPush mult && isMinimalPush mult && isMinimalScriptNum (data mult) then
    match scriptNumToInt64 (data mult) with Ok m => Some m | Throw _ => None end
  else None.

Definition parseUapScript (scriptPubKey : bytes) : option uap_script :=
  if zlen scriptPubKey <? 2 then None
  else
  let last := at_ scriptPubKey (zlen scriptPubKey - 1) in
  if negb (last =? OP_MINT) && negb (last =? OP_MINT_TRANSFER) then None
  else
  let isMint := last =? OP_MINT in
  match readPushes scriptPubKey with
  | Throw _ => None
  | Ok pushes =>
      let wantLen := if isMint then 3 else 4 in
      if negb (zlen pushes =? wantLen) then None
      else
      let nil := scriptPush false 0 [] in
      let pk := nth 0 pushes nil in
      if negb (isPush pk) || negb (isMinimalPush pk)
         || (negb (zlen (data pk) =? 33) && negb (zlen (data pk) =? 65)) then None
      else
      multiplier ← read_multiplier (nth 1 pushes nil);
      if negb (isInteger multiplier) || (multiplier <? Int 0)%num
         || (multiplier >? Int 2147483647)%num then None
      else
      if isMint then
        if isPush (nth 2 pushes nil) || negb (opcode (nth 2 pushes nil) =? OP_MINT) then None
        else Some (UapScript (data pk) multiplier [] true)
      else
        let originElem := nth 2 pushes nil in
        if negb (isPush originElem) || negb (isMinimalPush originElem)
           || negb (zlen (data originElem) =? 32) then None
        else if isPush (nth 3 pushes nil) || negb (opcode (nth 3 pushes nil) =? OP_MINT_TRANSFER)
        then None
        else Some (UapScript (data pk) multiplier (data originElem) false)
  end.

(** ** Metadata *)

Definition METADATA_MAGIC : bytes := u8of [0x57; 0x55; 0x41; 0x50].
Definition METADATA_VERSION : Z := 0x02.
Definition OP_RETURN : Z := 0x6a.
Definition MAX_METADATA_SCRIPT_BYTES : Z := 83.
Definition METADATA_FIXED_OVERHEAD : Z := 10.
Definition MAX_METADATA_PAYLOAD_BYTES : Z := MAX_METADATA_SCRIPT_BYTES - METADATA_FIXED_OVERHEAD.
Definition MAX_TICKER_BYTES : Z := 8.

(** The check of the character at position [i]. *)
Definition ticker_char (i : Z) (ch : ascii) : res Z :=
  let code := code ch in
  let isDigit := (0x30 <=? code) && (code <=? 0x39) in
  let isUpper := (0x41 <=? code) && (code <=? 0x5a) in
  _ ← throw_if (negb isDigit && negb isUpper)
        ("ticker contains invalid character " +:+ json_string (str_of [ch])
         +:+ " at position " +:+ dec i +:+ "; only A-Z and 0-9 are allowed");
  Ok (i + 1).

Definition normalizeTicker (ticker : option string) : res string :=
  let upper := toUpperCase (default EmptyString ticker) in
  _ ← throw_if ((slen upper <? 1) || (slen upper >? MAX_TICKER_BYTES))
        ("ticker must be 1.." +:+ dec MAX_TICKER_BYTES +:+ " characters, got " +:+ dec (slen upper));
  _ ← foldR ticker_char 0 (chars upper);
  Ok upper.

Definition buildMetadataScript (ticker : option string) (metadataHash : option bytes) : res bytes :=
  ticker ← normalizeTicker ticker;
  let tickerBytes := utf8 ticker in
  let hashBytes := default [] metadataHash in
  _ ← throw_if (negb (zlen hashBytes =? 0) && negb (zlen hashBytes =? 32))
        ("metadata hash must be empty or exactly 32 bytes, got " +:+ dec (zlen hashBytes));
  a ← pushData METADATA_MAGIC;
  b ← pushData (u8of [METADATA_VERSION]);
  c ← pushData tickerBytes;
  d ← pushData hashBytes;
  let script := concatBytes [u8of [OP_RETURN]; a; b; c; d] in
  _ ← throw_if (zlen script >? MAX_METADATA_SCRIPT_BYTES)
        ("internal error: built a " +:+ dec (zlen script) +:+ "-byte metadata script, over the "
         +:+ dec MAX_METADATA_SCRIPT_BYTES +:+ "-byte relay ceiling");
  Ok script.

(** ** Hexadecimal *)

Definition hex_byte (b : Z) : list ascii := [hexdigit (b / 16); hexdigit (b mod 16)].

Lemma chars_bytesToHex bs :
  is_bytes bs → chars (bytesToHex bs) = mjoin (map hex_byte bs).
Proof.
  unfold bytesToHex. induction 1 as [|b bs Hb Hbs IH]; [done|]. cbn [foldr map].
  rewrite mjoin_cons, chars_app, IH, padStart_byte by done. by rewrite chars_str_of.
Qed.

Lemma length_hex_bytes bs : length (mjoin (map hex_byte bs)) = (2 * length bs)%nat.
Proof. induction bs as [|b bs IH]; [done|]. rewrite map_cons, mjoin_cons, length_app, IH. simpl. lia. Qed.

Lemma hex_pairs_bytes bs : is_bytes bs → hex_pairs (mjoin (map hex_byte bs)) = bs.
Proof.
  induction 1 as [|b bs Hb Hbs IH]; [done|].
  rewrite map_cons, mjoin_cons. destruct Hb.
  unfold hex_byte at 1. cbn [app hex_pairs].
  pose proof (Z.mod_pos_bound b 16 ltac:(lia)).
  assert (0 ≤ b / 16 < 16) by (split; [apply Z.div_pos|apply Z.div_lt_upper_bound]; lia).
  rewrite (parseInt16_pair _ _ (b / 16) (b mod 16)) by (apply hexval_hexdigit; lia).
  rewrite IH. cbn [default id]. rewrite <-Z.div_mod by lia. by rewrite u8_small.
Qed.

Lemma hexToBytes_spec hex : 
  Z.Even (slen hex) → hexToBytes hex = Ok (hex_pairs (chars hex)).
Proof.
  intros [k Hk]. unfold hexToBytes. rewrite Hk, Z.mul_comm, Z.mod_mul by lia. done.
Qed.

Lemma hexToBytes_bytesToHex bs : is_bytes bs → hexToBytes (bytesToHex bs) = Ok bs.
Proof.
  intros Hb. rewrite hexToBytes_spec.
  - by rewrite chars_bytesToHex, hex_pairs_bytes.
  - exists (zlen bs). unfold slen. rewrite chars_bytesToHex, length_hex_bytes by done. lia.
Qed.

Lemma hexToBytes_bytes hex bs : hexToBytes hex = Ok bs → is_bytes bs.
Proof.
  unfold hexToBytes. intros H. simp_res.
  assert (∀ n l, (length l ≤ n)%nat → is_bytes (hex_pairs l)) as Hn; [|by eapply Hn].
  induction n as [|n IH]; intros [|c1 [|c2 l]] Hl; simpl in *; try constructor; try lia.
  - apply u8_byte.
  - apply IH. lia.
Qed.

Lemma is_lower_hex_char_spec c :
  is_lower_hex_char c = true → ∃ d, 0 ≤ d < 16 ∧ hexval c = Some d ∧ hexdigit d = c.
Proof.
  unfold is_lower_hex_char, hexval, hexdigit. intros H.
  apply orb_true_iff in H as [H|H]; apply andb_true_iff in H as [H1 H2]; simp_bool.
  - exists (code c - 48). rewrite (proj2 (Z.leb_le 48 _)), (proj2 (Z.leb_le _ 57)) by lia.
    split_and!; [lia..|done|]. rewrite (proj2 (Z.ltb_lt _ _)) by lia.
    rewrite <-(chr_code c) at 2. f_equal. lia.
  - exists (code c - 87). rewrite (proj2 (Z.leb_gt _ 57)), andb_false_r by lia.
    rewrite (proj2 (Z.leb_le 97 _)), (proj2 (Z.leb_le _ 102)) by lia.
    split_and!; [lia..|done|]. rewrite (proj2 (Z.ltb_ge _ _)) by lia.
    rewrite <-(chr_code c) at 2. f_equal. lia.
Qed.

(** A lower-case hexadecimal string is the print of the bytes it parses to. *)
Lemma bytesToHex_hexToBytes hex bs :
  is_lower_hex hex = true → hexToBytes hex = Ok bs → bytesToHex bs = hex.
Proof.
  intros Hh H. assert (Hb := hexToBytes_bytes _ _ H). apply chars_inj.
  rewrite chars_bytesToHex by done. clear Hb.
  unfold hexToBytes in H. simp_res. unfold slen in *. simp_bool.
  unfold is_lower_hex in Hh. revert Hh H.
  assert (∀ n l, (length l ≤ n)%nat → forallb is_lower_hex_char l = true →
            zlen l mod 2 = 0 → mjoin (map hex_byte (hex_pairs l)) = l) as Hn; [|by eapply Hn].
  induction n as [|n IH]; intros [|c1 [|c2 l]] Hl Hf Hm; try done; try (simpl in Hl; lia).
  cbn [forallb] in Hf. simp_bool.
  apply is_lower_hex_char_spec in H as (d1 & Hd1 & Hv1 & <-).
  apply is_lower_hex_char_spec in H0 as (d2 & Hd2 & Hv2 & <-).
  cbn [hex_pairs map]. rewrite mjoin_cons, (parseInt16_pair _ _ d1 d2) by done.
  cbn [default id]. rewrite u8_small by (split; lia). unfold hex_byte at 1.
  replace (16 * d1 + d2) with (d1 * 16 + d2) by lia.
  rewrite Z.div_add_l, Z.div_small, Z.add_0_r, Z.add_comm, Z_mod_plus_full, Z.mod_small by lia.
  simpl. do 2 f_equal. apply IH; [simpl in Hl; lia|done|].
  cbn [length] in Hm. rewrite !Nat2Z.inj_succ in Hm.
  replace (Z.succ (Z.succ (zlen l))) with (zlen l + 1 * 2) in Hm by lia.
  by rewrite Z_mod_plus_full in Hm.
Qed.

Lemma length_bytesToHex bs : is_bytes bs → slen (bytesToHex bs) = 2 * zlen bs.
Proof. intros. unfold slen. rewrite chars_bytesToHex, length_hex_bytes by done. lia. Qed.

Lemma length_hexToBytes hex bs : hexToBytes hex = Ok bs → slen hex = 2 * zlen bs.
Proof.
  unfold hexToBytes, slen. intros H. simp_res. simp_bool.
  assert (∀ n l, (length l ≤ n)%nat → zlen l mod 2 = 0 → zlen l = 2 * zlen (hex_pairs l))
    as Hn; [|by eapply Hn].
  induction n as [|n IH]; intros [|c1 [|c2 l]] Hl Hm; try done; try (simpl in Hl; lia).
  cbn [hex_pairs length] in *. rewrite !Nat2Z.inj_succ in *.
  replace (Z.succ (Z.succ (zlen l))) with (zlen l + 1 * 2) in Hm by lia.
  rewrite Z_mod_plus_full in Hm. rewrite IH; [lia..|done].
Qed.

Lemma reverseBytes_eq bs : is_bytes bs → reverseBytes bs = reverse bs.
Proof. intros. unfold reverseBytes. by rewrite u8of_small. Qed.

(** ** Script elements as bytes *)

(** How many bytes spell the length behind a [PUSHDATA] opcode. *)
Definition len_width (op : Z) : nat :=
  if op =? OP_PUSHDATA1 then 1 else if op =? OP_PUSHDATA2 then 2
  else if op =? OP_PUSHDATA4 then 4 else 0.

(** The encoding of an element: its opcode, the length where the opcode is
    followed by one, the data. *)
Definition raw (p : push) : bytes :=
  opcode p ::
    (if isPush p then le_bytes (len_width (opcode p)) (zlen (data p)) ++ data p else []).

(** The elements a script can hold. *)
Definition wf_push (p : push) : Prop :=
  is_byte (opcode p) ∧ is_bytes (data p) ∧
  if isPush p then
    zlen (data p) = opcode p ∧ opcode p ≤ 75
    ∨ 76 ≤ opcode p ≤ 78 ∧ zlen (data p) < 256 ^ Z.of_nat (len_width (opcode p))
  else 79 ≤ opcode p ∧ data p = [].

Lemma pushdata_len_spec s i w :
  is_bytes s → 0 ≤ i → i + Z.of_nat w ≤ zlen s → w = 1%nat ∨ w = 2%nat ∨ w = 4%nat →
  pushdata_len s i w = le_num (slice s i (i + Z.of_nat w)).
Proof.
  intros Hs Hi Hl [-> | [-> | ->] ]; unfold pushdata_len;
    repeat (rewrite slice_cons by lia).
  - rewrite slice_nil. simpl. lia.
  - replace (i + 1 + 1) with (i + Z.of_nat 2) by lia. rewrite slice_nil.
    apply read_uint16; auto with bytes.
  - replace (i + 1 + 1) with (i + 2) by lia. replace (i + 2 + 1) with (i + 3) by lia.
    replace (i + 3 + 1) with (i + Z.of_nat 4) by lia. rewrite slice_nil.
    apply read_uint32; auto with bytes.
Qed.

Lemma read_pushdata_spec s i b w name p j :
  is_bytes s → 0 ≤ i → w = 1%nat ∨ w = 2%nat ∨ w = 4%nat →
  read_pushdata s i b w name = Ok (p, j)
  ↔ p = scriptPush true b (data p)
    ∧ is_bytes (data p) ∧ zlen (data p) < 256 ^ Z.of_nat w
    ∧ j = i + Z.of_nat w + zlen (data p) ∧ j ≤ zlen s
    ∧ slice s i j = le_bytes w (zlen (data p)) ++ data p.
Proof.
  intros Hs Hi Hw. unfold read_pushdata. split.
  - intros H. simp_res. simp_bool. simplify_eq. cbn [data] in *.
    rewrite pushdata_len_spec in * by (done || lia).
    set (l := slice s i (i + Z.of_nat w)) in *.
    assert (is_bytes l) as Hl by (unfold l; auto with bytes).
    assert (zlen l = Z.of_nat w) as Hll by (unfold l; rewrite length_slice; lia).
    pose proof (le_num_range l Hl) as Hr. rewrite Hll in Hr.
    rewrite length_slice by lia. rewrite Z.add_simpl_l.
    split_and!; [done|auto with bytes|lia|done|lia|].
    rewrite (slice_split s i (i + Z.of_nat w)) by lia. fold l. f_equal.
    rewrite <-(le_bytes_le_num l) at 1 by done. f_equal. lia.
  - destruct p as [ip op d]. cbn [data]. intros ([= -> ->] & Hd & Hn & -> & Hj & E).
    rewrite (slice_split s i (i + Z.of_nat w)) in E by lia.
    apply app_inj_1 in E as [E1 E2].
    2:{ rewrite length_le_bytes. pose proof (length_slice s i (i + Z.of_nat w)). lia. }
    assert ((i + Z.of_nat w >? zlen s) = false) as -> by lia. cbn [throw_if mbind res_bind].
    rewrite pushdata_len_spec, E1, le_num_le_bytes, Z.mod_small by (done || lia).
    assert ((i + Z.of_nat w + zlen d >? zlen s) = false) as -> by lia.
    cbn [throw_if mbind res_bind]. by rewrite E2.
Qed.

(** What follows the opcode of an element. *)
Definition raw_tail (p : push) : bytes :=
  if isPush p then le_bytes (len_width (opcode p)) (zlen (data p)) ++ data p else [].

Lemma slice_raw s i j p :
  0 ≤ i → i < zlen s → j = i + zlen (raw p) → j ≤ zlen s →
  slice s i j = raw p ↔ opcode p = at_ s i ∧ slice s (i + 1) j = raw_tail p.
Proof.
  intros ? ? Hj ?. change (raw p) with (opcode p :: raw_tail p) in *. cbn [length] in Hj.
  rewrite slice_cons by lia. split; [|by intros [-> ->]].
  intros E. split; [by injection E|exact (f_equal tail E)].
Qed.

Lemma len_width_small op : op ≤ 75 ∨ 79 ≤ op → len_width op = 0%nat.
Proof.
  intros. unfold len_width, OP_PUSHDATA1, OP_PUSHDATA2, OP_PUSHDATA4.
  repeat (case_match; simp_bool; [lia|]). done.
Qed.

(** A direct push: the opcode is the length. *)
Lemma read_direct s i p j :
  is_bytes s → 0 ≤ i < zlen s → 0 ≤ at_ s i ≤ 75 →
  (i + 1 + at_ s i ≤ zlen s ∧ p = scriptPush true (at_ s i) (slice s (i + 1) (i + 1 + at_ s i))
   ∧ j = i + 1 + at_ s i)
  ↔ wf_push p ∧ j = i + zlen (raw p) ∧ j ≤ zlen s ∧ slice s i j = raw p.
Proof.
  intros Hs Hi Hb. unfold wf_push. split.
  - intros (Hl & -> & ->). unfold raw. cbn [isPush opcode data].
    rewrite len_width_small by lia. cbn [le_bytes app length].
    pose proof (length_slice s (i + 1) (i + 1 + at_ s i)) as Hn.
    split_and!; [auto with bytes|auto with bytes|left; lia|lia|lia|].
    by rewrite slice_cons by lia.
  - intros ((Ho & Hd & Hw) & Hj & Hl & E). apply slice_raw in E as [E1 E2]; [|lia..].
    destruct p as [[] op d]; cbn [isPush opcode data] in *; subst op; [|lia].
    destruct Hw as [[Hw _]|Hw]; [|lia].
    unfold raw, raw_tail in *. cbn [isPush opcode data] in *.
    rewrite len_width_small in * by lia. cbn [le_bytes app length] in *.
    split_and!; [lia| |lia]. f_equal. rewrite <-E2. f_equal. lia.
Qed.

Lemma read_pushdata_raw s i op name p j :
  is_bytes s → 0 ≤ i < zlen s → op = at_ s i → 76 ≤ op ≤ 78 →
  read_pushdata s (i + 1) op (len_width op) name = Ok (p, j)
  ↔ wf_push p ∧ j = i + zlen (raw p) ∧ j ≤ zlen s ∧ slice s i j = raw p.
Proof.
  intros Hs Hi Hop Hr.
  assert (len_width op = 1%nat ∨ len_width op = 2%nat ∨ len_width op = 4%nat) as Hw.
  { assert (op = 76 ∨ op = 77 ∨ op = 78) as [-> | [-> | ->] ] by lia; auto. }
  rewrite read_pushdata_spec by (done || lia). unfold wf_push. split.
  - intros (-> & Hd & Hn & -> & Hl & E). unfold raw. cbn [isPush opcode data] in *.
    rewrite length_cons, length_app, length_le_bytes.
    split_and!; [subst op; auto with bytes|done|right; lia|lia|done|].
    rewrite slice_cons, E by lia. by subst op.
  - intros ((Ho & Hd & Hp) & Hj & Hl & E). apply slice_raw in E as [E1 E2]; [|lia..].
    destruct p as [[] op' d]; cbn [isPush opcode data] in *; subst op'; [|lia].
    destruct Hp as [Hp|Hp]; [lia|]. unfold raw, raw_tail in *. cbn [isPush opcode data] in *.
    rewrite length_cons, length_app, length_le_bytes in Hj. subst op.
    split_and!; [done|done|lia|lia|done|done].
Qed.

(** The reader's step takes exactly one element off the script. *)
Lemma read_push_spec s i p j :
  is_bytes s → 0 ≤ i < zlen s →
  read_push s i = Ok (p, j)
  ↔ wf_push p ∧ j = i + zlen (raw p) ∧ j ≤ zlen s ∧ slice s i j = raw p.
Proof.
  intros Hs Hi. assert (is_byte (at_ s i)) as [Hb1 Hb2] by auto with bytes.
  unfold read_push. set (b := at_ s i) in *.
  destruct ((1 <=? b) && (b <=? 75)) eqn:E1; simp_bool.
  { rewrite <-read_direct by (done || lia). fold b. rewrite Z.gtb_ltb.
    destruct (Z.ltb_spec (zlen s) (i + 1 + b)); cbn [throw_if mbind res_bind];
      split; intros; destruct_and?; simplify_eq; done || lia. }
  destruct (Z.eqb_spec b OP_PUSHDATA1) as [E|E2].
  { rewrite <-(read_pushdata_raw s i b "PUSHDATA1") by (done || unfold OP_PUSHDATA1 in E; lia).
    by rewrite E. }
  destruct (Z.eqb_spec b OP_PUSHDATA2) as [E|E3].
  { rewrite <-(read_pushdata_raw s i b "PUSHDATA2") by (done || unfold OP_PUSHDATA2 in E; lia).
    by rewrite E. }
  destruct (Z.eqb_spec b OP_PUSHDATA4) as [E|E4].
  { rewrite <-(read_pushdata_raw s i b "PUSHDATA4") by (done || unfold OP_PUSHDATA4 in E; lia).
    by rewrite E. }
  destruct (Z.eqb_spec b OP_0) as [E|E5].
  { unfold OP_0 in E. rewrite <-read_direct by (done || fold b; lia). fold b.
    rewrite E, Z.add_0_r, slice_nil. split; intros; destruct_and?; simplify_eq; [|done].
    split_and!; [lia|done..]. }
  assert (79 ≤ b) as Hb.
  { unfold OP_PUSHDATA1, OP_PUSHDATA2, OP_PUSHDATA4, OP_0 in *. lia. }
  split.
  - intros [= <- <-]. unfold wf_push, raw. cbn [isPush opcode data length].
    split_and!; [done|apply is_bytes_nil|lia|done|lia|lia|]. by rewrite slice_cons, slice_nil by lia.
  - intros ((Ho & Hd & Hp) & Hj & Hl & E). apply slice_raw in E as [Eo E']; [|lia..].
    destruct p as [[] op' d]; cbn [isPush opcode data] in *; subst op'; [lia|].
    unfold raw in Hj. cbn [isPush opcode data length] in Hj. destruct Hp as [_ ->]. by subst j.
Qed.

Lemma length_raw p : (1 ≤ length (raw p))%nat.
Proof. unfold raw. simpl. lia. Qed.

Lemma read_loop_complete ps fuel pre out :
  is_bytes (pre ++ mjoin (map raw ps)) → Forall wf_push ps → (length ps ≤ fuel)%nat →
  read_loop fuel (pre ++ mjoin (map raw ps)) (zlen pre) out = Ok (out ++ ps).
Proof.
  revert fuel pre out. induction ps as [|p ps IH]; intros fuel pre out Hb Hw Hf.
  { simpl. rewrite !app_nil_r. destruct fuel; [done|]. cbn [read_loop].
    by rewrite Z.ltb_irrefl. }
  destruct fuel as [|fuel]; [simpl in Hf; lia|].
  inversion Hw as [|? ? Hp Hps]; subst.
  rewrite map_cons, mjoin_cons in *. cbn [read_loop].
  pose proof (length_raw p) as Hl.
  assert (0 ≤ zlen pre < zlen (pre ++ raw p ++ mjoin (map raw ps))) as Hlt.
  { rewrite !length_app. lia. }
  rewrite (proj2 (Z.ltb_lt _ _)) by apply Hlt.
  rewrite (proj2 (read_push_spec _ (zlen pre) p (zlen (pre ++ raw p)) Hb Hlt)).
  - cbn [mbind res_bind]. rewrite app_assoc in *. rewrite IH; [|done|done|simpl in Hf; lia].
    by rewrite <-app_assoc.
  - split_and!; [done| | |apply slice_app_mid]; rewrite ?length_app; lia.
Qed.

Lemma read_loop_sound fuel s i out ps :
  is_bytes s → 0 ≤ i ≤ zlen s → (zlen s - i ≤ Z.of_nat fuel) →
  read_loop fuel s i out = Ok ps →
  ∃ qs, ps = out ++ qs ∧ Forall wf_push qs ∧ drop (Z.to_nat i) s = mjoin (map raw qs).
Proof.
  intros Hs. revert i out. induction fuel as [|fuel IH]; intros i out Hi Hf H.
  { simpl in H. simp_res. exists []. rewrite app_nil_r, drop_ge by lia. done. }
  cbn [read_loop] in H. destruct (Z.ltb_spec i (zlen s)) as [Hlt|].
  2:{ simp_res. exists []. rewrite app_nil_r, drop_ge by lia. done. }
  apply bind_Ok in H as ([p j] & Hp & H).
  apply read_push_spec in Hp as (Hw & Hj & Hl & E); [|done|lia].
  pose proof (length_raw p).
  apply IH in H as (qs & -> & Hqs & E'); [|lia..].
  exists (p :: qs). rewrite <-app_assoc. split_and!; [done|by constructor|].
  rewrite map_cons, mjoin_cons, <-E', <-E.
  pose proof (slice_slice s i j) as Hc. rewrite <-Hc by lia. f_equal.
  unfold slice. by rewrite take_ge by (rewrite length_drop; lia).
Qed.

(** [readPushes] splits a script into its elements, and into nothing else. *)
Lemma readPushes_spec s ps :
  is_bytes s →
  readPushes s = Ok ps ↔ Forall wf_push ps ∧ s = mjoin (map raw ps).
Proof.
  intros Hs. unfold readPushes. split.
  - intros H. apply read_loop_sound in H as (qs & -> & Hw & E); [|done|lia..].
    by rewrite drop_0 in E.
  - intros (Hw & E). pose proof (read_loop_complete ps (length s) [] []) as H.
    cbn [app] in H. rewrite <-E in H. apply H; [done..|].
    rewrite E. clear. induction ps as [|p ps IH]; [done|].
    rewrite map_cons, mjoin_cons, length_app. pose proof (length_raw p). simpl length. lia.
Qed.

(** The last byte of a script that ends in a bare opcode. *)
Lemma raw_bytes p : wf_push p → is_bytes (raw p).
Proof.
  intros (Ho & Hd & _). unfold raw. apply is_bytes_cons. split; [done|].
  destruct (isPush p); auto with bytes.
Qed.

Lemma raws_bytes ps : Forall wf_push ps → is_bytes (mjoin (map raw ps)).
Proof.
  induction 1 as [|p ps Hp Hps IH]; [constructor|]. rewrite map_cons, mjoin_cons.
  apply is_bytes_app_2; [by apply raw_bytes|done].
Qed.
#[export] Hint Resolve raws_bytes : bytes.

(** ** Minimal pushes *)

(** The canonical element that pushes [d], for data that is not a small
    number. *)
Definition push_of (d : bytes) : push :=
  let n := zlen d in
  scriptPush true (if n <=? 75 then n else if n <=? 255 then OP_PUSHDATA1 else OP_PUSHDATA2) d.

Lemma pushData_spec d bs :
  is_bytes d → pushData d = Ok bs ↔ zlen d ≤ 65535 ∧ bs = raw (push_of d).
Proof.
  intros Hd. unfold pushData, push_of, raw, OP_PUSHDATA1. cbn [isPush opcode data].
  rewrite !concatBytes_join. cbn [mjoin list_join]. rewrite !app_nil_r.
  destruct (Z.ltb_spec (zlen d) 0x4c).
  { rewrite (proj2 (Z.leb_le _ 75)) by lia. rewrite len_width_small by lia.
    rewrite u8of_small by (repeat constructor; lia). split; [intros; simp_res; split; [lia|done]|].
    by intros [_ ->]. }
  rewrite (proj2 (Z.leb_gt _ 75)) by lia.
  destruct (Z.leb_spec (zlen d) 0xff).
  { change (len_width 76) with 1%nat. cbn [le_bytes].
    rewrite u8of_small by (repeat constructor; lia). rewrite Z.mod_small by lia.
    split; [intros; simp_res; split; [lia|done]|]. by intros [_ ->]. }
  change (len_width OP_PUSHDATA2) with 2%nat.
  rewrite and_byte, shr_byte by lia. cbn [le_bytes].
  rewrite u8of_small.
  2:{ unfold OP_PUSHDATA2. repeat constructor; try lia; apply Z.mod_pos_bound; lia. }
  destruct (Z.leb_spec (zlen d) 0xffff).
  - split; [intros; simp_res; split; [lia|done]|]. by intros [_ ->].
  - split; [intros; simp_res|lia].
Qed.

Lemma wf_push_of d : is_bytes d → zlen d ≤ 65535 → wf_push (push_of d).
Proof.
  intros Hd Hl. unfold wf_push, push_of. cbn [isPush opcode data].
  destruct (Z.leb_spec (zlen d) 75); [split_and!; [split; lia|done|left; lia]|].
  destruct (Z.leb_spec (zlen d) 255).
  - split_and!; [by split|done|]. right. unfold OP_PUSHDATA1. split; [lia|].
    change (len_width 76) with 1%nat. lia.
  - split_and!; [by split|done|]. right. unfold OP_PUSHDATA2. split; [lia|].
    change (len_width 77) with 2%nat. lia.
Qed.

(** The one-byte data that minimality reserves to an opcode of its own. *)
Definition is_small_num (d : bytes) : bool :=
  (zlen d =? 1) && (((1 <=? at_ d 0) && (at_ d 0 <=? 16)) || (at_ d 0 =? 0x81)).

Lemma isMinimalPush_spec p :
  wf_push p → isPush p = true → zlen (data p) ≤ 65535 →
  isMinimalPush p = true ↔ is_small_num (data p) = false ∧ p = push_of (data p).
Proof.
  intros (Ho & Hd & Hw) Hp Hl. destruct p as [ip op d]. cbn [isPush opcode data] in *. subst ip.
  unfold isMinimalPush, is_small_num, push_of. cbn [isPush opcode data].
  assert ((scriptPush true op d = scriptPush true
    (if zlen d <=? 75 then zlen d else if zlen d <=? 255 then OP_PUSHDATA1 else OP_PUSHDATA2) d)
    ↔ op = if zlen d <=? 75 then zlen d else if zlen d <=? 255 then OP_PUSHDATA1 else OP_PUSHDATA2)
    as -> by (split; [by intros [=]|by intros <-]).
  destruct (Z.eqb_spec (zlen d) 0) as [E0|E0].
  { rewrite E0. simpl. rewrite Z.eqb_eq. unfold OP_0. naive_solver. }
  destruct (Z.eqb_spec (zlen d) 1) as [E1|E1]; cbn [andb].
  - destruct ((1 <=? at_ d 0) && (at_ d 0 <=? 16)) eqn:Es; cbn [orb].
    { simp_bool. split; [|by intros []]. rewrite Z.eqb_eq. lia. }
    destruct (Z.eqb_spec (at_ d 0) 0x81); [split; [|by intros []]; rewrite Z.eqb_eq; lia|].
    rewrite (proj2 (Z.leb_le _ 75)), Z.eqb_eq by lia. tauto.
  - destruct (Z.leb_spec (zlen d) 75); [rewrite Z.eqb_eq; tauto|].
    destruct (Z.leb_spec (zlen d) 255); [rewrite Z.eqb_eq; tauto|].
    rewrite (proj2 (Z.leb_le _ 65535)), Z.eqb_eq by lia. tauto.
Qed.

(** ** Script numbers *)

Lemma of_digits_be_num ds : of_digits 256 0 ds = be_num ds.
Proof.
  induction ds as [|d ds IH] using rev_ind; [done|].
  rewrite of_digits_snoc, be_num_snoc, IH. lia.
Qed.

(** The base-256 digits of a number, least significant first. *)
Definition le_digits (n : Z) : bytes := reverse (to_digits 256 (fuel_for n) n []).

Lemma num_loop_digits fuel n out :
  0 ≤ n → num_loop fuel n out = out ++ reverse (to_digits 256 fuel n []).
Proof.
  revert n out. induction fuel as [|fuel IH]; intros n out Hn; [by rewrite app_nil_r|].
  cbn [num_loop]. destruct (Z.ltb_spec 0 n) as [Hp|].
  - rewrite IH by (apply Z.div_pos; lia). rewrite to_digits_snoc by done.
    by rewrite and_byte, reverse_app, <-app_assoc.
  - cbn [to_digits]. rewrite (proj2 (Z.ltb_ge _ _)) by lia. by rewrite app_nil_r.
Qed.

Lemma le_digits_bytes n : 0 ≤ n → is_bytes (le_digits n).
Proof. intros. apply is_bytes_rev, to_digits_range; lia. Qed.

Lemma le_num_le_digits n : 0 ≤ n → le_num (le_digits n) = n.
Proof.
  intros. unfold le_digits.
  change (be_num (to_digits 256 (fuel_for n) n []) = n).
  rewrite <-of_digits_be_num. apply of_to_digits; [lia|done|by apply fuel_enough].
Qed.

(** Bytes whose last is not zero are the digits of their value. *)
Lemma le_digits_le_num bs b :
  is_bytes (bs ++ [b]) → b ≠ 0 → le_digits (le_num (bs ++ [b])) = bs ++ [b].
Proof.
  intros Hb Hz. unfold le_digits. set (n := le_num (bs ++ [b])).
  assert (n = of_digits 256 0 (reverse (bs ++ [b]))) as E.
  { rewrite of_digits_be_num. unfold be_num. by rewrite reverse_involutive. }
  assert (0 ≤ n) by apply (le_num_range _ Hb).
  rewrite E, to_of_digits; [apply reverse_involutive|lia| |rewrite <-E; by apply fuel_enough].
  split; [by apply Forall_reverse|]. by rewrite reverse_snoc.
Qed.

Lemma le_digits_snoc n :
  0 < n → ∃ bs b, le_digits n = bs ++ [b] ∧ b ≠ 0 ∧ is_byte b.
Proof.
  intros Hn. pose proof (le_digits_bytes n ltac:(lia)) as Hb.
  destruct (le_digits n) as [|b bs _] eqn:E using rev_ind.
  { pose proof (le_num_le_digits n ltac:(lia)) as H. rewrite E in H. simpl in H. lia. }
  exists bs, b. split; [done|]. apply is_bytes_app in Hb as [_ Hb%is_bytes_cons].
  split; [|apply Hb]. unfold le_digits in E.
  destruct (to_digits_canonical 256 ltac:(lia) (fuel_for n) n ltac:(lia)
    (fuel_enough n ltac:(lia))) as [_ Hz].
  apply (f_equal reverse) in E. rewrite reverse_involutive, reverse_snoc in E.
  rewrite E in Hz. done.
Qed.

Lemma last_of_snoc bs b : last_of (bs ++ [b]) = b.
Proof. unfold last_of. apply at_app_0. rewrite length_app. simpl. lia. Qed.

(** The script number of a positive integer: its digits, and a zero behind
    them when the last has its sign bit set. *)
Lemma scriptNumBytes_pos n bs b :
  0 < n → le_digits n = bs ++ [b] →
  scriptNumBytes n = (bs ++ [b]) ++ (if 128 <=? b then [0] else []).
Proof.
  intros Hn E. unfold scriptNumBytes.
  rewrite (proj2 (Z.eqb_neq _ _)), (proj2 (Z.ltb_ge _ _)) by lia.
  rewrite num_loop_digits by lia. rewrite app_nil_l. fold (le_digits n). rewrite E.
  pose proof (le_digits_bytes n ltac:(lia)) as Hb. rewrite E in Hb.
  assert (is_byte b) as Hbb by (apply is_bytes_app in Hb as [_ Hb%is_bytes_cons]; apply Hb).
  rewrite last_of_snoc, and_0x80 by done.
  destruct (Z.ltb_spec b 128), (Z.leb_spec 128 b); try lia; cbn [negb];
    rewrite u8of_small; rewrite ?app_nil_r; auto with bytes.
  apply is_bytes_app_2; [done|]. by repeat constructor.
Qed.

Lemma num_or_loop_le_num d : is_bytes d → num_or_loop d = le_num d.
Proof.
  intros Hd. unfold num_or_loop.
  assert (∀ k, (k ≤ length d)%nat →
    fold_left (λ r i, Z.lor r (Z.shiftl (nth i d 0) (8 * Z.of_nat i))) (seq 0 k) 0
    = le_num (take k d)) as H; [|rewrite H by done; by rewrite take_ge].
  induction k as [|k IH]; intros Hk; [done|].
  rewrite seq_S, fold_left_app, IH by lia. cbn [fold_left Nat.add].
  destruct (lookup_lt_is_Some_2 d k) as [b Eb]; [lia|].
  rewrite (nth_lookup_Some _ _ _ _ Eb), (take_S_r _ _ _ Eb), le_num_app.
  assert (is_bytes (take k d)) as Ht by auto with bytes.
  pose proof (le_num_range _ Ht) as Hr. rewrite length_take, Nat.min_l in * by lia.
  assert (256 ^ Z.of_nat k = 2 ^ (8 * Z.of_nat k)) as Ep by (by rewrite Z.pow_mul_r by lia).
  rewrite lor_shiftl_add, Ep by lia. simpl. lia.
Qed.

Lemma is_bytes_snoc bs b : is_bytes (bs ++ [b]) ↔ is_bytes bs ∧ is_byte b.
Proof. rewrite is_bytes_app, is_bytes_cons. pose proof is_bytes_nil. tauto. Qed.

Lemma at_snoc bs b i : i = zlen bs → at_ (bs ++ [b]) i = b.
Proof. apply at_app_0. Qed.

Lemma isMinimalScriptNum_snoc bs b :
  is_bytes (bs ++ [b]) →
  isMinimalScriptNum (bs ++ [b]) = true
  ↔ b mod 128 ≠ 0 ∨ ∃ bs' b', bs = bs' ++ [b'] ∧ 128 ≤ b'.
Proof.
  intros Hb. apply is_bytes_snoc in Hb as [Hbs Hb]. unfold isMinimalScriptNum.
  rewrite length_app. cbn [length]. rewrite Nat2Z.inj_add. change (Z.of_nat 1) with 1.
  rewrite (proj2 (Z.eqb_neq _ _)) by lia. rewrite Z.add_simpl_r, at_snoc, and_0x7f by done.
  destruct (Z.eqb_spec (b mod 128) 0) as [E|E]; [|naive_solver].
  destruct bs as [|b' bs' _] using rev_ind.
  { simpl. split; [done|]. intros [?|(? & ? & ? & ?)]; [done|]. by destruct x. }
  apply is_bytes_snoc in Hbs as [Hbs' Hb']. rewrite length_app. cbn [length].
  rewrite at_app_l, at_snoc, and_0x80 by (rewrite ?length_app; simpl; lia || done).
  rewrite (proj2 (Z.ltb_lt _ _)) by lia. cbn [andb]. destruct (Z.ltb_spec b' 128); cbn [negb].
  - split; [done|]. intros [?|(? & ? & ? & ?)]; [done|].
    apply app_inj_tail in H0 as [_ ->]. lia.
  - split; [|done]. intros _. right. by exists bs', b'.
Qed.

Lemma le_num_snoc bs b : le_num (bs ++ [b]) = le_num bs + 256 ^ zlen bs * b.
Proof. rewrite le_num_app. simpl. lia. Qed.

(** A minimal script number without its sign bit is the encoding of its
    value. *)
Lemma scriptNumBytes_unique bs b :
  is_bytes (bs ++ [b]) → b < 128 → isMinimalScriptNum (bs ++ [b]) = true →
  0 < le_num (bs ++ [b]) ∧ scriptNumBytes (le_num (bs ++ [b])) = bs ++ [b].
Proof.
  intros Hb Hlt Hm. assert (Hb' := Hb). apply is_bytes_snoc in Hb' as [Hbs [Hb0 Hb1]].
  pose proof (le_num_range bs Hbs) as Hr.
  apply isMinimalScriptNum_snoc in Hm as [Hm|(bs' & b' & -> & Hb')]; [|..|done].
  - assert (b ≠ 0) by (intros ->; done).
    assert (0 < le_num (bs ++ [b])) by (rewrite le_num_snoc; nia).
    split; [done|]. rewrite (scriptNumBytes_pos _ bs b) by (done || by apply le_digits_le_num).
    rewrite (proj2 (Z.leb_gt _ _)) by lia. apply app_nil_r.
  - assert (H128 := Hbs). apply is_bytes_snoc in H128 as [Hbs' Hbb'].
    pose proof (le_num_range bs' Hbs').
    destruct (decide (b = 0)) as [->|Hne].
    + assert (0 < le_num (bs' ++ [b'])) by (rewrite le_num_snoc; nia).
      rewrite (le_num_snoc (bs' ++ [b'])), Z.mul_0_r, Z.add_0_r. split; [done|].
      rewrite (scriptNumBytes_pos _ bs' b') by (done || (apply le_digits_le_num; [done|lia])).
      by rewrite (proj2 (Z.leb_le _ _)).
    + assert (0 < le_num ((bs' ++ [b']) ++ [b])) by (rewrite le_num_snoc; nia).
      split; [done|].
      rewrite (scriptNumBytes_pos _ (bs' ++ [b']) b) by (done || by apply le_digits_le_num).
      rewrite (proj2 (Z.leb_gt _ _)) by lia. apply app_nil_r.
Qed.

(** The encoding of a positive integer is minimal, has no sign bit and spells
    it. *)
Lemma scriptNumBytes_spec n :
  0 < n →
  ∃ bs b, scriptNumBytes n = bs ++ [b] ∧ is_bytes (bs ++ [b]) ∧ b < 128
    ∧ isMinimalScriptNum (bs ++ [b]) = true ∧ le_num (bs ++ [b]) = n.
Proof.
  intros Hn. destruct (le_digits_snoc n Hn) as (bs & b & E & Hz & Hb).
  pose proof (le_digits_bytes n ltac:(lia)) as Hbs. rewrite E in Hbs.
  pose proof (le_num_le_digits n ltac:(lia)) as Hv. rewrite E in Hv.
  rewrite (scriptNumBytes_pos n bs b) by done.
  destruct (Z.leb_spec 128 b).
  - exists (bs ++ [b]), 0.
    assert (is_bytes ((bs ++ [b]) ++ [0])) as H0 by (apply is_bytes_snoc; split; [done|by split]).
    split_and!; [done|done|lia| |].
    + apply isMinimalScriptNum_snoc; [done|]. right. by exists bs, b.
    + rewrite le_num_snoc. lia.
  - exists bs, b. rewrite app_nil_r. split_and!; [done|done|lia| |done].
    apply isMinimalScriptNum_snoc; [done|]. left. destruct Hb. rewrite Z.mod_small by lia. done.
Qed.

Lemma scriptNumBytes_bytes n : 0 < n → is_bytes (scriptNumBytes n).
Proof. intros Hn. by destruct (scriptNumBytes_spec n Hn) as (? & ? & -> & ? & _). Qed.

(** Numbers of at most 31 bits take at most five bytes. *)
Lemma length_scriptNumBytes n :
  0 < n ≤ 2147483647 → 1 ≤ zlen (scriptNumBytes n) ≤ 5.
Proof.
  intros Hn. destruct (le_digits_snoc n ltac:(lia)) as (bs & b & E & Hz & Hb).
  rewrite (scriptNumBytes_pos n bs b) by (done || lia).
  assert (zlen (to_digits 256 (fuel_for n) n []) = zlen (bs ++ [b])) as El.
  { rewrite <-E. unfold le_digits. by rewrite length_reverse. }
  assert (256 ^ (zlen (bs ++ [b]) - 1) ≤ n) as Hl.
  { rewrite <-El. trans (of_digits 256 0 (to_digits 256 (fuel_for n) n [])).
    2:{ rewrite of_to_digits; [done|lia..|apply fuel_enough; lia]. }
    apply of_digits_lower; [lia|apply to_digits_canonical; [lia..|apply fuel_enough; lia]|].
    intros E0. rewrite E0, length_app in El. simpl in El. lia. }
  assert (zlen (bs ++ [b]) ≤ 4).
  { destruct (decide (zlen (bs ++ [b]) ≤ 4)); [done|].
    assert (256 ^ 4 ≤ 256 ^ (zlen (bs ++ [b]) - 1)) by (apply Z.pow_le_mono_r; lia). lia. }
  rewrite length_app. rewrite length_app in *. case_match; simpl length in *; lia.
Qed.

Lemma scriptNumToInt64_pos bs b :
  is_bytes (bs ++ [b]) → b < 128 → zlen (bs ++ [b]) ≤ 8 →
  scriptNumToInt64 (bs ++ [b]) = Ok (of_bigint (le_num (bs ++ [b]))).
Proof.
  intros Hb Hlt Hl. unfold scriptNumToInt64.
  rewrite (proj2 (Z.eqb_neq _ _)) by (rewrite length_app; simpl; lia).
  assert ((zlen (bs ++ [b]) >? 8) = false) as -> by lia. cbn [throw_if mbind res_bind].
  fold (last_of (bs ++ [b])). rewrite last_of_snoc.
  apply is_bytes_snoc in Hb as Hb'. rewrite and_0x80, num_or_loop_le_num by tauto.
  by rewrite (proj2 (Z.ltb_lt _ _)).
Qed.

(** Clearing the top bit of a number that has it. *)
Lemma clear_bit m j : 0 ≤ j → 0 ≤ m < 2 ^ j → Z.land (m + 2 ^ j) (Z.lnot (2 ^ j)) = m.
Proof.
  intros Hj Hm. replace (m + 2 ^ j) with (m + 1 * 2 ^ j) by lia.
  rewrite <-lor_shiftl_add by done. apply Z.bits_inj'; intros i Hi.
  rewrite Z.land_spec, Z.lor_spec, Z.lnot_spec, Z.shiftl_spec, Z.pow2_bits_eqb by lia.
  destruct (Z.eqb_spec j i) as [->|Hne]; cbn [negb].
  - rewrite andb_false_r, <-(Z.mod_small m (2 ^ i)), Z.mod_pow2_bits_high by lia. done.
  - rewrite andb_true_r. destruct (Z.testbit 1 (i - j)) eqn:E; [|apply orb_false_r].
    destruct (decide (i < j)); [by rewrite Z.testbit_neg_r in E by lia|].
    change 1 with (2 ^ 0) in E. rewrite Z.pow2_bits_eqb in E by lia. simp_bool. lia.
Qed.

Lemma scriptNumToInt64_neg bs b :
  is_bytes (bs ++ [b]) → 128 ≤ b → zlen (bs ++ [b]) ≤ 8 →
  isMinimalScriptNum (bs ++ [b]) = true →
  ∃ mag, 0 < mag < 2 ^ 64 ∧ scriptNumToInt64 (bs ++ [b]) = Ok (of_bigint (- mag)).
Proof.
  intros Hb Hge Hl Hm. assert (Hb' := Hb). apply is_bytes_snoc in Hb' as [Hbs [Hb0 Hb1]].
  exists (le_num bs + 256 ^ zlen bs * (b - 128)).
  pose proof (le_num_range bs Hbs) as Hr. rewrite length_app in Hl. simpl in Hl.
  assert (256 ^ zlen bs ≤ 256 ^ 7) by (apply Z.pow_le_mono_r; lia).
  assert (0 < 256 ^ zlen bs) by (apply Z.pow_pos_nonneg; lia).
  assert (256 ^ zlen bs * 128 = 2 ^ (8 * zlen bs + 7)) as Ep.
  { rewrite Z.pow_add_r, Z.pow_mul_r by lia. done. }
  split; [split; [|nia]|].
  - apply isMinimalScriptNum_snoc in Hm as [Hm|(bs' & b' & -> & Hb')]; [|..|done].
    + assert (b ≠ 128) by (intros ->; done). nia.
    + apply is_bytes_snoc in Hbs as [Hbs' _]. pose proof (le_num_range bs' Hbs').
      rewrite le_num_snoc. assert (0 < 256 ^ zlen bs') by (apply Z.pow_pos_nonneg; lia).
      assert (0 < 256 ^ zlen bs' * b') by nia.
      assert (0 ≤ 256 ^ zlen (bs' ++ [b']) * (b - 128)) by (apply Z.mul_nonneg_nonneg; lia). lia.
  - unfold scriptNumToInt64. rewrite (proj2 (Z.eqb_neq _ _)) by (rewrite length_app; simpl; lia).
    assert ((zlen (bs ++ [b]) >? 8) = false) as ->.
    { rewrite Z.gtb_ltb. apply Z.ltb_ge. rewrite length_app. cbn [length]. lia. }
    cbn [throw_if mbind res_bind].
    fold (last_of (bs ++ [b])). rewrite last_of_snoc, and_0x80, num_or_loop_le_num by done.
    rewrite (proj2 (Z.ltb_ge _ _)) by lia. cbn [negb]. do 3 f_equal.
    rewrite length_app. cbn [length]. rewrite Nat2Z.inj_add, Z.add_simpl_r, Z.shiftl_mul_pow2 by lia.
    replace (0x80 * 2 ^ (8 * zlen bs)) with (2 ^ (8 * zlen bs + 7)).
    2:{ rewrite Z.pow_add_r by lia. lia. }
    rewrite le_num_snoc.
    replace (le_num bs + 256 ^ zlen bs * b)
      with (le_num bs + 256 ^ zlen bs * (b - 128) + 2 ^ (8 * zlen bs + 7)) by lia.
    apply clear_bit; [lia|]. rewrite <-Ep. nia.
Qed.

(** ** Multipliers *)

(** The range check both [pushMultiplier] and [parseUapScript] make. *)
Definition out_of_range (m : Number) : bool :=
  negb (isInteger m) || (m <? Int 0)%num || (m >? Int 2147483647)%num.

Lemma out_of_range_int m : out_of_range m = false ↔ ∃ z, m = Int z ∧ 0 ≤ z ≤ 2147483647.
Proof.
  unfold out_of_range. split.
  - intros H. simp_bool. destruct m as [| |m k]; try done. cbn [isInteger] in *. simp_bool. subst.
    exists m. rewrite !int_ltb in *. simp_bool. split; [done|lia].
  - intros (z & -> & Hz). rewrite !int_ltb. cbn [isInteger Z.eqb negb orb].
    apply orb_false_iff. split; apply Z.ltb_ge; lia.
Qed.

(** The one element that encodes a multiplier. *)
Definition mult_push (z : Z) : push :=
  if z =? 0 then scriptPush true OP_0 []
  else if z <=? 16 then scriptPush false (0x50 + z) []
  else push_of (scriptNumBytes z).

Lemma pushMultiplier_spec m bs :
  pushMultiplier m = Ok bs ↔ ∃ z, m = Int z ∧ 0 ≤ z ≤ 2147483647 ∧ bs = raw (mult_push z).
Proof.
  assert (∀ z, 0 ≤ z ≤ 2147483647 → pushMultiplier (Int z) = Ok (raw (mult_push z))) as H.
  { intros z Hz. unfold pushMultiplier. fold (out_of_range (Int z)).
    rewrite (proj2 (out_of_range_int (Int z))) by eauto. cbn [throw_if mbind res_bind num_Z].
    rewrite int_eqb, int_leb. unfold mult_push.
    destruct (Z.eqb_spec z 0); [done|]. destruct (Z.leb_spec z 16).
    - unfold raw. cbn [isPush opcode]. rewrite u8of_small by (repeat constructor; unfold OP_1; lia).
      do 2 f_equal. unfold OP_1. lia.
    - pose proof (length_scriptNumBytes z). apply pushData_spec; [apply scriptNumBytes_bytes; lia|].
      split; [lia|done]. }
  split; [|by intros (z & -> & Hz & ->); apply H].
  intros Hm. assert (out_of_range m = false) as Hr.
  { unfold pushMultiplier in Hm. fold (out_of_range m) in Hm. by destruct (out_of_range m). }
  apply out_of_range_int in Hr as (z & -> & Hz). exists z. rewrite H in Hm by done.
  by simp_res.
Qed.

Lemma wf_mult_push z : 0 ≤ z ≤ 2147483647 → wf_push (mult_push z).
Proof.
  intros Hz. unfold mult_push. destruct (Z.eqb_spec z 0).
  { split_and!; [by split|constructor|left]. done. }
  destruct (Z.leb_spec z 16).
  - split_and!; [split; cbn [opcode]; lia|constructor|cbn [isPush opcode]; split; [lia|done]].
  - pose proof (length_scriptNumBytes z). apply wf_push_of; [apply scriptNumBytes_bytes|]; lia.
Qed.

Lemma small_scriptNum z : 0 < z → is_small_num (scriptNumBytes z) = true ↔ z ≤ 16.
Proof.
  intros Hz. split.
  - destruct (scriptNumBytes_spec z Hz) as (bs & b & -> & Hb & Hlt & Hm & Hv).
    unfold is_small_num. intros H. simp_bool. rewrite length_app in H. simpl in H.
    destruct bs; [|simpl in H; lia]. simpl in Hv, H0. unfold at_ in H0. simpl in H0.
    destruct H0 as [H0|H0]; simp_bool; lia.
  - intros Hle.
    assert (forallb (λ z, is_small_num (scriptNumBytes z)) (seqZ 1 16) = true) as H by (by vm_compute).
    rewrite forallb_forall in H. apply H, list_elem_of_In, elem_of_seqZ. lia.
Qed.

Lemma read_multiplier_push z :
  0 ≤ z ≤ 2147483647 → read_multiplier (mult_push z) = Some (Int z).
Proof.
  intros Hz. pose proof (wf_mult_push z Hz) as Hw. unfold read_multiplier, mult_push in *.
  destruct (Z.eqb_spec z 0) as [->|]; [done|]. destruct (Z.leb_spec z 16).
  { cbn [isPush opcode negb andb]. rewrite (proj2 (Z.leb_le 81 _)), (proj2 (Z.leb_le _ 96)) by lia.
    cbn [andb]. do 2 f_equal. lia. }
  destruct (scriptNumBytes_spec z ltac:(lia)) as (bs & b & E & Hb & Hlt & Hm & Hv).
  pose proof (length_scriptNumBytes z ltac:(lia)) as Hl.
  pose proof (small_scriptNum z ltac:(lia)) as Hs. rewrite E in *. cbn [push_of isPush opcode data] in *.
  rewrite (proj2 (isMinimalPush_spec _ Hw eq_refl ltac:(cbn [push_of data]; lia))).
  2:{ cbn [push_of data]. split; [|done]. apply not_true_iff_false. rewrite Hs. lia. }
  rewrite Hm, scriptNumToInt64_pos, Hv, of_bigint_safe by (done || lia). done.
Qed.

(** The multiplier field reads back only from the element that encodes it. *)
Lemma read_multiplier_spec p m :
  wf_push p →
  read_multiplier p = Some m ∧ out_of_range m = false
  ↔ ∃ z, m = Int z ∧ 0 ≤ z ≤ 2147483647 ∧ p = mult_push z.
Proof.
  intros Hw. split.
  2:{ intros (z & -> & Hz & ->). split; [by apply read_multiplier_push|].
      apply out_of_range_int. eauto. }
  intros [H Hr]. unfold read_multiplier in H.
  destruct (negb (isPush p) && (81 <=? opcode p) && (opcode p <=? 96)) eqn:E.
  { simp_bool. simplify_eq. destruct Hw as (_ & _ & Hw). destruct p as [ip op d].
    cbn [isPush opcode data] in *. subst ip. destruct Hw as [_ ->].
    exists (op - 80). split_and!; [done|lia..|]. unfold mult_push.
    rewrite (proj2 (Z.eqb_neq _ _)), (proj2 (Z.leb_le _ _)) by lia. f_equal. lia. }
  clear E. destruct (isPush p && isMinimalPush p && isMinimalScriptNum (data p)) eqn:E; [|done].
  simp_bool. destruct (scriptNumToInt64 (data p)) eqn:Es; [|done]. simplify_eq.
  destruct (data p) as [|b bs _] eqn:Ed using rev_ind.
  { exists 0. apply Ok_inj in Es as <-. split_and!; [done|lia..|].
    destruct p as [ip op d]. cbn [data isPush] in *. subst.
    change ((op =? OP_0) = true) in H2. simp_bool. by subst. }
  assert (zlen (data p) ≤ 8) as Hl.
  { rewrite Ed. unfold scriptNumToInt64 in Es.
    rewrite (proj2 (Z.eqb_neq _ _)) in Es by (rewrite length_app; simpl; lia). simp_res. lia. }
  assert (is_bytes (data p)) as Hb by apply Hw.
  apply isMinimalPush_spec in H2 as [Hsm Hp]; [|done|done|lia]. rewrite Ed in *.
  destruct (Z.lt_ge_cases b 128) as [Hlt|Hge].
  - rewrite scriptNumToInt64_pos in Es by done. simp_res.
    destruct (scriptNumBytes_unique bs b) as [Hpos Hu]; [done..|].
    pose proof (le_num_range _ Hb) as Hn.
    assert (256 ^ zlen (bs ++ [b]) ≤ 256 ^ 8) by (apply Z.pow_le_mono_r; lia).
    exists (le_num (bs ++ [b])). unfold out_of_range in Hr. simp_bool.
    rewrite ltb_of_bigint_r in * by lia. simp_bool.
    split_and!; [apply of_bigint_safe; lia|lia|done|]. unfold mult_push.
    rewrite (proj2 (Z.eqb_neq _ _)), Hu by lia.
    rewrite <-Hu in Hsm. pose proof (small_scriptNum _ Hpos) as Hs. rewrite Hsm in Hs.
    rewrite (proj2 (Z.leb_gt _ _)); [done|]. apply Z.nle_gt. by intros ?%Hs.
  - destruct (scriptNumToInt64_neg bs b) as (mag & Hmag & Em); [done..|].
    rewrite Em in Es. simp_res. unfold out_of_range in Hr. simp_bool.
    rewrite ltb_of_bigint_l in * by lia. simp_bool. lia.
Qed.

(** ** Covenants *)

Definition op_push (op : Z) : push := scriptPush false op [].

Definition covenant_op (mint : bool) : Z := if mint then OP_MINT else OP_MINT_TRANSFER.

(** The elements of a covenant. *)
Definition covenant (pk : bytes) (z : Z) (o : bytes) (mint : bool) : list push :=
  [push_of pk; mult_push z] ++ (if mint then [] else [push_of o]) ++ [op_push (covenant_op mint)].

Lemma buildMintScript_spec pk m s :
  is_bytes pk →
  buildMintScript pk m = Ok s
  ↔ zlen pk ≤ 65535 ∧ ∃ z, m = Int z ∧ 0 ≤ z ≤ 2147483647
      ∧ s = mjoin (map raw (covenant pk z [] true)).
Proof.
  intros Hpk. unfold buildMintScript. rewrite bind_Ok. setoid_rewrite bind_Ok.
  setoid_rewrite pushData_spec; [|done]. setoid_rewrite pushMultiplier_spec.
  setoid_rewrite concatBytes_join. unfold covenant. cbn [app map].
  split.
  - intros (a & [Hl ->] & b & (z & -> & Hz & ->) & H). simp_res. split; [done|]. by exists z.
  - intros (Hl & z & -> & Hz & ->). eexists; split; [done|]. eexists; split; [by exists z|done].
Qed.

Lemma buildTransferScript_spec pk m o s :
  is_bytes pk → is_bytes o →
  buildTransferScript pk m (Some o) = Ok s
  ↔ zlen o = 32 ∧ zlen pk ≤ 65535 ∧ ∃ z, m = Int z ∧ 0 ≤ z ≤ 2147483647
      ∧ s = mjoin (map raw (covenant pk z o false)).
Proof.
  intros Hpk Ho. unfold buildTransferScript, covenant. split.
  - intros H. simp_res. simp_bool. apply pushData_spec in H0 as [? ->], H2 as [? ->]; [|done..].
    apply pushMultiplier_spec in H1 as (z & -> & Hz & ->). rewrite concatBytes_join.
    split_and!; [done..|]. by exists z.
  - intros (Hlo & Hl & z & -> & Hz & ->). rewrite Hlo. cbn [Z.eqb negb throw_if mbind res_bind].
    rewrite (proj2 (pushData_spec pk _ Hpk) (conj Hl eq_refl)).
    rewrite (proj2 (pushMultiplier_spec (Int z) (raw (mult_push z)))) by eauto.
    rewrite (proj2 (pushData_spec o (raw (push_of o)) Ho)) by (split; [lia|done]).
    cbn [mbind res_bind]. by rewrite concatBytes_join.
Qed.

Lemma mjoin_snoc {A} (l : list (list A)) a : mjoin (l ++ [a]) = mjoin l ++ a.
Proof.
  induction l as [|b l IH]; [apply app_nil_r|].
  rewrite <-app_comm_cons, !mjoin_cons, IH. apply app_assoc.
Qed.

(** The bytes of a covenant end in its opcode. *)
Lemma covenant_last pk z o mint :
  ∃ pre, mjoin (map raw (covenant pk z o mint)) = pre ++ [covenant_op mint] ∧ pre ≠ [].
Proof.
  unfold covenant. rewrite app_assoc, map_app.
  change (map raw [?p]) with [raw p]. rewrite mjoin_snoc. eexists; split; [done|].
  rewrite map_app. cbn [map app]. rewrite mjoin_cons. by unfold raw at 1.
Qed.

Lemma covenant_wf pk z o mint :
  is_bytes pk → is_bytes o → zlen pk ≤ 65535 → zlen o ≤ 65535 → 0 ≤ z ≤ 2147483647 →
  Forall wf_push (covenant pk z o mint).
Proof.
  intros. unfold covenant.
  assert (wf_push (op_push (covenant_op mint))).
  { unfold wf_push, op_push. cbn [isPush opcode data]. split_and!; [|constructor| |done].
    - destruct mint; by split.
    - by destruct mint. }
  destruct mint; repeat (constructor; auto using wf_push_of, wf_mult_push).
Qed.

Lemma minimal_data p n :
  wf_push p → isPush p = true → isMinimalPush p = true → zlen (data p) = n → 1 < n ≤ 65535 →
  p = push_of (data p).
Proof. intros Hw Hp Hm Hn Hr. by apply isMinimalPush_spec in Hm as [_ Hm]; [|done|done|lia]. Qed.

Lemma isMinimalPush_of d :
  is_bytes d → 1 < zlen d ≤ 65535 → isMinimalPush (push_of d) = true.
Proof.
  intros Hd Hl. apply isMinimalPush_spec; [apply wf_push_of; [done|lia]|done|cbn; lia|].
  split; [|done]. cbn [push_of data]. unfold is_small_num.
  rewrite (proj2 (Z.eqb_neq _ _)); [done|lia].
Qed.

(** The fields a parsed covenant has. *)
Definition wf_uap (r : uap_script) (z : Z) : Prop :=
  is_bytes (pubkey r) ∧ (zlen (pubkey r) = 33 ∨ zlen (pubkey r) = 65)
  ∧ multiplier r = Int z ∧ 0 ≤ z ≤ 2147483647
  ∧ is_bytes (origin r) ∧ zlen (origin r) = if isMint r then 0 else 32.

Lemma bare_op p op : wf_push p → isPush p = false → opcode p = op → p = op_push op.
Proof.
  intros (_ & _ & Hw) Hp <-. destruct p as [ip op d]. cbn [isPush opcode data] in *. subst ip.
  by destruct Hw as [_ ->].
Qed.

Lemma parse_sound s r :
  is_bytes s → parseUapScript s = Some r →
  ∃ z, wf_uap r z ∧ s = mjoin (map raw (covenant (pubkey r) z (origin r) (isMint r))).
Proof.
  intros Hs H. unfold parseUapScript in H.
  destruct (zlen s <? 2); [done|]. set (last := at_ s (zlen s - 1)) in *.
  destruct (negb (last =? OP_MINT) && negb (last =? OP_MINT_TRANSFER)); [done|].
  destruct (readPushes s) as [ps|] eqn:Er; [|done].
  apply readPushes_spec in Er as [Hw ->]; [|done].
  destruct (negb (zlen ps =? if last =? OP_MINT then 3 else 4)) eqn:El; [done|]. simp_bool.
  set (pk := nth 0 ps _) in *. destruct (negb (isPush pk) || _ || _) eqn:Epk; [done|].
  destruct (read_multiplier (nth 1 ps (scriptPush false 0 []))) as [m|] eqn:Em; [|done].
  cbn [mbind option_bind] in H. fold (out_of_range m) in H.
  destruct (out_of_range m) eqn:Eo; [done|].
  destruct ps as [|p0 [|p1 [|p2 ps]]]; try (destruct (last =? OP_MINT); done).
  cbn [nth] in pk, Em, H. subst pk. do 3 (apply Forall_cons in Hw as [? Hw]).
  destruct (proj1 (read_multiplier_spec p1 m H1) (conj Em Eo)) as (z & -> & Hz & ->).
  exists z. simp_bool.
  assert (p0 = push_of (data p0)) as Hp0.
  { destruct H4 as [H4|H4]; simp_bool; eapply minimal_data; (done || lia). }
  assert (zlen (data p0) = 33 ∨ zlen (data p0) = 65) as Hpl.
  { destruct H4; simp_bool; auto. }
  assert (is_bytes (data p0)) as Hpb by apply H0.
  clearbody last. clear Hs. destruct (last =? OP_MINT).
  - destruct ps; [|cbn [length] in El; lia].
    destruct (isPush p2 || negb (opcode p2 =? OP_MINT)) eqn:E2; [done|]. simplify_eq. simp_bool.
    split; [split_and!; done || lia || apply is_bytes_nil|].
    cbn [pubkey origin isMint]. unfold covenant, covenant_op. cbn [app].
    by rewrite <-Hp0, (bare_op p2 OP_MINT).
  - destruct ps as [|p3 [|]]; cbn [length] in El; [lia| |lia]. cbn [nth] in H.
    destruct (negb (isPush p2) || negb (isMinimalPush p2) || _) eqn:E2; [done|].
    destruct (isPush p3 || negb (opcode p3 =? OP_MINT_TRANSFER)) eqn:E3; [done|].
    simplify_eq. simp_bool. rewrite Forall_singleton in Hw.
    assert (p2 = push_of (data p2)) as Hp2 by (eapply minimal_data; (done || lia)).
    split; [split_and!; done || lia || apply H2|].
    cbn [pubkey origin isMint]. unfold covenant, covenant_op. cbn [app].
    by rewrite <-Hp0, <-Hp2, (bare_op p3 OP_MINT_TRANSFER).
Qed.

Lemma parse_complete r z :
  wf_uap r z →
  parseUapScript (mjoin (map raw (covenant (pubkey r) z (origin r) (isMint r)))) = Some r.
Proof.
  destruct r as [pk m o mint]. unfold wf_uap. cbn [pubkey multiplier origin isMint].
  intros (Hpk & Hpl & -> & Hz & Ho & Hol).
  assert (Forall wf_push (covenant pk z o mint)) as Hw.
  { apply covenant_wf; [done..|lia|destruct mint; lia|lia]. }
  set (s := mjoin _).
  assert (is_bytes s) as Hs by (by apply raws_bytes).
  assert (readPushes s = Ok (covenant pk z o mint)) as Hr by (by apply readPushes_spec).
  unfold parseUapScript. rewrite Hr. destruct (covenant_last pk z o mint) as (pre & E & Hpre).
  fold s in E. rewrite E. rewrite at_snoc by (rewrite length_app; cbn [length]; lia).
  rewrite (proj2 (Z.ltb_ge _ _)).
  2:{ rewrite length_app. cbn [length]. destruct pre; [done|]. cbn [length]. lia. }
  pose proof (proj2 (out_of_range_int (Int z)) ltac:(eauto)) as Hor. unfold out_of_range in Hor.
  assert (isMinimalPush (push_of pk) = true) as Hmp by (apply isMinimalPush_of; [done|lia]).
  assert ((negb (zlen pk =? 33) && negb (zlen pk =? 65)) = false) as Hpl'.
  { destruct Hpl as [-> | ->]; done. }
  destruct mint; unfold covenant, covenant_op; cbn [app Z.eqb Pos.eqb OP_MINT OP_MINT_TRANSFER
    negb andb nth length Z.of_nat Pos.of_succ_nat Pos.succ push_of isPush data opcode op_push].
  - change (nth 0 _ _) with (push_of pk). rewrite Hmp, read_multiplier_push by done.
    cbn [push_of data isPush]. rewrite Hpl'. cbn [negb orb mbind option_bind].
    rewrite Hor. destruct o; done.
  - change (nth 0 _ _) with (push_of pk). rewrite Hmp, read_multiplier_push by done.
    cbn [push_of data isPush]. rewrite Hpl'. cbn [negb orb mbind option_bind].
    rewrite Hor.
    rewrite isMinimalPush_of by (done || lia). cbn [negb orb]. by rewrite Hol.
Qed.

Lemma covenant_inj pk z o mint pk' z' o' mint' :
  is_bytes (mjoin (map raw (covenant pk z o mint))) →
  Forall wf_push (covenant pk z o mint) → Forall wf_push (covenant pk' z' o' mint') →
  mjoin (map raw (covenant pk z o mint)) = mjoin (map raw (covenant pk' z' o' mint')) →
  covenant pk z o mint = covenant pk' z' o' mint'.
Proof.
  intros Hs Hw Hw' E. apply Ok_inj.
  rewrite <-(proj2 (readPushes_spec _ (covenant pk z o mint) Hs) (conj Hw eq_refl)).
  by apply readPushes_spec.
Qed.

(** ** The origin of a spend *)

Lemma encodeUint32LE_spec n : encodeUint32LE n = le_bytes 4 n.
Proof.
  unfold encodeUint32LE. rewrite and_byte, !shr_byte, ushr_byte by lia.
  rewrite u8of_small by (repeat constructor; apply Z.mod_pos_bound; lia).
  cbn [le_bytes]. rewrite !Z.div_div by lia. done.
Qed.

Lemma deriveOrigin_spec txid vout o :
  deriveOrigin txid vout = Ok o
  ↔ ∃ tb z, hexToBytes txid = Ok tb ∧ zlen tb = 32 ∧ vout = Int z ∧ 0 ≤ z < 2 ^ 32
      ∧ o = sha256 (reverse tb ++ le_bytes 4 z).
Proof.
  unfold deriveOrigin. rewrite bind_Ok. split.
  - intros (tb & Htb & H). simp_res. simp_bool. pose proof (hexToBytes_bytes _ _ Htb).
    destruct vout as [| |m k]; try done. cbn [isInteger] in *. simp_bool. subst k.
    rewrite !int_ltb in *. simp_bool. exists tb, m. split_and!; [done..|lia|].
    rewrite concatBytes_join, encodeUint32LE_spec, reverseBytes_eq by done.
    cbn [mjoin list_join num_Z]. by rewrite app_nil_r.
  - intros (tb & z & Htb & Hl & -> & Hz & ->). pose proof (hexToBytes_bytes _ _ Htb).
    exists tb. split; [done|]. rewrite Hl, !int_ltb. cbn [isInteger Z.eqb negb orb].
    rewrite (proj2 (Z.ltb_ge z 0)), (proj2 (Z.ltb_ge _ z)) by lia. cbn [orb Pos.eqb negb throw_if mbind res_bind].
    rewrite concatBytes_join, encodeUint32LE_spec, reverseBytes_eq by done.
    cbn [mjoin list_join num_Z]. by rewrite app_nil_r.
Qed.

Lemma deriveOrigin_32 txid vout o :
  deriveOrigin txid vout = Ok o → is_bytes o ∧ zlen o = 32.
Proof.
  intros (tb & z & _ & _ & _ & _ & ->)%deriveOrigin_spec.
  split; [apply sha256_bytes|]. by rewrite length_sha256.
Qed.

Lemma originForSpend_mint pre txid vout :
  originForSpend (Some (pre ++ [OP_MINT])) txid vout = deriveOrigin txid vout.
Proof.
  unfold originForSpend. rewrite length_app. cbn [length].
  rewrite (proj2 (Z.ltb_ge _ 1)) by lia. cbn [throw_if mbind res_bind].
  by rewrite at_snoc by lia.
Qed.

Lemma originForSpend_transfer pre o txid vout :
  zlen o = 32 →
  originForSpend (Some (pre ++ [0x20] ++ o ++ [OP_MINT_TRANSFER])) txid vout = Ok o.
Proof.
  intros Ho. unfold originForSpend.
  assert (zlen (pre ++ [0x20] ++ o ++ [OP_MINT_TRANSFER]) = zlen pre + 34) as ->.
  { rewrite !length_app. cbn [length]. lia. }
  rewrite (proj2 (Z.ltb_ge _ 1)) by lia. cbn [throw_if mbind res_bind].
  assert (at_ (pre ++ [0x20] ++ o ++ [OP_MINT_TRANSFER]) (zlen pre + 34 - 1) = OP_MINT_TRANSFER) as ->.
  { rewrite !app_assoc. apply at_snoc. rewrite !length_app. cbn [length]. lia. }
  cbn [Z.eqb OP_MINT_TRANSFER OP_MINT Pos.eqb].
  rewrite (proj2 (Z.ltb_ge _ 34)) by lia.
  assert (at_ (pre ++ [0x20] ++ o ++ [OP_MINT_TRANSFER]) (zlen pre + 34 - 34) = 0x20) as ->
    by (apply at_app_0; lia).
  cbn [Z.eqb Pos.eqb negb orb throw_if mbind res_bind]. f_equal. rewrite app_assoc.
  apply slice_app_mid; rewrite length_app; cbn [length]; lia.
Qed.

Lemma covenant_transfer_bytes pk z o :
  zlen o = 32 →
  mjoin (map raw (covenant pk z o false))
  = (raw (push_of pk) ++ raw (mult_push z)) ++ [0x20] ++ o ++ [OP_MINT_TRANSFER].
Proof.
  intros Ho. unfold covenant. cbn [app map]. rewrite !mjoin_cons, <-app_assoc. do 2 f_equal.
  unfold raw at 1. cbn [push_of isPush opcode data]. rewrite Ho. cbn [Z.leb Z.compare Pos.compare Pos.compare_cont].
  change (len_width 32) with 0%nat. done.
Qed.

Lemma originForSpend_covenant pk z o mint txid vout :
  (mint = false → zlen o = 32) →
  originForSpend (Some (mjoin (map raw (covenant pk z o mint)))) txid vout
  = if mint then deriveOrigin txid vout else Ok o.
Proof.
  intros Ho. destruct mint.
  - destruct (covenant_last pk z o true) as (pre & -> & _). apply originForSpend_mint.
  - rewrite covenant_transfer_bytes by auto. apply originForSpend_transfer. auto.
Qed.

(** ** Metadata *)

Definition is_ticker_char (c : ascii) : Prop := 0x30 ≤ code c ≤ 0x39 ∨ 0x41 ≤ code c ≤ 0x5a.

Lemma ticker_chars_spec i l n :
  foldR ticker_char i l = Ok n ↔ n = i + zlen l ∧ Forall is_ticker_char l.
Proof.
  revert i. induction l as [|c l IH]; intros i; cbn [foldR length].
  { rewrite Z.add_0_r. split; [intros; simp_res; auto|by intros [-> _]]. }
  rewrite bind_Ok, Forall_cons. setoid_rewrite IH. unfold ticker_char, is_ticker_char. split.
  - intros (j & H & -> & ?). simp_res.
    split_and!; [lia| |done]. apply andb_false_iff in H as [H|H]; simp_bool; lia.
  - intros (-> & Hc & ?). exists (i + 1). split; [|split; [lia|done]].
    destruct (negb _ && negb _) eqn:E; [lia|done].
Qed.

Lemma normalizeTicker_spec t u :
  normalizeTicker t = Ok u
  ↔ u = toUpperCase (default EmptyString t) ∧ 1 ≤ slen u ≤ MAX_TICKER_BYTES
    ∧ Forall is_ticker_char (chars u).
Proof.
  unfold normalizeTicker. split.
  - intros H. simp_res. simp_bool. apply ticker_chars_spec in H0 as [_ ?]. split_and!; [done|lia..|done].
  - intros (-> & Hl & Hc). set (u := toUpperCase _) in *.
    rewrite (proj2 (Z.ltb_ge _ 1)), Z.gtb_ltb, (proj2 (Z.ltb_ge MAX_TICKER_BYTES _)) by lia.
    cbn [orb throw_if mbind res_bind].
    by rewrite (proj2 (ticker_chars_spec 0 (chars u) _) (conj eq_refl Hc)).
Qed.

Lemma magic_bytes : is_bytes METADATA_MAGIC.
Proof. apply u8of_bytes. Qed.
#[export] Hint Resolve magic_bytes : bytes.

(** The elements of a metadata record. *)
Definition metadata (u : string) (h : bytes) : list push :=
  [op_push OP_RETURN; push_of METADATA_MAGIC; push_of (u8of [METADATA_VERSION]);
   push_of (utf8 u); push_of h].

Lemma length_raw_push_of d : zlen d ≤ 75 → zlen (raw (push_of d)) = zlen d + 1.
Proof.
  intros. unfold raw, push_of. cbn [isPush opcode data]. rewrite (proj2 (Z.leb_le _ _)) by done.
  rewrite len_width_small by lia. cbn [le_bytes app length]. lia.
Qed.

Lemma ticker_bytes u :
  Forall is_ticker_char (chars u) → zlen (utf8 u) = slen u.
Proof.
  intros Hc. rewrite utf8_ascii; [by rewrite length_map|].
  eapply List.Forall_impl; [|exact Hc]. unfold is_ticker_char. intros c Hcc. simpl in *. lia.
Qed.

Lemma buildMetadataScript_spec t h s :
  is_bytes (default [] h) →
  buildMetadataScript t h = Ok s
  ↔ (zlen (default [] h) = 0 ∨ zlen (default [] h) = 32)
    ∧ ∃ u, normalizeTicker t = Ok u ∧ s = mjoin (map raw (metadata u (default [] h)))
           ∧ zlen s = 10 + slen u + zlen (default [] h).
Proof.
  intros Hh. unfold buildMetadataScript. rewrite bind_Ok.
  assert (∀ u, normalizeTicker t = Ok u → zlen (default [] h) ≤ 32 →
    zlen (mjoin (map raw (metadata u (default [] h)))) = 10 + slen u + zlen (default [] h)) as Hlen.
  { intros u (_ & Hu & Hc)%normalizeTicker_spec Hl. unfold MAX_TICKER_BYTES in Hu.
    pose proof (ticker_bytes u Hc). unfold metadata. cbn [map]. rewrite !mjoin_cons, !length_app.
    rewrite !Nat2Z.inj_add, !length_raw_push_of by (simpl; lia). simpl. lia. }
  split.
  - intros (u & Hu & H). simp_res.
    assert (zlen (default [] h) = 0 ∨ zlen (default [] h) = 32) as Hl.
    { apply andb_false_iff in H as [H|H]; simp_bool; auto. }
    split; [done|]. exists u. split; [done|].
    apply pushData_spec in H0 as [_ ->], H1 as [_ ->], H2 as [_ ->], H3 as [_ ->];
      auto with bytes.
    rewrite concatBytes_join. split; [done|]. apply Hlen; [done|lia].
  - intros (Hl & u & Hu & -> & El). exists u. split; [done|].
    assert ((negb (zlen (default [] h) =? 0) && negb (zlen (default [] h) =? 32)) = false) as ->.
    { destruct Hl as [-> | ->]; done. }
    pose proof (proj1 (normalizeTicker_spec t u) Hu) as (_ & Hul & Hc).
    pose proof (ticker_bytes u Hc). unfold MAX_TICKER_BYTES in Hul.
    assert (∀ d, is_bytes d → zlen d ≤ 75 → pushData d = Ok (raw (push_of d))) as Hp.
    { intros d Hd Hdl. apply pushData_spec; [done|split; [lia|done]]. }
    rewrite !Hp by (auto with bytes || (simpl; lia)). cbn [throw_if mbind res_bind].
    rewrite concatBytes_join. change (mjoin _) with (mjoin (map raw (metadata u (default [] h)))).
    rewrite El. unfold MAX_METADATA_SCRIPT_BYTES.
    rewrite Z.gtb_ltb, (proj2 (Z.ltb_ge _ _)) by lia. done.
Qed.

Lemma metadata_wf t u h :
  is_bytes h → zlen h = 0 ∨ zlen h = 32 → normalizeTicker t = Ok u → Forall wf_push (metadata u h).
Proof.
  intros Hh Hl (_ & Hul & Hc)%normalizeTicker_spec. unfold MAX_TICKER_BYTES in Hul.
  pose proof (ticker_bytes u Hc). unfold metadata. constructor; [by split_and!; [|constructor|]|].
  repeat (constructor; [apply wf_push_of; [auto with bytes|simpl; lia]|]). constructor.
Qed.

(** ** Properties *)

(** C11 Building and reading covenants are exact inverses: a script parses to
    given fields if and only if it is the script [buildMintScript] or
    [buildTransferScript] emits for them (with a 33- or 65-byte key).  Every
    position has one encoding, and whatever parses could have been built. *)
Theorem parseUapScript_iff_built s r :
  is_bytes s →
  parseUapScript s = Some r
  ↔ is_bytes (pubkey r) ∧ is_bytes (origin r)
    ∧ (zlen (pubkey r) = 33 ∨ zlen (pubkey r) = 65)
    ∧ if isMint r then origin r = [] ∧ buildMintScript (pubkey r) (multiplier r) = Ok s
      else buildTransferScript (pubkey r) (multiplier r) (Some (origin r)) = Ok s.
Proof.
  intros Hs. split.
  - intros (z & (Hpk & Hpl & Hm & Hz & Ho & Hol) & ->)%parse_sound; [|done].
    split_and!; [done..|]. destruct (isMint r).
    + assert (origin r = []) as Eo by (destruct (origin r); [done|simpl in Hol; lia]).
      split; [done|]. rewrite Eo. apply buildMintScript_spec; [done|]. split; [lia|]. by exists z.
    + apply buildTransferScript_spec; [done..|]. split_and!; [done|lia|]. by exists z.
  - intros (Hpk & Ho & Hpl & Hb). destruct (isMint r) eqn:Ei.
    + destruct Hb as [Eo (Hl & z & Hm & Hz & ->)%buildMintScript_spec]; [|done].
      rewrite <-Eo, <-Ei. apply parse_complete. split_and!; [done..|lia|lia|done|by rewrite Ei, Eo].
    + apply buildTransferScript_spec in Hb as (Hol & Hl & z & Hm & Hz & ->); [|done..].
      rewrite <-Ei. apply parse_complete. split_and!; [done..|lia|lia|done|by rewrite Ei].
Qed.

Lemma parseUapScript_iff_built_witness :
  let r := UapScript (2 :: replicate 32 1) (Int 1000) (replicate 32 7) false in
  parseUapScript (mjoin [33 :: 2 :: replicate 32 1; [2; 232; 3]; 32 :: replicate 32 7; [0xba]])
  = Some r.
Proof.
  intros r. apply parseUapScript_iff_built.
  - apply (bool_decide_unpack (is_bytes _)). by vm_compute.
  - split_and!; [apply (bool_decide_unpack (is_bytes _)); by vm_compute..|by left|by vm_compute].
Defined.

(** Spending a position keeps its lineage: the origin its successor must
    carry is the one inside the script when the position is a transfer, and is
    derived from the outpoint (SHA-256 of the txid in wire order and the index,
    little-endian) when it is a mint. *)
Theorem originForSpend_lineage s r txid vout :
  is_bytes s → parseUapScript s = Some r →
  originForSpend (Some s) txid vout
  = if isMint r then deriveOrigin txid vout else Ok (origin r).
Proof.
  intros Hs (z & (_ & _ & _ & _ & _ & Hol) & ->)%parse_sound; [|done].
  apply originForSpend_covenant. intros E. by rewrite E in Hol.
Qed.

Lemma originForSpend_lineage_witness :
  originForSpend
    (Some (mjoin [33 :: 2 :: replicate 32 1; [0x60]; 32 :: replicate 32 7; [0xba]])) "00" (Int 0)
  = Ok (replicate 32 7).
Proof.
  apply (originForSpend_lineage _
    (UapScript (2 :: replicate 32 1) (Int 16) (replicate 32 7) false) "00" (Int 0)).
  - apply (bool_decide_unpack (is_bytes _)). by vm_compute.
  - by vm_compute.
Defined.

(** The metadata record of a mint: every ticker that normalizes (1 to 8
    characters of A-Z and 0-9 after folding) builds with an empty or 32-byte
    hash, within the relay ceiling, so the internal error is never reached; and
    the record reads back as the five elements it was built from. *)
Theorem buildMetadataScript_total t h u :
  is_bytes (default [] h) → zlen (default [] h) = 0 ∨ zlen (default [] h) = 32 →
  normalizeTicker t = Ok u →
  ∃ s, buildMetadataScript t h = Ok s ∧ zlen s ≤ MAX_METADATA_SCRIPT_BYTES
    ∧ readPushes s = Ok (metadata u (default [] h)).
Proof.
  intros Hh Hl Hu. pose proof (proj1 (normalizeTicker_spec t u) Hu) as (_ & Hul & Hc).
  unfold MAX_TICKER_BYTES in Hul. pose proof (ticker_bytes u Hc).
  assert (Forall wf_push (metadata u (default [] h))) as Hw by (by eapply metadata_wf).
  set (s := mjoin (map raw (metadata u (default [] h)))). exists s.
  assert (is_bytes s) as Hs by (by apply raws_bytes).
  assert (zlen s = 10 + slen u + zlen (default [] h)) as El.
  { unfold s, metadata. cbn [map]. rewrite !mjoin_cons, !length_app.
    rewrite !Nat2Z.inj_add, !length_raw_push_of by (simpl; lia). simpl. lia. }
  split_and!.
  - apply buildMetadataScript_spec; [done|]. split; [done|]. by exists u.
  - unfold MAX_METADATA_SCRIPT_BYTES. lia.
  - by apply readPushes_spec.
Qed.

Lemma buildMetadataScript_total_witness :
  ∃ s, buildMetadataScript (Some "whip") None = Ok s ∧ zlen s ≤ 83
    ∧ readPushes s = Ok (metadata "WHIP" []).
Proof.
  apply (buildMetadataScript_total (Some "whip") None "WHIP").
  - apply is_bytes_nil.
  - by left.
  - by vm_compute.
Defined.

(** Bytes survive the trip through hexadecimal, and a lower-case hexadecimal
    string is the print of the bytes it parses to. *)
Theorem hex_roundtrip bs s :
  is_bytes bs →
  hexToBytes (bytesToHex bs) = Ok bs
  ∧ (is_lower_hex s = true → hexToBytes s = Ok bs → bytesToHex bs = s).
Proof.
  intros Hb. split; [by apply hexToBytes_bytesToHex|apply bytesToHex_hexToBytes].
Qed.

Lemma hex_roundtrip_witness : bytesToHex [0xde; 0xad; 0x00] = "dead00".
Proof.
  apply (hex_roundtrip [0xde; 0xad; 0x00] "dead00").
  - apply (bool_decide_unpack (is_bytes _)). by vm_compute.
  - by vm_compute.
  - by vm_compute.
Defined.
