(* ===== verification/Tx.v ===== *)
(** * Transactions: [contrib/uap-js/uap.js], serialization and signature hash

    The wire format of a legacy transaction, its reader, the transaction id,
    the legacy signature hash in all its types, and the two signing helpers.
    The elliptic-curve module is the caller's: [secp] is the record of the two
    functions the library calls on it.

    The reader inverts the writer on every well-formed transaction.  The
    signature hash does not depend on the scriptSigs, so inputs can be signed
    in any order, and under SINGLE|ANYONECANPAY it depends on nothing but the
    signed input and the output beside it. *)

From stdpp Require Import base tactics option list numbers strings pretty.
From Stdlib Require Import ZArith Lia Ascii.
From S2P Require Import Prelude JsInt JsStr JsNum Words Sha256 Script.

(** ** Data *)

(** A transaction input; the fields the code defaults are optional. *)
Record vin := Vin {
  in_txid : string;
  in_vout : Z;
  in_scriptSig : option bytes;
  in_scriptSigLength : option Z;
  in_sequence : option Z
}.

Record txout := TxOut { out_value : Number; out_scriptPubKey : bytes }.

Record tx := Tx {
  tx_version : option Z;
  tx_vin : list vin;
  tx_vout : list txout;
  tx_locktime : option Z
}.

(** [a || b] of an optional number. *)
Definition or_num (a : option Z) (b : Z) : Z :=
  match a with Some n => if n =? 0 then b else n | None => b end.

(** ** Writing *)

Definition encodeVarInt (n : Z) : res bytes :=
  if n <? 0xfd then Ok (u8of [n])
  else if n <=? 0xffff then Ok (u8of [0xfd; js_and n 0xff; js_and (js_shr n 8) 0xff])
  else if n <=? 0xffffffff
  then Ok (u8of [0xfe; js_and n 0xff; js_and (js_shr n 8) 0xff; js_and (js_shr n 16) 0xff;
                 js_and (js_ushr n 24) 0xff])
  else Throw "varint too large for this helper".

Definition encodeInt64LE (n : Number) : res bytes :=
  z ← to_bigint n; Ok (set_int64_le z).

(** The parts one input contributes. *)
Definition serialize_vin (vin : vin) : res (list bytes) :=
  txidBytes ← hexToBytes (in_txid vin);
  _ ← throw_if (negb (zlen txidBytes =? 32))
        ("txid must be exactly 32 bytes, got " +:+ dec (zlen txidBytes)
         +:+ " (" +:+ json_string (in_txid vin) +:+ ")");
  let txidLE := reverseBytes txidBytes in
  let scriptSig := default [] (in_scriptSig vin) in
  let declaredLength := default (zlen scriptSig) (in_scriptSigLength vin) in
  len ← encodeVarInt declaredLength;
  Ok [txidLE; encodeUint32LE (in_vout vin); len; scriptSig;
      encodeUint32LE (default 0xffffffff (in_sequence vin))].

Definition serialize_vout (vout : txout) : res (list bytes) :=
  v ← encodeInt64LE (out_value vout);
  len ← encodeVarInt (zlen (out_scriptPubKey vout));
  Ok [v; len; out_scriptPubKey vout].

Definition serializeTx (tx : tx) : res bytes :=
  nin ← encodeVarInt (zlen (tx_vin tx));
  ins ← mapR serialize_vin (tx_vin tx);
  nout ← encodeVarInt (zlen (tx_vout tx));
  outs ← mapR serialize_vout (tx_vout tx);
  Ok (concatBytes ([encodeUint32LE (or_num (tx_version tx) 1); nin] ++ mjoin ins
                   ++ [nout] ++ mjoin outs ++ [encodeUint32LE (or_num (tx_locktime tx) 0)])).

Definition txToHex (tx : tx) : res string := bs ← serializeTx tx; Ok (bytesToHex bs).

(** ** Reading *)

(** [{ value, next }]. *)
Definition readVarInt (bs : bytes) (pos : Z) : res (Z * Z) :=
  _ ← throw_if (pos >=? zlen bs) "truncated transaction: varint";
  let first := at_ bs pos in
  if first <? 0xfd then Ok (first, pos + 1)
  else if first =? 0xfd then
    _ ← throw_if (pos + 3 >? zlen bs) "truncated transaction: varint (0xfd)";
    Ok (js_or (at_ bs (pos + 1)) (js_shl (at_ bs (pos + 2)) 8), pos + 3)
  else if first =? 0xfe then
    _ ← throw_if (pos + 5 >? zlen bs) "truncated transaction: varint (0xfe)";
    let value :=
      js_ushr (js_or (js_or (js_or (at_ bs (pos + 1)) (js_shl (at_ bs (pos + 2)) 8))
                       (js_shl (at_ bs (pos + 3)) 16)) (js_shl (at_ bs (pos + 4)) 24)) 0 in
    Ok (value, pos + 5)
  else
    _ ← throw_if (pos + 9 >? zlen bs) "truncated transaction: varint (0xff)";
    let big := le_num (slice bs (pos + 1) (pos + 9)) in
    _ ← throw_if (big >? MAX_SAFE_INTEGER) "varint too large to represent exactly as a JS number";
    Ok (big, pos + 9).

Definition readUint32LE (bs : bytes) (pos : Z) : res Z :=
  _ ← throw_if (pos + 4 >? zlen bs) "truncated transaction: uint32";
  Ok (js_ushr (js_or (js_or (js_or (at_ bs pos) (js_shl (at_ bs (pos + 1)) 8))
                       (js_shl (at_ bs (pos + 2)) 16)) (js_shl (at_ bs (pos + 3)) 24)) 0).

Definition readInt64LE (bs : bytes) (pos : Z) : res Number :=
  _ ← throw_if (pos + 8 >? zlen bs) "truncated transaction: int64";
  let v := get_int64_le (slice bs pos (pos + 8)) in
  _ ← throw_if ((v >? MAX_SAFE_INTEGER) || (v <? - MAX_SAFE_INTEGER))
        "output value cannot be represented exactly as a JS number";
  Ok (of_bigint v).

(** The bodies of the two loops of [deserializeTx]: the item at [pos] and the
    offset behind it. *)
Definition read_vin (bs : bytes) (pos : Z) : res (vin * Z) :=
  _ ← throw_if (pos + 32 >? zlen bs) "truncated transaction: input txid";
  let txidLE := slice bs pos (pos + 32) in
  let pos := pos + 32 in
  let txid := bytesToHex (reverseBytes txidLE) in
  vout ← readUint32LE bs pos;
  let pos := pos + 4 in
  '(len, pos) ← readVarInt bs pos;
  _ ← throw_if (pos + len >? zlen bs) "truncated transaction: input scriptSig";
  let scriptSig := slice bs pos (pos + len) in
  let pos := pos + len in
  sequence ← readUint32LE bs pos;
  let pos := pos + 4 in
  Ok (Vin txid vout (Some scriptSig) None (Some sequence), pos).

Definition read_vout (bs : bytes) (pos : Z) : res (txout * Z) :=
  value ← readInt64LE bs pos;
  let pos := pos + 8 in
  '(len, pos) ← readVarInt bs pos;
  _ ← throw_if (pos + len >? zlen bs) "truncated transaction: output scriptPubKey";
  let scriptPubKey := slice bs pos (pos + len) in
  let pos := pos + len in
  Ok (TxOut value scriptPubKey, pos).

(** [for (let i = 0; i < count; i++)] around one of them.  An item takes a
    byte or more, so a loop that has not ended after as many iterations as
    there are bytes has thrown. *)
Fixpoint read_items {A} (item : bytes → Z → res (A * Z)) (fuel : nat) (count : Z)
    (bs : bytes) (pos : Z) : res (list A * Z) :=
  if count <=? 0 then Ok ([], pos)
  else match fuel with
       | O => Throw "unreachable"
       | S fuel =>
           '(x, pos) ← item bs pos;
           '(xs, pos) ← read_items item fuel (count - 1) bs pos;
           Ok (x :: xs, pos)
       end.

(** [typeof data === 'string' ? hexToBytes(data) : data]. *)
Definition raw_data (data : string + bytes) : res bytes :=
  match data with inl hex => hexToBytes hex | inr bs => Ok bs end.

Definition deserializeTx (data : string + bytes) : res tx :=
  bs ← raw_data data;
  let pos := 0 in
  version ← readUint32LE bs pos;
  let pos := pos + 4 in
  '(nin, pos) ← readVarInt bs pos;
  '(vin, pos) ← read_items read_vin (S (length bs)) nin bs pos;
  '(nout, pos) ← readVarInt bs pos;
  '(vout, pos) ← read_items read_vout (S (length bs)) nout bs pos;
  locktime ← readUint32LE bs pos;
  let pos := pos + 4 in
  _ ← throw_if (negb (pos =? zlen bs))
        ("trailing bytes after transaction: " +:+ dec (zlen bs - pos)
         +:+ " unconsumed of " +:+ dec (zlen bs));
  Ok (Tx (Some version) vin vout (Some locktime)).

Definition txidFromBytes (data : string + bytes) : res string :=
  bs ← raw_data data; Ok (bytesToHex (reverseBytes (hash256 bs))).

(** ** The signature hash *)

Definition SIGHASH_NONE : Z := 2.
Definition SIGHASH_SINGLE : Z := 3.
Definition SIGHASH_ANYONECANPAY : Z := 0x80.

Definition SIGHASH_DEGENERATE_HASH : bytes := concatBytes [u8of [1]; u8zeros 31].

(** [{ ok, pos, opcode }]. *)
Record op_step := OpStep { step_ok : bool; step_pos : Z; step_opcode : Z }.

Definition nextOp (script : bytes) (pc : Z) : op_step :=
  if pc >=? zlen script then OpStep false pc (-1)
  else
  let opcode := at_ script pc in
  let pc := pc + 1 in
  if opcode <=? OP_PUSHDATA4 then
    let finish size pc :=
      if zlen script - pc <? size then OpStep false pc opcode
      else OpStep true (pc + size) opcode in
    if opcode =? OP_PUSHDATA1 then
      if zlen script - pc <? 1 then OpStep false pc opcode
      else finish (at_ script pc) (pc + 1)
    else if opcode =? OP_PUSHDATA2 then
      if zlen script - pc <? 2 then OpStep false pc opcode
      else finish (js_or (at_ script pc) (js_shl (at_ script (pc + 1)) 8)) (pc + 2)
    else if opcode =? OP_PUSHDATA4 then
      if zlen script - pc <? 4 then OpStep false pc opcode
      else finish (js_ushr (js_or (js_or (js_or (at_ script pc) (js_shl (at_ script (pc + 1)) 8))
                              (js_shl (at_ script (pc + 2)) 16)) (js_shl (at_ script (pc + 3)) 24)) 0)
             (pc + 4)
    else finish opcode pc
  else OpStep true pc opcode.

(** The loop of [serializeScriptCode]: runs collected so far, separators
    dropped, the start of the current run and the offset.  It ends when
    [nextOp] fails, at the latest at the end of the script. *)
Fixpoint code_loop (fuel : nat) (script : bytes) (runs : list bytes) (separators begin pc : Z)
    : list bytes * Z * Z * Z :=
  match fuel with
  | O => (runs, separators, begin, pc)
  | S fuel =>
      let step := nextOp script pc in
      if negb (step_ok step) then (runs, separators, begin, step_pos step)
      else
      let pc := step_pos step in
      if step_opcode step =? OP_CODESEPARATOR
      then code_loop fuel script (runs ++ [slice script begin (pc - 1)]) (separators + 1) pc pc
      else code_loop fuel script runs separators begin pc
  end.

(** [{ bytes, declaredLength }]. *)
Definition serializeScriptCode (scriptCode : bytes) : bytes * Z :=
  let '(runs, separators, begin, pc) := code_loop (S (length scriptCode)) scriptCode [] 0 0 0 in
  let runs :=
    if negb (begin =? zlen scriptCode) then runs ++ [slice scriptCode begin pc] else runs in
  (concatBytes runs, zlen scriptCode - separators).

(** The transaction a signature hash serializes. *)
Definition sighash_vin (baseType : Z) (signed : bytes * Z) (nIn i : nat) (v : vin) : vin :=
  let isSigned := (i =? nIn)%nat in
  let zeroSequence := negb isSigned && ((baseType =? SIGHASH_SINGLE) || (baseType =? SIGHASH_NONE)) in
  Vin (in_txid v) (in_vout v)
    (Some (if isSigned then fst signed else []))
    (if isSigned then Some (snd signed) else None)
    (if zeroSequence then Some 0 else in_sequence v).

Definition sighash_vout (baseType : Z) (nIn : nat) (vout : list txout) : list txout :=
  if baseType =? SIGHASH_NONE then []
  else if baseType =? SIGHASH_SINGLE
  then replicate nIn (TxOut (Int (-1)) []) ++ option_list (vout !! nIn)
  else vout.

Definition sighash_tx (scriptCode : bytes) (t : tx) (nIn : nat) (hashType : Z) : tx :=
  let baseType := js_and hashType 0x1f in
  let anyoneCanPay := negb (js_and hashType SIGHASH_ANYONECANPAY =? 0) in
  let signedScript := serializeScriptCode scriptCode in
  let inputIndices := if anyoneCanPay then [nIn] else seq 0 (length (tx_vin t)) in
  let vinOut :=
    omap (λ i, sighash_vin baseType signedScript nIn i <$> tx_vin t !! i) inputIndices in
  Tx (tx_version t) vinOut (sighash_vout baseType nIn (tx_vout t)) (tx_locktime t).

Definition signatureHash (scriptCode : bytes) (t : tx) (nIn : nat) (hashType : option Z) : res bytes :=
  let hashType := default SIGHASH_ALL hashType in
  let baseType := js_and hashType 0x1f in
  if (length (tx_vin t) <=? nIn)%nat then Ok SIGHASH_DEGENERATE_HASH
  else if (baseType =? SIGHASH_SINGLE) && (length (tx_vout t) <=? nIn)%nat
  then Ok SIGHASH_DEGENERATE_HASH
  else
    bs ← serializeTx (sighash_tx scriptCode t nIn hashType);
    Ok (hash256 (concatBytes [bs; encodeUint32LE hashType])).

(** ** Signing *)

(** The functions the library calls on the injected curve module:
    [signSync(msgHash, privKey, { canonical: true, der: true })] and
    [getPublicKey(privKey, compressed)]. *)
Record secp := Secp {
  signSync : bytes → bytes → res bytes;
  getPublicKey : bytes → bool → res bytes
}.

Definition signSpend (secp : secp) (scriptCode privKey : bytes) (t : tx) (nIn : nat)
    (hashType : option Z) : res bytes :=
  let hashType := default SIGHASH_ALL hashType in
  hash ← signatureHash scriptCode t nIn (Some hashType);
  der ← signSync secp hash privKey;
  pushData (concatBytes [der; u8of [hashType]]).

Definition signP2PKHInput (secp : secp) (scriptCode privKey pubKey : bytes) (t : tx) (nIn : nat)
    (hashType : option Z) : res bytes :=
  let hashType := default SIGHASH_ALL hashType in
  hash ← signatureHash scriptCode t nIn (Some hashType);
  der ← signSync secp hash privKey;
  a ← pushData (concatBytes [der; u8of [hashType]]);
  b ← pushData pubKey;
  Ok (concatBytes [a; b]).

(** ** Fields *)

(** [ra reads e as x]: behind any prefix and in front of any suffix, the reader
    takes exactly the bytes [e] and returns [x]. *)
Definition reads {A} (reader : bytes → Z → res (A * Z)) (e : bytes) (x : A) : Prop :=
  ∀ pre rest, is_bytes (pre ++ e ++ rest) →
    reader (pre ++ e ++ rest) (zlen pre) = Ok (x, zlen pre + zlen e).

(** The reader of a uint32 with its offset. *)
Definition read_u32 (bs : bytes) (pos : Z) : res (Z * Z) :=
  x ← readUint32LE bs pos; Ok (x, pos + 4).

Lemma slice4 s i :
  0 ≤ i → i + 4 ≤ zlen s →
  [at_ s i; at_ s (i + 1); at_ s (i + 2); at_ s (i + 3)] = slice s i (i + 4).
Proof.
  intros. repeat (rewrite slice_cons by lia).
  replace (i + 1 + 1) with (i + 2) by lia. replace (i + 2 + 1) with (i + 3) by lia.
  replace (i + 3 + 1) with (i + 4) by lia. by rewrite slice_nil.
Qed.

Lemma readUint32LE_slice s i :
  is_bytes s → 0 ≤ i → i + 4 ≤ zlen s → readUint32LE s i = Ok (le_num (slice s i (i + 4))).
Proof.
  intros Hs Hi Hl. unfold readUint32LE. rewrite Z.gtb_ltb, (proj2 (Z.ltb_ge _ _)) by lia.
  cbn [throw_if mbind res_bind]. by rewrite read_uint32, slice4 by auto with bytes.
Qed.

Lemma readUint32LE_enc pre n rest :
  is_bytes (pre ++ le_bytes 4 n ++ rest) →
  readUint32LE (pre ++ le_bytes 4 n ++ rest) (zlen pre) = Ok (n mod 2 ^ 32).
Proof.
  intros Hs. rewrite readUint32LE_slice; [|done|lia|rewrite !length_app, length_le_bytes; lia].
  rewrite slice_app_mid by (rewrite ?length_le_bytes; lia). by rewrite le_num_le_bytes.
Qed.

Lemma reads_u32 n : reads read_u32 (le_bytes 4 n) (n mod 2 ^ 32).
Proof.
  intros pre rest Hs. unfold read_u32. rewrite readUint32LE_enc by done.
  by rewrite length_le_bytes.
Qed.

Lemma encodeVarInt_spec n e :
  0 ≤ n →
  encodeVarInt n = Ok e
  ↔ n ≤ 0xffffffff ∧ e = if n <? 0xfd then [n] else if n <=? 0xffff then 0xfd :: le_bytes 2 n
                         else 0xfe :: le_bytes 4 n.
Proof.
  intros Hn. unfold encodeVarInt.
  rewrite and_byte, !shr_byte, ushr_byte by lia. cbn [le_bytes]. rewrite !Z.div_div by lia.
  destruct (Z.ltb_spec n 0xfd).
  { rewrite u8of_small by (repeat constructor; lia). split; [intros; simp_res; split; [lia|done]|].
    by intros [_ ->]. }
  destruct (Z.leb_spec n 0xffff).
  { rewrite u8of_small by (repeat constructor; try lia; apply Z.mod_pos_bound; lia).
    split; [intros; simp_res; split; [lia|done]|]. by intros [_ ->]. }
  destruct (Z.leb_spec n 0xffffffff).
  - rewrite u8of_small by (repeat constructor; try lia; apply Z.mod_pos_bound; lia).
    split; [intros; simp_res; split; [lia|done]|]. by intros [_ ->].
  - split; [intros; simp_res|lia].
Qed.

Lemma encodeVarInt_bytes n e : 0 ≤ n → encodeVarInt n = Ok e → is_bytes e ∧ 1 ≤ zlen e.
Proof.
  intros Hn [Hl ->]%encodeVarInt_spec; [|done].
  destruct (Z.ltb_spec n 0xfd).
  { split; [apply is_bytes_cons; split; [split; lia|apply is_bytes_nil]|simpl; lia]. }
  destruct (Z.leb_spec n 0xffff); (split; [|simpl; lia]);
    apply is_bytes_cons; (split; [by split|auto with bytes]).
Qed.

(** [readVarInt] reads back what [encodeVarInt] writes. *)
Lemma reads_varint n e : 0 ≤ n → encodeVarInt n = Ok e → reads readVarInt e n.
Proof.
  intros Hn He pre rest Hs. assert (Hb := encodeVarInt_bytes n e Hn He).
  apply encodeVarInt_spec in He as [Hl E]; [|done]. unfold readVarInt.
  assert ((zlen pre >=? zlen (pre ++ e ++ rest)) = false) as ->.
  { rewrite Z.geb_leb. apply Z.leb_gt. rewrite !length_app. lia. }
  cbn [throw_if mbind res_bind].
  assert (is_bytes e) as Hbe by apply Hb. clear Hb.
  assert (∀ w tl, e = w :: tl → at_ (pre ++ e ++ rest) (zlen pre) = w) as Hat.
  { intros w tl ->. by apply at_app_0. }
  destruct (Z.ltb_spec n 0xfd) as [H1|H1].
  { rewrite (Hat _ _ E), (proj2 (Z.ltb_lt _ _)) by lia. by rewrite E. }
  assert (zlen (pre ++ e ++ rest) = zlen pre + zlen e + zlen rest) as Hlen
    by (rewrite !length_app; lia).
  assert (slice (pre ++ e ++ rest) (zlen pre + 1) (zlen pre + zlen e) = tail e) as Hsl.
  { destruct e as [|w tl]; [by destruct (n <=? _)|]. cbn [tail].
    replace (pre ++ (w :: tl) ++ rest) with ((pre ++ [w]) ++ tl ++ rest) by (by rewrite <-app_assoc).
    apply slice_app_mid; rewrite ?length_app; cbn [length]; lia. }
  destruct (Z.leb_spec n 0xffff) as [H2|H2]; rewrite (Hat _ _ E); cbn [Z.ltb Z.eqb Z.compare Pos.compare Pos.compare_cont Pos.eqb];
    rewrite E in Hlen, Hsl; cbn [tail length] in Hlen, Hsl; rewrite length_le_bytes in *; rewrite <-E in Hlen, Hsl.
  - assert ((zlen pre + 3 >? zlen (pre ++ e ++ rest)) = false) as -> by lia.
    cbn [throw_if mbind res_bind]. rewrite read_uint16 by auto with bytes.
    replace [at_ _ (zlen pre + 1); _] with (le_bytes 2 n).
    2:{ rewrite <-Hsl. repeat (rewrite slice_cons by lia).
        replace (zlen pre + 1 + 1) with (zlen pre + 2) by lia.
        replace (zlen pre + 2 + 1) with (zlen pre + Z.of_nat 3) by lia. by rewrite slice_nil. }
    rewrite le_num_le_bytes, Z.mod_small by lia. rewrite E. cbn [length].
    rewrite length_le_bytes. done.
  - assert ((zlen pre + 5 >? zlen (pre ++ e ++ rest)) = false) as -> by lia.
    cbn [throw_if mbind res_bind]. rewrite read_uint32 by auto with bytes.
    replace [at_ _ (zlen pre + 1); _; _; _] with (le_bytes 4 n).
    2:{ rewrite <-Hsl. replace (zlen pre + Z.of_nat 5) with (zlen pre + 1 + 4) by lia.
        rewrite <-slice4 by lia. by rewrite <-!Z.add_assoc. }
    rewrite le_num_le_bytes, Z.mod_small by lia. rewrite E. cbn [length].
    rewrite length_le_bytes. done.
Qed.

(** The same facts for a reader standing at an offset of a longer string. *)
Lemma u32_at s pos p n r :
  is_bytes s → s = p ++ le_bytes 4 n ++ r → pos = zlen p → 0 ≤ n < 2 ^ 32 →
  readUint32LE s pos = Ok n.
Proof. intros Hs -> -> Hn. by rewrite readUint32LE_enc, Z.mod_small. Qed.

Lemma reads_at {A} (reader : bytes → Z → res (A * Z)) s pos p e x r :
  is_bytes s → s = p ++ e ++ r → pos = zlen p → reads reader e x →
  reader s pos = Ok (x, pos + zlen e).
Proof. intros Hs -> -> H. by apply H. Qed.

Lemma slice_at s i j p e r : s = p ++ e ++ r → i = zlen p → j = i + zlen e → slice s i j = e.
Proof. intros -> -> ->. by apply slice_app_mid. Qed.

Lemma le_bytes_length n z : zlen (le_bytes n z) = Z.of_nat n.
Proof. by rewrite length_le_bytes. Qed.

(** [solve_cut] proves that a string is cut where the reader stands. *)
Ltac solve_cut :=
  subst; rewrite <-?app_assoc; try done;
  repeat (rewrite ?length_app, ?length_reverse, ?length_le_bytes); cbn [length]; lia.

(** ** Well-formed transactions *)

Record wf_vin (v : vin) : Prop := {
  wf_txid : is_lower_hex (in_txid v) = true;
  wf_txid_len : slen (in_txid v) = 64;
  wf_index : 0 ≤ in_vout v < 2 ^ 32;
  wf_sig : ∃ ss, in_scriptSig v = Some ss ∧ is_bytes ss ∧ zlen ss ≤ 0xffffffff;
  wf_siglen : in_scriptSigLength v = None;
  wf_seq : ∃ q, in_sequence v = Some q ∧ 0 ≤ q < 2 ^ 32
}.

Record wf_vout (o : txout) : Prop := {
  wf_value : ∃ z, out_value o = Int z ∧ Z.abs z ≤ MAX_SAFE_INTEGER;
  wf_script : is_bytes (out_scriptPubKey o);
  wf_script_len : zlen (out_scriptPubKey o) ≤ 0xffffffff
}.

Record wf_tx (t : tx) : Prop := {
  wf_version : ∃ v, tx_version t = Some v ∧ 0 < v < 2 ^ 32;
  wf_locktime : ∃ l, tx_locktime t = Some l ∧ 0 ≤ l < 2 ^ 32;
  wf_vins : Forall wf_vin (tx_vin t);
  wf_vouts : Forall wf_vout (tx_vout t);
  wf_nin : zlen (tx_vin t) ≤ 0xffffffff;
  wf_nout : zlen (tx_vout t) ≤ 0xffffffff
}.

Lemma txid_bytes s :
  slen s = 64 → ∃ tb, hexToBytes s = Ok tb ∧ is_bytes tb ∧ zlen tb = 32.
Proof.
  intros Hl. destruct (hexToBytes s) as [tb|] eqn:E.
  - exists tb. split; [done|]. split; [by eapply hexToBytes_bytes|].
    pose proof (length_hexToBytes s tb E). lia.
  - unfold hexToBytes in E. rewrite Hl in E. done.
Qed.

Lemma serialize_vin_reads v :
  wf_vin v →
  ∃ ps, serialize_vin v = Ok ps ∧ is_bytes (mjoin ps) ∧ 41 ≤ zlen (mjoin ps)
    ∧ reads read_vin (mjoin ps) v.
Proof.
  intros [Hx Hxl Hi (ss & Ess & Hss & Hssl) Hsl (q & Eq & Hq)].
  destruct (txid_bytes _ Hxl) as (tb & Etb & Htb & Hlb).
  destruct (encodeVarInt (zlen ss)) as [L|] eqn:EL.
  2:{ rewrite (proj2 (encodeVarInt_spec (zlen ss) _ ltac:(lia)) (conj Hssl eq_refl)) in EL. done. }
  pose proof (encodeVarInt_bytes (zlen ss) _ ltac:(lia) EL) as [HLb HLl].
  pose proof (reads_varint (zlen ss) _ ltac:(lia) EL) as HL.
  exists [reverse tb; le_bytes 4 (in_vout v); L; ss; le_bytes 4 q].
  unfold serialize_vin. rewrite Etb, Ess, Hsl, Eq. cbn [mbind res_bind default id].
  rewrite Hlb, EL, !encodeUint32LE_spec, reverseBytes_eq by done.
  cbn [mjoin list_join]. rewrite app_nil_r.
  split_and!; [done|auto 10 with bytes|solve_cut|].
  intros pre rest Hs. set (s := pre ++ _ ++ rest) in *.
  assert (s = pre ++ reverse tb ++ le_bytes 4 (in_vout v) ++ L ++ ss ++ le_bytes 4 q ++ rest) as E.
  { unfold s. by rewrite <-!app_assoc. }
  assert (zlen s = zlen pre + 40 + zlen L + zlen ss + zlen rest) as Hlen by (rewrite E; solve_cut).
  unfold read_vin. assert ((zlen pre + 32 >? zlen s) = false) as -> by lia.
  cbn [throw_if mbind res_bind].
  rewrite (slice_at s _ _ pre (reverse tb) _ E) by (rewrite ?length_reverse; lia).
  rewrite (u32_at s (zlen pre + 32) (pre ++ reverse tb) (in_vout v)
    (L ++ ss ++ le_bytes 4 q ++ rest)) by (done || solve_cut).
  cbn [mbind res_bind].
  rewrite (reads_at readVarInt s (zlen pre + 32 + 4) (pre ++ reverse tb ++ le_bytes 4 (in_vout v))
    L (zlen ss) (ss ++ le_bytes 4 q ++ rest)) by (done || solve_cut).
  cbn [mbind res_bind].
  assert ((zlen pre + 32 + 4 + zlen L + zlen ss >? zlen s) = false) as -> by lia.
  cbn [throw_if mbind res_bind].
  rewrite (slice_at s _ _ (pre ++ reverse tb ++ le_bytes 4 (in_vout v) ++ L) ss (le_bytes 4 q ++ rest))
    by (done || solve_cut).
  rewrite (u32_at s _ (pre ++ reverse tb ++ le_bytes 4 (in_vout v) ++ L ++ ss) q rest)
    by (done || solve_cut).
  cbn [mbind res_bind]. rewrite reverseBytes_eq, reverse_involutive by auto with bytes.
  rewrite (bytesToHex_hexToBytes _ _ Hx Etb). apply (f_equal2 (λ a b, Ok (a, b))).
  - clear -Ess Hsl Eq. destruct v; cbn [in_scriptSig in_scriptSigLength in_sequence] in *. by subst.
  - clear -Hlb. solve_cut.
Qed.

Lemma encodeVarInt_ok n : 0 ≤ n ≤ 0xffffffff → ∃ e, encodeVarInt n = Ok e.
Proof.
  intros Hn. eexists. apply encodeVarInt_spec; [lia|]. split; [lia|done].
Qed.

Lemma serialize_vout_reads o :
  wf_vout o →
  ∃ ps, serialize_vout o = Ok ps ∧ is_bytes (mjoin ps) ∧ 9 ≤ zlen (mjoin ps)
    ∧ reads read_vout (mjoin ps) o.
Proof.
  intros [(z & Ez & Hz) Hb Hl]. set (spk := out_scriptPubKey o) in *.
  unfold MAX_SAFE_INTEGER in Hz.
  destruct (encodeVarInt_ok (zlen spk)) as [L EL]; [lia|].
  pose proof (encodeVarInt_bytes (zlen spk) _ ltac:(lia) EL) as [HLb HLl].
  pose proof (reads_varint (zlen spk) _ ltac:(lia) EL) as HL.
  exists [set_int64_le z; L; spk]. unfold serialize_vout, encodeInt64LE.
  fold spk. rewrite Ez, EL. cbn [to_bigint mbind res_bind mjoin list_join].
  assert (zlen (set_int64_le z) = 8) as H8 by apply le_bytes_length.
  assert (is_bytes (set_int64_le z)) by apply le_bytes_bytes.
  rewrite app_nil_r. split_and!; [done|auto with bytes|rewrite !length_app; lia|].
  intros pre rest Hs. set (s := pre ++ _ ++ rest) in *.
  assert (s = pre ++ set_int64_le z ++ L ++ spk ++ rest) as E by (unfold s; by rewrite <-!app_assoc).
  assert (zlen s = zlen pre + 8 + zlen L + zlen spk + zlen rest) as Hlen
    by (rewrite E, !length_app; lia).
  unfold read_vout, readInt64LE. assert ((zlen pre + 8 >? zlen s) = false) as -> by lia.
  cbn [throw_if mbind res_bind].
  rewrite (slice_at s _ _ pre (set_int64_le z) _ E), get_set_int64_le by lia.
  assert (((z >? MAX_SAFE_INTEGER) || (z <? - MAX_SAFE_INTEGER)) = false) as ->.
  { unfold MAX_SAFE_INTEGER. lia. }
  cbn [throw_if mbind res_bind]. rewrite of_bigint_safe by lia.
  rewrite (reads_at readVarInt s (zlen pre + 8) (pre ++ set_int64_le z) L (zlen spk) (spk ++ rest))
    by (done || (rewrite ?E, ?length_app, <-?app_assoc; done || lia)).
  cbn [mbind res_bind].
  assert ((zlen pre + 8 + zlen L + zlen spk >? zlen s) = false) as -> by lia.
  cbn [throw_if mbind res_bind].
  rewrite (slice_at s _ _ (pre ++ set_int64_le z ++ L) spk rest)
    by (rewrite ?E, ?length_app, <-?app_assoc; done || lia).
  apply (f_equal2 (λ a b, Ok (a, b))).
  - unfold spk. clear -Ez. destruct o; cbn [out_value] in *. by subst.
  - rewrite !length_app. lia.
Qed.

(** A loop over items reads the concatenation of their encodings. *)
Lemma read_items_reads {A} (item : bytes → Z → res (A * Z)) (xs : list A) (es : list bytes) :
  Forall2 (λ x e, reads item e x) xs es →
  ∀ fuel, (length xs ≤ fuel)%nat →
  reads (read_items item fuel (zlen xs)) (mjoin es) xs.
Proof.
  induction 1 as [|x e xs es Hx Hxs IH]; intros fuel Hf pre rest Hs.
  { destruct fuel; cbn; by rewrite Z.add_0_r. }
  destruct fuel as [|fuel]; [simpl in Hf; lia|]. cbn [read_items length].
  rewrite (proj2 (Z.leb_gt _ _)) by lia. rewrite mjoin_cons in *.
  rewrite (reads_at item _ (zlen pre) pre e x (mjoin es ++ rest)) by (done || by rewrite <-?app_assoc).
  cbn [mbind res_bind]. replace (Z.of_nat (S (length xs)) - 1) with (zlen xs) by lia.
  rewrite (reads_at (read_items item fuel (zlen xs)) _ (zlen pre + zlen e) (pre ++ e) (mjoin es) xs rest).
  - cbn [mbind res_bind]. do 2 f_equal. rewrite length_app. lia.
  - done.
  - by rewrite <-!app_assoc.
  - rewrite length_app. lia.
  - apply IH. simpl in Hf. lia.
Qed.

Lemma mapR_serialize {A} (ser : A → res (list bytes)) (item : bytes → Z → res (A * Z))
    (wf : A → Prop) xs m :
  0 ≤ m →
  (∀ x, wf x → ∃ ps, ser x = Ok ps ∧ is_bytes (mjoin ps) ∧ m ≤ zlen (mjoin ps)
                     ∧ reads item (mjoin ps) x) →
  Forall wf xs →
  ∃ pss, mapR ser xs = Ok pss ∧ is_bytes (mjoin (mjoin pss)) ∧ m * zlen xs ≤ zlen (mjoin (mjoin pss))
    ∧ Forall2 (λ x e, reads item e x) xs (map mjoin pss) ∧ mjoin (map mjoin pss) = mjoin (mjoin pss).
Proof.
  intros Hm Hser. induction 1 as [|x xs Hx Hxs (pss & E & Hb & Hl & HF & Hj)].
  { exists []. split_and!; [done|constructor|simpl; lia|constructor|done]. }
  destruct (Hser x Hx) as (ps & Ep & Hpb & Hpl & Hpr). exists (ps :: pss).
  assert (mjoin (mjoin (ps :: pss)) = mjoin ps ++ mjoin (mjoin pss)) as Ej.
  { by rewrite mjoin_cons, mjoin_app. }
  rewrite Ej. split_and!.
  - cbn [mapR]. by rewrite Ep, E.
  - auto with bytes.
  - rewrite length_app. cbn [length]. lia.
  - cbn [map]. by constructor.
  - cbn [map]. by rewrite mjoin_cons, Hj.
Qed.

Lemma or_num_some v b : v ≠ 0 → or_num (Some v) b = v.
Proof. intros. unfold or_num. by rewrite (proj2 (Z.eqb_neq _ _)). Qed.

Lemma or_num_zero l : or_num (Some l) 0 = l.
Proof. unfold or_num. destruct (Z.eqb_spec l 0); by subst. Qed.

(** The bytes of a transaction, field by field. *)
Lemma serializeTx_eq t bs :
  serializeTx t = Ok bs
  ↔ ∃ nin ins nout outs,
      encodeVarInt (zlen (tx_vin t)) = Ok nin ∧ mapR serialize_vin (tx_vin t) = Ok ins
      ∧ encodeVarInt (zlen (tx_vout t)) = Ok nout ∧ mapR serialize_vout (tx_vout t) = Ok outs
      ∧ bs = le_bytes 4 (or_num (tx_version t) 1) ++ nin ++ mjoin (mjoin ins) ++ nout
             ++ mjoin (mjoin outs) ++ le_bytes 4 (or_num (tx_locktime t) 0).
Proof.
  unfold serializeTx. split.
  - intros H. simp_res. rewrite concatBytes_join, !mjoin_app, !encodeUint32LE_spec.
    eexists _, _, _, _. split_and!; [done..|]. rewrite !mjoin_cons. cbn [mjoin list_join].
    by rewrite !app_nil_r, <-!app_assoc.
  - intros (nin & ins & nout & outs & E1 & E2 & E3 & E4 & ->). rewrite E1, E2, E3, E4.
    cbn [mbind res_bind]. rewrite concatBytes_join, !mjoin_app, !encodeUint32LE_spec, !mjoin_cons.
    cbn [mjoin list_join]. by rewrite !app_nil_r, <-!app_assoc.
Qed.

Lemma serializeTx_reads t :
  wf_tx t → ∃ bs, serializeTx t = Ok bs ∧ is_bytes bs ∧ deserializeTx (inr bs) = Ok t.
Proof.
  intros [(v & Ev & Hv) (l & El & Hl) Hvin Hvout Hnin Hnout].
  destruct (encodeVarInt_ok (zlen (tx_vin t))) as [nin En]; [lia|].
  destruct (encodeVarInt_ok (zlen (tx_vout t))) as [nout Eo]; [lia|].
  pose proof (encodeVarInt_bytes (zlen (tx_vin t)) _ ltac:(lia) En) as [Hnb Hnl].
  pose proof (encodeVarInt_bytes (zlen (tx_vout t)) _ ltac:(lia) Eo) as [Hob Hol].
  destruct (mapR_serialize serialize_vin read_vin wf_vin (tx_vin t) 41 ltac:(lia) serialize_vin_reads Hvin)
    as (ins & Ei & Hib & Hil & Hir & Hij).
  destruct (mapR_serialize serialize_vout read_vout wf_vout (tx_vout t) 9 ltac:(lia) serialize_vout_reads Hvout)
    as (outs & Eu & Hub & Hul & Hur & Huj).
  set (I := mjoin (mjoin ins)) in *. set (U := mjoin (mjoin outs)) in *.
  set (bs := le_bytes 4 v ++ nin ++ I ++ nout ++ U ++ le_bytes 4 l).
  assert (is_bytes bs) as Hb by (unfold bs; auto 10 with bytes).
  exists bs. split_and!; [|done|].
  { apply serializeTx_eq. exists nin, ins, nout, outs.
    rewrite Ev, El, or_num_some, or_num_zero by lia. done. }
  assert (zlen bs = 8 + zlen nin + zlen I + zlen nout + zlen U) as Hlen by (unfold bs; solve_cut).
  unfold deserializeTx. cbn [raw_data mbind res_bind].
  rewrite (u32_at bs 0 [] v (nin ++ I ++ nout ++ U ++ le_bytes 4 l)) by (done || lia).
  cbn [mbind res_bind].
  rewrite (reads_at readVarInt bs (0 + 4) (le_bytes 4 v) nin (zlen (tx_vin t)) (I ++ nout ++ U ++ le_bytes 4 l))
    by (done || (apply reads_varint; [lia|done])).
  cbn [mbind res_bind].
  rewrite (reads_at (read_items read_vin (S (length bs)) (zlen (tx_vin t))) bs _ (le_bytes 4 v ++ nin) I
    (tx_vin t) (nout ++ U ++ le_bytes 4 l)).
  2,3,4: by (done || solve_cut).
  2:{ rewrite <-Hij. apply read_items_reads; [done|lia]. }
  cbn [mbind res_bind].
  rewrite (reads_at readVarInt bs _ (le_bytes 4 v ++ nin ++ I) nout (zlen (tx_vout t)) (U ++ le_bytes 4 l)).
  2,3: by (done || solve_cut).
  2: by solve_cut.
  2:{ apply reads_varint; [lia|done]. }
  cbn [mbind res_bind].
  rewrite (reads_at (read_items read_vout (S (length bs)) (zlen (tx_vout t))) bs _
    (le_bytes 4 v ++ nin ++ I ++ nout) U (tx_vout t) (le_bytes 4 l)).
  2,3,4: by (done || solve_cut).
  2:{ rewrite <-Huj. apply read_items_reads; [done|lia]. }
  cbn [mbind res_bind].
  rewrite (u32_at bs _ (le_bytes 4 v ++ nin ++ I ++ nout ++ U) l []).
  2,3,4,5: by (done || solve_cut).
  cbn [mbind res_bind].
  rewrite (proj2 (Z.eqb_eq _ _)) by lia. cbn [negb throw_if mbind res_bind].
  destruct t; cbn [tx_version tx_locktime tx_vin tx_vout] in *. by subst.
Qed.

(** ** What the reader returns *)

Lemma readUint32LE_range bs pos n :
  is_bytes bs → 0 ≤ pos → readUint32LE bs pos = Ok n → 0 ≤ n < 2 ^ 32 ∧ pos + 4 ≤ zlen bs.
Proof.
  intros Hb Hp H. assert (pos + 4 ≤ zlen bs) as Hl.
  { unfold readUint32LE in H. simp_res. simp_bool. lia. }
  split; [|done]. rewrite readUint32LE_slice in H by done. simp_res.
  pose proof (le_num_range (slice bs pos (pos + 4)) ltac:(auto with bytes)) as Hr.
  rewrite length_slice in Hr by lia. by replace (pos + 4 - pos) with 4 in Hr by lia.
Qed.

Lemma readVarInt_range bs pos n next :
  is_bytes bs → 0 ≤ pos → readVarInt bs pos = Ok (n, next) → 0 ≤ n ∧ pos + 1 ≤ next ≤ zlen bs.
Proof.
  intros Hb Hp H. assert (∀ i, is_byte (at_ bs i)) as Ha by auto with bytes.
  pose proof (Ha pos) as [??]. unfold readVarInt in H.
  apply bind_Ok in H as ([] & Hg & H). apply throw_if_Ok in Hg. rewrite Z.geb_leb in Hg. simp_bool.
  destruct (_ <? 0xfd); [simplify_eq; lia|]. destruct (_ =? 0xfd).
  { simp_res. simp_bool. simplify_eq. rewrite read_uint16 by done.
    pose proof (Ha (pos + 1)) as [??]. pose proof (Ha (pos + 2)) as [??]. simpl. lia. }
  destruct (_ =? 0xfe).
  { simp_res. simp_bool. simplify_eq. rewrite read_uint32 by done.
    pose proof (Ha (pos + 1)) as [??]. pose proof (Ha (pos + 2)) as [??].
    pose proof (Ha (pos + 3)) as [??]. pose proof (Ha (pos + 4)) as [??]. simpl. lia. }
  simp_res. simp_bool. simplify_eq.
  pose proof (le_num_range (slice bs (pos + 1) (pos + 9)) ltac:(auto with bytes)). lia.
Qed.

Lemma is_lower_hex_bytesToHex bs : is_bytes bs → is_lower_hex (bytesToHex bs) = true.
Proof.
  intros Hb. unfold is_lower_hex. rewrite chars_bytesToHex by done.
  assert (∀ d, 0 ≤ d < 16 → is_lower_hex_char (hexdigit d) = true) as Hd.
  { intros d Hr. unfold is_lower_hex_char. rewrite code_hexdigit by done. case_match; lia. }
  induction Hb as [|b bs [??] Hbs IH]; [done|]. rewrite map_cons, mjoin_cons, forallb_app, IH.
  cbn [forallb hex_byte]. rewrite !Hd; [done|apply Z.mod_pos_bound; lia|].
  split; [apply Z.div_pos|apply Z.div_lt_upper_bound]; lia.
Qed.

Lemma read_vin_wf bs pos v next :
  is_bytes bs → zlen bs ≤ 0xffffffff → 0 ≤ pos → read_vin bs pos = Ok (v, next) →
  wf_vin v ∧ pos + 1 ≤ next ≤ zlen bs.
Proof.
  intros Hb Hl Hp H. unfold read_vin in H. simp_res. simp_bool. simplify_eq.
  apply readUint32LE_range in H0 as [? ?], H3 as [? ?]; [|done|..|done|].
  2,3: apply readVarInt_range in H1; [lia|done|lia].
  apply readVarInt_range in H1 as [? ?]; [|done|lia].
  assert (is_bytes (reverseBytes (slice bs pos (pos + 32)))) as Hr.
  { rewrite reverseBytes_eq; auto with bytes. }
  split; [|lia]. constructor; cbn [in_txid in_vout in_scriptSig in_scriptSigLength in_sequence].
  - by apply is_lower_hex_bytesToHex.
  - rewrite length_bytesToHex, reverseBytes_eq, length_reverse, length_slice by (auto with bytes || lia).
    lia.
  - done.
  - eexists; split; [done|]. split; [auto with bytes|]. rewrite length_slice; lia.
  - done.
  - by eexists.
Qed.

Lemma read_vout_wf bs pos o next :
  is_bytes bs → zlen bs ≤ 0xffffffff → 0 ≤ pos → read_vout bs pos = Ok (o, next) →
  wf_vout o ∧ pos + 1 ≤ next ≤ zlen bs.
Proof.
  intros Hb Hl Hp H. unfold read_vout, readInt64LE in H. simp_res. simp_bool. simplify_eq.
  apply readVarInt_range in H0 as [? ?]; [|done|lia].
  split; [|lia]. constructor; cbn [out_value out_scriptPubKey].
  - unfold MAX_SAFE_INTEGER in *. eexists. split; [apply of_bigint_safe; lia|lia].
  - auto with bytes.
  - rewrite length_slice; lia.
Qed.

(** The items a loop returned, and how far it got. *)
Lemma read_items_wf {A} (item : bytes → Z → res (A * Z)) (wf : A → Prop) bs :
  (∀ pos x next, 0 ≤ pos → item bs pos = Ok (x, next) → wf x ∧ pos + 1 ≤ next ≤ zlen bs) →
  ∀ fuel count pos xs next, 0 ≤ pos → pos ≤ zlen bs → 0 ≤ count →
  read_items item fuel count bs pos = Ok (xs, next) →
  Forall wf xs ∧ zlen xs = count ∧ pos + zlen xs ≤ next ≤ zlen bs.
Proof.
  intros Hi. induction fuel as [|fuel IH]; intros count pos xs next Hp Hp' Hc H; cbn [read_items] in H;
    destruct (Z.leb_spec count 0); simplify_eq.
  - split_and!; [constructor|simpl; lia..].
  - split_and!; [constructor|simpl; lia..].
  - apply bind_Ok in H as ([x p'] & Hx & H). apply bind_Ok in H as ([xs' p''] & Hxs & H).
    simplify_eq. apply Hi in Hx as [? ?]; [|done].
    apply IH in Hxs as (? & ? & ?); [|lia..]. split_and!; [by constructor|cbn [length]; lia..].
Qed.

(** The fuel of a loop does not matter once it exceeds the bytes left: the
    loop ends or throws before. *)
Lemma read_items_fuel {A} (item : bytes → Z → res (A * Z)) bs :
  (∀ pos x next, 0 ≤ pos → item bs pos = Ok (x, next) → pos + 1 ≤ next ≤ zlen bs) →
  ∀ f1 f2 count pos, 0 ≤ pos →
  zlen bs - pos < Z.of_nat f1 → zlen bs - pos < Z.of_nat f2 → pos ≤ zlen bs →
  read_items item f1 count bs pos = read_items item f2 count bs pos.
Proof.
  intros Hi. induction f1 as [|f1 IH]; intros f2 count pos Hp H1 H2 H3; [lia|].
  destruct f2 as [|f2]; [lia|]. cbn [read_items]. destruct (count <=? 0); [done|].
  destruct (item bs pos) as [[x next]|] eqn:E; cbn [mbind res_bind]; [|done].
  apply Hi in E; [|done]. by rewrite (IH f2) by lia.
Qed.

Lemma deserializeTx_wf bs t :
  is_bytes bs → zlen bs ≤ 0xffffffff → deserializeTx (inr bs) = Ok t →
  tx_version t ≠ Some 0 → wf_tx t.
Proof.
  intros Hb Hl H Hv. unfold deserializeTx in H. cbn [raw_data mbind res_bind] in H. simp_res.
  apply readUint32LE_range in H as [? ?]; [|done|lia].
  apply readVarInt_range in H0 as [? ?]; [|done|lia].
  apply (read_items_wf read_vin wf_vin) in H1 as (? & ? & ?); [|intros; by eapply read_vin_wf|lia..].
  apply readVarInt_range in H2 as [? ?]; [|done|lia].
  apply (read_items_wf read_vout wf_vout) in H3 as (? & ? & ?); [|intros; by eapply read_vout_wf|lia..].
  apply readUint32LE_range in H4 as [? ?]; [|done|lia].
  constructor; cbn [tx_version tx_locktime tx_vin tx_vout] in *; [..|done|done|lia|lia].
  - eexists; split; [done|]. assert (x ≠ 0) by congruence. lia.
  - by eexists.
Qed.

(** ** Script code

    [nextOp] walks a script by the same elements [readPushes] returns. *)

Lemma nextOp_read_push s i p j :
  is_bytes s → 0 ≤ i < zlen s → read_push s i = Ok (p, j) →
  nextOp s i = OpStep true j (opcode p).
Proof.
  intros Hs Hi H. assert (is_byte (at_ s i)) as [Hb1 Hb2] by auto with bytes.
  unfold read_push, nextOp in *. rewrite Z.geb_leb, (proj2 (Z.leb_gt _ _)) by lia.
  set (b := at_ s i) in *. unfold read_pushdata in H.
  destruct ((1 <=? b) && (b <=? 0x4b)) eqn:E.
  { simp_res. simp_bool. simplify_eq. cbn [opcode].
    unfold OP_PUSHDATA1, OP_PUSHDATA2, OP_PUSHDATA4.
    rewrite (proj2 (Z.leb_le _ _)), !(proj2 (Z.eqb_neq _ _)) by lia.
    by rewrite (proj2 (Z.ltb_ge _ _)) by lia. }
  destruct (Z.eqb_spec b OP_PUSHDATA1) as [Eb|].
  { rewrite Eb. simp_res. simp_bool. simplify_eq. cbn [opcode pushdata_len] in *.
    change (OP_PUSHDATA1 <=? OP_PUSHDATA4) with true. cbn iota.
    rewrite (proj2 (Z.ltb_ge _ 1)), (proj2 (Z.ltb_ge _ _)) by lia. by rewrite <-Eb. }
  destruct (Z.eqb_spec b OP_PUSHDATA2) as [Eb|].
  { rewrite Eb. simp_res. simp_bool. simplify_eq. cbn [opcode pushdata_len] in *.
    change (OP_PUSHDATA2 <=? OP_PUSHDATA4) with true. cbn iota.
    rewrite (proj2 (Z.ltb_ge _ 2)), (proj2 (Z.ltb_ge _ _)) by lia. by rewrite <-Eb. }
  destruct (Z.eqb_spec b OP_PUSHDATA4) as [Eb|].
  { rewrite Eb. simp_res. simp_bool. simplify_eq. cbn [opcode pushdata_len] in *.
    change (OP_PUSHDATA4 <=? OP_PUSHDATA4) with true. cbn iota.
    rewrite (proj2 (Z.ltb_ge _ 4)), (proj2 (Z.ltb_ge _ _)) by lia. by rewrite <-Eb. }
  destruct (Z.eqb_spec b OP_0) as [Eb|].
  { simplify_eq. rewrite Eb. change (OP_0 <=? OP_PUSHDATA4) with true. cbn iota.
    rewrite (proj2 (Z.ltb_ge _ OP_0)) by (unfold OP_0; lia). f_equal. unfold OP_0. lia. }
  simplify_eq. cbn [opcode]. rewrite (proj2 (Z.leb_gt _ _)); [done|].
  unfold OP_PUSHDATA1, OP_PUSHDATA2, OP_PUSHDATA4, OP_0 in *.
  apply andb_false_iff in E as [E|E]; simp_bool; lia.
Qed.

Lemma nextOp_raw pre p rest :
  is_bytes (pre ++ raw p ++ rest) → wf_push p →
  nextOp (pre ++ raw p ++ rest) (zlen pre) = OpStep true (zlen pre + zlen (raw p)) (opcode p).
Proof.
  intros Hs Hp. pose proof (length_raw p).
  assert (0 ≤ zlen pre < zlen (pre ++ raw p ++ rest)) as Hlt by (rewrite !length_app; lia).
  apply nextOp_read_push; [done..|]. apply read_push_spec; [done..|].
  split_and!; [done|done|rewrite !length_app; lia|by apply slice_app_mid].
Qed.

(** An element other than OP_CODESEPARATOR. *)
Definition not_separator (p : push) : bool := negb (opcode p =? OP_CODESEPARATOR).

Lemma raw_separator p : wf_push p → not_separator p = false → raw p = [OP_CODESEPARATOR].
Proof.
  intros (_ & _ & Hw) Hs. unfold not_separator in Hs. simp_bool. unfold raw. rewrite Hs in *.
  destruct (isPush p); [unfold OP_CODESEPARATOR in Hw; lia|done].
Qed.

Lemma code_loop_spec ps pre runs seps begin fuel :
  let s := pre ++ mjoin (map raw ps) in
  is_bytes s → Forall wf_push ps → (length ps < fuel)%nat → 0 ≤ begin ≤ zlen pre →
  ∃ runs' begin',
    code_loop fuel s runs seps begin (zlen pre)
    = (runs', seps + zlen ps - zlen (filter not_separator ps), begin', zlen s)
    ∧ mjoin runs' ++ slice s begin' (zlen s)
      = mjoin runs ++ slice s begin (zlen pre) ++ mjoin (map raw (filter not_separator ps))
    ∧ begin' ≤ zlen s.
Proof.
  revert pre runs seps begin fuel.
  induction ps as [|p ps IH]; intros pre runs seps begin fuel s Hs Hw Hf Hb;
    (destruct fuel as [|fuel]; [simpl in Hf; lia|]); cbn [code_loop].
  { exists runs, begin. unfold s. cbn [map mjoin list_join]. rewrite !app_nil_r. unfold nextOp.
    rewrite Z.geb_leb, (proj2 (Z.leb_le _ _)) by lia. cbn. split_and!; [do 2 f_equal; f_equal; lia|done|lia]. }
  apply Forall_cons in Hw as [Hp Hw]. unfold s. rewrite map_cons, mjoin_cons in *.
  rewrite nextOp_raw by done. cbn [step_ok step_pos step_opcode negb].
  assert (s = (pre ++ raw p) ++ mjoin (map raw ps)) as Es by (unfold s; rewrite map_cons, mjoin_cons; by rewrite <-app_assoc).
  assert (zlen pre + zlen (raw p) = zlen (pre ++ raw p)) as El by (rewrite length_app; lia).
  rewrite El. replace (pre ++ raw p ++ mjoin (map raw ps)) with s by (by rewrite Es, <-app_assoc).
  rewrite Es in Hs.
  pose proof (length_app pre (raw p)) as Hla.
  assert (zlen (pre ++ raw p) ≤ zlen s) as Hls by (rewrite Es, (length_app (pre ++ raw p)); lia).
  rewrite filter_cons. destruct (opcode p =? OP_CODESEPARATOR) eqn:Eo.
  - assert (not_separator p = false) as En by (unfold not_separator; by rewrite Eo).
    pose proof (raw_separator p Hp En) as Er.
    rewrite decide_False by (rewrite En; by intros []).
    destruct (IH (pre ++ raw p) (runs ++ [slice s begin (zlen (pre ++ raw p) - 1)]) (seps + 1)
      (zlen (pre ++ raw p)) fuel Hs Hw ltac:(simpl in Hf; lia) ltac:(lia)) as (r & b & E & Ej & Hbl).
    rewrite <-Es in *. exists r, b. rewrite E. split_and!; [do 2 f_equal; f_equal; cbn [length]; lia| |done].
    rewrite Ej, slice_nil, mjoin_snoc, <-app_assoc, app_nil_l. do 3 f_equal.
    rewrite Er in *. cbn [length] in *. lia.
  - assert (not_separator p = true) as En by (unfold not_separator; by rewrite Eo).
    rewrite decide_True by (by rewrite En).
    destruct (IH (pre ++ raw p) runs seps begin fuel Hs Hw ltac:(simpl in Hf; lia) ltac:(lia))
      as (r & b & E & Ej & Hbl).
    rewrite <-Es in *. exists r, b. rewrite E. split_and!; [do 2 f_equal; f_equal; cbn [length]; lia| |done].
    rewrite Ej, map_cons, mjoin_cons. f_equal. rewrite !app_assoc. f_equal.
    rewrite (slice_split s begin (zlen pre)) by lia. f_equal.
    rewrite Es, <-app_assoc. apply slice_app_mid; lia.
Qed.

Lemma Forall_not_separator (P : push → Prop) ps : Forall P ps → Forall P (filter not_separator ps).
Proof.
  rewrite !Forall_forall. intros H p [_ Hp]%list_elem_of_filter. by apply H.
Qed.

Lemma length_separators ps :
  Forall wf_push ps →
  zlen (mjoin (map raw ps)) - (zlen ps - zlen (filter not_separator ps))
  = zlen (mjoin (map raw (filter not_separator ps))).
Proof.
  induction 1 as [|p ps Hp Hw IH]; [done|].
  rewrite filter_cons, map_cons, mjoin_cons, length_app. cbn [length].
  destruct (not_separator p) eqn:En.
  - rewrite decide_True by done. rewrite map_cons, mjoin_cons, length_app. cbn [length]. lia.
  - rewrite decide_False by (by intros []). rewrite (raw_separator p) by done. cbn [length]. lia.
Qed.

(** The script code of a well-formed script is the script without its
    OP_CODESEPARATOR elements, and the declared length is its length. *)
Lemma serializeScriptCode_spec ps :
  is_bytes (mjoin (map raw ps)) → Forall wf_push ps →
  let code := mjoin (map raw (filter not_separator ps)) in
  serializeScriptCode (mjoin (map raw ps)) = (code, zlen code).
Proof.
  intros Hb Hw code. unfold serializeScriptCode. set (s := mjoin (map raw ps)) in *.
  assert (length ps < S (length s))%nat as Hf.
  { unfold s. clear. induction ps as [|p ps IH]; simpl; [lia|].
    rewrite length_app. pose proof (length_raw p). simpl in *. lia. }
  destruct (code_loop_spec ps [] [] 0 0 (S (length s)) Hb Hw Hf ltac:(simpl; lia))
    as (runs & begin & E & Ej & Hbl).
  cbn [app length] in E, Ej, Hbl. change (Z.of_nat 0) with 0 in E. fold s in E, Ej, Hbl.
  rewrite E. rewrite slice_nil in Ej. cbn [mjoin list_join app] in Ej. fold code in Ej.
  pose proof (length_separators ps Hw) as Hsep. fold s code in Hsep.
  rewrite concatBytes_join, Z.add_0_l, Hsep. f_equal.
  destruct (Z.eqb_spec begin (zlen s)) as [->|]; cbn [negb].
  - by rewrite slice_nil, app_nil_r in Ej.
  - by rewrite mjoin_snoc.
Qed.

(** ** What the signature hash depends on *)

(** Two inputs a signature hash cannot tell apart, and two transactions. *)
#[global] Instance vin_equiv : Equiv vin := λ v v',
  in_txid v = in_txid v' ∧ in_vout v = in_vout v' ∧ in_sequence v = in_sequence v'.

#[global] Instance tx_equiv : Equiv tx := λ t t',
  tx_version t = tx_version t' ∧ tx_vin t ≡ tx_vin t' ∧ tx_vout t = tx_vout t'
  ∧ tx_locktime t = tx_locktime t'.

#[global] Instance vin_equivalence : Equivalence (≡@{vin}).
Proof.
  split.
  - done.
  - by intros v v' (? & ? & ?).
  - intros v v' v'' (? & ? & ?) (? & ? & ?). split_and!; congruence.
Qed.

#[global] Instance tx_equivalence : Equivalence (≡@{tx}).
Proof.
  split.
  - by intros t.
  - intros t t' (? & ? & ? & ?). by split_and!.
  - intros t t' t'' (? & Hi & ? & ?) (? & Hi' & ? & ?).
    split_and!; [congruence|by rewrite Hi, Hi'|congruence..].
Qed.

Lemma sighash_vin_equiv bt signed n i v v' :
  v ≡ v' → sighash_vin bt signed n i v = sighash_vin bt signed n i v'.
Proof. intros (E1 & E2 & E3). unfold sighash_vin. by rewrite E1, E2, E3. Qed.

Lemma lookup_vin_equiv (l l' : list vin) i bt signed n :
  l ≡ l' → sighash_vin bt signed n i <$> l !! i = sighash_vin bt signed n i <$> l' !! i.
Proof.
  intros Hl. pose proof (list_lookup_proper i l l' Hl) as Hi.
  destruct (l !! i), (l' !! i); inversion Hi; subst; [|done]. cbn. f_equal.
  by apply sighash_vin_equiv.
Qed.

#[global] Instance signatureHash_proper :
  Proper ((=) ==> (≡) ==> (=) ==> (=) ==> (=)) signatureHash.
Proof.
  intros sc ? <- t t' (E1 & E2 & E3 & E4) n ? <- ht ? <-.
  unfold signatureHash. rewrite (length_proper _ _ E2), E3.
  replace (sighash_tx sc t' n (default SIGHASH_ALL ht))
    with (sighash_tx sc t n (default SIGHASH_ALL ht)); [done|].
  unfold sighash_tx. rewrite E1, E3, E4, (length_proper _ _ E2). f_equal.
  apply list_omap_ext, Forall_Forall2_diag, Forall_true. intros i.
  by apply lookup_vin_equiv.
Qed.

(** The type a maker signs with. *)
Definition SINGLE_ANYONECANPAY : Z := js_or SIGHASH_SINGLE SIGHASH_ANYONECANPAY.

(** Under SINGLE|ANYONECANPAY nothing but the signed input, the output beside
    it, the version and the locktime enters the hash. *)
Lemma signatureHash_single_acp sc t t' n v v' :
  tx_version t = tx_version t' → tx_locktime t = tx_locktime t' →
  tx_vin t !! n = Some v → tx_vin t' !! n = Some v' → v ≡ v' →
  is_Some (tx_vout t !! n) → tx_vout t !! n = tx_vout t' !! n →
  signatureHash sc t n (Some SINGLE_ANYONECANPAY)
  = signatureHash sc t' n (Some SINGLE_ANYONECANPAY).
Proof.
  intros E1 E2 Hv Hv' Hvv [o Ho] E3. rewrite Ho in E3. symmetry in E3.
  unfold signatureHash. cbn [default id].
  rewrite !(proj2 (Nat.leb_gt _ _)) by (by eapply lookup_lt_Some). rewrite andb_false_r.
  replace (sighash_tx sc t' n SINGLE_ANYONECANPAY)
    with (sighash_tx sc t n SINGLE_ANYONECANPAY); [done|].
  unfold sighash_tx, sighash_vout.
  change (negb (js_and SINGLE_ANYONECANPAY SIGHASH_ANYONECANPAY =? 0)) with true. cbn iota.
  cbn [omap list_omap]. rewrite Hv, Hv', Ho, E3, E1, E2. cbn [fmap option_fmap option_map].
  by rewrite (sighash_vin_equiv _ _ _ _ _ _ Hvv).
Qed.

(** ** What SIGHASH_ALL commits to *)

Lemma omap_seq_imap {A B} (f : nat → A → B) (l : list A) :
  omap (λ i, f i <$> l !! i) (seq 0 (length l)) = imap f l.
Proof.
  induction l as [|x l IH] using rev_ind; [done|].
  rewrite length_app, Nat.add_1_r, seq_S, omap_app, imap_app, <-IH. f_equal.
  - apply list_omap_ext, Forall_Forall2_diag, Forall_seq. intros i Hi.
    by rewrite lookup_app_l by lia.
  - cbn [omap list_omap Nat.add]. rewrite lookup_app_r, Nat.sub_diag by lia. cbn.
    by rewrite Nat.add_0_r.
Qed.

(** The declared length, when it is the real one, changes nothing. *)
Definition plain_vin (v : vin) : vin :=
  Vin (in_txid v) (in_vout v) (in_scriptSig v) None (in_sequence v).

Definition plain_tx (t : tx) : tx :=
  Tx (tx_version t) (map plain_vin (tx_vin t)) (tx_vout t) (tx_locktime t).

Lemma serialize_plain_vin v :
  default (zlen (default [] (in_scriptSig v))) (in_scriptSigLength v)
  = zlen (default [] (in_scriptSig v)) →
  serialize_vin (plain_vin v) = serialize_vin v.
Proof. intros E. unfold serialize_vin, plain_vin. cbn. by rewrite E. Qed.

Lemma serialize_plain_tx t :
  Forall (λ v, default (zlen (default [] (in_scriptSig v))) (in_scriptSigLength v)
               = zlen (default [] (in_scriptSig v))) (tx_vin t) →
  serializeTx (plain_tx t) = serializeTx t.
Proof.
  intros H. unfold serializeTx, plain_tx. cbn [tx_version tx_vin tx_vout tx_locktime].
  rewrite length_map. assert (mapR serialize_vin (map plain_vin (tx_vin t))
    = mapR serialize_vin (tx_vin t)) as E; [|by rewrite E].
  induction H as [|v l Hv Hl IH]; [done|]. cbn [map mapR]. by rewrite serialize_plain_vin, IH.
Qed.

(** The input list a SIGHASH_ALL signature serializes. *)
Lemma sighash_all_vin sc t n :
  tx_vin (sighash_tx sc t n SIGHASH_ALL)
  = imap (sighash_vin SIGHASH_ALL (serializeScriptCode sc) n) (tx_vin t).
Proof. unfold sighash_tx. apply omap_seq_imap. Qed.

Lemma sighash_all_vin_lookup sc t n i v :
  tx_vin t !! i = Some v →
  tx_vin (sighash_tx sc t n SIGHASH_ALL) !! i
  = Some (Vin (in_txid v) (in_vout v)
      (Some (if (i =? n)%nat then fst (serializeScriptCode sc) else []))
      (if (i =? n)%nat then Some (snd (serializeScriptCode sc)) else None) (in_sequence v)).
Proof.
  intros Hi. rewrite sighash_all_vin, list_lookup_imap, Hi. cbn. unfold sighash_vin.
  change ((SIGHASH_ALL =? SIGHASH_SINGLE) || (SIGHASH_ALL =? SIGHASH_NONE)) with false.
  by rewrite andb_false_r.
Qed.

Lemma sighash_all_wf ps t n code :
  wf_tx t → Forall wf_push ps → zlen (mjoin (map raw ps)) ≤ 0xffffffff →
  code = mjoin (map raw (filter not_separator ps)) →
  let s := sighash_tx (mjoin (map raw ps)) t n SIGHASH_ALL in
  wf_tx (plain_tx s) ∧ serializeTx (plain_tx s) = serializeTx s
  ∧ serializeScriptCode (mjoin (map raw ps)) = (code, zlen code).
Proof.
  intros Hwf Hw Hl Hcode s.
  assert (Hsc := serializeScriptCode_spec ps (raws_bytes ps Hw) Hw). cbv zeta in Hsc. rewrite <-Hcode in Hsc.
  assert (is_bytes code) as Hcb by (rewrite Hcode; by apply raws_bytes, Forall_not_separator).
  assert (zlen code ≤ 0xffffffff) as Hcl.
  { rewrite Hcode, <-(length_separators ps Hw). pose proof (length_filter not_separator ps). lia. }
  assert (∀ v, v ∈ tx_vin s → ∃ i u, tx_vin t !! i = Some u ∧ v = Vin (in_txid u) (in_vout u)
      (Some (if (i =? n)%nat then code else [])) (if (i =? n)%nat then Some (zlen code) else None)
      (in_sequence u)) as Hv.
  { intros v [i Hi]%list_elem_of_lookup. unfold s in Hi.
    assert (is_Some (tx_vin t !! i)) as [u Hu].
    { apply lookup_lt_is_Some. apply lookup_lt_Some in Hi.
      by rewrite sighash_all_vin, length_imap in Hi. }
    rewrite (sighash_all_vin_lookup _ _ _ _ _ Hu), Hsc in Hi. exists i, u. by simplify_eq. }
  destruct Hwf as [Hver Hlock Hvin Hvout Hnin Hnout]. split_and!; [|..|done].
  - constructor; try done; cbn [plain_tx tx_vin].
    + apply Forall_map, Forall_forall. intros v (i & u & Hu & ->)%Hv.
      eapply Forall_lookup_1 in Hu; [|done]. destruct Hu as [? ? ? ? ? ?].
      constructor; cbn; try done. eexists; split; [done|]. destruct (i =? n)%nat; [done|].
      split; [constructor|simpl; lia].
    + unfold s. by rewrite length_map, sighash_all_vin, length_imap.
  - apply serialize_plain_tx, Forall_forall. intros v (i & u & _ & ->)%Hv.
    cbn. by destruct (i =? n)%nat.
Qed.

(** A script code determines the opcodes it was made from. *)
Lemma not_separator_inj ps ps' :
  Forall wf_push ps → Forall wf_push ps' →
  mjoin (map raw (filter not_separator ps)) = mjoin (map raw (filter not_separator ps')) →
  filter not_separator ps = filter not_separator ps'.
Proof.
  intros Hw Hw' E. apply Ok_inj.
  assert (∀ qs, Forall wf_push qs → readPushes (mjoin (map raw (filter not_separator qs)))
            = Ok (filter not_separator qs)) as Hr.
  { intros qs Hqs. pose proof (Forall_not_separator _ _ Hqs).
    apply readPushes_spec; [by apply raws_bytes|done]. }
  rewrite <-(Hr ps), <-(Hr ps') by done. by rewrite E.
Qed.

(** Equal preimages come from the same transaction, input and script code. *)
Lemma sighash_all_inj ps ps' t t' n n' bs :
  wf_tx t → wf_tx t' → Forall wf_push ps → Forall wf_push ps' →
  zlen (mjoin (map raw ps)) ≤ 0xffffffff → zlen (mjoin (map raw ps')) ≤ 0xffffffff →
  filter not_separator ps ≠ [] → (n < length (tx_vin t))%nat →
  serializeTx (sighash_tx (mjoin (map raw ps)) t n SIGHASH_ALL) = Ok bs →
  serializeTx (sighash_tx (mjoin (map raw ps')) t' n' SIGHASH_ALL) = Ok bs →
  t ≡ t' ∧ n = n' ∧ filter not_separator ps = filter not_separator ps'.
Proof.
  intros Ht Ht' Hw Hw' Hl Hl' Hne Hn E E'.
  destruct (sighash_all_wf ps t n _ Ht Hw Hl eq_refl) as (Hp & Es & Hc).
  destruct (sighash_all_wf ps' t' n' _ Ht' Hw' Hl' eq_refl) as (Hp' & Es' & Hc').
  destruct (serializeTx_reads _ Hp) as (bs1 & E1 & _ & D1).
  destruct (serializeTx_reads _ Hp') as (bs2 & E2 & _ & D2).
  rewrite Es, E in E1. rewrite Es', E' in E2. simplify_eq.
  rewrite D1 in D2. apply Ok_inj in D2.
  pose proof (f_equal tx_version D2) as Ever. pose proof (f_equal tx_locktime D2) as Elock.
  pose proof (f_equal tx_vout D2) as Evout. pose proof (f_equal tx_vin D2) as Evin.
  cbn [plain_tx tx_version tx_locktime tx_vout tx_vin sighash_tx] in Ever, Elock, Evout, Evin.
  clear D1 D2 Es Es' E E' Hp Hp'.
  assert (length (tx_vin t) = length (tx_vin t')) as Elen.
  { apply (f_equal length) in Evin. fold (sighash_tx (mjoin (map raw ps)) t n SIGHASH_ALL) in Evin.
    rewrite !length_map in Evin.
    pose proof (f_equal length (sighash_all_vin (mjoin (map raw ps)) t n)) as L1.
    pose proof (f_equal length (sighash_all_vin (mjoin (map raw ps')) t' n')) as L2.
    rewrite length_imap in L1, L2. cbn [sighash_tx tx_vin] in L1, L2. congruence. }
  assert (∀ i v v', tx_vin t !! i = Some v → tx_vin t' !! i = Some v' →
    v ≡ v' ∧ (if (i =? n)%nat then mjoin (map raw (filter not_separator ps)) else [])
             = (if (i =? n')%nat then mjoin (map raw (filter not_separator ps')) else [])) as Hi.
  { intros i v v' Hv Hv'. apply (f_equal (λ l, l !! i)) in Evin.
    pose proof (sighash_all_vin_lookup (mjoin (map raw ps)) t n i v Hv) as L1.
    pose proof (sighash_all_vin_lookup (mjoin (map raw ps')) t' n' i v' Hv') as L2.
    cbn [sighash_tx tx_vin] in L1, L2.
    rewrite !list_lookup_fmap, L1, L2 in Evin. cbn in Evin. rewrite Hc, Hc' in Evin.
    cbn [fst] in Evin. by simplify_eq. }
  assert (mjoin (map raw (filter not_separator ps)) ≠ []) as Hcne.
  { destruct (filter not_separator ps) as [|p qs]; [done|]. by unfold raw. }
  destruct (lookup_lt_is_Some_2 _ _ Hn) as [v Hv].
  destruct (lookup_lt_is_Some_2 (tx_vin t') n) as [v' Hv']; [lia|].
  destruct (Hi n v v' Hv Hv') as [_ Hs]. rewrite Nat.eqb_refl in Hs.
  destruct (Nat.eqb_spec n n') as [<-|]; [|done].
  split; [|split; [done|]].
  - change (tx_version t = tx_version t' ∧ tx_vin t ≡ tx_vin t' ∧ tx_vout t = tx_vout t'
      ∧ tx_locktime t = tx_locktime t').
    split_and!; [done| |done|done]. apply list_equiv_lookup. intros i. destruct (tx_vin t !! i) as [u|] eqn:Eu.
    + destruct (lookup_lt_is_Some_2 (tx_vin t') i) as [u' Eu']; [rewrite <-Elen; by eapply lookup_lt_Some|].
      rewrite Eu'. constructor. by destruct (Hi i u u').
    + apply lookup_ge_None in Eu. rewrite (proj2 (lookup_ge_None (tx_vin t') i)); [constructor|lia].
  - by apply not_separator_inj.
Qed.

(** ** Signing *)

(** What the library relies on of the curve module: a signature is a DER
    encoding, 8 to 72 bytes long. *)
Class SecpLaws (secp : secp) : Prop := {
  sign_bytes h k der : signSync secp h k = Ok der → is_bytes der;
  sign_length h k der : signSync secp h k = Ok der → 8 ≤ zlen der ≤ 72
}.

Lemma concatBytes_two a b : concatBytes [a; b] = a ++ b.
Proof. rewrite concatBytes_join. cbn [mjoin list_join]. by rewrite app_nil_r. Qed.

(** The push of a signature and its type. *)
Definition sig_push (der : bytes) (ht : Z) : push := push_of (der ++ [ht]).

Lemma push_signature secp `{SecpLaws secp} h k der ht bs :
  is_byte ht → signSync secp h k = Ok der →
  pushData (concatBytes [der; u8of [ht]]) = Ok bs ↔ bs = raw (sig_push der ht).
Proof.
  intros Hht Hs. pose proof (sign_bytes _ _ _ Hs). pose proof (sign_length _ _ _ Hs).
  rewrite concatBytes_two, u8of_small by (by apply is_bytes_one).
  rewrite pushData_spec by (by apply is_bytes_snoc). rewrite length_app. cbn [length].
  split; [by intros [_ ->]|]. intros ->. split; [lia|done].
Qed.

Lemma signSpend_spec secp `{SecpLaws secp} sc k t n ht sig :
  is_byte (default SIGHASH_ALL ht) →
  signSpend secp sc k t n ht = Ok sig
  ↔ ∃ h der, signatureHash sc t n ht = Ok h ∧ signSync secp h k = Ok der
      ∧ sig = raw (sig_push der (default SIGHASH_ALL ht)).
Proof.
  intros Hht. unfold signSpend.
  change (signatureHash sc t n (Some (default SIGHASH_ALL ht))) with (signatureHash sc t n ht).
  rewrite bind_Ok. split.
  - intros (h & Hh & H0). apply bind_Ok in H0 as (der & Hd & H0).
    apply (push_signature secp h k) in H0; [|done..]. by exists h, der.
  - intros (h & der & Hh & Hd & ->). exists h. split; [done|]. rewrite Hd. cbn [mbind res_bind].
    by apply (push_signature secp h k).
Qed.

Lemma signP2PKHInput_spec secp `{SecpLaws secp} sc k pk t n ht sig :
  is_byte (default SIGHASH_ALL ht) → is_bytes pk →
  signP2PKHInput secp sc k pk t n ht = Ok sig
  ↔ zlen pk ≤ 65535 ∧ ∃ h der, signatureHash sc t n ht = Ok h ∧ signSync secp h k = Ok der
      ∧ sig = raw (sig_push der (default SIGHASH_ALL ht)) ++ raw (push_of pk).
Proof.
  intros Hht Hpk. unfold signP2PKHInput.
  change (signatureHash sc t n (Some (default SIGHASH_ALL ht))) with (signatureHash sc t n ht).
  split.
  - intros (h & Hh & (der & Hd & (a & Ha & (b & Hb & E)%bind_Ok)%bind_Ok)%bind_Ok)%bind_Ok.
    apply (push_signature secp h k) in Ha; [|done..]. apply pushData_spec in Hb as [Hl ->]; [|done].
    simp_res. rewrite concatBytes_two. split; [done|]. by exists h, der.
  - intros (Hl & h & der & Hh & Hd & ->). rewrite Hh. cbn [mbind res_bind]. rewrite Hd.
    cbn [mbind res_bind].
    rewrite (proj2 (push_signature secp h k der _ _ Hht Hd) eq_refl). cbn [mbind res_bind].
    rewrite (proj2 (pushData_spec pk _ Hpk) (conj Hl eq_refl)). cbn [mbind res_bind].
    by rewrite concatBytes_two.
Qed.

(** ** Properties *)

Definition sample_tx : tx :=
  Tx (Some 2)
    [Vin "00112233445566778899aabbccddeeff00112233445566778899aabbccddeeff" 7
       (Some [1; 2; 3]) None (Some 0xfffffffe)]
    [TxOut (Int 2100000000000000) [0x6a]; TxOut (Int 0) []] (Some 650000).

Lemma sample_tx_wf : wf_tx sample_tx.
Proof.
  constructor; cbn [sample_tx tx_version tx_locktime tx_vin tx_vout].
  - by exists 2.
  - by exists 650000.
  - repeat constructor; cbn [in_txid in_vout in_scriptSig in_scriptSigLength in_sequence]; try done.
    + exists [1; 2; 3]. split_and!; [done|apply (bool_decide_unpack (is_bytes _)); by vm_compute|done].
    + by exists 0xfffffffe.
  - repeat constructor; cbn [out_value out_scriptPubKey]; try done;
      try (by apply (bool_decide_unpack (is_bytes _)); vm_compute).
    + by exists 2100000000000000.
    + by exists 0.
  - done.
  - done.
Qed.

(** C25 Serialization is total and lossless on well-formed transactions: reading
    the bytes, or their hexadecimal print, gives the transaction back. *)
Theorem tx_roundtrip t :
  wf_tx t →
  ∃ bs, serializeTx t = Ok bs ∧ deserializeTx (inr bs) = Ok t
    ∧ ∃ hex, txToHex t = Ok hex ∧ deserializeTx (inl hex) = Ok t.
Proof.
  intros (bs & E & Hb & D)%serializeTx_reads. exists bs. split_and!; [done..|].
  exists (bytesToHex bs). unfold txToHex. rewrite E. split; [done|].
  unfold deserializeTx in *. cbn [raw_data] in *. by rewrite hexToBytes_bytesToHex.
Qed.

Lemma tx_roundtrip_witness : ∃ bs, serializeTx sample_tx = Ok bs ∧ deserializeTx (inr bs) = Ok sample_tx.
Proof.
  destruct (tx_roundtrip sample_tx sample_tx_wf) as (bs & H1 & H2 & _). by exists bs.
Defined.

(** Whatever [deserializeTx] accepts (with a nonzero version) is a
    well-formed transaction: it serializes again, and reads back as itself. *)
Theorem deserializeTx_stable bs t :
  is_bytes bs → zlen bs ≤ 0xffffffff → deserializeTx (inr bs) = Ok t → tx_version t ≠ Some 0 →
  wf_tx t ∧ ∃ bs', serializeTx t = Ok bs' ∧ deserializeTx (inr bs') = Ok t.
Proof.
  intros Hb Hl D Hv. pose proof (deserializeTx_wf bs t Hb Hl D Hv) as Hw. split; [done|].
  destruct (serializeTx_reads t Hw) as (bs' & E & _ & D'). by exists bs'.
Qed.

Lemma deserializeTx_stable_witness :
  ∃ bs', serializeTx (Tx (Some 1) [] [] (Some 5)) = Ok bs'.
Proof.
  destruct (deserializeTx_stable [1; 0; 0; 0; 0xfd; 0; 0; 0; 5; 0; 0; 0] (Tx (Some 1) [] [] (Some 5)))
    as (_ & bs' & E & _).
  - apply (bool_decide_unpack (is_bytes _)). by vm_compute.
  - by vm_compute.
  - by vm_compute.
  - done.
  - by exists bs'.
Defined.

(** The script code a signature covers is the script without its
    OP_CODESEPARATOR opcodes (those inside pushed data stay), and the length
    written in front of it is its length. *)
Theorem serializeScriptCode_drops_separators ps :
  Forall wf_push ps →
  let code := mjoin (map raw (filter not_separator ps)) in
  serializeScriptCode (mjoin (map raw ps)) = (code, zlen code).
Proof. intros Hw. apply serializeScriptCode_spec; [by apply raws_bytes|done]. Qed.

Lemma serializeScriptCode_drops_separators_witness :
  serializeScriptCode [2; 0xab; 0xab; 0xab; 0xac] = ([2; 0xab; 0xab; 0xac], 4).
Proof.
  apply (serializeScriptCode_drops_separators
    [scriptPush true 2 [0xab; 0xab]; op_push 0xab; op_push 0xac]).
  repeat constructor; cbn; lia || by left.
Defined.

(** A signature hash does not depend on any scriptSig: transactions with the
    same outpoints, sequences, outputs, version and locktime hash alike for
    every input, script and type, so inputs can be signed in any order. *)
Theorem signatureHash_ignores_scriptSigs sc t t' n ht :
  t ≡ t' → signatureHash sc t n ht = signatureHash sc t' n ht.
Proof. by intros ->. Qed.

Lemma signatureHash_ignores_scriptSigs_witness :
  signatureHash [0xac] sample_tx 0 None
  = signatureHash [0xac]
      (Tx (Some 2)
        [Vin "00112233445566778899aabbccddeeff00112233445566778899aabbccddeeff" 7 None None
           (Some 0xfffffffe)]
        [TxOut (Int 2100000000000000) [0x6a]; TxOut (Int 0) []] (Some 650000)) 0 None.
Proof.
  apply signatureHash_ignores_scriptSigs. split_and!; [done| |done|done].
  constructor; [done|constructor].
Defined.

(** A SINGLE|ANYONECANPAY signature commits to the signed input, the output
    at the same index, the version and the locktime, and to nothing else: any
    transactions that agree on those hash alike. *)
Theorem signatureHash_single_anyonecanpay sc t t' n v v' o :
  tx_version t = tx_version t' → tx_locktime t = tx_locktime t' →
  tx_vin t !! n = Some v → tx_vin t' !! n = Some v' → v ≡ v' →
  tx_vout t !! n = Some o → tx_vout t' !! n = Some o →
  signatureHash sc t n (Some SINGLE_ANYONECANPAY)
  = signatureHash sc t' n (Some SINGLE_ANYONECANPAY).
Proof. intros ? ? ? ? ? Ho Ho'. eapply signatureHash_single_acp; try done; by rewrite Ho. Qed.

Lemma signatureHash_single_anyonecanpay_witness :
  let v := Vin "00112233445566778899aabbccddeeff00112233445566778899aabbccddeeff" 7 None None None in
  let o := TxOut (Int 5) [0x6a] in
  signatureHash [0xac] (Tx (Some 1) [v] [o] (Some 0)) 0 (Some SINGLE_ANYONECANPAY)
  = signatureHash [0xac] (Tx (Some 1) [v; v] [o; TxOut (Int 9) []] (Some 0)) 0
      (Some SINGLE_ANYONECANPAY).
Proof.
  intros v o. by apply (signatureHash_single_anyonecanpay _ _ _ 0 v v o).
Defined.

(** C12 A SIGHASH_ALL signature commits to everything: two well-formed
    transactions that give the same bytes to hash have the same outpoints,
    sequences, outputs, version and locktime, sign the same input, and cover
    the same script code. *)
Theorem signatureHash_all_binding ps ps' t t' n n' bs :
  wf_tx t → wf_tx t' → Forall wf_push ps → Forall wf_push ps' →
  zlen (mjoin (map raw ps)) ≤ 0xffffffff → zlen (mjoin (map raw ps')) ≤ 0xffffffff →
  filter not_separator ps ≠ [] → (n < length (tx_vin t))%nat →
  serializeTx (sighash_tx (mjoin (map raw ps)) t n SIGHASH_ALL) = Ok bs →
  serializeTx (sighash_tx (mjoin (map raw ps')) t' n' SIGHASH_ALL) = Ok bs →
  t ≡ t' ∧ n = n' ∧ filter not_separator ps = filter not_separator ps'.
Proof. apply sighash_all_inj. Qed.

Lemma signatureHash_all_binding_witness : sample_tx ≡ sample_tx.
Proof.
  pose (ps := [op_push 0xac]).
  assert (Forall wf_push ps) as Hw by (repeat constructor; cbn; lia).
  destruct (serializeTx (sighash_tx (mjoin (map raw ps)) sample_tx 0 SIGHASH_ALL)) as [bs|] eqn:E.
  - apply (signatureHash_all_binding ps ps sample_tx sample_tx 0 0 bs); try done.
    + apply sample_tx_wf.
    + apply sample_tx_wf.
    + simpl. lia.
  - vm_compute in E. discriminate E.
Defined.

(** ** Where reading and writing part

    [serializeTx] writes version 1 for a transaction whose version is zero, and
    [readVarInt] accepts lengths spelled with more bytes than [encodeVarInt]
    uses. *)

Lemma version_zero_rewritten :
  ∃ bs t bs', deserializeTx (inr bs) = Ok t ∧ serializeTx t = Ok bs' ∧ bs ≠ bs' ∧ zlen bs = zlen bs'.
Proof.
  exists [0; 0; 0; 0; 0; 0; 0; 0; 0; 0], (Tx (Some 0) [] [] (Some 0)), [1; 0; 0; 0; 0; 0; 0; 0; 0; 0].
  split_and!; by vm_compute.
Qed.

Lemma readVarInt_accepts_noncanonical :
  readVarInt [0xfd; 0; 0] 0 = Ok (0, 3) ∧ encodeVarInt 0 = Ok [0].
Proof. split; by vm_compute. Qed.
