(* ===== verification/Payments.v ===== *)
(** * Payments: [contrib/uap-js/uap.js], coin selection and the transaction builders

    [selectCoins] and [buildPaymentTx] (ordinary payments), [buildTransferTx]
    and [buildMeltTx] (spends of a position).  Amounts and rates are JavaScript
    numbers, as in the code; the theorems are about amounts and rates that are
    integers small enough for the arithmetic to be exact, where they become
    statements about [Z]: value is conserved, the fee is the one the rate asks
    for, never below the floor and never above the cap, change is never lost
    and never dust, and every input is signed against the transaction that is
    returned. *)

From stdpp Require Import base tactics option list numbers strings pretty sorting.
From Stdlib Require Import ZArith Lia Ascii.
From S2P Require Import Prelude JsInt JsStr JsNum Words Sha256 Script Tx.

(** ** Data *)

(** A spendable output with the key that spends it. *)
Record coin := Coin {
  c_txid : string;
  c_vout : Z;
  c_value : Number;
  c_scriptCode : bytes;
  c_privKey : bytes;
  c_pubKey : bytes
}.

Record selection := Selection {
  s_selected : list coin;
  s_totalInput : Number;
  s_change : Number;
  s_fee : Number
}.

(** ** Coin selection *)

Definition estimateTxSize (nInputs nOutputs : Z) : Z :=
  let size := 10 in
  let size := size + nInputs * 150 in
  let size := size + nOutputs * 34 in
  size.

(** [Array#sort] is stable: an element goes in front of the later ones that do
    not compare below it. *)
Fixpoint sort_insert {A} (cmp : A → A → Number) (x : A) (l : list A) : list A :=
  match l with
  | [] => [x]
  | y :: l' => if (cmp y x <? Int 0)%num then y :: sort_insert cmp x l' else x :: y :: l'
  end.

Definition js_sort {A} (cmp : A → A → Number) (l : list A) : list A :=
  foldr (sort_insert cmp) [] l.

(** The fee estimate for a selection: the rate over the estimated size,
    rounded up, and the floor. *)
Definition estimate_fee (nInputs nOutputs : Z) (feeRate : Number) : Number :=
  let estimatedSize := estimateTxSize nInputs nOutputs in
  let estimatedFee := num_ceil (Int estimatedSize * feeRate / Int 1000) in
  if (estimatedFee <? Int RECOMMENDED_MIN_TX_FEE)%num then Int RECOMMENDED_MIN_TX_FEE
  else estimatedFee.

(** [for (const input of sorted)]: take one more, stop when it is enough. *)
Fixpoint select_loop (targetAmount : Number) (changeScriptLen : Z) (feeRate : Number) (nOutputs : Z)
    (sorted selected : list coin) (totalInput : Number) : res selection :=
  match sorted with
  | [] => Throw "insufficient funds for transaction (cannot select enough UTXOs to cover target + fee)"
  | input :: sorted =>
      let selected := selected ++ [input] in
      let totalInput := (totalInput + c_value input)%num in
      let estimatedOutputs :=
        nOutputs + (if (totalInput >? targetAmount)%num && (changeScriptLen >? 0) then 1 else 0) in
      let estimatedFee := estimate_fee (zlen selected) estimatedOutputs feeRate in
      if (totalInput >=? targetAmount + estimatedFee)%num then
        let change := (totalInput - targetAmount - estimatedFee)%num in
        Ok (Selection selected totalInput change estimatedFee)
      else select_loop targetAmount changeScriptLen feeRate nOutputs sorted selected totalInput
  end.

Definition selectCoins (candidateInputs : list coin) (targetAmount : Number)
    (changeScriptSize : option Z) (feeRate : option Number) (nOutputs : option Z) : res selection :=
  let feeRate := default (Int 1000) feeRate in
  let nOutputs := default 1 nOutputs in
  let changeScriptLen := default 25 changeScriptSize in
  let sorted := js_sort (λ a b, (c_value a - c_value b)%num) candidateInputs in
  select_loop targetAmount changeScriptLen feeRate nOutputs sorted [] (Int 0).

(** ** Payments *)

Record payment_opts := PaymentOpts {
  p_inputs : list coin;
  p_outputs : list txout;
  p_changeScript : option bytes;
  p_feeRate : option Number;
  p_maxFee : option Number
}.

(** [a || b] of an optional number. *)
Definition or_number (a : option Number) (b : Number) : Number :=
  match a with Some n => if num_truthy n then n else b | None => b end.

(** [let total = 0; for (const out of outs) total += out.value;] *)
Definition sum_values (outs : list txout) : Number :=
  fold_left (λ t o, t + out_value o)%num outs (Int 0).

(** An unsigned input. *)
Definition unsigned (txid : string) (vout : Z) : vin :=
  Vin txid vout (Some []) None (Some 0xffffffff).

(** [tx.vin[i].scriptSig = sig]. *)
Definition set_scriptSig (t : tx) (i : nat) (sig : bytes) : tx :=
  Tx (tx_version t)
    (alter (λ v, Vin (in_txid v) (in_vout v) (Some sig) (in_scriptSigLength v) (in_sequence v))
       i (tx_vin t))
    (tx_vout t) (tx_locktime t).

(** [for (let i = 0; i < selected.length; i++)], signing in place. *)
Fixpoint sign_loop (secp : secp) (inputs : list coin) (i : nat) (t : tx) : res tx :=
  match inputs with
  | [] => Ok t
  | input :: inputs =>
      sig ← signP2PKHInput secp (c_scriptCode input) (c_privKey input) (c_pubKey input) t i None;
      sign_loop secp inputs (S i) (set_scriptSig t i sig)
  end.

Definition buildPaymentTx (secp : secp) (opts : payment_opts) : res tx :=
  let requestedOutputs := p_outputs opts in
  let changeScript := p_changeScript opts in
  let feeRate := or_number (p_feeRate opts) (Int 1000) in
  let maxFee := default (Int DEFAULT_TRANSACTION_MAXFEE) (p_maxFee opts) in
  let totalOutputValue := sum_values requestedOutputs in
  '(Selection selected totalInput change fee) ←
    selectCoins (p_inputs opts) totalOutputValue
      (Some (match changeScript with Some s => zlen s | None => 0 end))
      (Some feeRate) (Some (zlen requestedOutputs));
  let vin := map (λ input, unsigned (c_txid input) (c_vout input)) selected in
  let big := (change >=? Int DEFAULT_DUST_LIMIT)%num in
  vout ← match changeScript with
         | None =>
             _ ← throw_if big
                   ("change of " +:+ num_str change
                    +:+ " satoshis exceeds dust limit but no changeScript provided (refusing silent loss of funds)");
             Ok requestedOutputs
         | Some changeScript =>
             Ok (if big then requestedOutputs ++ [TxOut change changeScript] else requestedOutputs)
         end;
  let actualFee := (totalInput - sum_values vout)%num in
  _ ← throw_if (actualFee >? maxFee)%num
        ("refusing to build a transaction paying " +:+ num_str actualFee +:+ " satoshis in fees, "
         +:+ "above the " +:+ num_str maxFee +:+ " satoshi cap. Check that feeRate is in satoshis per "
         +:+ "kilobyte, not per byte. Pass maxFee to authorise a larger fee.");
  sign_loop secp selected 0 (Tx (Some 1) vin vout (Some 0)).

(** ** Spending a position *)

(** The position being spent. *)
Record position := Position {
  q_txid : string;
  q_vout : Z;
  q_scriptCode : option bytes;
  q_value : Number;
  q_privKey : bytes
}.

Record transfer_opts := TransferOpts {
  t_input : position;
  t_toPubkey : bytes;
  t_multiplier : Number;
  t_fee : option Number;
  t_maxFee : option Number
}.

(** Sign the only input of a transaction. *)
Definition sign_position (secp : secp) (input : position) (t : tx) : res tx :=
  sig ← signSpend secp (default [] (q_scriptCode input)) (q_privKey input) t 0 None;
  Ok (set_scriptSig t 0 sig).

Definition buildTransferTx (secp : secp) (opts : transfer_opts) : res tx :=
  let input := t_input opts in
  let fee := default (Int 50000) (t_fee opts) in
  let maxFee := default (Int DEFAULT_TRANSACTION_MAXFEE) (t_maxFee opts) in
  _ ← throw_if (fee >? maxFee)%num
        ("refusing to build a transfer paying " +:+ num_str fee +:+ " satoshis in fees, above the "
         +:+ num_str maxFee +:+ " satoshi cap. Pass maxFee to authorise a larger fee.");
  let outValue := (q_value input - fee)%num in
  _ ← throw_if (outValue <=? Int 0)%num "fee exceeds input value";
  origin ← originForSpend (q_scriptCode input) (q_txid input) (Int (q_vout input));
  script ← buildTransferScript (t_toPubkey opts) (t_multiplier opts) (Some origin);
  sign_position secp input
    (Tx (Some 1) [unsigned (q_txid input) (q_vout input)] [TxOut outValue script] (Some 0)).

Record melt_opts := MeltOpts {
  m_input : position;
  m_toPubkey : bytes;
  m_multiplier : Number;
  m_remainderScript : option bytes;
  m_fee : option Number;
  m_maxFee : option Number
}.

Definition buildMeltTx (secp : secp) (opts : melt_opts) : res tx :=
  let input := m_input opts in
  let fee := default (Int 50000) (m_fee opts) in
  let maxFee := default (Int DEFAULT_TRANSACTION_MAXFEE) (m_maxFee opts) in
  _ ← throw_if (fee >? maxFee)%num
        ("refusing to build a melt paying " +:+ num_str fee +:+ " satoshis in fees, above the "
         +:+ num_str maxFee +:+ " satoshi cap. Pass maxFee to authorise a larger fee.");
  let remainderScript := default [] (m_remainderScript opts) in
  _ ← throw_if (zlen remainderScript =? 0)
        ("buildMeltTx requires remainderScript: the recovered backing needs a "
         +:+ "destination, and omitting it would pay the whole remainder to the miner");
  let dustValue := DEFAULT_DUST_LIMIT in
  let remainder := (q_value input - Int dustValue - fee)%num in
  _ ← throw_if (remainder <? Int DEFAULT_DUST_LIMIT)%num
        ("position value " +:+ num_str (q_value input) +:+ " is insufficient to melt: need at "
         +:+ "least " +:+ num_str (Int dustValue + fee + Int DEFAULT_DUST_LIMIT) +:+ " satoshis ("
         +:+ dec dustValue +:+ " for " +:+ "the surviving covenant, " +:+ num_str fee +:+ " fee, and "
         +:+ dec DEFAULT_DUST_LIMIT +:+ " so the " +:+ "remainder itself clears dust), but only "
         +:+ num_str (q_value input) +:+ " available");
  origin ← originForSpend (q_scriptCode input) (q_txid input) (Int (q_vout input));
  script ← buildTransferScript (m_toPubkey opts) (m_multiplier opts) (Some origin);
  sign_position secp input
    (Tx (Some 1) [unsigned (q_txid input) (q_vout input)]
       [TxOut (Int dustValue) script; TxOut remainder remainderScript] (Some 0)).

(** ** Sums and sorting *)

Definition zsum (l : list Z) : Z := foldr Z.add 0 l.

Lemma zsum_app l k : zsum (l ++ k) = zsum l + zsum k.
Proof. induction l as [|x l IH]; simpl; [done|]. rewrite IH. lia. Qed.

Lemma zsum_perm l k : l ≡ₚ k → zsum l = zsum k.
Proof. induction 1; simpl; lia. Qed.

Lemma zsum_nonneg l : Forall (Z.le 0) l → 0 ≤ zsum l.
Proof. induction 1; simpl; lia. Qed.

Lemma sort_insert_perm {A} (cmp : A → A → Number) x l : sort_insert cmp x l ≡ₚ x :: l.
Proof.
  induction l as [|y l IH]; [done|]. cbn [sort_insert]. case_match; [|done].
  rewrite IH. apply Permutation_swap.
Qed.

Lemma js_sort_perm {A} (cmp : A → A → Number) l : js_sort cmp l ≡ₚ l.
Proof.
  induction l as [|x l IH]; [done|]. cbn. rewrite sort_insert_perm. by constructor.
Qed.

(** ** Amounts that are integers *)

(** The value of a coin, where it is an integer. *)
Definition val (c : coin) : Z := num_Z (c_value c).
Definition oval (o : txout) : Z := num_Z (out_value o).

Definition total (cs : list coin) : Z := zsum (map val cs).
Definition ototal (os : list txout) : Z := zsum (map oval os).

Definition int_coin (c : coin) : Prop := c_value c = Int (val c) ∧ 0 ≤ val c.
Definition int_out (o : txout) : Prop := out_value o = Int (oval o) ∧ 0 ≤ oval o.

Lemma total_app cs ds : total (cs ++ ds) = total cs + total ds.
Proof. unfold total. by rewrite map_app, zsum_app. Qed.

Lemma total_nonneg cs : Forall int_coin cs → 0 ≤ total cs.
Proof.
  induction 1 as [|c cs [_ Hc] _ IH]; [done|].
  change (total (c :: cs)) with (val c + total cs). lia.
Qed.

Lemma ototal_nonneg os : Forall int_out os → 0 ≤ ototal os.
Proof.
  induction 1 as [|o os [_ Ho] _ IH]; [done|].
  change (ototal (o :: os)) with (oval o + ototal os). lia.
Qed.

Lemma ototal_app os ps : ototal (os ++ ps) = ototal os + ototal ps.
Proof. unfold ototal. by rewrite map_app, zsum_app. Qed.

Lemma total_perm cs ds : cs ≡ₚ ds → total cs = total ds.
Proof. intros H. unfold total. by apply zsum_perm, Permutation_map. Qed.

(** The loop that sums outputs is exact while the sum is safe. *)
Lemma sum_values_int os :
  Forall int_out os → ototal os ≤ 2 ^ 53 → sum_values os = Int (ototal os).
Proof.
  intros Hos Hl. unfold sum_values.
  assert (∀ a, 0 ≤ a → a + ototal os ≤ 2 ^ 53 →
    fold_left (λ t o, num_add t (out_value o)) os (Int a) = Int (a + ototal os)) as H;
    [|by rewrite H, Z.add_0_l].
  clear Hl. induction Hos as [|o os [Eo Ho] Hos IH]; intros a Ha Hl; cbn [fold_left].
  { cbn. by rewrite Z.add_0_r. }
  pose proof (ototal_nonneg os Hos). change (ototal (o :: os)) with (oval o + ototal os) in *.
  rewrite Eo, int_add by lia. rewrite IH by lia. f_equal. lia.
Qed.

(** ** The fee *)

(** The fee over the integers. *)
Definition feeZ (rate nin nout : Z) : Z :=
  Z.max RECOMMENDED_MIN_TX_FEE (cdiv (estimateTxSize nin nout * rate) 1000).

Lemma estimateTxSize_eq nin nout : estimateTxSize nin nout = 10 + nin * 150 + nout * 34.
Proof. done. Qed.

Lemma estimate_fee_int rate nin nout :
  0 ≤ nin → 0 ≤ nout → 0 ≤ rate → estimateTxSize nin nout * rate ≤ 2 ^ 53 →
  estimate_fee nin nout (Int rate) = Int (feeZ rate nin nout).
Proof.
  intros Hi Ho Hr Hs. unfold estimate_fee, feeZ. set (size := estimateTxSize nin nout) in *.
  assert (0 ≤ size) by (unfold size; rewrite estimateTxSize_eq; lia).
  assert (0 ≤ size * rate) by (apply Z.mul_nonneg_nonneg; lia).
  rewrite int_mul, ceil_div_1000, int_ltb by lia.
  destruct (Z.ltb_spec (cdiv (size * rate) 1000) RECOMMENDED_MIN_TX_FEE); f_equal; lia.
Qed.

(** The fee covers the rate, for anything no larger than the estimate. *)
Lemma feeZ_covers rate nin nout n size :
  0 ≤ rate → n ≤ nout → size ≤ estimateTxSize nin n → size * rate ≤ 1000 * feeZ rate nin nout.
Proof.
  intros Hr Hn Hs. unfold feeZ.
  pose proof (cdiv_bounds (estimateTxSize nin nout * rate) 1000 ltac:(lia)).
  assert (size * rate ≤ estimateTxSize nin nout * rate); [|lia].
  apply Z.mul_le_mono_nonneg_r; [done|]. rewrite estimateTxSize_eq in *. lia.
Qed.

Lemma feeZ_bound rate nin nout :
  0 ≤ nin → 0 ≤ nout → 0 ≤ rate → estimateTxSize nin nout * rate ≤ 2 ^ 53 →
  RECOMMENDED_MIN_TX_FEE ≤ feeZ rate nin nout ≤ 2 ^ 44.
Proof.
  intros Hi Ho Hr Hs. unfold feeZ. split; [lia|].
  pose proof (cdiv_bounds (estimateTxSize nin nout * rate) 1000 ltac:(lia)).
  change RECOMMENDED_MIN_TX_FEE with 1000000.
  generalize dependent (estimateTxSize nin nout * rate). intros. lia.
Qed.

(** ** Selection over the integers *)

Section selection.
Context (target chLen rate nout : Z).

(** The outputs a selection of this total is priced for. *)
Definition outputs_for (tot : Z) : Z :=
  nout + (if (target <? tot) && (0 <? chLen) then 1 else 0).

Definition fee_for (cs : list coin) : Z := feeZ rate (zlen cs) (outputs_for (total cs)).

Definition enough (cs : list coin) : bool := target + fee_for cs <=? total cs.

(** The shortest prefix of [cs ++ rest], longer than [cs], that is enough. *)
Fixpoint first_enough (cs rest : list coin) : option (list coin) :=
  match rest with
  | [] => None
  | c :: rest => if enough (cs ++ [c]) then Some (cs ++ [c]) else first_enough (cs ++ [c]) rest
  end.

(** What makes the arithmetic exact for a set of candidates. *)
Record safe (cs : list coin) : Prop := {
  safe_coins : Forall int_coin cs;
  safe_total : total cs ≤ 2 ^ 52;
  safe_target : 0 ≤ target ≤ 2 ^ 52;
  safe_rate : 0 ≤ rate;
  safe_nout : 0 ≤ nout;
  safe_size : estimateTxSize (zlen cs) (nout + 1) * rate ≤ 2 ^ 53
}.

Lemma safe_prefix cs rest : safe (cs ++ rest) → safe cs.
Proof.
  intros [Hc Ht Hta Hr Hn Hs]. apply Forall_app in Hc as [Hc Hc'].
  rewrite total_app in Ht. pose proof (total_nonneg rest Hc').
  constructor; [done|lia|done|done|done|].
  rewrite length_app in Hs. rewrite !estimateTxSize_eq in *. nia.
Qed.

Lemma fee_for_int cs :
  safe cs →
  estimate_fee (zlen cs) (outputs_for (total cs)) (Int rate) = Int (fee_for cs)
  ∧ RECOMMENDED_MIN_TX_FEE ≤ fee_for cs ≤ 2 ^ 44.
Proof.
  intros [Hc Ht Hta Hr Hn Hs]. rewrite estimateTxSize_eq in Hs.
  assert (0 ≤ outputs_for (total cs) ≤ nout + 1) by (unfold outputs_for; case_match; lia).
  assert (estimateTxSize (zlen cs) (outputs_for (total cs)) * rate ≤ 2 ^ 53).
  { rewrite estimateTxSize_eq. nia. }
  split; [apply estimate_fee_int; lia|apply feeZ_bound; lia].
Qed.

(** The loop is the search for the shortest sufficient prefix. *)
Lemma select_loop_first rest cs :
  safe (cs ++ rest) →
  select_loop (Int target) chLen (Int rate) nout rest cs (Int (total cs))
  = match first_enough cs rest with
    | Some ds => Ok (Selection ds (Int (total ds)) (Int (total ds - target - fee_for ds)) (Int (fee_for ds)))
    | None => Throw "insufficient funds for transaction (cannot select enough UTXOs to cover target + fee)"
    end.
Proof.
  revert cs. induction rest as [|c rest IH]; intros cs Hs; [done|].
  cbn [select_loop first_enough].
  replace (cs ++ c :: rest) with ((cs ++ [c]) ++ rest) in Hs by (by rewrite <-app_assoc).
  pose proof (safe_prefix _ _ Hs) as Hp. pose proof (fee_for_int _ Hp) as [Hf Hfb].
  change RECOMMENDED_MIN_TX_FEE with 1000000 in Hfb.
  assert (num_add (Int (total cs)) (c_value c) = Int (total (cs ++ [c]))) as ->.
  { destruct Hp as [Hc Ht _ _ _ _]. assert (int_coin c) as [Ec Hv].
    { apply Forall_app in Hc as [_ Hc]. by inversion Hc. }
    apply Forall_app in Hc as [Hc _]. pose proof (total_nonneg cs Hc).
    rewrite Ec. rewrite total_app in *. change (total [c]) with (val c + 0) in *.
    rewrite int_add by lia. f_equal. lia. }
  rewrite int_ltb, Z.gtb_ltb. fold (outputs_for (total (cs ++ [c]))). rewrite Hf.
  destruct Hp as [Hc Ht Hta Hr Hn Hsz]. pose proof (total_nonneg _ Hc).
  rewrite !int_add, int_leb by lia. unfold enough.
  destruct (target + fee_for (cs ++ [c]) <=? total (cs ++ [c])) eqn:E.
  - by rewrite !int_sub by lia.
  - by apply IH.
Qed.

Lemma first_enough_spec rest cs ds :
  first_enough cs rest = Some ds →
  enough ds = true ∧ ∃ c pre post, rest = pre ++ c :: post ∧ ds = cs ++ pre ++ [c]
    ∧ ∀ pre' c' post', pre = pre' ++ c' :: post' → enough (cs ++ pre' ++ [c']) = false.
Proof.
  revert cs. induction rest as [|c rest IH]; intros cs H; [done|]. cbn [first_enough] in H.
  destruct (enough (cs ++ [c])) eqn:E.
  - simplify_eq. split; [done|]. exists c, [], rest. split_and!; [done|done|].
    intros pre' c' post' Hp. by destruct pre'.
  - apply IH in H as (Hen & c' & pre & post & -> & -> & Hmin). split; [done|].
    exists c', (c :: pre), post. split_and!; [done|by rewrite <-app_assoc|].
    intros [|x pre'] y post' Hp; simplify_eq/=; [done|].
    rewrite <-(Hmin pre' y post' eq_refl). by rewrite <-app_assoc.
Qed.

Lemma first_enough_none rest cs :
  first_enough cs rest = None →
  ∀ pre c post, rest = pre ++ c :: post → enough (cs ++ pre ++ [c]) = false.
Proof.
  revert cs. induction rest as [|c rest IH]; intros cs H pre c' post E; [by destruct pre|].
  cbn [first_enough] in H. destruct (enough (cs ++ [c])) eqn:En; [done|].
  destruct pre as [|x pre]; simplify_eq/=; [done|].
  rewrite <-(IH _ H pre c' post eq_refl). by rewrite <-app_assoc.
Qed.

End selection.

(** ** The order of selection *)

Definition by_value (a b : coin) : Number := (c_value a - c_value b)%num.

Definition le_value (a b : coin) : Prop := val a ≤ val b.

Lemma by_value_int a b :
  int_coin a → int_coin b → val a ≤ 2 ^ 52 → val b ≤ 2 ^ 52 →
  num_ltb (by_value a b) (Int 0) = (val a <? val b).
Proof.
  intros [Ea Ha] [Eb Hb] ? ?. unfold by_value. rewrite Ea, Eb, int_sub, int_ltb by lia.
  destruct (Z.ltb_spec (val a - val b) 0), (Z.ltb_spec (val a) (val b)); lia || done.
Qed.

Lemma val_le_total cs c : Forall int_coin cs → c ∈ cs → val c ≤ total cs.
Proof.
  induction 1 as [|d cs [_ Hd] Hcs IH]; intros Hc; [by apply not_elem_of_nil in Hc|].
  change (total (d :: cs)) with (val d + total cs). pose proof (total_nonneg cs Hcs).
  apply list_elem_of_In in Hc as [<-|Hc]; [lia|]. apply list_elem_of_In in Hc. specialize (IH Hc). lia.
Qed.

Lemma sort_insert_sorted c cs :
  int_coin c → val c ≤ 2 ^ 52 → Forall (λ d, int_coin d ∧ val d ≤ 2 ^ 52) cs →
  Sorted le_value cs → Sorted le_value (sort_insert by_value c cs).
Proof.
  intros Hc Hv. induction cs as [|d cs IH]; intros Hcs Hs; [by repeat constructor|].
  apply Forall_cons in Hcs as [[Hd Hdv] Hcs]. apply Sorted_inv in Hs as [Hs Hh].
  cbn [sort_insert]. rewrite by_value_int by done. destruct (Z.ltb_spec (val d) (val c)).
  - constructor; [by apply IH|]. destruct cs as [|e cs]; cbn [sort_insert].
    + constructor. unfold le_value. lia.
    + apply HdRel_inv in Hh. case_match; constructor; unfold le_value in *; lia.
  - constructor; [by constructor|]. constructor. unfold le_value. lia.
Qed.

(** Candidates are tried from the smallest value up. *)
Lemma js_sort_sorted cs :
  Forall int_coin cs → total cs ≤ 2 ^ 52 → Sorted le_value (js_sort by_value cs).
Proof.
  intros Hc Ht. assert (Forall (λ d, int_coin d ∧ val d ≤ 2 ^ 52) cs) as Hall.
  { apply Forall_forall. intros d Hd. split; [by eapply Forall_forall in Hc|].
    pose proof (val_le_total cs d Hc Hd). lia. }
  clear Hc Ht. induction Hall as [|c cs [Hc Hv] Hcs IH]; [constructor|].
  cbn. apply sort_insert_sorted; [done..| |done].
  rewrite <-(js_sort_perm by_value cs) in Hcs. exact Hcs.
Qed.

Lemma safe_perm target rate nout cs ds :
  cs ≡ₚ ds → safe target rate nout cs → safe target rate nout ds.
Proof.
  intros Hp [Hc Ht Hta Hr Hn Hs]. constructor; try done.
  - by rewrite <-Hp.
  - by rewrite <-(total_perm _ _ Hp).
  - by rewrite <-Hp.
Qed.

(** [selectCoins] returns the shortest sufficient prefix of the candidates in
    order of value, or says there is none. *)
Lemma selectCoins_first target chLen rate nout cs :
  safe target rate nout cs →
  selectCoins cs (Int target) (Some chLen) (Some (Int rate)) (Some nout)
  = match first_enough target chLen rate nout [] (js_sort by_value cs) with
    | Some ds => Ok (Selection ds (Int (total ds)) (Int (total ds - target - fee_for target chLen rate nout ds))
                       (Int (fee_for target chLen rate nout ds)))
    | None => Throw "insufficient funds for transaction (cannot select enough UTXOs to cover target + fee)"
    end.
Proof.
  intros Hs. apply (select_loop_first target chLen rate nout _ []).
  apply (safe_perm _ _ _ cs); [|done]. symmetry. apply js_sort_perm.
Qed.

(** ** Signing in place *)

Lemma set_scriptSig_equiv t i sig : set_scriptSig t i sig ≡ t.
Proof.
  split_and!; [done| |done|done]. cbn [set_scriptSig tx_vin].
  apply list_equiv_lookup. intros j. rewrite list_lookup_alter.
  case_decide as E; [subst|done]. by destruct (tx_vin t !! j); constructor.
Qed.

Lemma signP2PKHInput_equiv secp sc k pk t t' n ht :
  t ≡ t' → signP2PKHInput secp sc k pk t n ht = signP2PKHInput secp sc k pk t' n ht.
Proof. intros E. unfold signP2PKHInput. by rewrite E. Qed.

Lemma signSpend_equiv secp sc k t t' n ht :
  t ≡ t' → signSpend secp sc k t n ht = signSpend secp sc k t' n ht.
Proof. intros E. unfold signSpend. by rewrite E. Qed.

(** The loop signs each input against a transaction with the same hash as the
    one it returns, and touches nothing else. *)
Lemma sign_loop_spec secp cs i t t' :
  sign_loop secp cs i t = Ok t' →
  t' ≡ t ∧ tx_vout t' = tx_vout t ∧ tx_version t' = tx_version t ∧ tx_locktime t' = tx_locktime t
  ∧ (∀ j, (j < i)%nat → tx_vin t' !! j = tx_vin t !! j)
  ∧ ∀ k c v, cs !! k = Some c → tx_vin t !! (i + k)%nat = Some v →
      ∃ sig, signP2PKHInput secp (c_scriptCode c) (c_privKey c) (c_pubKey c) t' (i + k) None = Ok sig
        ∧ tx_vin t' !! (i + k)%nat
          = Some (Vin (in_txid v) (in_vout v) (Some sig) (in_scriptSigLength v) (in_sequence v)).
Proof.
  revert i t. induction cs as [|c cs IH]; intros i t H; cbn [sign_loop] in H.
  { simp_res. split_and!; done. }
  apply bind_Ok in H as (sig & Hsig & H).
  apply IH in H as (E & Eo & Ever & El & Hpre & Hk).
  assert (t' ≡ t) as Et by (rewrite E; apply set_scriptSig_equiv).
  split_and!; [done..| |].
  - intros j Hj. rewrite Hpre by lia. cbn [set_scriptSig tx_vin].
    by rewrite list_lookup_alter_ne by lia.
  - intros [|k] d v Hd Hv; simplify_eq/=.
    + rewrite Nat.add_0_r in *. exists sig. split; [by rewrite <-Hsig; apply signP2PKHInput_equiv|].
      rewrite Hpre by lia. cbn [set_scriptSig tx_vin]. by rewrite list_lookup_alter_eq, Hv.
    + rewrite <-Nat.add_succ_comm in *. apply (Hk k d v Hd).
      cbn [set_scriptSig tx_vin]. by rewrite list_lookup_alter_ne by lia.
Qed.

(** ** Payments *)

(** A payment request whose amounts and rate are safe integers. *)
Record payment_ok (opts : payment_opts) (rate maxFee : Z) : Prop := {
  ok_rate : or_number (p_feeRate opts) (Int 1000) = Int rate;
  ok_max : default (Int DEFAULT_TRANSACTION_MAXFEE) (p_maxFee opts) = Int maxFee;
  ok_outs : Forall int_out (p_outputs opts);
  ok_safe : safe (ototal (p_outputs opts)) rate (zlen (p_outputs opts)) (p_inputs opts)
}.

Definition change_len (opts : payment_opts) : Z :=
  match p_changeScript opts with Some s => zlen s | None => 0 end.

(** The fee the rate asks for, for a selection. *)
Definition payment_fee (opts : payment_opts) (rate : Z) (sel : list coin) : Z :=
  fee_for (ototal (p_outputs opts)) (change_len opts) rate (zlen (p_outputs opts)) sel.

(** The outputs a selection pays: the requested ones, and the change where it
    is worth an output. *)
Definition payment_outs (opts : payment_opts) (change : Z) : list txout :=
  p_outputs opts ++
  match p_changeScript opts with
  | Some s => if DEFAULT_DUST_LIMIT <=? change then [TxOut (Int change) s] else []
  | None => []
  end.

Lemma buildPaymentTx_inv secp opts rate maxFee t :
  payment_ok opts rate maxFee → buildPaymentTx secp opts = Ok t →
  ∃ sel,
    let change := total sel - ototal (p_outputs opts) - payment_fee opts rate sel in
    sel ≠ [] ∧ sel ⊆+ p_inputs opts ∧ safe (ototal (p_outputs opts)) rate (zlen (p_outputs opts)) sel
    ∧ 0 ≤ change ∧ (p_changeScript opts = None → change < DEFAULT_DUST_LIMIT)
    ∧ tx_vout t = payment_outs opts change ∧ total sel - ototal (tx_vout t) ≤ maxFee
    ∧ sign_loop secp sel 0
        (Tx (Some 1) (map (λ c, unsigned (c_txid c) (c_vout c)) sel) (tx_vout t) (Some 0)) = Ok t.
Proof.
  intros [Er Em Ho Hs] H. unfold buildPaymentTx in H. rewrite Er, Em in H.
  assert (Hs' := Hs). destruct Hs' as [_ _ Hta _ _ _].
  rewrite sum_values_int in H by (done || lia). fold (change_len opts) in H.
  rewrite selectCoins_first in H by done.
  set (tgt := ototal (p_outputs opts)) in *. set (nout := zlen (p_outputs opts)) in *.
  destruct (first_enough tgt (change_len opts) rate nout [] (js_sort by_value (p_inputs opts)))
    as [sel|] eqn:Ef; [|done]. cbn [mbind res_bind] in H.
  apply first_enough_spec in Ef as (Hen & c & pre & post & Esort & -> & _). cbn [app] in *.
  set (sel := pre ++ [c]) in *.
  assert (sel ⊆+ p_inputs opts) as Hsub.
  { rewrite <-(js_sort_perm by_value (p_inputs opts)), Esort. unfold sel.
    replace (pre ++ c :: post) with ((pre ++ [c]) ++ post) by (by rewrite <-app_assoc).
    apply submseteq_inserts_r. done. }
  assert (safe tgt rate nout sel) as Hss.
  { apply (safe_prefix _ _ _ _ post). unfold sel. rewrite <-app_assoc. cbn [app]. rewrite <-Esort.
    eapply safe_perm; [symmetry; apply js_sort_perm|done]. }
  exists sel. unfold enough in Hen. simp_bool.
  pose proof (fee_for_int tgt (change_len opts) rate nout sel Hss) as [_ Hfee].
  change (fee_for tgt (change_len opts) rate nout sel) with (payment_fee opts rate sel) in *.
  change RECOMMENDED_MIN_TX_FEE with 1000000 in Hfee.
  set (change := total sel - tgt - payment_fee opts rate sel) in *.
  assert (0 ≤ change) as Hch by (unfold change; lia).
  rewrite int_leb in H.
  apply bind_Ok in H as (outs & Eo & Ht).
  assert (outs = payment_outs opts change
    ∧ (p_changeScript opts = None → change < DEFAULT_DUST_LIMIT)) as [Eouts Hnone].
  { unfold payment_outs. destruct (p_changeScript opts) as [s|]; cbn [mbind res_bind] in Eo.
    - simp_res. split; [|done]. destruct (DEFAULT_DUST_LIMIT <=? change); [done|].
      by rewrite app_nil_r.
    - simp_res. simp_bool. rewrite app_nil_r. done. }
  apply bind_Ok in Ht as ([] & Hcap & Ht). apply throw_if_Ok in Hcap.
  assert (tx_vout t = outs) as Evo by (by apply sign_loop_spec in Ht as (_ & ? & _)).
  assert (Forall int_out outs ∧ ototal outs ≤ total sel) as [Hio Hle].
  { rewrite Eouts. unfold payment_outs. destruct (p_changeScript opts) as [s|].
    2:{ rewrite app_nil_r. split; [done|]. unfold change in *. lia. }
    destruct (DEFAULT_DUST_LIMIT <=? change); [|rewrite app_nil_r; split; [done|unfold change in *; lia]].
    split; [apply Forall_app; split; [done|by repeat constructor]|].
    rewrite ototal_app. cbn. unfold change, ototal in *. fold tgt. lia. }
  assert (total sel ≤ 2 ^ 52) as Htot by apply Hss.
  pose proof (ototal_nonneg outs Hio).
  rewrite sum_values_int, int_sub, int_ltb in Hcap by (done || lia). simp_bool.
  rewrite Evo. split_and!; try done. by destruct pre.
Qed.

(** ** Size *)

Lemma length_varint_small n e : 0 ≤ n < 253 → encodeVarInt n = Ok e → zlen e = 1.
Proof.
  intros Hn [_ ->]%encodeVarInt_spec; [|lia]. by rewrite (proj2 (Z.ltb_lt _ _)) by lia.
Qed.

Lemma length_serialize_vin v sig ps :
  in_scriptSig v = Some sig → in_scriptSigLength v = None → zlen sig < 253 →
  serialize_vin v = Ok ps → zlen (mjoin ps) = 41 + zlen sig.
Proof.
  intros E1 E2 Hl H. unfold serialize_vin in H. rewrite E1, E2 in H. cbn [default id] in H. simp_res.
  simp_bool. apply length_varint_small in H1; [|lia].
  apply hexToBytes_bytes in H. rewrite !encodeUint32LE_spec, reverseBytes_eq by done.
  cbn [mjoin list_join]. rewrite !length_app, !length_le_bytes, length_reverse. cbn [length]. lia.
Qed.

Lemma length_serialize_vout o ps :
  zlen (out_scriptPubKey o) < 253 → serialize_vout o = Ok ps →
  zlen (mjoin ps) = 9 + zlen (out_scriptPubKey o).
Proof.
  intros Hl H. unfold serialize_vout, encodeInt64LE in H. simp_res.
  apply length_varint_small in H0; [|lia]. cbn [mjoin list_join]. unfold set_int64_le.
  rewrite !length_app, length_le_bytes. cbn [length]. lia.
Qed.

Lemma length_mapR {A} (ser : A → res (list bytes)) (m : Z) xs pss :
  (∀ x ps, x ∈ xs → ser x = Ok ps → zlen (mjoin ps) ≤ m) →
  mapR ser xs = Ok pss → zlen (mjoin (mjoin pss)) ≤ m * zlen xs.
Proof.
  intros Hm H. apply mapR_Ok in H. induction H as [|x ps xs pss Hx Hxs IH]; [simpl; lia|].
  rewrite mjoin_cons, mjoin_app, length_app. cbn [length].
  assert (zlen (mjoin ps) ≤ m) by (apply (Hm x); [apply list_elem_of_here|done]).
  assert (zlen (mjoin (mjoin pss)) ≤ m * zlen xs); [|lia].
  apply IH. intros y qs Hy. apply Hm. by apply list_elem_of_further.
Qed.

(** A transaction of P2PKH inputs and small outputs is no larger than the
    estimate. *)
Lemma serializeTx_size t bs :
  zlen (tx_vin t) < 253 → zlen (tx_vout t) < 253 →
  Forall (λ v, in_scriptSigLength v = None ∧ ∃ sig, in_scriptSig v = Some sig ∧ zlen sig ≤ 108) (tx_vin t) →
  Forall (λ o, zlen (out_scriptPubKey o) ≤ 25) (tx_vout t) →
  serializeTx t = Ok bs → zlen bs ≤ estimateTxSize (zlen (tx_vin t)) (zlen (tx_vout t)).
Proof.
  intros Hi Ho Hvin Hvout (nin & ins & nout & outs & E1 & E2 & E3 & E4 & ->)%serializeTx_eq.
  apply length_varint_small in E1, E3; [|lia..].
  apply (length_mapR _ 149) in E2.
  2:{ intros v ps Hv Hp. eapply Forall_forall in Hvin as [El (sig & Es & Hs)]; [|done].
      rewrite (length_serialize_vin v sig ps) by (done || lia). lia. }
  apply (length_mapR _ 34) in E4.
  2:{ intros o ps Hv Hp. eapply Forall_forall in Hvout; [|done]. simpl in Hvout.
      rewrite (length_serialize_vout o ps) by (done || lia). lia. }
  rewrite !length_app, !length_le_bytes, estimateTxSize_eq. lia.
Qed.

Lemma length_sig_push der ht : zlen der ≤ 72 → zlen (raw (sig_push der ht)) = zlen der + 2.
Proof.
  intros. unfold sig_push. rewrite length_raw_push_of; rewrite length_app; cbn [length]; lia.
Qed.

Lemma signP2PKHInput_length secp `{SecpLaws secp} sc k pk t n sig :
  is_bytes pk → zlen pk ≤ 33 → signP2PKHInput secp sc k pk t n None = Ok sig → zlen sig ≤ 108.
Proof.
  intros Hpk Hl Hs. assert (is_byte (default SIGHASH_ALL None)) as Hb by (by vm_compute).
  apply (signP2PKHInput_spec secp sc k pk t n None sig Hb Hpk) in Hs as (_ & h & der & _ & Hd & ->).
  pose proof (sign_length _ _ _ Hd).
  rewrite length_app, Nat2Z.inj_add, length_sig_push, length_raw_push_of by lia. lia.
Qed.

(** ** Spending a position *)

(** The origin a spend hands on is 32 bytes. *)
Lemma originForSpend_32 sc txid vout o :
  is_bytes sc → originForSpend (Some sc) txid vout = Ok o → is_bytes o ∧ zlen o = 32.
Proof.
  intros Hsc H. unfold originForSpend in H.
  apply bind_Ok in H as ([] & Hl & H). apply throw_if_Ok in Hl. simp_bool.
  destruct (_ =? OP_MINT); [by eapply deriveOrigin_32|].
  destruct (_ =? OP_MINT_TRANSFER); [|done]. simp_res. simp_bool.
  split; [auto with bytes|]. rewrite length_slice; lia.
Qed.

(** The covenant a spend creates reads back with the parameters and the origin
    it was given. *)
Lemma buildTransferScript_parse pk m o s :
  is_bytes pk → zlen pk = 33 ∨ zlen pk = 65 → is_bytes o →
  buildTransferScript pk m (Some o) = Ok s →
  is_bytes s ∧ parseUapScript s = Some (UapScript pk m o false).
Proof.
  intros Hpk Hl Ho (Hol & Hpl & z & -> & Hz & ->)%buildTransferScript_spec; [|done..].
  split; [apply raws_bytes, covenant_wf; lia || done|].
  by apply (parse_complete (UapScript pk (Int z) o false)).
Qed.

(** The one-input transaction [sign_position] returns: the input signed with
    SIGHASH_ALL, everything else as it was. *)
Lemma sign_position_spec secp input v outs t sc :
  q_scriptCode input = Some sc →
  sign_position secp input (Tx (Some 1) [v] outs (Some 0)) = Ok t →
  ∃ sig, t = Tx (Some 1)
               [Vin (in_txid v) (in_vout v) (Some sig) (in_scriptSigLength v) (in_sequence v)]
               outs (Some 0)
    ∧ signSpend secp sc (q_privKey input) t 0 None = Ok sig.
Proof.
  intros E H. unfold sign_position in H. rewrite E in H. cbn [default id] in H. simp_res.
  exists x. split; [done|]. rewrite <-H. apply signSpend_equiv, set_scriptSig_equiv.
Qed.

(** A spend of a position whose amounts are safe integers. *)
Record spend_ok (input : position) (fee maxFee : option Number) (sc : bytes) (value f mx : Z) : Prop := {
  sp_code : q_scriptCode input = Some sc;
  sp_bytes : is_bytes sc;
  sp_value : q_value input = Int value;
  sp_range : 0 ≤ value ≤ 2 ^ 52;
  sp_fee : default (Int 50000) fee = Int f;
  sp_fee_range : 0 ≤ f ≤ 2 ^ 52;
  sp_max : default (Int DEFAULT_TRANSACTION_MAXFEE) maxFee = Int mx
}.

(** What a spend of a position pays and to which covenant. *)
Lemma spend_covenant input sc pk m o s :
  is_bytes sc → q_scriptCode input = Some sc → is_bytes pk → zlen pk = 33 ∨ zlen pk = 65 →
  originForSpend (q_scriptCode input) (q_txid input) (Int (q_vout input)) = Ok o →
  buildTransferScript pk m (Some o) = Ok s →
  parseUapScript s = Some (UapScript pk m o false).
Proof.
  intros Hsc E Hpk Hl Ho Hs. rewrite E in Ho.
  pose proof (originForSpend_32 sc _ _ o Hsc Ho) as [Hob _].
  by apply (buildTransferScript_parse pk m o s).
Qed.

(** Signing keeps the outpoints. *)
Lemma vins_equiv_outpoints (l l' : list vin) :
  l ≡ l' → map (λ v, (in_txid v, in_vout v)) l = map (λ v, (in_txid v, in_vout v)) l'.
Proof. induction 1 as [|v v' l l' (E1 & E2 & _) _ IH]; [done|]. simpl. by rewrite E1, E2, IH. Qed.

(** What the loop gives for a fresh transaction over a selection. *)
Lemma sign_loop_selection secp sel outs t :
  sign_loop secp sel 0 (Tx (Some 1) (map (λ c, unsigned (c_txid c) (c_vout c)) sel) outs (Some 0)) = Ok t →
  map (λ v, (in_txid v, in_vout v)) (tx_vin t) = map (λ c, (c_txid c, c_vout c)) sel
  ∧ tx_vout t = outs ∧ length (tx_vin t) = length sel
  ∧ ∀ k c, sel !! k = Some c →
      ∃ sig, signP2PKHInput secp (c_scriptCode c) (c_privKey c) (c_pubKey c) t k None = Ok sig
        ∧ tx_vin t !! k = Some (Vin (c_txid c) (c_vout c) (Some sig) None (Some 0xffffffff)).
Proof.
  intros ((_ & Ei & _) & Eo & _ & _ & _ & Hk)%sign_loop_spec. cbn [tx_vin tx_vout] in *.
  assert (map (λ v, (in_txid v, in_vout v)) (tx_vin t) = map (λ c, (c_txid c, c_vout c)) sel) as Em.
  { rewrite (vins_equiv_outpoints _ _ Ei), map_map. done. }
  split_and!; [done|done| |].
  - apply (f_equal length) in Em. by rewrite !length_map in Em.
  - intros k c Hc. apply (Hk k c (unsigned (c_txid c) (c_vout c)) Hc).
    cbn [Nat.add]. by rewrite (list_lookup_fmap _ sel k), Hc.
Qed.

(** A selection is taken from the front of the sorted candidates. *)
Lemma select_loop_prefix target chLen rate nout rest cs tot s :
  select_loop target chLen rate nout rest cs tot = Ok s →
  ∃ pre post, rest = pre ++ post ∧ s_selected s = cs ++ pre.
Proof.
  revert cs tot. induction rest as [|c rest IH]; intros cs tot H; [done|]. cbn [select_loop] in H.
  case_match; [simp_res; by exists [c], rest|].
  apply IH in H as (pre & post & -> & ->). exists (c :: pre), post. by rewrite <-app_assoc.
Qed.

Lemma selectCoins_submseteq cs target chLen rate nout s :
  selectCoins cs target chLen rate nout = Ok s → s_selected s ⊆+ cs.
Proof.
  intros (pre & post & E & ->)%select_loop_prefix. cbn [app].
  rewrite <-(js_sort_perm by_value cs). unfold by_value. rewrite E. by apply submseteq_inserts_r.
Qed.

(** The change output: none, or one that is not dust; what it leaves to the
    miner is less than the dust limit. *)
Lemma payment_outs_change opts change :
  0 ≤ change → (p_changeScript opts = None → change < DEFAULT_DUST_LIMIT) →
  ∃ ch, payment_outs opts change = p_outputs opts ++ ch
    ∧ (ch = [] ∨ ∃ s v, p_changeScript opts = Some s ∧ ch = [TxOut (Int v) s] ∧ DEFAULT_DUST_LIMIT ≤ v)
    ∧ change - DEFAULT_DUST_LIMIT < ototal ch ≤ change.
Proof.
  intros Hch Hnone. unfold payment_outs. eexists. split; [done|].
  destruct (p_changeScript opts) as [s|].
  - destruct (Z.leb_spec DEFAULT_DUST_LIMIT change).
    + split; [right; by exists s, change|]. change (ototal _) with (change + 0).
      change DEFAULT_DUST_LIMIT with 1000000 in *. lia.
    + split; [by left|]. change (ototal []) with 0. lia.
  - split; [by left|]. specialize (Hnone eq_refl). change (ototal []) with 0. lia.
Qed.

(** The outputs of a payment are no more than it was priced for. *)
Lemma payment_outputs_priced opts sel ch :
  let target := ototal (p_outputs opts) in
  target < total sel → p_changeScript opts ≠ Some [] →
  Forall (λ o, zlen (out_scriptPubKey o) ≤ 25) (p_outputs opts) →
  (∀ s, p_changeScript opts = Some s → zlen s ≤ 25) →
  (ch = [] ∨ ∃ s v, p_changeScript opts = Some s ∧ ch = [TxOut (Int v) s] ∧ DEFAULT_DUST_LIMIT ≤ v) →
  zlen (p_outputs opts ++ ch) ≤ outputs_for target (change_len opts) (zlen (p_outputs opts)) (total sel)
  ∧ zlen (p_outputs opts ++ ch) ≤ zlen (p_outputs opts) + 1
  ∧ Forall (λ o, zlen (out_scriptPubKey o) ≤ 25) (p_outputs opts ++ ch).
Proof.
  intros target Ht Hne Hos Hcs [->|(s & v & Es & -> & _)].
  - rewrite app_nil_r. unfold outputs_for. split_and!; [case_match; lia|lia|done].
  - unfold outputs_for, change_len. rewrite Es, length_app. rewrite (proj2 (Z.ltb_lt target _)) by done.
    destruct s as [|b s]; [done|]. rewrite (proj2 (Z.ltb_lt 0 _)) by (cbn [length]; lia).
    cbn [length andb]. split_and!; [lia|lia|]. apply Forall_app. split; [done|].
    repeat constructor. by apply Hcs.
Qed.

(** Inputs with compressed keys have scriptSigs of at most 108 bytes. *)
Lemma payment_inputs_small secp `{SecpLaws secp} sel t :
  Forall (λ c, is_bytes (c_pubKey c) ∧ zlen (c_pubKey c) ≤ 33) sel → length (tx_vin t) = length sel →
  (∀ k c, sel !! k = Some c →
     ∃ sig, signP2PKHInput secp (c_scriptCode c) (c_privKey c) (c_pubKey c) t k None = Ok sig
       ∧ tx_vin t !! k = Some (Vin (c_txid c) (c_vout c) (Some sig) None (Some 0xffffffff))) →
  Forall (λ v, in_scriptSigLength v = None ∧ ∃ sig, in_scriptSig v = Some sig ∧ zlen sig ≤ 108) (tx_vin t).
Proof.
  intros Hpk Hl Hk. apply Forall_lookup. intros k v Hv.
  destruct (sel !! k) as [c|] eqn:Hc; [|apply lookup_lt_Some in Hv; apply lookup_ge_None in Hc; lia].
  destruct (Hk k c Hc) as (sig & Hs & Hv'). rewrite Hv in Hv'. simplify_eq. split; [done|].
  exists sig. split; [done|]. eapply Forall_lookup in Hpk as [Hb Hp]; [|exact Hc].
  by eapply signP2PKHInput_length.
Qed.

(** ** Properties *)

(** Coin selection, on amounts small enough to be exact: the candidates are
    tried from the smallest value up, the selection is the shortest nonempty
    prefix of them that covers the target and the fee of that selection, and
    the reported total, fee and change are those of the selection.  It throws
    exactly when no prefix is sufficient. *)
Theorem selectCoins_shortest_prefix target chLen rate nout cs :
  safe target rate nout cs →
  ∃ sorted, sorted ≡ₚ cs ∧ Sorted le_value sorted ∧
    match selectCoins cs (Int target) (Some chLen) (Some (Int rate)) (Some nout) with
    | Ok (Selection sel tot change fee) =>
        tot = Int (total sel) ∧ fee = Int (fee_for target chLen rate nout sel)
        ∧ change = Int (total sel - target - fee_for target chLen rate nout sel)
        ∧ target + fee_for target chLen rate nout sel ≤ total sel
        ∧ ∃ pre c post, sorted = pre ++ c :: post ∧ sel = pre ++ [c]
          ∧ ∀ pre' c' post', pre = pre' ++ c' :: post' →
              total (pre' ++ [c']) < target + fee_for target chLen rate nout (pre' ++ [c'])
    | Throw _ =>
        ∀ pre c post, sorted = pre ++ c :: post →
          total (pre ++ [c]) < target + fee_for target chLen rate nout (pre ++ [c])
    end.
Proof.
  intros Hs. exists (js_sort by_value cs). split_and!; [apply js_sort_perm|by apply js_sort_sorted; apply Hs|].
  rewrite selectCoins_first by done. destruct (first_enough _ _ _ _ _ _) as [sel|] eqn:E.
  - apply first_enough_spec in E as (Hen & c & pre & post & -> & -> & Hmin). cbn [app] in *.
    unfold enough in Hen. simp_bool. split_and!; try done.
    exists pre, c, post. split_and!; [done..|].
    intros pre' c' post' Hp. specialize (Hmin pre' c' post' Hp). unfold enough in Hmin. by simp_bool.
  - intros pre c post Hp. pose proof (first_enough_none _ _ _ _ _ _ E pre c post Hp) as Hn.
    unfold enough in Hn. cbn [app] in Hn. by simp_bool.
Qed.

(** A curve module that always returns the same 70 bytes. *)
Definition sample_secp : secp :=
  Secp (λ _ _, Ok (replicate 70 48)) (λ _ _, Ok (2 :: replicate 32 7)).

#[local] Instance sample_secp_laws : SecpLaws sample_secp.
Proof.
  split; intros h k der [= <-].
  - apply (bool_decide_unpack (is_bytes _)). by vm_compute.
  - by vm_compute.
Qed.

Definition sample_coin (n value : Z) : coin :=
  Coin "00112233445566778899aabbccddeeff00112233445566778899aabbccddeeff" n (Int value)
    [0x76; 0xac] [1] (2 :: replicate 32 7).

(** 3 and 2 WHIP to spend, 1.5 to pay. *)
Definition sample_payment : payment_opts :=
  PaymentOpts [sample_coin 0 300000000; sample_coin 1 200000000] [TxOut (Int 150000000) [0x6a]]
    (Some [0x51]) None None.

Lemma sample_payment_ok : payment_ok sample_payment 1000 DEFAULT_TRANSACTION_MAXFEE.
Proof.
  constructor; [done..| |].
  - repeat constructor; by vm_compute.
  - constructor; try by vm_compute. repeat constructor; by vm_compute.
Qed.

Lemma selectCoins_shortest_prefix_witness :
  ∃ sorted, sorted ≡ₚ p_inputs sample_payment ∧ Sorted le_value sorted.
Proof.
  destruct (selectCoins_shortest_prefix 150000000 1 1000 1 (p_inputs sample_payment))
    as (sorted & H1 & H2 & _).
  - apply sample_payment_ok.
  - by exists sorted.
Defined.

(** What a payment that is built is: a selection, its outputs with the change
    behind them, the fee left over, and a signature on every input. *)
Lemma payment_shape secp opts rate maxFee t :
  payment_ok opts rate maxFee → buildPaymentTx secp opts = Ok t →
  ∃ sel change,
    sel ⊆+ p_inputs opts
    ∧ map (λ v, (in_txid v, in_vout v)) (tx_vin t) = map (λ c, (c_txid c, c_vout c)) sel
    ∧ tx_vout t = p_outputs opts ++ change
    ∧ (change = [] ∨ ∃ s v, p_changeScript opts = Some s ∧ change = [TxOut (Int v) s]
                          ∧ DEFAULT_DUST_LIMIT ≤ v)
    ∧ (let fee := total sel - ototal (tx_vout t) in
       RECOMMENDED_MIN_TX_FEE ≤ fee ≤ maxFee
       ∧ payment_fee opts rate sel ≤ fee < payment_fee opts rate sel + DEFAULT_DUST_LIMIT)
    ∧ ∀ k c, sel !! k = Some c →
        ∃ sig, signP2PKHInput secp (c_scriptCode c) (c_privKey c) (c_pubKey c) t k None = Ok sig
          ∧ tx_vin t !! k = Some (Vin (c_txid c) (c_vout c) (Some sig) None (Some 0xffffffff)).
Proof.
  intros Hok Hb. apply (buildPaymentTx_inv _ _ _ _ _ Hok) in Hb
    as (sel & _ & Hsub & Hs & Hch & Hnone & Eo & Hcap & Hsign).
  set (change := total sel - ototal (p_outputs opts) - payment_fee opts rate sel) in *.
  pose proof (fee_for_int _ (change_len opts) _ _ _ Hs) as [_ Hfee].
  fold (payment_fee opts rate sel) in Hfee.
  apply sign_loop_selection in Hsign as (Em & _ & _ & Hk).
  destruct (payment_outs_change opts change Hch Hnone) as (ch & Ec & Hform & Hb).
  rewrite Eo, Ec in *. rewrite ototal_app in *.
  exists sel, ch. split_and!; [done..| |done]. cbv zeta. unfold change in *. lia.
Qed.

(** C9 A payment that is built conserves value: it spends candidates, each at
    most once, pays every requested output, returns change to the change
    script and only as an output that is not dust, and leaves to the miner at
    least what the rate and the floor ask for, less than that plus the dust
    limit, and never more than the cap. *)
Theorem buildPaymentTx_conserves_value secp opts rate maxFee t :
  payment_ok opts rate maxFee → buildPaymentTx secp opts = Ok t →
  ∃ sel change,
    sel ⊆+ p_inputs opts
    ∧ map (λ v, (in_txid v, in_vout v)) (tx_vin t) = map (λ c, (c_txid c, c_vout c)) sel
    ∧ tx_vout t = p_outputs opts ++ change
    ∧ (change = [] ∨ ∃ s v, p_changeScript opts = Some s ∧ change = [TxOut (Int v) s]
                          ∧ DEFAULT_DUST_LIMIT ≤ v)
    ∧ let fee := total sel - ototal (tx_vout t) in
      RECOMMENDED_MIN_TX_FEE ≤ fee ≤ maxFee
      ∧ payment_fee opts rate sel ≤ fee < payment_fee opts rate sel + DEFAULT_DUST_LIMIT.
Proof.
  intros Hok Hb. destruct (payment_shape _ _ _ _ _ Hok Hb) as (sel & ch & H1 & H2 & H3 & H4 & H5 & _).
  by exists sel, ch.
Qed.

(** The sample payment is built, with one input, and serializes. *)
Lemma sample_payment_builds :
  match buildPaymentTx sample_secp sample_payment with
  | Ok t => length (tx_vin t) = 1%nat ∧ match serializeTx t with Ok _ => True | Throw _ => False end
  | Throw _ => False
  end.
Proof. by vm_compute. Qed.

Lemma buildPaymentTx_conserves_value_witness :
  ∃ t sel, buildPaymentTx sample_secp sample_payment = Ok t
    ∧ RECOMMENDED_MIN_TX_FEE ≤ total sel - ototal (tx_vout t).
Proof.
  pose proof sample_payment_builds as Hb.
  destruct (buildPaymentTx sample_secp sample_payment) as [t|m] eqn:E; [|destruct Hb].
  destruct (buildPaymentTx_conserves_value _ _ _ _ _ sample_payment_ok E)
    as (sel & ch & _ & _ & _ & _ & [Hf _] & _).
  exists t, sel. split; [reflexivity|exact Hf].
Defined.

(** Every input of a built payment spends a candidate and carries that
    candidate's SIGHASH_ALL signature over the transaction that is returned,
    although the scriptSigs are filled in one after the other.  This holds
    whatever the amounts are. *)
Theorem buildPaymentTx_signs_every_input secp opts t :
  buildPaymentTx secp opts = Ok t →
  ∃ sel, sel ⊆+ p_inputs opts ∧ length (tx_vin t) = length sel
    ∧ ∀ k c, sel !! k = Some c →
        ∃ sig, signP2PKHInput secp (c_scriptCode c) (c_privKey c) (c_pubKey c) t k None = Ok sig
          ∧ tx_vin t !! k = Some (Vin (c_txid c) (c_vout c) (Some sig) None (Some 0xffffffff)).
Proof.
  intros H. unfold buildPaymentTx in H.
  apply bind_Ok in H as ([sel tot ch fee] & Hsel & H). apply selectCoins_submseteq in Hsel.
  apply bind_Ok in H as (outs & _ & H). apply bind_Ok in H as ([] & _ & H).
  apply sign_loop_selection in H as (_ & _ & Hl & Hk). by exists sel.
Qed.

Lemma buildPaymentTx_signs_every_input_witness :
  ∃ t sel, buildPaymentTx sample_secp sample_payment = Ok t ∧ sel ⊆+ p_inputs sample_payment
    ∧ length sel = 1%nat.
Proof.
  pose proof sample_payment_builds as Hb.
  destruct (buildPaymentTx sample_secp sample_payment) as [t|m] eqn:E; [|destruct Hb].
  destruct (buildPaymentTx_signs_every_input _ _ _ E) as (sel & Hsub & Hl & _).
  exists t, sel. destruct Hb as [Hb _].
  split_and!; [reflexivity|exact Hsub|congruence].
Defined.



(** A transfer of a position forwards all of its value but the fee to one
    covenant output, addressed to the recipient with the requested multiplier
    and the lineage of the position: the origin of its first spend for a mint,
    its own origin otherwise.  The fee is under the cap, and the only input is
    the position, signed with SIGHASH_ALL over the transaction returned. *)
Theorem buildTransferTx_forwards_position secp opts sc value f mx t :
  spend_ok (t_input opts) (t_fee opts) (t_maxFee opts) sc value f mx →
  is_bytes (t_toPubkey opts) → zlen (t_toPubkey opts) = 33 ∨ zlen (t_toPubkey opts) = 65 →
  buildTransferTx secp opts = Ok t →
  f ≤ mx ∧ f < value
  ∧ ∃ origin script sig,
      originForSpend (Some sc) (q_txid (t_input opts)) (Int (q_vout (t_input opts))) = Ok origin
      ∧ parseUapScript script = Some (UapScript (t_toPubkey opts) (t_multiplier opts) origin false)
      ∧ t = Tx (Some 1)
              [Vin (q_txid (t_input opts)) (q_vout (t_input opts)) (Some sig) None (Some 0xffffffff)]
              [TxOut (Int (value - f)) script] (Some 0)
      ∧ signSpend secp sc (q_privKey (t_input opts)) t 0 None = Ok sig.
Proof.
  intros [Ec Hsc Ev Hv Ef Hf Em] Hpk Hl H. unfold buildTransferTx in H.
  rewrite Ev, Ef, Em, int_sub, int_ltb, int_leb in H by lia.
  apply bind_Ok in H as ([] & H1 & H). apply bind_Ok in H as ([] & H2 & H).
  apply throw_if_Ok in H1, H2. simp_bool.
  apply bind_Ok in H as (o & Ho & H). apply bind_Ok in H as (s & Hs & H).
  apply (sign_position_spec _ _ _ _ _ sc Ec) in H as (sig & Et & Hsig).
  split_and!; [lia..|]. exists o, s, sig. split_and!; [by rewrite <-Ec| |done|done].
  by apply (spend_covenant (t_input opts) sc).
Qed.

(** A mint output of a sample key, and the position it makes. *)
Definition sample_mint : bytes :=
  match buildMintScript (2 :: replicate 32 7) (Int 5) with Ok s => s | Throw _ => [] end.

Definition sample_position : position :=
  Position "00112233445566778899aabbccddeeff00112233445566778899aabbccddeeff" 3 (Some sample_mint)
    (Int 500000000) [1].

Lemma sample_spend_ok fee f :
  default (Int 50000) fee = Int f → 0 ≤ f ≤ 2 ^ 52 →
  spend_ok sample_position fee None sample_mint 500000000 f DEFAULT_TRANSACTION_MAXFEE.
Proof.
  intros Ef Hf. constructor; try done. apply (bool_decide_unpack (is_bytes _)). by vm_compute.
Qed.

Definition sample_transfer : transfer_opts :=
  TransferOpts sample_position (3 :: replicate 32 9) (Int 5) None None.

Lemma sample_transfer_builds :
  match buildTransferTx sample_secp sample_transfer with Ok _ => True | Throw _ => False end.
Proof. by vm_compute. Qed.

Lemma buildTransferTx_forwards_position_witness :
  ∃ t script, buildTransferTx sample_secp sample_transfer = Ok t
    ∧ tx_vout t = [TxOut (Int (500000000 - 50000)) script].
Proof.
  pose proof sample_transfer_builds as Hb.
  destruct (buildTransferTx sample_secp sample_transfer) as [t|m] eqn:E; [|destruct Hb].
  destruct (buildTransferTx_forwards_position sample_secp sample_transfer sample_mint 500000000 50000
              DEFAULT_TRANSACTION_MAXFEE t) as (_ & _ & o & s & sig & _ & _ & Et & _).
  - apply sample_spend_ok; [reflexivity|lia].
  - apply (bool_decide_unpack (is_bytes _)). by vm_compute.
  - left. reflexivity.
  - exact E.
  - exists t, s. split; [reflexivity|]. by rewrite Et.
Defined.

(** A melt splits a position into a covenant output of exactly the dust limit,
    with the position's lineage, and a remainder, paid to the remainder script,
    that is not dust itself; the two and the fee add up to the value melted,
    and the fee is under the cap.  There is always a script to pay the
    remainder to. *)
Theorem buildMeltTx_splits_position secp opts sc value f mx t :
  spend_ok (m_input opts) (m_fee opts) (m_maxFee opts) sc value f mx →
  is_bytes (m_toPubkey opts) → zlen (m_toPubkey opts) = 33 ∨ zlen (m_toPubkey opts) = 65 →
  buildMeltTx secp opts = Ok t →
  f ≤ mx
  ∧ ∃ origin script sig b remScript remainder,
      DEFAULT_DUST_LIMIT ≤ remainder ∧ DEFAULT_DUST_LIMIT + remainder + f = value
      ∧ m_remainderScript opts = Some (b :: remScript)
      ∧ originForSpend (Some sc) (q_txid (m_input opts)) (Int (q_vout (m_input opts))) = Ok origin
      ∧ parseUapScript script = Some (UapScript (m_toPubkey opts) (m_multiplier opts) origin false)
      ∧ t = Tx (Some 1)
              [Vin (q_txid (m_input opts)) (q_vout (m_input opts)) (Some sig) None (Some 0xffffffff)]
              [TxOut (Int DEFAULT_DUST_LIMIT) script; TxOut (Int remainder) (b :: remScript)] (Some 0)
      ∧ signSpend secp sc (q_privKey (m_input opts)) t 0 None = Ok sig.
Proof.
  intros [Ec Hsc Ev Hv Ef Hf Em] Hpk Hl H. unfold buildMeltTx in H.
  change DEFAULT_DUST_LIMIT with 1000000 in *.
  rewrite Ev, Ef, Em, !int_sub, !int_ltb in H by lia.
  apply bind_Ok in H as ([] & H1 & H). apply bind_Ok in H as ([] & H2 & H).
  apply bind_Ok in H as ([] & H3 & H). apply throw_if_Ok in H1, H2, H3. simp_bool.
  apply bind_Ok in H as (o & Ho & H). apply bind_Ok in H as (s & Hs & H).
  apply (sign_position_spec _ _ _ _ _ sc Ec) in H as (sig & Et & Hsig).
  destruct (m_remainderScript opts) as [[|b rem]|]; [done| |done]. cbn [default] in *.
  split; [lia|]. exists o, s, sig, b, rem, (value - 1000000 - f).
  split_and!; [lia..|done|by rewrite <-Ec| |done|done].
  by apply (spend_covenant (m_input opts) sc).
Qed.

Definition sample_melt : melt_opts :=
  MeltOpts sample_position (3 :: replicate 32 9) (Int 5) (Some [0x51]) None None.

Lemma sample_melt_builds :
  match buildMeltTx sample_secp sample_melt with Ok _ => True | Throw _ => False end.
Proof. by vm_compute. Qed.

Lemma buildMeltTx_splits_position_witness :
  ∃ t remainder, buildMeltTx sample_secp sample_melt = Ok t
    ∧ DEFAULT_DUST_LIMIT + remainder + 50000 = 500000000.
Proof.
  pose proof sample_melt_builds as Hb.
  destruct (buildMeltTx sample_secp sample_melt) as [t|m] eqn:E; [|destruct Hb].
  destruct (buildMeltTx_splits_position sample_secp sample_melt sample_mint 500000000 50000
              DEFAULT_TRANSACTION_MAXFEE t) as (_ & o & s & sig & b & rs & r & _ & Hr & _).
  - apply sample_spend_ok; [reflexivity|lia].
  - apply (bool_decide_unpack (is_bytes _)). by vm_compute.
  - left. reflexivity.
  - exact E.
  - exists t, r. split; [reflexivity|exact Hr].
Defined.
