(* ===== verification/Orders.v ===== *)
(** * Orders: [contrib/uap-js/uap.js], the sell-order half of the library

    A maker signs an offer with SINGLE|ANYONECANPAY ([signMakerOrder]); a taker
    completes it without the maker ([fillOrder]); the maker withdraws it with a
    signed message ([cancelMessage], [signCancelOrder]).  The theorems: the
    maker's signature is valid, unchanged, in every completion, and every
    completion pays the maker's price and hands on the lineage; the offer binds
    the price and the payee; a cancellation binds the order it withdraws. *)

From stdpp Require Import base tactics option list numbers strings pretty.
From Stdlib Require Import ZArith Lia Ascii.
From S2P Require Import Prelude JsInt JsStr JsNum Words Sha256 Script Tx Payments.

(** ** Making and filling an order *)

Record maker_opts := MakerOpts {
  k_txid : string;
  k_vout : Z;
  k_scriptCode : bytes;
  k_privKey : bytes;
  k_paymentScript : bytes;
  k_paymentValue : Number
}.

(** The lineage an order carries: absent, bytes, or something that is not a
    [Uint8Array]. *)
Inductive origin_field :=
  | OriginUndefined
  | OriginBytes (b : bytes)
  | OriginOther.

Record order := Order {
  o_scriptSig : bytes;
  o_txid : string;
  o_vout : Z;
  o_scriptCode : option bytes;
  o_paymentScript : option bytes;
  o_paymentValue : Number;
  o_origin : origin_field
}.

Definition signMakerOrder (secp : secp) (opts : maker_opts) : res order :=
  let t := Tx (Some 1) [unsigned (k_txid opts) (k_vout opts)]
             [TxOut (k_paymentValue opts) (k_paymentScript opts)] (Some 0) in
  let hashType := js_or SIGHASH_SINGLE SIGHASH_ANYONECANPAY in
  scriptSig ← signSpend secp (k_scriptCode opts) (k_privKey opts) t 0 (Some hashType);
  Ok (Order scriptSig (k_txid opts) (k_vout opts) None (Some (k_paymentScript opts))
        (k_paymentValue opts) OriginUndefined).

Record fill_opts := FillOpts {
  f_toPubkey : bytes;
  f_multiplier : Number;
  f_tokenValue : Number;
  f_takerInputs : list (string * Z);
  f_changeScript : bytes;
  f_changeValue : option Number
}.

Definition fillOrder (order : order) (opts : fill_opts) : res tx :=
  origin ← match o_origin order with
           | OriginUndefined =>
               o ← originForSpend (o_scriptCode order) (o_txid order) (Int (o_vout order));
               Ok (OriginBytes o)
           | o => Ok o
           end;
  origin ← match origin with
           | OriginBytes o =>
               _ ← throw_if (negb (zlen o =? 32)) "fillOrder needs the order's 32-byte lineage origin";
               Ok o
           | _ => Throw "fillOrder needs the order's 32-byte lineage origin"
           end;
  script ← buildTransferScript (f_toPubkey opts) (f_multiplier opts) (Some origin);
  let vin :=
    Vin (o_txid order) (o_vout order) (Some (o_scriptSig order)) None (Some 0xffffffff)
    :: map (λ '(txid, vout), unsigned txid vout) (f_takerInputs opts) in
  let vout :=
    match o_paymentScript order with Some s => [TxOut (o_paymentValue order) s] | None => [] end
    ++ [TxOut (f_tokenValue opts) script] in
  let vout :=
    match f_changeValue opts with
    | Some v => if num_truthy v then vout ++ [TxOut v (f_changeScript opts)] else vout
    | None => vout
    end in
  Ok (Tx (Some 1) vin vout (Some 0)).

(** ** Cancelling an order *)

Definition CANCEL_DOMAIN : string := "whippet-uap-cancel-order-v1".

Definition newline : ascii := chr 10.

(** [cancelNonce] is whatever the caller has: a string, or anything else. *)
Inductive nonce :=
  | NonceString (s : string)
  | NonceOther.

Definition cancelMessage (txid : string) (vout : Number) (scriptSigHex : string) (cancelNonce : nonce) :
    res bytes :=
  match cancelNonce with
  | NonceOther =>
      Throw "cancelMessage: cancelNonce must be the exact string the relay sent, never a Number"
  | NonceString cancelNonce =>
      let nl := str_of [newline] in
      let s := CANCEL_DOMAIN +:+ nl +:+ txid +:+ nl +:+ num_str vout +:+ nl +:+ scriptSigHex
               +:+ nl +:+ cancelNonce in
      Ok (utf8 s)
  end.

Record cancel_opts := CancelOpts {
  x_txid : string;
  x_vout : Number;
  x_scriptSig : string;
  x_cancelNonce : nonce;
  x_privKey : bytes
}.

Definition signCancelOrder (secp : secp) (opts : cancel_opts) : res string :=
  message ← cancelMessage (x_txid opts) (x_vout opts) (x_scriptSig opts) (x_cancelNonce opts);
  let hash := hash256 message in
  der ← signSync secp hash (x_privKey opts);
  Ok (bytesToHex der).

(** ** The maker's signature *)

(** An order as the relay publishes it: what the maker signed, with the lineage
    of the position. *)
Definition with_origin (o : order) (origin : bytes) : order :=
  Order (o_scriptSig o) (o_txid o) (o_vout o) (o_scriptCode o) (o_paymentScript o)
    (o_paymentValue o) (OriginBytes origin).

(** What a completion looks like. *)
Lemma fillOrder_inv o origin opts t s :
  o_paymentScript o = Some s → fillOrder (with_origin o origin) opts = Ok t →
  zlen origin = 32 ∧ ∃ script,
    buildTransferScript (f_toPubkey opts) (f_multiplier opts) (Some origin) = Ok script
    ∧ t = Tx (Some 1)
            (Vin (o_txid o) (o_vout o) (Some (o_scriptSig o)) None (Some 0xffffffff)
             :: map (λ '(txid, vout), unsigned txid vout) (f_takerInputs opts))
            (TxOut (o_paymentValue o) s :: TxOut (f_tokenValue opts) script
             :: match f_changeValue opts with
                | Some v => if num_truthy v then [TxOut v (f_changeScript opts)] else []
                | None => []
                end) (Some 0).
Proof.
  intros Es H. unfold fillOrder in H. cbn [with_origin o_origin o_paymentScript] in H. rewrite Es in H.
  cbn [mbind res_bind] in H. simp_res. simp_bool. split; [done|]. eexists. split; [eassumption|].
  destruct (f_changeValue opts) as [v|]; [destruct (num_truthy v)|]; done.
Qed.

(** A maker's signature is valid in every transaction that spends the position
    first and pays the price first. *)
Lemma maker_signature_survives secp mk o t v :
  signMakerOrder secp mk = Ok o →
  tx_version t = Some 1 → tx_locktime t = Some 0 → tx_vin t !! 0%nat = Some v →
  unsigned (k_txid mk) (k_vout mk) ≡ v →
  tx_vout t !! 0%nat = Some (TxOut (k_paymentValue mk) (k_paymentScript mk)) →
  signSpend secp (k_scriptCode mk) (k_privKey mk) t 0 (Some SINGLE_ANYONECANPAY) = Ok (o_scriptSig o).
Proof.
  intros Hmk Ev El Ei Hv Eo. unfold signMakerOrder in Hmk. apply bind_Ok in Hmk as (sig & Hmk & <-%Ok_inj).
  cbn [o_scriptSig]. rewrite <-Hmk. unfold signSpend. cbn [default id]. f_equal.
  change (js_or SIGHASH_SINGLE SIGHASH_ANYONECANPAY) with SINGLE_ANYONECANPAY. symmetry.
  by eapply signatureHash_single_acp.
Qed.

(** The outputs a SINGLE signature at index 0 serializes. *)
Lemma sighash_single_tx sc t v o :
  tx_vin t !! 0%nat = Some v → tx_vout t !! 0%nat = Some o →
  sighash_tx sc t 0 SINGLE_ANYONECANPAY
  = Tx (tx_version t)
      [Vin (in_txid v) (in_vout v) (Some (fst (serializeScriptCode sc)))
         (Some (snd (serializeScriptCode sc))) (in_sequence v)] [o] (tx_locktime t).
Proof.
  intros Hv Ho. unfold sighash_tx, sighash_vout.
  change (negb (js_and SINGLE_ANYONECANPAY SIGHASH_ANYONECANPAY =? 0)) with true. cbn iota.
  cbn [omap list_omap]. by rewrite Hv, Ho.
Qed.

(** The maker's preimage, put in the form the reader inverts. *)
Lemma sighash_single_wf ps t v o :
  wf_tx t → Forall wf_push ps → zlen (mjoin (map raw ps)) ≤ 0xffffffff →
  tx_vin t !! 0%nat = Some v → tx_vout t !! 0%nat = Some o →
  let code := mjoin (map raw (filter not_separator ps)) in
  let p := Tx (tx_version t) [Vin (in_txid v) (in_vout v) (Some code) None (in_sequence v)] [o]
             (tx_locktime t) in
  wf_tx p ∧ serializeTx p = serializeTx (sighash_tx (mjoin (map raw ps)) t 0 SINGLE_ANYONECANPAY).
Proof.
  intros Hwf Hw Hl Hv Ho code p.
  pose proof (serializeScriptCode_spec ps (raws_bytes ps Hw) Hw) as Hsc. cbv zeta in Hsc.
  fold code in Hsc. rewrite (sighash_single_tx _ _ _ _ Hv Ho), Hsc. cbn [fst snd].
  destruct Hwf as [Hver Hlock Hvin Hvout Hnin Hnout]. split.
  - eapply Forall_lookup_1 in Hv; [|done]. eapply Forall_lookup_1 in Ho; [|done].
    destruct Hv as [? ? ? ? ? ?].
    constructor; cbn; try (done || lia); [|by constructor].
    constructor; [|constructor]. constructor; cbn; try done.
    exists code. split_and!; [done|by apply raws_bytes, Forall_not_separator|].
    unfold code. rewrite <-(length_separators ps Hw).
    pose proof (length_filter not_separator ps). lia.
  - apply (serialize_plain_tx (Tx _ [Vin _ _ (Some code) (Some (zlen code)) _] _ _)). by repeat constructor.
Qed.

(** ** Properties *)

(** C13 An order can be completed by anyone: whatever a taker adds to a maker's
    order (inputs, a recipient, a multiplier, a token value, change), and
    whatever scriptSigs are filled in afterwards, the maker's signature over
    the completed transaction is the one in the order; the maker's output at
    index 0 is the price to the payment script; the token goes to a covenant
    of the taker's key that carries the lineage of the order. *)
Theorem fillOrder_completes_order secp mk o origin opts t t' :
  signMakerOrder secp mk = Ok o → fillOrder (with_origin o origin) opts = Ok t → t' ≡ t →
  is_bytes origin → is_bytes (f_toPubkey opts) → zlen (f_toPubkey opts) = 33 ∨ zlen (f_toPubkey opts) = 65 →
  signSpend secp (k_scriptCode mk) (k_privKey mk) t' 0 (Some SINGLE_ANYONECANPAY) = Ok (o_scriptSig o)
  ∧ tx_vin t !! 0%nat = Some (Vin (k_txid mk) (k_vout mk) (Some (o_scriptSig o)) None (Some 0xffffffff))
  ∧ tx_vout t' !! 0%nat = Some (TxOut (k_paymentValue mk) (k_paymentScript mk))
  ∧ ∃ script, tx_vout t' !! 1%nat = Some (TxOut (f_tokenValue opts) script)
      ∧ parseUapScript script = Some (UapScript (f_toPubkey opts) (f_multiplier opts) origin false).
Proof.
  intros Hmk Hfill Ht Ho Hpk Hl.
  assert (∃ sig, o = Order sig (k_txid mk) (k_vout mk) None (Some (k_paymentScript mk)) (k_paymentValue mk)
                       OriginUndefined) as [sig Eo].
  { unfold signMakerOrder in Hmk. apply bind_Ok in Hmk as (sig & _ & <-%Ok_inj). by exists sig. }
  apply fillOrder_inv with (s := k_paymentScript mk) in Hfill as (_ & script & Hs & Et); [|by rewrite Eo].
  rewrite (signSpend_equiv _ _ _ _ _ _ _ Ht). split_and!.
  - apply (maker_signature_survives _ _ _ _ _ Hmk (f_equal tx_version Et) (f_equal tx_locktime Et)
      (f_equal (λ t, tx_vin t !! 0%nat) Et)); rewrite ?Et, ?Eo; done.
  - by rewrite Et, Eo.
  - destruct Ht as (_ & _ & -> & _). by rewrite Et, Eo.
  - exists script. destruct Ht as (_ & _ & -> & _). rewrite Et. split; [done|].
    by apply (buildTransferScript_parse _ _ origin script).
Qed.

(** A sample offer: the sample position for 2 WHIP. *)
Definition sample_maker : maker_opts :=
  MakerOpts "00112233445566778899aabbccddeeff00112233445566778899aabbccddeeff" 3 sample_mint [1]
    [0x51] (Int 200000000).

Definition sample_fill : fill_opts :=
  FillOpts (3 :: replicate 32 9) (Int 5) (Int 500000000)
    [("ffeeddccbbaa99887766554433221100ffeeddccbbaa99887766554433221100", 1)] [0x52] (Some (Int 7)).

Lemma sample_order_fills :
  match signMakerOrder sample_secp sample_maker with
  | Ok o => match fillOrder (with_origin o (replicate 32 5)) sample_fill with
            | Ok _ => True | Throw _ => False end
  | Throw _ => False
  end.
Proof. by vm_compute. Qed.

Lemma fillOrder_completes_order_witness :
  ∃ o t, signMakerOrder sample_secp sample_maker = Ok o
    ∧ fillOrder (with_origin o (replicate 32 5)) sample_fill = Ok t
    ∧ signSpend sample_secp sample_mint [1] t 0 (Some SINGLE_ANYONECANPAY) = Ok (o_scriptSig o).
Proof.
  pose proof sample_order_fills as Hb.
  destruct (signMakerOrder sample_secp sample_maker) as [o|m] eqn:E; [|destruct Hb].
  destruct (fillOrder (with_origin o (replicate 32 5)) sample_fill) as [t|m] eqn:E'; [|destruct Hb].
  destruct (fillOrder_completes_order sample_secp sample_maker o (replicate 32 5) sample_fill t t E E')
    as [Hs _].
  - reflexivity.
  - apply (bool_decide_unpack (is_bytes _)). by vm_compute.
  - apply (bool_decide_unpack (is_bytes _)). by vm_compute.
  - left. reflexivity.
  - exists o, t. split_and!; [reflexivity|exact E'|exact Hs].
Defined.

(** C26 A maker's signature binds the offer: two well-formed transactions whose
    SINGLE|ANYONECANPAY preimages at index 0 are the same bytes spend the same
    outpoint with the same sequence under the same script code, and pay the
    same value to the same script at index 0. *)
Theorem maker_signature_binds_offer ps ps' t t' v v' o o' bs :
  wf_tx t → wf_tx t' → Forall wf_push ps → Forall wf_push ps' →
  zlen (mjoin (map raw ps)) ≤ 0xffffffff → zlen (mjoin (map raw ps')) ≤ 0xffffffff →
  tx_vin t !! 0%nat = Some v → tx_vout t !! 0%nat = Some o →
  tx_vin t' !! 0%nat = Some v' → tx_vout t' !! 0%nat = Some o' →
  serializeTx (sighash_tx (mjoin (map raw ps)) t 0 SINGLE_ANYONECANPAY) = Ok bs →
  serializeTx (sighash_tx (mjoin (map raw ps')) t' 0 SINGLE_ANYONECANPAY) = Ok bs →
  v ≡ v' ∧ o = o' ∧ filter not_separator ps = filter not_separator ps'.
Proof.
  intros Ht Ht' Hw Hw' Hl Hl' Hv Ho Hv' Ho' E E'.
  destruct (sighash_single_wf ps t v o Ht Hw Hl Hv Ho) as [Hp Es].
  destruct (sighash_single_wf ps' t' v' o' Ht' Hw' Hl' Hv' Ho') as [Hp' Es'].
  destruct (serializeTx_reads _ Hp) as (bs1 & E1 & _ & D1).
  destruct (serializeTx_reads _ Hp') as (bs2 & E2 & _ & D2).
  rewrite Es, E in E1. rewrite Es', E' in E2. apply Ok_inj in E1 as <-. apply Ok_inj in E2 as <-.
  rewrite D1 in D2. apply Ok_inj in D2. injection D2 as _ Et En Ec Eq Eo _.
  split_and!; [done|done|]. by apply not_separator_inj.
Qed.

Lemma maker_signature_binds_offer_witness :
  TxOut (Int 2100000000000000) [0x6a] = TxOut (Int 2100000000000000) [0x6a].
Proof.
  pose (ps := [op_push 0xac]).
  assert (Forall wf_push ps) as Hw by (repeat constructor; cbn; lia).
  destruct (serializeTx (sighash_tx (mjoin (map raw ps)) sample_tx 0 SINGLE_ANYONECANPAY)) as [bs|] eqn:E.
  - edestruct (maker_signature_binds_offer ps ps sample_tx sample_tx) as (_ & Ho & _);
      [apply sample_tx_wf|apply sample_tx_wf|exact Hw|exact Hw|by vm_compute|by vm_compute
      |reflexivity|reflexivity|reflexivity|reflexivity|exact E|exact E|].
    exact Ho.
  - vm_compute in E. discriminate E.
Defined.

(** The characters of the fields of a cancellation. *)
Lemma digits_no_newline n : 0 ≤ n → newline ∉ chars (dec n).
Proof.
  intros Hn Hin. pose proof (dec_digits n Hn) as Hd. eapply Forall_forall in Hd; [|exact Hin].
  unfold is_decimal in Hd. change (code newline) with 10 in Hd. lia.
Qed.

Lemma num_str_int n : 0 ≤ n < 2 ^ 32 → num_str (Int n) = dec n.
Proof.
  intros Hn. unfold num_str. cbn [Z.eqb andb]. by rewrite (proj2 (Z.ltb_lt _ _)) by lia.
Qed.

(** A cancellation message determines the order it cancels: for fields with
    no line break in them, equal messages have the same outpoint, scriptSig and
    nonce, so a signature over one cannot withdraw another order or a later
    publication of the same one. *)
Theorem cancelMessage_binds_order txid txid' vout vout' sig sig' n n' m :
  newline ∉ chars txid → newline ∉ chars txid' → newline ∉ chars sig → newline ∉ chars sig' →
  0 ≤ vout < 2 ^ 32 → 0 ≤ vout' < 2 ^ 32 →
  cancelMessage txid (Int vout) sig (NonceString n) = Ok m →
  cancelMessage txid' (Int vout') sig' (NonceString n') = Ok m →
  txid = txid' ∧ vout = vout' ∧ sig = sig' ∧ n = n'.
Proof.
  intros Ht Ht' Hs Hs' Hv Hv' E E'. unfold cancelMessage in E, E'.
  rewrite !num_str_int in E, E' by done.
  apply Ok_inj in E as <-. apply Ok_inj, (inj utf8), (f_equal chars) in E'.
  rewrite !chars_app, !chars_str_of in E'. cbn [app] in E'. apply app_inv_head in E'. injection E' as E.
  apply split_at_inj in E as [Et E]; [|done..].
  apply split_at_inj in E as [Ev E]; [|by apply digits_no_newline; lia..].
  apply split_at_inj in E as [Es E]; [|done..].
  apply chars_inj in Et, Es, E, Ev. apply (inj dec) in Ev. by subst.
Qed.

Lemma cancelMessage_binds_order_witness :
  ∃ m, cancelMessage "ab" (Int 3) "4730" (NonceString "1789") = Ok m ∧ "ab" = "ab"%string.
Proof.
  destruct (cancelMessage "ab" (Int 3) "4730" (NonceString "1789")) as [m|] eqn:E; [|discriminate E].
  exists m. split; [reflexivity|].
  apply (cancelMessage_binds_order "ab" "ab" 3 3 "4730" "4730" "1789" "1789" m);
    [apply (bool_decide_unpack (_ ∉ _)); by vm_compute..|lia|lia|exact E|exact E].
Defined.

(** An order exactly as [signMakerOrder] returns it carries neither the lineage
    nor the script code, and cannot be filled. *)
Theorem signMakerOrder_result_unfillable secp mk o opts :
  signMakerOrder secp mk = Ok o → ∃ m, fillOrder o opts = Throw m.
Proof.
  intros H. unfold signMakerOrder in H. apply bind_Ok in H as (sig & _ & <-%Ok_inj).
  unfold fillOrder. cbn [o_origin o_scriptCode]. unfold originForSpend. eauto.
Qed.
