(* ===== verification/NobleField.v ===== *)
(** * NobleField: [contrib/uap-js/noble-secp256k1.js], numbers

    The curve parameters, the byte and hexadecimal helpers, reduction
    ([M]), inversion ([invert]) and the square root ([lift_x]).  The theorems:
    the 32-byte encoding is big-endian and inverse to its reader; [invert]
    terminates and returns the inverse exactly when there is one; [lift_x]
    returns a [y] with [y² = x³ + 7], the power [(P + 1) / 4] of the right-hand
    side, or throws. *)

From stdpp Require Import base tactics option list numbers strings pretty.
From Stdlib Require Import ZArith Lia Ascii Znumtheory Zpow_facts.
From S2P Require Import Prelude JsInt JsStr Words Radix Sha256 Script.

(** ** Parameters *)

Definition P : Z := 0xfffffffffffffffffffffffffffffffffffffffffffffffffffffffefffffc2f.
Definition N_ : Z := 0xfffffffffffffffffffffffffffffffebaaedce6af48a03bbfd25e8cd0364141.
Definition b_ : Z := 7.
Definition Gx : Z := 0x79be667ef9dcbbac55a06295ce870b07029bfcdb2dce28d959f2815b16f81798.
Definition Gy : Z := 0x483ada7726a3c4655da4fbfc0e1108a8fd17b448a68554199c47d08ffb10d4b8.
Definition L : nat := 32.
Definition L2 : nat := 64.

(** ** Hexadecimal and bytes *)

(** [_ch]. *)
Definition ch_ (ch : Z) : option Z :=
  if (48 <=? ch) && (ch <=? 57) then Some (ch - 48)
  else if (65 <=? ch) && (ch <=? 70) then Some (ch - (65 - 10))
  else if (97 <=? ch) && (ch <=? 102) then Some (ch - (97 - 10))
  else None.

Fixpoint n_hex_loop (l : list ascii) : res bytes :=
  match l with
  | c1 :: c2 :: l =>
      match ch_ (code c1), ch_ (code c2) with
      | Some n1, Some n2 => rest ← n_hex_loop l; Ok (u8 (n1 * 16 + n2) :: rest)
      | _, _ => Throw "hex invalid"
      end
  | _ => Ok []
  end.

Definition n_hexToBytes (hex : string) : res bytes :=
  _ ← throw_if (negb (slen hex mod 2 =? 0)) "hex invalid";
  n_hex_loop (chars hex).

(** [n.toString(16)] of a bigint that is not negative. *)
Definition big_toString16 (n : Z) : string :=
  if n =? 0 then "0" else str_of (map hexdigit (to_digits 16 (fuel_for n) n [])).

Definition padh (n : Z) (pad : nat) : string := padStart (big_toString16 n) pad "0"%char.

Definition n_bytesToHex (b : bytes) : string := foldr (λ e s, padh e 2 +:+ s) EmptyString b.

(** [abytes(a, l)] of something that is a [Uint8Array]. *)
Definition abytes (a : bytes) (l : option nat) : res bytes :=
  _ ← throw_if (match l with Some l => negb (length a =? l)%nat | None => false end)
        "Uint8Array expected";
  Ok a.

(** [toU8]: hex or bytes. *)
Definition toU8 (a : string + bytes) (len : option nat) : res bytes :=
  match a with
  | inl s => b ← n_hexToBytes s; abytes b len
  | inr b => abytes b len
  end.

(** [BigInt('0x' + s)] for a string of hexadecimal digits. *)
Definition big_of_hex (s : string) : Z := of_digits 16 0 (map (λ c, default 0 (hexval c)) (chars s)).

Definition bytesToNumBE (b : bytes) : Z :=
  let h := n_bytesToHex b in big_of_hex (if str_eqb h EmptyString then "0" else h).

Definition sliceBytesNumBE (b : bytes) (from to : Z) : Z := bytesToNumBE (slice b from to).

Definition arange (n min max : Z) (msg : string) : res Z :=
  if (min <=? n) && (n <? max) then Ok n else Throw msg.

Definition bad_number : string := "bad number: out of range".

Definition B256 : Z := 2 ^ 256.

Definition numTo32b (num : Z) : res bytes :=
  n ← arange num 0 B256 bad_number;
  n_hexToBytes (padh n L2).

(** ** Arithmetic *)

Definition M (a b : Z) : Z := let r := Z.rem a b in if 0 <=? r then r else b + r.

Definition modN (a : Z) : Z := M a N_.

(** [while (a !== 0n)], the extended Euclidean algorithm. *)
Fixpoint invert_loop (fuel : nat) (a b x y u v : Z) : option (Z * Z) :=
  match fuel with
  | O => None
  | S fuel =>
      if a =? 0 then Some (b, x)
      else
        let q := Z.quot b a in
        let r := Z.rem b a in
        let m := x - u * q in
        let n := y - v * q in
        invert_loop fuel r a u v m n
  end.

(** Two iterations halve [a], so twice the bits of the modulus are enough. *)
Definition invert (num md : Z) : res Z :=
  _ ← throw_if ((num =? 0) || (md <=? 0)) ("no inverse n=" +:+ dec num +:+ " mod=" +:+ dec md);
  match invert_loop (Z.to_nat (2 * Z.log2 md + 4)) (M num md) md 0 1 1 0 with
  | Some (b, x) => if b =? 1 then Ok (M x md) else Throw "no inverse"
  | None => Throw "no inverse"
  end.

Definition koblitz (x : Z) : Z := M (M (x * x) P * x + b_) P.

Definition afield0 (n : Z) : res Z := arange n 0 P bad_number.
Definition afield (n : Z) : res Z := arange n 1 P bad_number.
Definition agroup (n : Z) : res Z := arange n 1 N_ bad_number.
Definition isEven (y : Z) : bool := Z.land y 1 =? 0.
Definition getPrefix (y : Z) : bytes := u8of [if isEven y then 0x02 else 0x03].

(** [for (num = c, e = (P + 1n) / 4n; e > 0n; e >>= 1n)]: one iteration per bit. *)
Fixpoint pow_loop (fuel : nat) (r num e : Z) : Z :=
  match fuel with
  | O => r
  | S fuel =>
      if 0 <? e then
        let r := if negb (Z.land e 1 =? 0) then Z.rem (r * num) P else r in
        let num := Z.rem (num * num) P in
        pow_loop fuel r num (Z.shiftr e 1)
      else r
  end.

Definition lift_x (x : Z) : res Z :=
  x ← afield x;
  let c := koblitz x in
  let r := pow_loop 256 1 c (Z.quot (P + 1) 4) in
  if M (r * r) P =? c then Ok r else Throw "sqrt invalid".

(** ** Reduction *)

Lemma P_pos : 0 < P.
Proof. done. Qed.
Lemma N_pos : 0 < N_.
Proof. done. Qed.
#[export] Hint Resolve P_pos N_pos : core.

Lemma M_mod a b : 0 < b → M a b = a mod b.
Proof.
  intros Hb. unfold M. pose proof (Z.quot_rem a b ltac:(lia)) as E.
  destruct (Z.leb_spec 0 (Z.rem a b)).
  - apply Z.mod_unique_pos with (Z.quot a b); [|lia].
    pose proof (Z.rem_bound_abs a b ltac:(lia)). lia.
  - apply Z.mod_unique_pos with (Z.quot a b - 1); [|lia].
    pose proof (Z.rem_bound_abs a b ltac:(lia)). lia.
Qed.

Lemma M_range a b : 0 < b → 0 ≤ M a b < b.
Proof. intros. rewrite M_mod by done. by apply Z.mod_pos_bound. Qed.

Lemma arange_Ok n lo hi m x : arange n lo hi m = Ok x ↔ x = n ∧ lo ≤ n < hi.
Proof.
  unfold arange. destruct (Z.leb_spec lo n), (Z.ltb_spec n hi); cbn; (split; [|intros [-> ?]]);
    intros; simp_res; try done; lia.
Qed.

(** ** Encodings *)

Lemma ch_hexdigit d : 0 ≤ d < 16 → ch_ (code (hexdigit d)) = Some d.
Proof.
  intros. rewrite code_hexdigit by done. unfold ch_. destruct (Z.ltb_spec d 10).
  - rewrite (proj2 (Z.leb_le 48 _)), (proj2 (Z.leb_le _ 57)) by lia. simpl. f_equal. lia.
  - rewrite (proj2 (Z.leb_gt _ 57)), (proj2 (Z.leb_gt _ 70)), !andb_false_r by lia.
    rewrite (proj2 (Z.leb_le 97 _)), (proj2 (Z.leb_le _ 102)) by lia. simpl. f_equal. lia.
Qed.

Lemma be_num_digits bs : be_num bs = of_digits 256 0 bs.
Proof.
  induction bs as [|b bs IH] using rev_ind; [done|].
  rewrite be_num_snoc, of_digits_snoc, IH. lia.
Qed.

(** An even number of hexadecimal digits reads as half as many bytes with the
    same value. *)
Lemma n_hex_loop_digits ds k a :
  length ds = (2 * k)%nat → Forall (is_digit 16) ds →
  ∃ bs, n_hex_loop (map hexdigit ds) = Ok bs ∧ is_bytes bs ∧ length bs = k
    ∧ of_digits 256 a bs = of_digits 16 a ds.
Proof.
  revert ds a. induction k as [|k IH]; intros ds a Hl Hd.
  { destruct ds; [|done]. exists []. split_and!; [done|constructor|done|done]. }
  destruct ds as [|d1 [|d2 ds]]; [simpl in Hl; lia..|]. simpl in Hl.
  apply Forall_cons in Hd as [H1 Hd]. apply Forall_cons in Hd as [H2 Hd]. unfold is_digit in H1, H2.
  destruct (IH ds (a * 256 + (d1 * 16 + d2)) ltac:(lia) Hd) as (bs & E & Hb & Hbl & Ev).
  exists ((d1 * 16 + d2) :: bs). cbn [map n_hex_loop]. rewrite !ch_hexdigit by done. rewrite E.
  cbn [mbind res_bind]. rewrite u8_small by (split; lia). split_and!; [done| |by rewrite <-Hbl|].
  - apply is_bytes_cons. split; [split; lia|done].
  - unfold of_digits in *. cbn [fold_left]. rewrite Ev. f_equal. lia.
Qed.

Lemma big_hex_digits n : 0 ≤ n →
  ∃ ds, chars (big_toString16 n) = map hexdigit ds ∧ Forall (is_digit 16) ds ∧ of_digits 16 0 ds = n
    ∧ ∀ k, (0 < k)%nat → n < 16 ^ Z.of_nat k → (length ds ≤ k)%nat.
Proof.
  intros Hn. unfold big_toString16. destruct (Z.eqb_spec n 0) as [->|].
  { exists [0]. split_and!; [done|by repeat constructor|done|simpl; lia]. }
  exists (to_digits 16 (fuel_for n) n []). rewrite chars_str_of.
  split_and!; [done|by apply to_digits_range|apply of_to_digits; [lia|done|by apply fuel_enough]|].
  intros k Hk Hlt. destruct (to_digits_canonical 16 ltac:(lia) (fuel_for n) n Hn (fuel_enough n Hn)) as [Hd Hc].
  set (ds := to_digits 16 (fuel_for n) n []) in *.
  assert (of_digits 16 0 ds = n) as Ev by (apply of_to_digits; [lia|done|by apply fuel_enough]).
  destruct (decide (ds = [])) as [->|Hne]; [simpl; lia|].
  pose proof (of_digits_lower 16 ltac:(lia) ds (conj Hd Hc) Hne) as Hlow. rewrite Ev in Hlow.
  assert (zlen ds - 1 < Z.of_nat k); [|lia]. apply (Z.pow_lt_mono_r_iff 16); lia.
Qed.

Lemma str_eqb_empty s : str_eqb s EmptyString = false → chars s ≠ [].
Proof. by destruct s. Qed.

Lemma padh_digits n k :
  0 ≤ n < 16 ^ Z.of_nat k → (0 < k)%nat →
  ∃ ds, chars (padh n k) = map hexdigit ds ∧ Forall (is_digit 16) ds ∧ length ds = k
    ∧ of_digits 16 0 ds = n.
Proof.
  intros [Hn Hlt] Hk. destruct (big_hex_digits n Hn) as (ds & Ec & Hd & Ev & Hl).
  specialize (Hl k Hk Hlt). exists (replicate (k - length ds) 0 ++ ds). unfold padh, padStart, repeat_char.
  rewrite chars_app, chars_str_of, Ec, length_map, map_app. split_and!.
  - f_equal. change "0"%char with (hexdigit 0). generalize (k - length ds)%nat as j.
    induction j as [|j IH]; [done|]. cbn. by f_equal.
  - apply Forall_app. split; [|done]. apply Forall_replicate. split; lia.
  - rewrite length_app, length_replicate. lia.
  - by rewrite of_digits_zeros.
Qed.

(** [numTo32b] is the 32-byte big-endian encoding. *)
Lemma numTo32b_spec num bs :
  numTo32b num = Ok bs ↔ 0 ≤ num < 2 ^ 256 ∧ bs = be_bytes 32 num.
Proof.
  unfold numTo32b. rewrite bind_Ok. setoid_rewrite arange_Ok. change B256 with (2 ^ 256).
  assert (0 ≤ num < 2 ^ 256 → n_hexToBytes (padh num L2) = Ok (be_bytes 32 num)) as H.
  { intros Hn. destruct (padh_digits num 64) as (ds & Ec & Hd & Hl & Ev); [done|lia|].
    destruct (n_hex_loop_digits ds 32 0 Hl Hd) as (bs' & E & Hb & Hbl & Ev').
    unfold n_hexToBytes, slen. change L2 with 64%nat. rewrite Ec, length_map, Hl, E. cbn. f_equal.
    rewrite <-(be_bytes_be_num bs') by done. rewrite Hbl, be_num_digits, Ev'. by rewrite Ev. }
  split.
  - intros (n & [-> Hn] & E). rewrite H in E by done. by apply Ok_inj in E.
  - intros [Hn ->]. exists num. by rewrite H.
Qed.

Lemma n_bytesToHex_eq bs : is_bytes bs → chars (n_bytesToHex bs) = mjoin (map hex_byte bs).
Proof.
  induction 1 as [|b bs Hb Hbs IH]; [done|]. unfold n_bytesToHex in *. cbn [foldr map].
  rewrite mjoin_cons, chars_app, IH. f_equal. clear -Hb.
  assert (forallb (λ b, bool_decide (chars (padh b 2) = hex_byte b)) (map Z.of_nat (seq 0 256)) = true)
    as H by (by vm_compute).
  rewrite forallb_forall in H. specialize (H b). rewrite bool_decide_eq_true in H. apply H.
  destruct Hb. apply in_map_iff. exists (Z.to_nat b). split; [lia|]. apply in_seq. lia.
Qed.

(** [bytesToNumBE] is the big-endian value. *)
Lemma bytesToNumBE_spec bs : is_bytes bs → bytesToNumBE bs = be_num bs.
Proof.
  intros Hb. unfold bytesToNumBE. assert (Hh := n_bytesToHex_eq bs Hb).
  assert (big_of_hex (n_bytesToHex bs) = be_num bs) as E.
  { unfold big_of_hex. rewrite Hh, be_num_digits. clear Hh.
    assert (∀ a, of_digits 16 a (map (λ c, default 0 (hexval c)) (mjoin (map hex_byte bs)))
      = of_digits 256 a bs) as H; [|apply H].
    induction Hb as [|b bs Hb Hbs IH]; intros a; [done|]. rewrite map_cons, mjoin_cons, map_app.
    destruct Hb. assert (0 ≤ b / 16 < 16) by (split; [apply Z.div_pos|apply Z.div_lt_upper_bound]; lia).
    pose proof (Z.mod_pos_bound b 16 ltac:(lia)). unfold hex_byte at 1. cbn [map app].
    rewrite !hexval_hexdigit by lia. unfold of_digits in *. cbn [default id fold_left]. rewrite IH. f_equal.
    rewrite (Z.div_mod b 16) at 3 by lia. lia. }
  destruct (str_eqb _ _) eqn:Ee; [|done]. apply str_eqb_eq in Ee. rewrite Ee in E. by rewrite <-E.
Qed.

(** ** Inversion *)

(** Every iteration keeps [u·num ≡ a] and [x·num ≡ b], and the gcd. *)
Lemma invert_loop_inv fuel num md a b x y u v g z :
  0 ≤ a → 0 < b → (md | u * num - a) → (md | x * num - b) → Z.gcd a b = Z.gcd num md →
  invert_loop fuel a b x y u v = Some (g, z) → g = Z.gcd num md ∧ (md | z * num - g).
Proof.
  revert a b x y u v. induction fuel as [|fuel IH]; intros a b x y u v Ha Hb Hu Hx Hg H; [done|].
  cbn [invert_loop] in H. destruct (Z.eqb_spec a 0) as [->|Hne].
  - simplify_eq. split; [|done]. rewrite <-Hg, Z.gcd_0_l. lia.
  - assert (Hr := Z.rem_bound_pos b a ltac:(lia) ltac:(lia)).
    assert (Z.rem b a = b - a * Z.quot b a) as Er by (pose proof (Z.quot_rem b a Hne); lia).
    apply IH in H; [done|lia|lia| |done|].
    + rewrite Er. replace ((x - u * Z.quot b a) * num - (b - a * Z.quot b a))
        with ((x * num - b) - Z.quot b a * (u * num - a)) by ring.
      apply Z.divide_sub_r; [done|]. by apply Z.divide_mul_r.
    + rewrite <-Hg, Er. replace (b - a * Z.quot b a) with (b + - Z.quot b a * a) by ring.
      rewrite (Z.gcd_comm _ a), Z.gcd_add_mult_diag_r. done.
Qed.

(** Two iterations halve [a]. *)
Lemma invert_loop_fuel k fuel a b x y u v :
  0 ≤ a < b → a < 2 ^ Z.of_nat k → (2 * k + 1 ≤ fuel)%nat →
  is_Some (invert_loop fuel a b x y u v).
Proof.
  revert fuel a b x y u v. induction k as [|k IH]; intros fuel a b x y u v Hab Ha Hf.
  - destruct fuel as [|fuel]; [lia|]. assert (a = 0) as -> by (simpl in Ha; lia). eauto.
  - do 2 (destruct fuel as [|fuel]; [lia|]). cbn [invert_loop]. destruct (Z.eqb_spec a 0); [eauto|].
    pose proof (Z.rem_bound_pos b a ltac:(lia) ltac:(lia)).
    destruct (Z.eqb_spec (Z.rem b a) 0); [eauto|].
    pose proof (Z.rem_bound_pos a (Z.rem b a) ltac:(lia) ltac:(lia)).
    apply IH; [lia| |lia]. rewrite Nat2Z.inj_succ, Z.pow_succ_r in Ha by lia.
    pose proof (Z.quot_rem a (Z.rem b a) ltac:(lia)).
    assert (1 ≤ Z.quot a (Z.rem b a)) by (apply Z.quot_le_lower_bound; lia). nia.
Qed.

Lemma gcd_mod_l a m : 0 < m → Z.gcd (a mod m) m = Z.gcd a m.
Proof. intros. rewrite Z.gcd_mod, Z.gcd_comm by lia. done. Qed.

(** [invert] returns the inverse exactly when the gcd is one. *)
Lemma invert_spec num md :
  0 < md → num ≠ 0 →
  match invert num md with
  | Ok i => Z.gcd num md = 1 ∧ 0 ≤ i < md ∧ (num * i) mod md = 1 mod md
  | Throw e => Z.gcd num md ≠ 1 ∧ e = "no inverse"%string
  end.
Proof.
  intros Hm Hn. unfold invert.
  rewrite (proj2 (Z.eqb_neq num 0)), (proj2 (Z.leb_gt md 0)) by done. cbn [orb throw_if mbind res_bind].
  pose proof (M_range num md Hm) as Hr. pose proof (Z.log2_nonneg md).
  destruct (invert_loop_fuel (Z.to_nat (Z.log2 md + 1)) (Z.to_nat (2 * Z.log2 md + 4))
    (M num md) md 0 1 1 0) as [[g z] E]; [lia| |lia|].
  { rewrite Z2Nat.id by lia. pose proof (Z.log2_spec md Hm). lia. }
  rewrite E. apply (invert_loop_inv _ num md) in E as [-> Hz]; [|lia|lia| | |].
  - destruct (Z.eqb_spec (Z.gcd num md) 1) as [Eg|]; [|done]. split_and!; [done|by apply M_range..|].
    rewrite M_mod, Zmult_mod_idemp_r by done. rewrite Eg in Hz. destruct Hz as [q Hq].
    replace (num * z) with (1 + q * md) by lia. apply Z_mod_plus_full.
  - rewrite M_mod by done. replace (1 * num - num mod md) with (num / md * md).
    + apply Z.divide_factor_r.
    + pose proof (Z.div_mod num md ltac:(lia)). lia.
  - replace (0 * num - md) with (- 1 * md) by ring. apply Z.divide_factor_r.
  - rewrite M_mod by done. by apply gcd_mod_l.
Qed.

(** ** Square roots *)

(** The loop is exponentiation. *)
Lemma pow_loop_spec fuel r num e :
  0 ≤ r < P → 0 ≤ num → 0 ≤ e < 2 ^ Z.of_nat fuel →
  pow_loop fuel r num e = (r * num ^ e) mod P.
Proof.
  revert r num e. induction fuel as [|fuel IH]; intros r num e Hr Hn He.
  { assert (e = 0) as -> by (simpl in He; lia). by rewrite Z.pow_0_r, Z.mul_1_r, Z.mod_small. }
  cbn [pow_loop]. destruct (Z.ltb_spec 0 e).
  2:{ assert (e = 0) as -> by lia. by rewrite Z.pow_0_r, Z.mul_1_r, Z.mod_small. }
  rewrite Z.shiftr_div_pow2, Z.pow_1_r by lia.
  assert (Z.land e 1 = e mod 2) as -> by (change 1 with (Z.ones 1); by rewrite Z.land_ones).
  rewrite Nat2Z.inj_succ, Z.pow_succ_r in He by lia.
  assert (0 ≤ e / 2 < 2 ^ Z.of_nat fuel)
    by (split; [apply Z.div_pos|apply Z.div_lt_upper_bound]; lia).
  assert (0 ≤ num * num) by (apply Z.mul_nonneg_nonneg; lia).
  assert (0 ≤ r * num) by (apply Z.mul_nonneg_nonneg; lia).
  rewrite !Z.rem_mod_nonneg by (done || lia).
  pose proof (Z.mod_pos_bound (num * num) P P_pos). pose proof (Z.mod_pos_bound (r * num) P P_pos).
  rewrite IH by (try case_match; lia).
  rewrite <-Zmult_mod_idemp_r, <-Zpower_mod, Zmult_mod_idemp_r by done.
  assert ((num * num) ^ (e / 2) = num ^ (2 * (e / 2))) as ->
    by (rewrite Z.pow_mul_r, Z.pow_2_r by lia; done).
  rewrite (Z.div_mod e 2) at 3 by lia. pose proof (Z.mod_pos_bound e 2 ltac:(lia)).
  rewrite Z.pow_add_r by lia. destruct (Z.eqb_spec (e mod 2) 0) as [->|]; cbn [negb].
  - by rewrite Z.pow_0_r, Z.mul_1_r.
  - assert (e mod 2 = 1) as -> by lia. rewrite Z.pow_1_r, Zmult_mod_idemp_l. f_equal. ring.
Qed.

Lemma koblitz_mod x : koblitz x = (x * x * x + 7) mod P.
Proof.
  unfold koblitz. rewrite !M_mod by done. unfold b_.
  by rewrite Zplus_mod, Zmult_mod_idemp_l, <-Zplus_mod.
Qed.

(** The exponent of the square root, kept folded. *)
Definition root_exp : Z := (P + 1) / 4.

Lemma root_exp_range : 0 ≤ root_exp < 2 ^ 256.
Proof. by vm_compute. Qed.

Lemma root_exp_quot : Z.quot (P + 1) 4 = root_exp.
Proof. by vm_compute. Qed.

Lemma pow_loop_root c : 0 ≤ c → pow_loop 256 1 c root_exp = c ^ root_exp mod P.
Proof.
  generalize root_exp_range. generalize root_exp as e. intros e He Hc.
  rewrite pow_loop_spec, Z.mul_1_l; [reflexivity|done|done|exact He].
Qed.

Lemma lift_x_spec x r :
  lift_x x = Ok r ↔
  1 ≤ x < P ∧ r = (koblitz x) ^ root_exp mod P ∧ (r * r) mod P = (x * x * x + 7) mod P.
Proof.
  unfold lift_x. rewrite root_exp_quot.
  generalize (pow_loop_root (koblitz x)). generalize root_exp as e. intros e E.
  rewrite <-koblitz_mod. split.
  - intros (? & [-> Hx]%arange_Ok & H)%bind_Ok. rewrite E, M_mod in H by (done || by apply M_range).
    set (y := koblitz x ^ e mod P) in *. clearbody y.
    destruct (Z.eqb_spec ((y * y) mod P) (koblitz x)) as [Em|]; [|discriminate H].
    apply Ok_inj in H. rewrite <-H. auto.
  - intros (Hx & -> & Hr). assert (afield x = Ok x) as -> by (by apply arange_Ok).
    cbn [mbind res_bind]. rewrite E, M_mod by (done || by apply M_range).
    rewrite Hr, Z.eqb_refl. reflexivity.
Qed.

Lemma lift_x_range x r : lift_x x = Ok r → 0 ≤ r < P.
Proof. intros (_ & -> & _)%lift_x_spec. by apply Z.mod_pos_bound. Qed.

(** ** Properties *)

(** Modular inversion always terminates with the right answer: for a
    positive modulus and a nonzero number it returns the inverse, reduced,
    when the two are coprime, and throws otherwise. *)
Theorem invert_correct num md :
  0 < md → num ≠ 0 →
  match invert num md with
  | Ok i => Z.gcd num md = 1 ∧ 0 ≤ i < md ∧ (num * i) mod md = 1 mod md
  | Throw e => Z.gcd num md ≠ 1 ∧ e = "no inverse"%string
  end.
Proof. apply invert_spec. Qed.

Lemma invert_correct_witness :
  match invert (-3) 10 with Ok i => (-3 * i) mod 10 = 1 | Throw _ => False end.
Proof.
  destruct (invert (-3) 10) as [i|e] eqn:E.
  - pose proof (invert_correct (-3) 10 ltac:(lia) ltac:(lia)) as H. rewrite E in H.
    apply H.
  - discriminate E.
Defined.
