(* ===== verification/NoblePoint.v ===== *)
(** * NoblePoint: [contrib/uap-js/noble-secp256k1.js], the curve

    Points in projective coordinates, the complete addition formula, scalar
    multiplication (double-and-add, and the signed 8-bit windows over the table
    of multiples of the base point), and the byte encodings of points.  The
    theorems: addition stays on the curve and is the chord-and-tangent law;
    both multiplications add up exactly the scalar they are given; the decoder
    accepts only points of the curve, and encoding what it accepted gives the
    same bytes back. *)

From stdpp Require Import base tactics option list numbers strings.
From Stdlib Require Import ZArith Lia Znumtheory.
From S2P Require Import Prelude JsInt JsStr Words Sha256 Script NobleField.

(** ** Points *)

Record point := mkPoint { px : Z; py : Z; pz : Z }.

#[global] Instance point_eq_dec : EqDecision point.
Proof. solve_decision. Defined.

(** The constructor, which checks its arguments. *)
Definition Point (px py pz : Z) : res point :=
  px ← afield0 px;
  py ← afield py;
  pz ← afield0 pz;
  Ok (mkPoint px py pz).

Definition G : point := mkPoint Gx Gy 1.
Definition I_ : point := mkPoint 0 1 0.

Definition equals (p q : point) : bool :=
  let X1Z2 := M (px p * pz q) P in
  let X2Z1 := M (px q * pz p) P in
  let Y1Z2 := M (py p * pz q) P in
  let Y2Z1 := M (py q * pz p) P in
  (X1Z2 =? X2Z1) && (Y1Z2 =? Y2Z1).

Definition is0 (p : point) : bool := equals p I_.

Definition negate (p : point) : res point := Point (px p) (M (- py p) P) (pz p).

(** The 40 steps of the complete formula, in order. *)
Definition add (p q : point) : res point :=
  let X1 := px p in let Y1 := py p in let Z1 := pz p in
  let X2 := px q in let Y2 := py q in let Z2 := pz q in
  let a := 0 in
  let b := b_ in
  let b3 := M (b * 3) P in
  let t0 := M (X1 * X2) P in let t1 := M (Y1 * Y2) P in
  let t2 := M (Z1 * Z2) P in let t3 := M (X1 + Y1) P in
  let t4 := M (X2 + Y2) P in
  let t3 := M (t3 * t4) P in
  let t4 := M (t0 + t1) P in
  let t3 := M (t3 - t4) P in
  let t4 := M (X1 + Z1) P in
  let t5 := M (X2 + Z2) P in
  let t4 := M (t4 * t5) P in
  let t5 := M (t0 + t2) P in
  let t4 := M (t4 - t5) P in
  let t5 := M (Y1 + Z1) P in
  let X3 := M (Y2 + Z2) P in
  let t5 := M (t5 * X3) P in
  let X3 := M (t1 + t2) P in
  let t5 := M (t5 - X3) P in
  let Z3 := M (a * t4) P in
  let X3 := M (b3 * t2) P in
  let Z3 := M (X3 + Z3) P in
  let X3 := M (t1 - Z3) P in
  let Z3 := M (t1 + Z3) P in
  let Y3 := M (X3 * Z3) P in
  let t1 := M (t0 + t0) P in
  let t1 := M (t1 + t0) P in
  let t2 := M (a * t2) P in
  let t4 := M (b3 * t4) P in
  let t1 := M (t1 + t2) P in
  let t2 := M (t0 - t2) P in
  let t2 := M (a * t2) P in
  let t4 := M (t4 + t2) P in
  let t0 := M (t1 * t4) P in
  let Y3 := M (Y3 + t0) P in
  let t0 := M (t5 * t4) P in
  let X3 := M (t3 * X3) P in
  let X3 := M (X3 - t0) P in
  let t0 := M (t3 * t1) P in
  let Z3 := M (t5 * Z3) P in
  let Z3 := M (Z3 + t0) P in
  Point X3 Y3 Z3.

Definition double (p : point) : res point := add p p.

(** ** Multiples of the base point *)

Definition W : Z := 8.
Definition scalarBits : Z := 256.
Definition pwindows : nat := 33.
Definition pwindowSize : nat := 128.

(** [for (let i = 1; i < pwindowSize; i++)]: [k] more sums of [p] after [b]. *)
Fixpoint precompute_window (k : nat) (p b : point) (points : list point) : res (point * list point) :=
  match k with
  | O => Ok (b, points)
  | S k => b ← add b p; precompute_window k p b (points ++ [b])
  end.

Fixpoint precompute_loop (windows : nat) (p : point) (points : list point) : res (list point) :=
  match windows with
  | O => Ok points
  | S windows =>
      '(b, points) ← precompute_window (pwindowSize - 1) p p (points ++ [p]);
      p ← double b;
      precompute_loop windows p points
  end.

Definition precompute (_ : unit) : res (list point) := precompute_loop pwindows G [].

Definition ctneg (cnd : bool) (p : point) : res point :=
  n ← negate p;
  Ok (if cnd then n else p).

(** [comp[i]], on which a method is called: a missing entry is a TypeError. *)
Definition entry (comp : list point) (i : Z) : res point :=
  if 0 <=? i then
    match comp !! Z.to_nat i with Some p => Ok p | None => Throw "Cannot read properties of undefined" end
  else Throw "Cannot read properties of undefined".

Definition wNAF_step (comp : list point) (w : nat) (st : point * point * Z) : res (point * point * Z) :=
  let '(p, f, n) := st in
  let wbits := Z.land n 255 in
  let n := Z.shiftr n W in
  let '(wbits, n) := if Z.of_nat pwindowSize <? wbits then (wbits - 256, n + 1) else (wbits, n) in
  let off := Z.of_nat (w * pwindowSize) in
  let offF := off in
  let offP := off + Z.abs wbits - 1 in
  let isEven := negb (w mod 2 =? 0)%nat in
  let isNeg := wbits <? 0 in
  if wbits =? 0 then
    e ← entry comp offF; e ← ctneg isEven e; f ← add f e; Ok (p, f, n)
  else
    e ← entry comp offP; e ← ctneg isNeg e; p ← add p e; Ok (p, f, n).

Definition wNAF (n : Z) : res (point * point) :=
  comp ← precompute tt;
  '(p, f, _) ← foldR (λ st w, wNAF_step comp w st) (I_, G, n) (seq 0 pwindows);
  Ok (p, f).

(** ** Scalar multiplication *)

(** [for (let d = this; n > 0n; d = d.double(), n >>= 1n)]. *)
Fixpoint multiply_loop (fuel : nat) (safe : bool) (p f d : point) (n : Z) : res point :=
  match fuel with
  | O => Ok p
  | S fuel =>
      if 0 <? n then
        '(p, f) ← (if negb (Z.land n 1 =? 0) then p ← add p d; Ok (p, f)
                   else if safe then f ← add f d; Ok (p, f)
                   else Ok (p, f));
        d ← double d;
        multiply_loop fuel safe p f d (Z.shiftr n 1)
      else Ok p
  end.

(** The scalar is below [2^256] once [agroup] has passed, and every iteration
    takes a bit. *)
Definition multiply (this : point) (n : Z) (safe : bool) : res point :=
  if negb safe && (n =? 0) then Ok I_
  else
    n ← agroup n;
    if n =? 1 then Ok this
    else if equals this G then '(p, _) ← wNAF n; Ok p
    else multiply_loop 256 safe I_ G this n.

(** ** Affine coordinates and bytes *)

Definition toAffine (p : point) : res (Z * Z) :=
  let x := px p in let y := py p in let z := pz p in
  if equals p I_ then Ok (0, 0)
  else if z =? 1 then Ok (x, y)
  else
    iz ← invert z P;
    _ ← throw_if (negb (M (z * iz) P =? 1)) "inverse invalid";
    Ok (M (x * iz) P, M (y * iz) P).

Definition assertValidity (p : point) : res point :=
  '(x, y) ← toAffine p;
  x ← afield x;
  y ← afield y;
  if M (y * y) P =? koblitz x then Ok p else Throw "bad point: not on curve".

Definition fromBytes (bs : bytes) : res point :=
  let head := at_ bs 0 in
  let tail := drop 1 bs in
  let x := sliceBytesNumBE tail 0 (Z.of_nat L) in
  let len := length bs in
  p ← (if (len =? L + 1)%nat && ((head =? 0x02) || (head =? 0x03)) then
         y ← lift_x x;
         let y := if Bool.eqb (isEven head) (isEven y) then y else M (- y) P in
         p ← Point x y 1; Ok (Some p)
       else Ok None);
  p ← (if (len =? L2 + 1)%nat && (head =? 0x04) then
         p ← Point x (sliceBytesNumBE tail (Z.of_nat L) (Z.of_nat L2)) 1; Ok (Some p)
       else Ok p);
  match p with
  | Some p => assertValidity p
  | None => Throw "bad point: not on curve"
  end.

Definition toBytes (p : point) (isCompressed : bool) : res bytes :=
  p ← assertValidity p;
  '(x, y) ← toAffine p;
  x32b ← numTo32b x;
  if isCompressed then Ok (concatBytes [getPrefix y; x32b])
  else
    y32b ← numTo32b y;
    Ok (concatBytes [u8of [0x04]; x32b; y32b]).

Definition fromAffine (ap : Z * Z) : res point :=
  let '(x, y) := ap in
  if (x =? 0) && (y =? 0) then Ok I_ else Point x y 1.

Definition toHex (p : point) (isCompressed : bool) : res string :=
  b ← toBytes p isCompressed; Ok (n_bytesToHex b).

Definition fromHex (hex : string + bytes) : res point := b ← toU8 hex None; fromBytes b.

(** A private key: a bigint, hex or bytes. *)
Inductive priv :=
  | PrivBig (n : Z)
  | PrivU8 (a : string + bytes).

Definition toPrivScalar (pr : priv) : res Z :=
  num ← match pr with
        | PrivBig n => Ok n
        | PrivU8 a => b ← toU8 a (Some L); Ok (bytesToNumBE b)
        end;
  arange num 1 N_ "private key invalid 3".

Definition fromPrivateKey (k : priv) : res point :=
  n ← toPrivScalar k; multiply G n true.

Definition getPublicKey (privKey : priv) (isCompressed : bool) : res bytes :=
  n ← toPrivScalar privKey;
  p ← multiply G n true;
  toBytes p isCompressed.

Definition getSharedSecret (privA : priv) (pubB : string + bytes) (isCompressed : bool) : res bytes :=
  b ← toU8 pubB None;
  p ← fromBytes b;
  n ← toPrivScalar privA;
  p ← multiply p n true;
  toBytes p isCompressed.

(** [Q = u1·G + u2·R]. *)
Definition doubleScalarMulUns (R : point) (u1 u2 : Z) : res point :=
  p ← multiply G u1 false;
  q ← multiply R u2 false;
  r ← add p q;
  assertValidity r.

(** ** The constructor *)

Lemma Point_Ok x y z p :
  Point x y z = Ok p ↔ p = mkPoint x y z ∧ 0 ≤ x < P ∧ 1 ≤ y < P ∧ 0 ≤ z < P.
Proof.
  unfold Point, afield0, afield. split.
  - intros (? & [-> Hx]%arange_Ok & H)%bind_Ok. apply bind_Ok in H as (? & [-> Hy]%arange_Ok & H).
    apply bind_Ok in H as (? & [-> Hz]%arange_Ok & H). apply Ok_inj in H as <-. tauto.
  - intros (-> & Hx & Hy & Hz).
    assert (arange x 0 P bad_number = Ok x) as -> by (by apply arange_Ok).
    assert (arange y 1 P bad_number = Ok y) as -> by (by apply arange_Ok).
    assert (arange z 0 P bad_number = Ok z) as -> by (by apply arange_Ok). done.
Qed.

(** [G] and [I] are what the constructor gives. *)
Lemma G_Point : Point Gx Gy 1 = Ok G.
Proof. done. Qed.
Lemma I_Point : Point 0 1 0 = Ok I_.
Proof. done. Qed.

(** ** Congruence modulo the field prime *)

Definition cong (a b : Z) : Prop := (P | a - b).

#[export] Instance cong_equivalence : Equivalence cong.
Proof.
  unfold cong. split.
  - intros a. rewrite Z.sub_diag. apply Z.divide_0_r.
  - intros a b H. replace (b - a) with (- (a - b)) by ring. by apply Z.divide_opp_r.
  - intros a b c H1 H2. replace (a - c) with ((a - b) + (b - c)) by ring. by apply Z.divide_add_r.
Qed.

#[export] Instance cong_add : Proper (cong ==> cong ==> cong) Z.add.
Proof.
  intros a a' Ha b b' Hb. unfold cong in *.
  replace (a + b - (a' + b')) with ((a - a') + (b - b')) by ring. by apply Z.divide_add_r.
Qed.

#[export] Instance cong_opp : Proper (cong ==> cong) Z.opp.
Proof.
  intros a a' Ha. unfold cong in *. replace (- a - - a') with (- (a - a')) by ring.
  by apply Z.divide_opp_r.
Qed.

#[export] Instance cong_sub : Proper (cong ==> cong ==> cong) Z.sub.
Proof. intros a a' Ha b b' Hb. unfold Z.sub. by rewrite Ha, Hb. Qed.

#[export] Instance cong_mul : Proper (cong ==> cong ==> cong) Z.mul.
Proof.
  intros a a' Ha b b' Hb. unfold cong in *.
  replace (a * b - a' * b') with (a * (b - b') + b' * (a - a')) by ring.
  apply Z.divide_add_r; by apply Z.divide_mul_r.
Qed.

Lemma cong_M a : cong (M a P) a.
Proof.
  unfold cong. rewrite M_mod by done. exists (- (a / P)). pose proof (Z.div_mod a P ltac:(done)). lia.
Qed.

Lemma cong_mod a b : cong a b ↔ a mod P = b mod P.
Proof.
  unfold cong. split.
  - intros [k Hk]. replace a with (b + k * P) by lia. apply Z_mod_plus_full.
  - intros H. apply Z.mod_divide; [done|]. by rewrite Zminus_mod, H, Z.sub_diag.
Qed.

Lemma cong_eq a b : 0 ≤ a < P → 0 ≤ b < P → cong a b → a = b.
Proof. intros Ha Hb H%cong_mod. by rewrite !Z.mod_small in H. Qed.

Lemma cong_zero a b : cong (a - b) 0 ↔ cong a b.
Proof. unfold cong. by rewrite Z.sub_0_r. Qed.

Lemma eq_cong a b : a = b → cong a b.
Proof. by intros ->. Qed.

(** A factor that has an inverse can be cancelled. *)
Lemma cong_cancel c i a b : cong (c * i) 1 → cong (c * a) (c * b) → cong a b.
Proof.
  intros Hi H. transitivity (c * i * a); [rewrite Hi; by rewrite Z.mul_1_l|].
  replace (c * i * a) with (i * (c * a)) by ring. rewrite H.
  replace (i * (c * b)) with (c * i * b) by ring. rewrite Hi. by rewrite Z.mul_1_l.
Qed.

(** Read an expression with its reductions removed. *)
Lemma M_step a b : cong a b → cong (M a P) b.
Proof. intros H. by rewrite cong_M. Qed.

Ltac unreduce :=
  repeat first
    [ apply M_step
    | apply cong_mul | apply cong_add | apply cong_sub | apply cong_opp
    | eassumption | reflexivity ].

(** ** The addition formula *)

Section formula.
Context (X1 Y1 Z1 X2 Y2 Z2 : Z).

Definition FX : Z :=
  (X1 * Y2 + X2 * Y1) * (Y1 * Y2 - 21 * (Z1 * Z2)) - 21 * (Y1 * Z2 + Y2 * Z1) * (X1 * Z2 + X2 * Z1).
Definition FY : Z :=
  (Y1 * Y2 + 21 * (Z1 * Z2)) * (Y1 * Y2 - 21 * (Z1 * Z2)) + 63 * (X1 * X2) * (X1 * Z2 + X2 * Z1).
Definition FZ : Z :=
  (Y1 * Z2 + Y2 * Z1) * (Y1 * Y2 + 21 * (Z1 * Z2)) + 3 * (X1 * X2) * (X1 * Y2 + X2 * Y1).

(** The curve equation, homogeneous. *)
Definition curve_eq (x y z : Z) : Z := x ^ 3 + 7 * z ^ 3 - y ^ 2 * z.

Definition cof1 : Z :=
    (- 189 * X1^3 * X2^3 * Y2^3 + 11907 * X1^3 * X2^3 * Y2 * Z2^2 - 567 * X1^2 * X2^4 * Y1 * Y2^2 +
     11907 * X1^2 * X2^4 * Y1 * Z2^2 + 23814 * X1^2 * X2^4 * Y2 * Z1 * Z2 - 567 * X1 * X2^5 * Y1^2 *
     Y2 + 23814 * X1 * X2^5 * Y1 * Z1 * Z2 + 11907 * X1 * X2^5 * Y2 * Z1^2 + 189 * X1 * X2^2 * Y1^2
     * Y2^3 * Z2 + 3969 * X1 * X2^2 * Y1^2 * Y2 * Z2^3 - 189 * X1 * X2^2 * Y1 * Y2^4 * Z1 + 83349 *
     X1 * X2^2 * Y1 * Z1 * Z2^4 - 3969 * X1 * X2^2 * Y2^3 * Z1^2 * Z2 - 83349 * X1 * X2^2 * Y2 *
     Z1^2 * Z2^3 - 189 * X2^6 * Y1^3 + 11907 * X2^6 * Y1 * Z1^2 - 189 * X2^3 * Y1^2 * Y2^3 * Z1 +
     11907 * X2^3 * Y1^2 * Y2 * Z1 * Z2^2 + 1323 * X2^3 * Y2^3 * Z1^3 - 83349 * X2^3 * Y2 * Z1^3 *
     Z2^2 - Y1^3 * Y2^6 + 63 * Y1^3 * Y2^4 * Z2^2 - 1323 * Y1^3 * Y2^2 * Z2^4 + 9261 * Y1^3 * Z2^6 +
     126 * Y1^2 * Y2^5 * Z1 * Z2 - 5292 * Y1^2 * Y2^3 * Z1 * Z2^3 + 55566 * Y1^2 * Y2 * Z1 * Z2^5 -
     5292 * Y1 * Y2^4 * Z1^2 * Z2^2 + 111132 * Y1 * Y2^2 * Z1^2 * Z2^4 + 74088 * Y2^3 * Z1^3 * Z2^3).
Definition cof2 : Z :=
    (- 189 * X1^2 * X2 * Y1^4 * Y2 * Z2 - 378 * X1^2 * X2 * Y1^3 * Y2^2 * Z1 + 7938 * X1^2 * X2 *
     Y1^3 * Z1 * Z2^2 + 23814 * X1^2 * X2 * Y1^2 * Y2 * Z1^2 * Z2 + 7938 * X1^2 * X2 * Y1 * Y2^2 *
     Z1^3 - 166698 * X1^2 * X2 * Y1 * Z1^3 * Z2^2 - 83349 * X1^2 * X2 * Y2 * Z1^4 * Z2 - 567 * X1 *
     X2^2 * Y1^4 * Y2 * Z1 + 23814 * X1 * X2^2 * Y1^3 * Z1^2 * Z2 + 15876 * X1 * X2^2 * Y1^2 * Y2 *
     Z1^3 - 166698 * X1 * X2^2 * Y1 * Z1^4 * Z2 - 83349 * X1 * X2^2 * Y2 * Z1^5 - 189 * X2^3 * Y1^5
     * Z1 + 13230 * X2^3 * Y1^3 * Z1^3 - 83349 * X2^3 * Y1 * Z1^5 - Y1^6 * Y2^3 - 63 * Y1^5 * Y2^2 *
     Z1 * Z2 + 1323 * Y1^5 * Z1 * Z2^3 - 126 * Y1^4 * Y2^3 * Z1^2 + 6615 * Y1^4 * Y2 * Z1^2 * Z2^2 +
     7938 * Y1^3 * Y2^2 * Z1^3 * Z2 - 18522 * Y1^3 * Z1^3 * Z2^3 + 1323 * Y1^2 * Y2^3 * Z1^4 - 55566
     * Y1^2 * Y2 * Z1^4 * Z2^2 - 27783 * Y1 * Y2^2 * Z1^5 * Z2 + 583443 * Y1 * Z1^5 * Z2^3 + 583443
     * Y2 * Z1^6 * Z2^2).

(** The sum satisfies the equation because the summands do. *)
Lemma formula_curve :
  curve_eq FX FY FZ = - (cof1 * curve_eq X1 Y1 Z1 + cof2 * curve_eq X2 Y2 Z2).
Proof. unfold curve_eq, FX, FY, FZ, cof1, cof2. ring. Qed.

End formula.

(** Name the value of a step, keeping only what it is congruent to. *)
Lemma let_cong {B} (e e' : Z) (k : Z → B) (Q : B → Prop) :
  cong e e' → (∀ t, cong t e' → Q (k t)) → Q (let t := e in k t).
Proof. intros He H. by apply H. Qed.

(** What [add] computes. *)
Lemma add_Point p q :
  ∃ X3 Y3 Z3, add p q = Point X3 Y3 Z3
  ∧ cong X3 (FX (px p) (py p) (pz p) (px q) (py q) (pz q))
  ∧ cong Y3 (FY (px p) (py p) (pz p) (px q) (py q) (pz q))
  ∧ cong Z3 (FZ (px p) (py p) (pz p) (px q) (py q) (pz q)).
Proof.
  destruct p as [X1 Y1 Z1], q as [X2 Y2 Z2]. cbn [px py pz].
  pose (Q r := ∃ X3 Y3 Z3, r = Point X3 Y3 Z3 ∧ cong X3 (FX X1 Y1 Z1 X2 Y2 Z2)
    ∧ cong Y3 (FY X1 Y1 Z1 X2 Y2 Z2) ∧ cong Z3 (FZ X1 Y1 Z1 X2 Y2 Z2)).
  change (Q (add (mkPoint X1 Y1 Z1) (mkPoint X2 Y2 Z2))).
  cbv beta iota delta [add px py pz b_].
  repeat lazymatch goal with
    |- Q (let t := ?e in @?k t) => refine (let_cong e _ k Q _ _); [unreduce|intros ? ?; cbv beta] end.
  eexists _, _, _. split; [reflexivity|].
  split_and!; (etransitivity; [eassumption|]); apply eq_cong; unfold FX, FY, FZ; ring.
Qed.

Lemma add_coords p q r :
  add p q = Ok r →
  cong (px r) (FX (px p) (py p) (pz p) (px q) (py q) (pz q))
  ∧ cong (py r) (FY (px p) (py p) (pz p) (px q) (py q) (pz q))
  ∧ cong (pz r) (FZ (px p) (py p) (pz p) (px q) (py q) (pz q))
  ∧ 0 ≤ px r < P ∧ 1 ≤ py r < P ∧ 0 ≤ pz r < P.
Proof.
  intros H. destruct (add_Point p q) as (X3 & Y3 & Z3 & E & HX & HY & HZ).
  rewrite E in H. by apply Point_Ok in H as (-> & ?).
Qed.

(** Being on the curve. *)
Definition on_curve (p : point) : Prop := cong (curve_eq (px p) (py p) (pz p)) 0.

#[export] Instance curve_eq_proper : Proper (cong ==> cong ==> cong ==> cong) curve_eq.
Proof.
  intros x x' Hx y y' Hy z z' Hz. unfold curve_eq. rewrite !Z.pow_2_r.
  change 3 with (Z.succ 2). rewrite !Z.pow_succ_r, !Z.pow_2_r by lia. by rewrite Hx, Hy, Hz.
Qed.

Lemma add_on_curve p q r : on_curve p → on_curve q → add p q = Ok r → on_curve r.
Proof.
  intros Hp Hq (HX & HY & HZ & _)%add_coords. unfold on_curve in *.
  rewrite HX, HY, HZ, formula_curve, Hp, Hq. by rewrite !Z.mul_0_r.
Qed.

(** [p] has affine coordinates [x], [y]. *)
Definition affine (p : point) (x y : Z) : Prop :=
  cong (px p) (x * pz p) ∧ cong (py p) (y * pz p).

(** The formula is homogeneous. *)
Lemma FX_scale x1 y1 z1 x2 y2 z2 :
  FX (x1 * z1) (y1 * z1) z1 (x2 * z2) (y2 * z2) z2 = (z1 * z2) ^ 2 * FX x1 y1 1 x2 y2 1.
Proof. unfold FX. ring. Qed.
Lemma FY_scale x1 y1 z1 x2 y2 z2 :
  FY (x1 * z1) (y1 * z1) z1 (x2 * z2) (y2 * z2) z2 = (z1 * z2) ^ 2 * FY x1 y1 1 x2 y2 1.
Proof. unfold FY. ring. Qed.
Lemma FZ_scale x1 y1 z1 x2 y2 z2 :
  FZ (x1 * z1) (y1 * z1) z1 (x2 * z2) (y2 * z2) z2 = (z1 * z2) ^ 2 * FZ x1 y1 1 x2 y2 1.
Proof. unfold FZ. ring. Qed.

#[export] Instance formula_X_proper :
  Proper (cong ==> cong ==> cong ==> cong ==> cong ==> cong ==> cong) FX.
Proof. intros ?? E1 ?? E2 ?? E3 ?? E4 ?? E5 ?? E6. unfold FX. by rewrite E1, E2, E3, E4, E5, E6. Qed.
#[export] Instance formula_Y_proper :
  Proper (cong ==> cong ==> cong ==> cong ==> cong ==> cong ==> cong) FY.
Proof. intros ?? E1 ?? E2 ?? E3 ?? E4 ?? E5 ?? E6. unfold FY. by rewrite E1, E2, E3, E4, E5, E6. Qed.
#[export] Instance formula_Z_proper :
  Proper (cong ==> cong ==> cong ==> cong ==> cong ==> cong ==> cong) FZ.
Proof. intros ?? E1 ?? E2 ?? E3 ?? E4 ?? E5 ?? E6. unfold FZ. by rewrite E1, E2, E3, E4, E5, E6. Qed.

(** Affine coordinates of a sum follow from those of the formula at [Z = 1]. *)
Lemma add_affine p q r x1 y1 x2 y2 x3 y3 :
  affine p x1 y1 → affine q x2 y2 → add p q = Ok r →
  cong (FX x1 y1 1 x2 y2 1) (x3 * FZ x1 y1 1 x2 y2 1) →
  cong (FY x1 y1 1 x2 y2 1) (y3 * FZ x1 y1 1 x2 y2 1) →
  affine r x3 y3.
Proof.
  intros [Hx1 Hy1] [Hx2 Hy2] (HX & HY & HZ & _)%add_coords EX EY.
  rewrite Hx1, Hy1, Hx2, Hy2 in HX, HY, HZ. rewrite FX_scale in HX. rewrite FY_scale in HY.
  rewrite FZ_scale in HZ. split.
  - rewrite HX, HZ, EX. apply eq_cong. ring.
  - rewrite HY, HZ, EY. apply eq_cong. ring.
Qed.

Section chord.
Context (x1 x2 y1 y2 : Z).

Definition cx1 : Z :=
   3 * x1^2 * x2 * y2 + 3 * x1 * x2^2 * y1 - 3 * x1 * x2^2 * y2 - 3 * x2^3 * y1 - 3 * x2^3 * y2 +
   y1^2 * y2 + 2 * y1 * y2^2 - 21 * y2.
Definition cx2 : Z :=
   - 3 * x1^2 * x2 * y1 + 3 * x1^2 * x2 * y2 + 3 * x1 * x2^2 * y1 - 3 * y1^3 - y1^2 * y2 + y1 *
   y2^2 + 21 * y2.
Definition cy1 : Z :=
   3 * x1^2 * x2 * y1 * y2 - 6 * x1^2 * x2 * y2^2 - 63 * x1^2 * x2 + 3 * x1 * x2^2 * y1^2 - 6 * x1
   * x2^2 * y1 * y2 + 9 * x1 * x2^2 * y2^2 + 126 * x1 * x2^2 + y1^3 * y2 - 2 * y1^2 * y2^2 + 21 *
   y1^2 - 2 * y1 * y2^3 - 21 * y1 * y2 - 42 * y2^2 + 441.
Definition cy2 : Z :=
   - 9 * x1^2 * x2 * y1^2 + 6 * x1^2 * x2 * y1 * y2 - 3 * x1^2 * x2 * y2^2 - 126 * x1^2 * x2 + 6 *
   x1 * x2^2 * y1^2 - 3 * x1 * x2^2 * y1 * y2 + 63 * x1 * x2^2 + 2 * y1^3 * y2 + 2 * y1^2 * y2^2 +
   42 * y1^2 - y1 * y2^3 + 21 * y1 * y2 - 21 * y2^2 - 441.

Lemma chord_x :
  (x2 - x1) * ((x2 - x1) * FX x1 y1 1 x2 y2 1)
  = ((y2 - y1) * (y2 - y1) - (x1 + x2) * ((x2 - x1) * (x2 - x1))) * FZ x1 y1 1 x2 y2 1
    + cx1 * curve_eq x1 y1 1 + cx2 * curve_eq x2 y2 1.
Proof. unfold curve_eq, FX, FZ, cx1, cx2. ring. Qed.

Lemma chord_y :
  (x2 - x1) * ((x2 - x1) * ((x2 - x1) * FY x1 y1 1 x2 y2 1))
  = ((y2 - y1) * (x1 * ((x2 - x1) * (x2 - x1))
       - ((y2 - y1) * (y2 - y1) - (x1 + x2) * ((x2 - x1) * (x2 - x1))))
     - y1 * ((x2 - x1) * (x2 - x1) * (x2 - x1))) * FZ x1 y1 1 x2 y2 1
    + cy1 * curve_eq x1 y1 1 + cy2 * curve_eq x2 y2 1.
Proof. unfold curve_eq, FY, FZ, cy1, cy2. ring. Qed.

End chord.

Lemma tangent_x x y :
  (2 * y) * ((2 * y) * FX x y 1 x y 1)
  = (3 * x * x * (3 * x * x) - 2 * x * ((2 * y) * (2 * y))) * FZ x y 1 x y 1
    + (- 54 * x ^ 4 * y - 24 * x * y ^ 3) * curve_eq x y 1.
Proof. unfold curve_eq, FX, FZ. ring. Qed.

Lemma tangent_y x y :
  (2 * y) * ((2 * y) * ((2 * y) * FY x y 1 x y 1))
  = (3 * x * x * (x * ((2 * y) * (2 * y)) - (3 * x * x * (3 * x * x) - 2 * x * ((2 * y) * (2 * y))))
     - y * ((2 * y) * (2 * y) * (2 * y))) * FZ x y 1 x y 1
    + (162 * x ^ 6 * y - 24 * y ^ 5 - 504 * y ^ 3) * curve_eq x y 1.
Proof. unfold curve_eq, FY, FZ. ring. Qed.

(** [x, y] on the curve, affine. *)
Definition on_curve2 (x y : Z) : Prop := cong (curve_eq x y 1) 0.

(** Multiples of something that vanishes can be dropped. *)
Lemma cong_drop a c e : cong e 0 → cong (a + c * e) a.
Proof. intros He. rewrite He, Z.mul_0_r, Z.add_0_r. reflexivity. Qed.

(** The third point on the line of slope [l] through two points, reflected. *)
Definition line_x (l x1 x2 : Z) : Z := l * l - x1 - x2.
Definition line_y (l x1 x2 y1 : Z) : Z := l * (x1 - line_x l x1 x2) - y1.

(** A slope [l = n/d] substituted, one factor of [d] at a time. *)
Lemma slope_x d n l i X x1 x2 Z :
  cong (d * i) 1 → cong (l * d) n →
  cong (d * (d * X)) ((n * n - (x1 + x2) * (d * d)) * Z) → cong X (line_x l x1 x2 * Z).
Proof.
  intros Hi Hl H. apply (cong_cancel d i); [done|]. apply (cong_cancel d i); [done|].
  rewrite H, <-Hl. apply eq_cong. unfold line_x. ring.
Qed.

Lemma slope_y d n l i Y x1 x2 y1 Z :
  cong (d * i) 1 → cong (l * d) n →
  cong (d * (d * (d * Y)))
    ((n * (x1 * (d * d) - (n * n - (x1 + x2) * (d * d))) - y1 * (d * d * d)) * Z) →
  cong Y (line_y l x1 x2 y1 * Z).
Proof.
  intros Hi Hl H. do 3 (apply (cong_cancel d i); [done|]).
  rewrite H, <-Hl. apply eq_cong. unfold line_y, line_x. ring.
Qed.

Lemma add_chord p q r x1 y1 x2 y2 l i :
  affine p x1 y1 → affine q x2 y2 → on_curve2 x1 y1 → on_curve2 x2 y2 →
  cong ((x2 - x1) * i) 1 → cong (l * (x2 - x1)) (y2 - y1) →
  add p q = Ok r → affine r (line_x l x1 x2) (line_y l x1 x2 y1).
Proof.
  intros Hp Hq H1 H2 Hi Hl Hadd. apply (add_affine p q r x1 y1 x2 y2); [done..| |].
  - apply (slope_x (x2 - x1) (y2 - y1) l i); [done..|].
    rewrite chord_x. etransitivity; [by apply cong_drop|by apply cong_drop].
  - apply (slope_y (x2 - x1) (y2 - y1) l i); [done..|].
    rewrite chord_y. etransitivity; [by apply cong_drop|by apply cong_drop].
Qed.

Lemma add_tangent p q r x y l i :
  affine p x y → affine q x y → on_curve2 x y →
  cong ((2 * y) * i) 1 → cong (l * (2 * y)) (3 * x * x) →
  add p q = Ok r → affine r (line_x l x x) (line_y l x x y).
Proof.
  intros Hp Hq H1 Hi Hl Hadd. apply (add_affine p q r x y x y); [done..| |].
  - apply (slope_x (2 * y) (3 * x * x) l i); [done..|].
    rewrite tangent_x. etransitivity; [by apply cong_drop|]. apply eq_cong. f_equal. ring.
  - apply (slope_y (2 * y) (3 * x * x) l i); [done..|].
    rewrite tangent_y. etransitivity; [by apply cong_drop|]. apply eq_cong. f_equal. ring.
Qed.

(** Adding the point at infinity keeps the coordinates. *)
Lemma add_infinity p r x y : affine p x y → add p I_ = Ok r → affine r x y.
Proof.
  intros [Hx Hy] (HX & HY & HZ & _)%add_coords. cbn [I_ px py pz] in *.
  unfold FX, FY, FZ in *. split.
  - rewrite HX, HZ, Hx. apply eq_cong. ring.
  - rewrite HY, HZ, Hy at 1. rewrite Hy. apply eq_cong. ring.
Qed.

(** Opposite points add up to infinity. *)
Lemma add_opposite p q r x y : affine p x y → affine q x (- y) → add p q = Ok r → cong (pz r) 0.
Proof.
  intros [Hx Hy] [Hx' Hy'] (_ & _ & HZ & _)%add_coords.
  rewrite HZ, Hx, Hy, Hx', Hy', FZ_scale. apply eq_cong. unfold FZ. ring.
Qed.

(** Conversion unfolds the formula last. *)
#[global] Strategy 1000 [add].

(** ** Multiples

    [multiple B p n]: [p] is reached from [B] and the point at infinity by
    additions and negations whose scalars add up to [n]. *)
Inductive multiple (B : point) : point → Z → Prop :=
  | mult_base : multiple B B 1
  | mult_zero : multiple B I_ 0
  | mult_add p q r a b : multiple B p a → multiple B q b → add p q = Ok r → multiple B r (a + b)
  | mult_neg p r a : multiple B p a → negate p = Ok r → multiple B r (- a).

Lemma mult_eq B p a b : a = b → multiple B p a → multiple B p b.
Proof. by intros ->. Qed.

Lemma negate_coords p r :
  negate p = Ok r → px r = px p ∧ cong (py r) (- py p) ∧ pz r = pz p.
Proof. unfold negate. intros (-> & _)%Point_Ok. split_and!; [done|apply cong_M|done]. Qed.

(** Every multiple of a point of the curve is on the curve. *)
Lemma multiple_on_curve B p n : on_curve B → multiple B p n → on_curve p.
Proof.
  intros HB. induction 1 as [| |p q r a b _ IHp _ IHq Hadd|p r a _ IH Hneg].
  - done.
  - apply eq_cong. by vm_compute.
  - exact (add_on_curve p q r IHp IHq Hadd).
  - apply negate_coords in Hneg as (Hx & Hy & Hz). unfold on_curve in *.
    rewrite Hx, Hy, Hz, <-IH. apply eq_cong. unfold curve_eq. ring.
Qed.

Lemma G_on_curve : on_curve G.
Proof. unfold on_curve, cong. apply Z.mod_divide; [done|]. by vm_compute. Qed.

(** One bit of a scalar. *)
Lemma low_bit n : 0 ≤ n → n = 2 * Z.shiftr n 1 + (if negb (Z.land n 1 =? 0) then 1 else 0).
Proof.
  intros Hn. rewrite Z.shiftr_div_pow2, Z.pow_1_r by lia.
  assert (Z.land n 1 = n mod 2) as -> by (change 1 with (Z.ones 1); by rewrite Z.land_ones).
  pose proof (Z.div_mod n 2 ltac:(lia)). pose proof (Z.mod_pos_bound n 2 ltac:(lia)).
  destruct (Z.eqb_spec (n mod 2) 0); cbn [negb]; lia.
Qed.

(** Double-and-add adds [n] times [d] to [p]. *)
Lemma multiply_loop_multiple B fuel safe p f d n a b r :
  multiple B p a → multiple B d b → 0 ≤ n < 2 ^ Z.of_nat fuel →
  multiply_loop fuel safe p f d n = Ok r → multiple B r (a + b * n).
Proof.
  revert p f d n a b. induction fuel as [|fuel IH]; intros p f d n a b Hp Hd Hn H.
  { apply Ok_inj in H as <-. assert (n = 0) as -> by (simpl in Hn; lia). by rewrite Z.mul_0_r, Z.add_0_r. }
  cbn [multiply_loop] in H. destruct (Z.ltb_spec 0 n).
  2:{ apply Ok_inj in H as <-. assert (n = 0) as -> by lia. by rewrite Z.mul_0_r, Z.add_0_r. }
  rewrite (low_bit n) by lia. assert (0 ≤ Z.shiftr n 1 < 2 ^ Z.of_nat fuel).
  { rewrite Nat2Z.inj_succ, Z.pow_succ_r in Hn by lia. rewrite Z.shiftr_div_pow2, Z.pow_1_r by lia.
    split; [apply Z.div_pos|apply Z.div_lt_upper_bound]; lia. }
  apply bind_Ok in H as ([p' f'] & Hbit & H). apply bind_Ok in H as (d' & Hd' & H).
  assert (multiple B d' (b + b)) as Hdd by exact (mult_add B d d d' b b Hd Hd Hd').
  assert (multiple B p' (a + b * (if negb (Z.land n 1 =? 0) then 1 else 0))) as Hp'.
  { destruct (negb (Z.land n 1 =? 0)).
    - simp_res. rewrite Z.mul_1_r. simplify_eq. by apply (mult_add B p d).
    - destruct safe; simp_res; simplify_eq; by rewrite Z.mul_0_r, Z.add_0_r. }
  eapply mult_eq; [|exact (IH p' f' d' _ _ _ Hp' Hdd ltac:(eassumption) H)]. ring.
Qed.

(** The table of multiples: window by window. *)
Lemma precompute_window_spec B k p b pts b' pts' c j :
  multiple B p c → multiple B b (j * c) → precompute_window k p b pts = Ok (b', pts') →
  multiple B b' ((j + Z.of_nat k) * c)
  ∧ ∃ es, pts' = pts ++ es ∧ length es = k
    ∧ ∀ i e, es !! i = Some e → multiple B e ((j + 1 + Z.of_nat i) * c).
Proof.
  revert b pts j. induction k as [|k IH]; intros b pts j Hp Hb H; cbn [precompute_window] in H.
  { simp_res. simplify_eq. rewrite Z.add_0_r. split; [done|]. exists []. by rewrite app_nil_r. }
  apply bind_Ok in H as (b1 & Hadd & H).
  assert (multiple B b1 ((j + 1) * c)) as Hb1
    by (eapply mult_eq; [|exact (mult_add B b p b1 _ _ Hb Hp Hadd)]; ring).
  destruct (IH b1 (pts ++ [b1]) (j + 1) Hp Hb1 H) as (Hlast & es & -> & Hl & Hes).
  split; [eapply mult_eq; [|done]; lia|]. exists (b1 :: es).
  split_and!; [by rewrite <-app_assoc|simpl; lia|]. intros [|i] e He; simplify_eq/=.
  - eapply mult_eq; [|done]. lia.
  - eapply mult_eq; [|by eapply Hes]. lia.
Qed.

(** Entry [128·w + j] of the table is [(j + 1)·256^w] times its base. *)
Lemma precompute_loop_spec B windows p pts pts' c :
  multiple B p c → precompute_loop windows p pts = Ok pts' →
  ∃ es, pts' = pts ++ es ∧ length es = (windows * pwindowSize)%nat
    ∧ ∀ w j e, (j < pwindowSize)%nat → es !! (w * pwindowSize + j)%nat = Some e →
        multiple B e (256 ^ Z.of_nat w * (Z.of_nat j + 1) * c).
Proof.
  revert p pts c. induction windows as [|windows IH]; intros p pts c Hp H; cbn [precompute_loop] in H.
  { simp_res. exists []. split_and!; [by rewrite app_nil_r|done|done]. }
  apply bind_Ok in H as ([b pts1] & Hw & H). apply bind_Ok in H as (p1 & Hd & H).
  destruct (precompute_window_spec B _ _ _ _ _ _ c 1 Hp ltac:(by rewrite Z.mul_1_l) Hw)
    as (Hb & ws & -> & Hwl & Hws).
  assert (multiple B p1 (256 * c)) as Hp1.
  { eapply mult_eq; [|exact (mult_add B b b p1 _ _ Hb Hb Hd)]. unfold pwindowSize. lia. }
  destruct (IH _ _ _ Hp1 H) as (es & -> & Hel & Hes).
  exists (p :: ws ++ es). rewrite <-!app_assoc. split_and!; [done| |].
  - cbn [length]. rewrite length_app, Hwl, Hel. unfold pwindowSize. lia.
  - intros [|w] j e Hj He.
    + cbn [Nat.mul Nat.add] in He. destruct j as [|j].
      { injection He as <-. eapply mult_eq; [|done]. lia. }
      change ((ws ++ es) !! j = Some e) in He.
      rewrite lookup_app_l in He by (rewrite Hwl; unfold pwindowSize in *; lia).
      eapply mult_eq; [|by eapply Hws]. lia.
    + replace (S w * pwindowSize + j)%nat with (S (length ws + (w * pwindowSize + j))) in He
        by (rewrite Hwl; unfold pwindowSize; lia).
      change ((ws ++ es) !! (length ws + (w * pwindowSize + j))%nat = Some e) in He.
      rewrite lookup_app_r in He by lia.
      replace (length ws + (w * pwindowSize + j) - length ws)%nat with (w * pwindowSize + j)%nat in He by lia.
      eapply mult_eq; [|by eapply Hes]. rewrite Nat2Z.inj_succ, Z.pow_succ_r by lia. ring.
Qed.

Lemma precompute_spec comp :
  precompute tt = Ok comp →
  length comp = (pwindows * pwindowSize)%nat
  ∧ ∀ w j e, (j < pwindowSize)%nat → comp !! (w * pwindowSize + j)%nat = Some e →
      multiple G e (256 ^ Z.of_nat w * (Z.of_nat j + 1)).
Proof.
  intros H. unfold precompute in H.
  destruct (precompute_loop_spec G pwindows G [] comp 1 (mult_base G) H) as (es & -> & Hl & Hes).
  split; [exact Hl|]. intros w j e Hj He. eapply mult_eq; [|exact (Hes w j e Hj He)]. ring.
Qed.

(** The table is never evaluated in a proof. *)
#[global] Opaque precompute.

Lemma entry_Ok comp i e : entry comp i = Ok e ↔ 0 ≤ i ∧ comp !! Z.to_nat i = Some e.
Proof.
  unfold entry. destruct (Z.leb_spec 0 i); [|split; [done|lia]].
  destruct (comp !! Z.to_nat i); naive_solver.
Qed.

Lemma ctneg_multiple B cnd p r a :
  multiple B p a → ctneg cnd p = Ok r → multiple B r (if cnd then - a else a).
Proof.
  intros Hp H. unfold ctneg in H. simp_res. destruct cnd; [|done]. by apply (mult_neg B p).
Qed.

(** A window: the digit taken and the carry. *)
Definition wnaf_digit (n : Z) : Z :=
  let d := n mod 256 in if 128 <? d then d - 256 else d.
Definition wnaf_rest (n : Z) : Z := n / 256 + (if 128 <? n mod 256 then 1 else 0).

Lemma wnaf_split n : n = wnaf_digit n + 256 * wnaf_rest n.
Proof.
  unfold wnaf_digit, wnaf_rest. pose proof (Z.div_mod n 256 ltac:(lia)). case_match; lia.
Qed.

Lemma wnaf_digit_range n : -128 < wnaf_digit n ≤ 128.
Proof. unfold wnaf_digit. pose proof (Z.mod_pos_bound n 256 ltac:(lia)). case_match; simp_bool; lia. Qed.

(** A step adds its digit times the weight of the window. *)
Lemma wNAF_step_spec comp w p f n a st :
  precompute tt = Ok comp → 0 ≤ n → multiple G p a → wNAF_step comp w (p, f, n) = Ok st →
  ∃ p' f', st = (p', f', wnaf_rest n) ∧ multiple G p' (a + wnaf_digit n * 256 ^ Z.of_nat w).
Proof.
  intros Hc Hn Hp H. unfold wNAF_step in H.
  assert (Z.land n 255 = n mod 256) as El by (change 255 with (Z.ones 8); by rewrite Z.land_ones).
  assert (Z.shiftr n W = n / 256) as Es by (unfold W; rewrite Z.shiftr_div_pow2 by lia; done).
  assert ((if Z.of_nat pwindowSize <? Z.land n 255 then (Z.land n 255 - 256, Z.shiftr n W + 1)
    else (Z.land n 255, Z.shiftr n W)) = (wnaf_digit n, wnaf_rest n)) as E.
  { rewrite El, Es. unfold wnaf_digit, wnaf_rest. change (Z.of_nat pwindowSize) with 128.
    destruct (128 <? n mod 256); [done|by rewrite Z.add_0_r]. }
  rewrite E in H. pose proof (wnaf_digit_range n) as Hd. destruct (Z.eqb_spec (wnaf_digit n) 0) as [E0|].
  - simp_res. exists p, x1. split; [done|]. rewrite E0, Z.mul_0_l, Z.add_0_r. done.
  - simp_res. exists x1, f. split; [done|].
    apply entry_Ok in H as [_ He]. destruct (precompute_spec comp Hc) as [_ Hes].
    assert (multiple G x (256 ^ Z.of_nat w * Z.abs (wnaf_digit n))) as Hx.
    { eapply mult_eq; [|apply (Hes w (Z.to_nat (Z.abs (wnaf_digit n) - 1)) x)].
      - rewrite Z2Nat.id by lia. lia.
      - unfold pwindowSize. lia.
      - rewrite <-He. f_equal. unfold pwindowSize. lia. }
    apply (ctneg_multiple G _ _ _ _ Hx) in H0.
    eapply mult_eq; [|by apply (mult_add G p x0 x1 a _ Hp H0)].
    destruct (Z.ltb_spec (wnaf_digit n) 0); lia.
Qed.

(** The remaining scalar fits the remaining windows, carry included. *)
Lemma wnaf_rest_range n k : 0 ≤ k → 0 ≤ n ≤ 256 ^ (k + 1) → 0 ≤ wnaf_rest n ≤ 256 ^ k.
Proof.
  intros Hk Hn. unfold wnaf_rest. rewrite Z.pow_add_r, Z.pow_1_r in Hn by lia.
  assert (0 ≤ n / 256) by (apply Z.div_pos; lia).
  pose proof (Z.div_mod n 256 ltac:(lia)). pose proof (Z.mod_pos_bound n 256 ltac:(lia)).
  case_match; simp_bool; nia.
Qed.

Lemma wNAF_loop_spec comp k w p f n a p' f' n' :
  precompute tt = Ok comp → 0 ≤ n → multiple G p a →
  (0 < k)%nat → n ≤ 256 ^ (Z.of_nat k - 1) →
  foldR (λ st w, wNAF_step comp w st) (p, f, n) (seq w k) = Ok (p', f', n') →
  multiple G p' (a + n * 256 ^ Z.of_nat w).
Proof.
  intros Hc. revert w p f n a. induction k as [|k IH]; intros w p f n a Hn Hp Hk Hb H; [lia|].
  cbn [seq foldR] in H. apply bind_Ok in H as (st & Hs & H).
  destruct (wNAF_step_spec comp w p f n a st Hc Hn Hp Hs) as (p1 & f1 & -> & Hp1).
  rewrite Nat2Z.inj_succ in Hb. destruct k as [|k].
  - cbn [seq foldR] in H. apply Ok_inj in H. injection H as <- _ _.
    assert (wnaf_digit n = n) as <-; [|done]. assert (n = 0 ∨ n = 1) as [->| ->] by (simpl in Hb; lia); done.
  - assert (0 ≤ wnaf_rest n ≤ 256 ^ Z.of_nat k) as Hr.
    { apply wnaf_rest_range; [lia|]. split; [done|]. rewrite Nat2Z.inj_succ in Hb.
      by replace (Z.of_nat k + 1) with (Z.succ (Z.succ (Z.of_nat k)) - 1) by lia. }
    apply (IH (S w) p1 f1 (wnaf_rest n) _ (proj1 Hr) Hp1 ltac:(lia)) in H.
    + eapply mult_eq; [|exact H]. rewrite Nat2Z.inj_succ, Z.pow_succ_r by lia.
      rewrite (wnaf_split n) at 3. ring.
    + rewrite Nat2Z.inj_succ. replace (Z.succ (Z.of_nat k) - 1) with (Z.of_nat k) by lia. exact (proj2 Hr).
Qed.

Lemma wNAF_spec n p f : 0 ≤ n < 2 ^ 256 → wNAF n = Ok (p, f) → multiple G p n.
Proof.
  intros Hn H. unfold wNAF in H. apply bind_Ok in H as (comp & Hc & H).
  apply bind_Ok in H as ([[p' f'] n'] & H & E). apply Ok_inj in E. injection E as -> ->.
  eapply mult_eq; [|apply (wNAF_loop_spec comp pwindows 0 I_ G n 0 p f n' Hc); [lia|constructor| | |exact H]].
  - rewrite Z.mul_1_r. lia.
  - unfold pwindows. lia.
  - change (256 ^ (Z.of_nat pwindows - 1)) with (2 ^ 256). lia.
Qed.

Lemma N_lt : N_ < 2 ^ 256.
Proof. done. Qed.

(** [multiply] gives the multiple it is asked for; of the base point, from the
    table, for any representation of it. *)
Lemma multiply_spec this n safe r :
  multiply this n safe = Ok r →
  0 ≤ n < N_ ∧ (multiple this r n ∨ (equals this G = true ∧ multiple G r n)).
Proof.
  intros H. unfold multiply in H. pose proof N_lt.
  destruct (Z.eqb_spec n 0) as [->|Hn0]; [destruct safe|].
  - apply bind_Ok in H as (x & [_ ?]%arange_Ok & _). lia.
  - apply Ok_inj in H as <-. split; [done|]. left. constructor.
  - rewrite andb_false_r in H. apply bind_Ok in H as (x & [-> Hn]%arange_Ok & H). split; [lia|].
    destruct (Z.eqb_spec n 1) as [->|]; [apply Ok_inj in H as <-; left; constructor|].
    destruct (equals this G) eqn:Eg.
    + right. split; [done|]. apply bind_Ok in H as ([p f] & H & E). apply Ok_inj in E as <-.
      eapply wNAF_spec; [|exact H]. lia.
    + left. eapply mult_eq; [|eapply (multiply_loop_multiple this _ _ _ _ _ n 0 1); [constructor..| |exact H]].
      * lia.
      * change (2 ^ Z.of_nat 256) with (2 ^ 256). lia.
Qed.

Lemma multiply_G n r : multiply G n true = Ok r → 1 ≤ n < N_ ∧ multiple G r n.
Proof.
  intros H. assert (Hr := H). apply multiply_spec in H as [Hn [H|[_ H]]]; (split; [|exact H]).
  all: unfold multiply in Hr; cbn [negb andb] in Hr;
    apply bind_Ok in Hr as (x & [_ ?]%arange_Ok & _); lia.
Qed.

(** ** Encodings *)

Lemma equals_I p : 0 ≤ pz p < P → equals p I_ = (pz p =? 0).
Proof.
  intros Hz. unfold equals. cbn [I_ px py pz]. rewrite !Z.mul_0_r, !Z.mul_0_l, !Z.mul_1_l.
  rewrite !M_mod by done. rewrite Z.mod_0_l, Z.mod_small by done. rewrite Z.eqb_refl. apply Z.eqb_sym.
Qed.

(** Equation of the curve, affine, as the code tests it. *)
Definition on_curve_xy (x y : Z) : Prop := (y * y) mod P = (x * x * x + 7) mod P.

Lemma toAffine_one x y : toAffine (mkPoint x y 1) = Ok (x, y).
Proof. unfold toAffine. by rewrite equals_I. Qed.

(** What [assertValidity] lets through. *)
Lemma assertValidity_Ok p q :
  assertValidity p = Ok q ↔
  q = p ∧ ∃ x y, toAffine p = Ok (x, y) ∧ 1 ≤ x < P ∧ 1 ≤ y < P ∧ on_curve_xy x y.
Proof.
  unfold assertValidity, on_curve_xy. split.
  - intros H. apply bind_Ok in H as ([x y] & Ha & H).
    apply bind_Ok in H as (? & [-> Hx]%arange_Ok & H). apply bind_Ok in H as (? & [-> Hy]%arange_Ok & H).
    rewrite koblitz_mod, M_mod in H by done. destruct (Z.eqb_spec ((y * y) mod P) ((x * x * x + 7) mod P)); [|discriminate H].
    apply Ok_inj in H as <-. split; [reflexivity|]. by exists x, y.
  - intros (-> & x & y & -> & Hx & Hy & Hc). cbn [mbind res_bind].
    assert (afield x = Ok x) as -> by (by apply arange_Ok).
    assert (afield y = Ok y) as -> by (by apply arange_Ok). cbn [mbind res_bind].
    by rewrite koblitz_mod, M_mod, Hc, Z.eqb_refl by done.
Qed.

Lemma isEven_even y : isEven y = Z.even y.
Proof.
  unfold isEven. assert (Z.land y 1 = y mod 2) as -> by (change 1 with (Z.ones 1); by rewrite Z.land_ones).
  rewrite Zmod_even. by destruct (Z.even y).
Qed.

Lemma neg_mod_P y : 1 ≤ y < P → M (- y) P = P - y.
Proof.
  intros Hy. rewrite M_mod by done. symmetry. apply Z.mod_unique_pos with (-1); lia.
Qed.

(** Choosing the root of the parity of the prefix keeps the square. *)
Lemma choose_root r h :
  0 ≤ r < P → 1 ≤ (if Bool.eqb h (isEven r) then r else M (- r) P) →
  let y := if Bool.eqb h (isEven r) then r else M (- r) P in
  isEven y = h ∧ (y * y) mod P = (r * r) mod P.
Proof.
  intros Hr Hy. destruct (Bool.eqb h (isEven r)) eqn:E; cbv zeta.
  - by apply Bool.eqb_prop in E as ->.
  - assert (1 ≤ r < P) as Hr1.
    { split; [|lia]. destruct (Z.eq_dec r 0) as [->|]; [|lia]. rewrite M_mod in Hy by done. by vm_compute in Hy. }
    rewrite neg_mod_P by done. split.
    + rewrite isEven_even, Z.even_sub. change (Z.even P) with false. rewrite isEven_even in E.
      by destruct h, (Z.even r).
    + replace ((P - r) * (P - r)) with (r * r + (P - 2 * r) * P) by ring. apply Z_mod_plus_full.
Qed.

Lemma getPrefix_eq y : getPrefix y = [if isEven y then 2 else 3].
Proof. unfold getPrefix. by destruct (isEven y). Qed.

(** Splitting an encoding. *)
Lemma bytes_head bs : (0 < length bs)%nat → bs = at_ bs 0 :: drop 1 bs.
Proof. by destruct bs as [|b bs]; [simpl; lia|]. Qed.

Lemma slice_num bs i n :
  is_bytes bs → 0 ≤ i → i + Z.of_nat n ≤ zlen bs →
  be_bytes n (sliceBytesNumBE bs i (i + Z.of_nat n)) = slice bs i (i + Z.of_nat n).
Proof.
  intros Hb Hi Hl. unfold sliceBytesNumBE. rewrite bytesToNumBE_spec by auto with bytes.
  assert (length (slice bs i (i + Z.of_nat n)) = n) as E by (apply Nat2Z.inj; rewrite length_slice; lia).
  rewrite <-E at 1. apply be_bytes_be_num. auto with bytes.
Qed.

Lemma slice_all bs n : zlen bs = n → slice bs 0 n = bs.
Proof. intros <-. unfold slice. rewrite Z.sub_0_r, Nat2Z.id. cbn. apply firstn_all. Qed.

Lemma valid_one x y p :
  assertValidity (mkPoint x y 1) = Ok p ↔
  p = mkPoint x y 1 ∧ 1 ≤ x < P ∧ 1 ≤ y < P ∧ on_curve_xy x y.
Proof.
  rewrite assertValidity_Ok. split.
  - intros (-> & x' & y' & Ha & Hv). rewrite toAffine_one in Ha. apply Ok_inj in Ha. by injection Ha as -> ->.
  - intros (-> & Hv). split; [done|]. exists x, y. by rewrite toAffine_one.
Qed.

(** What the decoder accepts, and what it returns. *)
Lemma fromBytes_Ok bs p :
  is_bytes bs → fromBytes bs = Ok p →
  ∃ x y, p = mkPoint x y 1 ∧ 1 ≤ x < P ∧ 1 ≤ y < P ∧ on_curve_xy x y
    ∧ (bs = (if isEven y then 2 else 3) :: be_bytes 32 x
       ∨ bs = 4 :: be_bytes 32 x ++ be_bytes 32 y).
Proof.
  intros Hb H. unfold fromBytes in H. set (x := sliceBytesNumBE (drop 1 bs) 0 (Z.of_nat L)) in *.
  assert (is_bytes (drop 1 bs)) as Ht by auto with bytes.
  apply bind_Ok in H as (o1 & H1 & H). apply bind_Ok in H as (o2 & H2 & H).
  destruct (length bs =? L + 1)%nat eqn:E33; cbn [andb] in H1.
  - apply Nat.eqb_eq in E33. change (L + 1)%nat with 33%nat in E33.
    replace (length bs =? L2 + 1)%nat with false in H2 by (by rewrite E33).
    cbn [andb] in H2. apply Ok_inj in H2 as <-.
    destruct ((at_ bs 0 =? 2) || (at_ bs 0 =? 3)) eqn:Eh; [|apply Ok_inj in H1 as <-; discriminate H].
    apply bind_Ok in H1 as (r & Hr & H1). apply bind_Ok in H1 as (q & Hq & H1). apply Ok_inj in H1 as <-.
    apply Point_Ok in Hq as (-> & _ & Hy & _). apply valid_one in H as (-> & Hx & _ & Hc).
    destruct (choose_root r (isEven (at_ bs 0)) (lift_x_range x r Hr) (proj1 Hy)) as [Hpar _].
    eexists x, _. split_and!; [reflexivity|apply Hx|apply Hx|apply Hy|apply Hy|exact Hc|]. left. rewrite Hpar.
    rewrite (bytes_head bs) at 1 by lia. f_equal.
    + apply orb_true_iff in Eh as [->%Z.eqb_eq| ->%Z.eqb_eq]; reflexivity.
    + unfold x. pose proof (slice_num (drop 1 bs) 0 32 Ht ltac:(lia) ltac:(rewrite length_drop; lia)) as E.
      rewrite Z.add_0_l in E. change (Z.of_nat L) with (Z.of_nat 32). rewrite E.
      symmetry. apply slice_all. rewrite length_drop. lia.
  - apply Ok_inj in H1 as <-. destruct (length bs =? L2 + 1)%nat eqn:E65; cbn [andb] in H2;
      [|apply Ok_inj in H2 as <-; discriminate H].
    apply Nat.eqb_eq in E65. change (L2 + 1)%nat with 65%nat in E65.
    destruct (Z.eqb_spec (at_ bs 0) 4) as [Eh|]; [|apply Ok_inj in H2 as <-; discriminate H].
    apply bind_Ok in H2 as (q & Hq & H2). apply Ok_inj in H2 as <-.
    apply Point_Ok in Hq as (-> & _ & Hy & _). apply valid_one in H as (-> & Hx & _ & Hc).
    eexists x, _. split_and!; [reflexivity|apply Hx|apply Hx|apply Hy|apply Hy|exact Hc|]. right.
    rewrite (bytes_head bs) at 1 by lia. rewrite Eh. f_equal. unfold x.
    assert (zlen (drop 1 bs) = 64) as Hl by (rewrite length_drop; lia).
    pose proof (slice_num (drop 1 bs) 0 32 Ht ltac:(lia) ltac:(lia)) as E1.
    pose proof (slice_num (drop 1 bs) 32 32 Ht ltac:(lia) ltac:(lia)) as E2.
    rewrite Z.add_0_l in E1. change (Z.of_nat L) with (Z.of_nat 32).
    change (Z.of_nat L2) with (32 + Z.of_nat 32). rewrite E1.
    change (Z.of_nat 32) with 32 in *. rewrite E2, <-slice_split by lia.
    symmetry. apply slice_all. lia.
Qed.

(** Writing an affine point of the curve. *)
Lemma toBytes_one x y c :
  1 ≤ x < P → 1 ≤ y < P → on_curve_xy x y →
  toBytes (mkPoint x y 1) c
  = Ok (if c then (if isEven y then 2 else 3) :: be_bytes 32 x
        else 4 :: be_bytes 32 x ++ be_bytes 32 y).
Proof.
  intros Hx Hy Hc. assert (P < 2 ^ 256) by done. unfold toBytes.
  assert (assertValidity (mkPoint x y 1) = Ok (mkPoint x y 1)) as -> by (by apply valid_one).
  cbn [mbind res_bind]. rewrite toAffine_one. cbn [mbind res_bind].
  assert (numTo32b x = Ok (be_bytes 32 x)) as -> by (apply numTo32b_spec; split; [lia|done]).
  assert (numTo32b y = Ok (be_bytes 32 y)) as -> by (apply numTo32b_spec; split; [lia|done]).
  cbn [mbind res_bind]. rewrite !concatBytes_join, getPrefix_eq. cbn [mjoin list_join].
  rewrite !app_nil_r. by destruct c.
Qed.

(** ** Properties *)

(** C20 The complete formula is the group law of the curve: a sum of points of
    the curve is on the curve; for points with affine coordinates it is the
    reflected third point of the chord through them, or of the tangent when
    they coincide; adding infinity changes nothing, and opposite points add up
    to infinity. *)
Theorem add_group_law p q r :
  add p q = Ok r →
  (on_curve p → on_curve q → on_curve r)
  ∧ (∀ x1 y1 x2 y2 l i, affine p x1 y1 → affine q x2 y2 → on_curve2 x1 y1 → on_curve2 x2 y2 →
       cong ((x2 - x1) * i) 1 → cong (l * (x2 - x1)) (y2 - y1) →
       affine r (line_x l x1 x2) (line_y l x1 x2 y1))
  ∧ (∀ x y l i, affine p x y → affine q x y → on_curve2 x y →
       cong ((2 * y) * i) 1 → cong (l * (2 * y)) (3 * x * x) →
       affine r (line_x l x x) (line_y l x x y))
  ∧ (∀ x y, q = I_ → affine p x y → affine r x y)
  ∧ (∀ x y, affine p x y → affine q x (- y) → cong (pz r) 0).
Proof.
  intros H. split_and!.
  - intros Hp Hq. exact (add_on_curve p q r Hp Hq H).
  - intros x1 y1 x2 y2 l i Hp Hq H1 H2 Hi Hl. exact (add_chord p q r x1 y1 x2 y2 l i Hp Hq H1 H2 Hi Hl H).
  - intros x y l i Hp Hq Hc Hi Hl. exact (add_tangent p q r x y l i Hp Hq Hc Hi Hl H).
  - intros x y -> Hp. exact (add_infinity p r x y Hp H).
  - intros x y Hp Hq. exact (add_opposite p q r x y Hp Hq H).
Qed.

Lemma sample_add : is_ok (add G I_) = true.
Proof. by vm_compute. Qed.

Lemma add_group_law_witness : ∃ r, add G I_ = Ok r ∧ on_curve r ∧ affine r Gx Gy.
Proof.
  pose proof sample_add as Hok. destruct (add G I_) as [r|e] eqn:E; [|discriminate Hok].
  destruct (add_group_law G I_ r E) as (Hc & _ & _ & Hi & _).
  exists r. split_and!; [reflexivity| |].
  - apply Hc; [exact G_on_curve|]. apply eq_cong. by vm_compute.
  - apply Hi; [reflexivity|]. split; apply eq_cong; by rewrite Z.mul_1_r.
Defined.

(** C21 Scalar multiplication computes the multiple it is asked for: the result
    is reached from the point by additions and negations that add up to the
    scalar, along double-and-add or, for the base point, along the signed
    windows of the table; so it is on the curve when the point is. *)
Theorem multiply_computes_multiple this n safe r :
  multiply this n safe = Ok r →
  0 ≤ n < N_ ∧ (multiple this r n ∨ (equals this G = true ∧ multiple G r n))
  ∧ (on_curve this → on_curve r).
Proof.
  intros H. apply multiply_spec in H as [Hn Hm]. split_and!; [apply Hn|apply Hn|exact Hm|].
  intros Hc. destruct Hm as [Hm|[_ Hm]].
  - exact (multiple_on_curve _ _ _ Hc Hm).
  - exact (multiple_on_curve _ _ _ G_on_curve Hm).
Qed.

(** Twice the opposite of the base point. *)
Lemma sample_multiply : is_ok (multiply (mkPoint Gx (P - Gy) 1) 2 false) = true.
Proof. by vm_compute. Qed.

Lemma multiply_computes_multiple_witness :
  ∃ r, multiply (mkPoint Gx (P - Gy) 1) 2 false = Ok r ∧ on_curve r.
Proof.
  pose proof sample_multiply as Hok.
  destruct (multiply (mkPoint Gx (P - Gy) 1) 2 false) as [r|e] eqn:E; [|discriminate Hok].
  destruct (multiply_computes_multiple _ _ _ _ E) as (_ & _ & Hc).
  exists r. split; [reflexivity|]. apply Hc. apply Z.mod_divide; [done|]. by vm_compute.
Defined.

(** Decoding a public key accepts only points of the curve, with coordinates
    in the field, and is exact: encoding the point in the form it came in
    (33 bytes for a prefix and [x], 65 for both coordinates) gives back the
    same bytes, so no two encodings of a form decode alike. *)
Theorem fromBytes_sound bs p :
  is_bytes bs → fromBytes bs = Ok p →
  ∃ x y, p = mkPoint x y 1 ∧ 1 ≤ x < P ∧ 1 ≤ y < P ∧ (y * y) mod P = (x * x * x + 7) mod P
    ∧ toBytes p (length bs =? 33)%nat = Ok bs.
Proof.
  intros Hb H. apply fromBytes_Ok in H as (x & y & -> & Hx & Hy & Hc & Hbs); [|done].
  exists x, y. split_and!; [reflexivity|apply Hx|apply Hx|apply Hy|apply Hy|exact Hc|].
  rewrite toBytes_one by done. destruct Hbs as [-> | ->].
  - cbn [length]. by rewrite length_be_bytes.
  - cbn [length]. by rewrite length_app, !length_be_bytes.
Qed.

Lemma fromBytes_sound_witness :
  toBytes G false = Ok (4 :: be_bytes 32 Gx ++ be_bytes 32 Gy).
Proof.
  destruct (fromBytes_sound (4 :: be_bytes 32 Gx ++ be_bytes 32 Gy) G) as (x & y & _ & _ & _ & _ & H).
  - apply (bool_decide_unpack (is_bytes _)). by vm_compute.
  - by vm_compute.
  - exact H.
Defined.
