(* ===== verification/NobleSign.v ===== *)
(** * NobleSign: [contrib/uap-js/noble-secp256k1.js], signatures

    ECDSA over the curve of [NoblePoint]: signature values, the deterministic
    nonce of RFC 6979 ([hmacDrbg]), [sign], [verify] and public-key recovery.
    The random source of the platform and the injected HMAC are arguments.
    The theorems: [sign] returns the signature of the first of the RFC 6979
    candidates that gives one; a signature satisfies the ECDSA equation for its
    nonce and is in the lower half. *)

From stdpp Require Import base tactics option list numbers strings.
From Stdlib Require Import ZArith Lia.
From S2P Require Import Prelude JsInt JsStr Words Sha256 Script NobleField NoblePoint.

(** ** Signatures *)

Definition highS (n : Z) : bool := Z.shiftr N_ 1 <? n.

Record signature := mkSignature { sig_r : Z; sig_s : Z; sig_recovery : option Z }.

Definition Signature (r s : Z) (recovery : option Z) : res signature :=
  r ← agroup r;
  s ← agroup s;
  Ok (mkSignature r s recovery).

Definition sig_fromBytes (b : bytes) : res signature :=
  b ← abytes b (Some L2);
  let r := sliceBytesNumBE b 0 (Z.of_nat L) in
  let s := sliceBytesNumBE b (Z.of_nat L) (Z.of_nat L2) in
  Signature r s None.

Definition sig_toBytes (sig : signature) : res bytes :=
  r ← numTo32b (sig_r sig);
  s ← numTo32b (sig_s sig);
  Ok (concatBytes [r; s]).

Definition addRecoveryBit (sig : signature) (bit : Z) : res signature :=
  Signature (sig_r sig) (sig_s sig) (Some bit).

Definition hasHighS (sig : signature) : bool := highS (sig_s sig).

Definition toCompactHex (sig : signature) : res string :=
  b ← sig_toBytes sig; Ok (n_bytesToHex b).

Definition fromCompact (hex : string + bytes) : res signature :=
  b ← toU8 hex (Some L2); sig_fromBytes b.

Definition normalizeS (sig : signature) : res signature :=
  if highS (sig_s sig) then Signature (sig_r sig) (modN (- sig_s sig)) (sig_recovery sig)
  else Ok sig.

(** ** Messages as integers *)

Definition bits2int (bs : bytes) : res Z :=
  let delta := zlen bs * 8 - 256 in
  _ ← throw_if (1024 <? delta) "msg invalid";
  let num := bytesToNumBE bs in
  Ok (if 0 <? delta then Z.shiftr num delta else num).

Definition bits2int_modN (bs : bytes) : res Z := n ← bits2int bs; Ok (modN n).

(** ** Signing *)

(** [extraEntropy]: absent, [true], or bytes. *)
Inductive entropy :=
  | NoEntropy
  | RandomEntropy
  | Entropy (a : string + bytes).

Record sign_opts := SignOpts {
  so_legacy : bool;         (* one of der, recovered, canonical is present *)
  so_lowS : option bool;
  so_extraEntropy : entropy
}.

(** [k2sig]: a signature from a nonce, or nothing. *)
Definition k2sig (m d : Z) (lowS : bool) (kBytes : bytes) : res (option signature) :=
  k ← bits2int kBytes;
  if negb ((1 <=? k) && (k <? N_)) then Ok None
  else
    p ← multiply G k true;
    '(qx, qy) ← toAffine p;
    let r := modN qx in
    if r =? 0 then Ok None
    else
      ik ← invert k N_;
      let s := modN (ik * modN (m + modN (d * r))) in
      if s =? 0 then Ok None
      else
        let recovery := js_or (if qx =? r then 0 else 2) (Z.land qy 1) in
        let '(normS, recovery) :=
          if lowS && highS s then (modN (- s), js_xor recovery 1) else (s, recovery) in
        sig ← Signature r normS (Some recovery);
        Ok (Some sig).

Section platform.
(** [crypto.getRandomValues] of a fresh array. *)
Context (randomBytes : nat → bytes).

Record prepared := Prepared { seed : bytes; prep_m : Z; prep_d : Z; prep_lowS : bool }.

Definition prepSig (msgh : string + bytes) (priv : priv) (opts : sign_opts) : res prepared :=
  _ ← throw_if (so_legacy opts) "option not supported";
  let lowS := default true (so_lowS opts) in
  msg ← toU8 msgh None;
  h1i ← bits2int_modN msg;
  h1o ← numTo32b h1i;
  d ← toPrivScalar priv;
  d32 ← numTo32b d;
  extra ← match so_extraEntropy opts with
          | NoEntropy => Ok []
          | RandomEntropy => Ok [randomBytes L]
          | Entropy a => e ← toU8 a None; Ok [e]
          end;
  Ok (Prepared (concatBytes ([d32; h1o] ++ extra)) h1i d lowS).

Section drbg.
(** [hmac(key, ...messages)]. *)
Context (h : bytes → list bytes → res bytes).

(** HMAC-DRBG reseed, steps d to g: the new [k] and [v]. *)
Definition reseed (k v seed : bytes) : res (bytes * bytes) :=
  k ← h k [v; u8of [0x00]; seed];
  v ← h k [v];
  if (length seed =? 0)%nat then Ok (k, v)
  else
    k ← h k [v; u8of [0x01]; seed];
    v ← h k [v];
    Ok (k, v).

(** [while (!(res = pred(gen()))) reseed();] with [tries] values left. *)
Fixpoint drbg_loop {A} (tries : nat) (k v : bytes) (pred : bytes → res (option A)) : res A :=
  match tries with
  | O => Throw "drbg: tried 1000 values"
  | S tries =>
      v ← h k [v];
      r ← pred v;
      match r with
      | Some a => Ok a
      | None => '(k, v) ← reseed k v []; drbg_loop tries k v pred
      end
  end.

Definition hmacDrbg {A} (seed : bytes) (pred : bytes → res (option A)) : res A :=
  '(k, v) ← reseed (replicate L 0) (replicate L 1) seed;
  drbg_loop 1000 k v pred.
End drbg.

(** [callHash('hmacSha256Sync')]: the hook [configureSecp] fills. *)
Definition callHash (hmacSha256Sync : option (bytes → list bytes → bytes)) (key : bytes)
    (msgs : list bytes) : res bytes :=
  match hmacSha256Sync with
  | Some fn => Ok (fn key msgs)
  | None => Throw "hashes.hmacSha256Sync not set"
  end.

Definition sign (hmacSha256Sync : option (bytes → list bytes → bytes)) (msgh : string + bytes)
    (priv : priv) (opts : sign_opts) : res signature :=
  p ← prepSig msgh priv opts;
  hmacDrbg (callHash hmacSha256Sync) (seed p) (k2sig (prep_m p) (prep_d p) (prep_lowS p)).

(** [signAsync]: the same steps over the asynchronous HMAC of the platform. *)
Definition signAsync (hmacSha256Async : bytes → list bytes → res bytes) (msgh : string + bytes)
    (priv : priv) (opts : sign_opts) : res signature :=
  p ← prepSig msgh priv opts;
  hmacDrbg hmacSha256Async (seed p) (k2sig (prep_m p) (prep_d p) (prep_lowS p)).

Definition hashToPrivateKey (hash : string + bytes) : res bytes :=
  hash ← toU8 hash None;
  _ ← throw_if ((length hash <? L + 8)%nat || (1024 <? zlen hash)) "expected 40-1024b";
  let num := M (bytesToNumBE hash) (N_ - 1) in
  numTo32b (num + 1).

Definition randomPrivateKey (_ : unit) : res bytes := hashToPrivateKey (inr (randomBytes (L + 16))).
End platform.

Definition isValidPrivateKey (key : priv) : bool :=
  match toPrivScalar key with Ok n => negb (n =? 0) | Throw _ => false end.

(** ** Verification *)

(** A signature argument: an object with [r] and [s], or 64 bytes. *)
Inductive sig_arg :=
  | SigRS (r s : Z)
  | SigU8 (a : string + bytes).

Definition verify_body (sig : sig_arg) (msgh pub : string + bytes) (lowS : bool) : res bool :=
  sigg ← match sig with SigRS r s => Signature r s None | SigU8 a => fromCompact a end;
  msg ← toU8 msgh None;
  h ← bits2int_modN msg;
  pk ← toU8 pub None;
  Q ← fromBytes pk;
  let r := sig_r sigg in
  let s := sig_s sigg in
  if lowS && highS s then Ok false
  else
    is_ ← invert s N_;
    let u1 := modN (h * is_) in
    let u2 := modN (r * is_) in
    p ← doubleScalarMulUns Q u1 u2;
    '(x, _) ← toAffine p;
    let v := modN x in
    Ok (v =? r).

Definition verify (sig : sig_arg) (msgh pub : string + bytes) (lowS : option bool) (strict : bool) : res bool :=
  let lowS := default true lowS in
  _ ← throw_if strict "option not supported";
  _ ← match sig with
      | SigRS _ _ => Ok tt
      | SigU8 a => b ← toU8 a None; throw_if (negb (length b =? L2)%nat) "signature must be 64 bytes"
      end;
  try_catch (verify_body sig msgh pub lowS) (λ _, Ok false).

Definition recoverPublicKey (sig : signature) (msgh : string + bytes) : res point :=
  let r := sig_r sig in
  let s := sig_s sig in
  recovery ← match sig_recovery sig with
             | Some rec => if (0 <=? rec) && (rec <=? 3) then Ok rec else Throw "recovery id invalid"
             | None => Throw "recovery id invalid"
             end;
  msg ← toU8 msgh (Some L);
  h ← bits2int_modN msg;
  let radj := if (recovery =? 2) || (recovery =? 3) then r + N_ else r in
  radj ← afield radj;
  let head := getPrefix recovery in
  r32 ← numTo32b radj;
  let Rb := concatBytes [head; r32] in
  R ← fromBytes Rb;
  ir ← invert radj N_;
  let u1 := modN (- h * ir) in
  let u2 := modN (s * ir) in
  doubleScalarMulUns R u1 u2.

(** ** RFC 6979

    Section 3.2, for a hash as long as the group order: [K] and [V] through
    steps b to g, and the candidates of step h. *)
Module RFC6979.
Section rfc.
Context (HMAC : bytes → bytes → bytes).

(** Steps d to g from [K] and [V]. *)
Definition update (input K V : bytes) : bytes * bytes :=
  let K := HMAC K (V ++ [0x00] ++ input) in
  let V := HMAC K V in
  let K := HMAC K (V ++ [0x01] ++ input) in
  let V := HMAC K V in
  (K, V).

(** Step h.3, when a candidate is not suitable. *)
Definition next (KT : bytes * bytes) : bytes * bytes :=
  let '(K, T) := KT in
  let K := HMAC K (T ++ [0x00]) in
  (K, HMAC K T).

(** [K] and the [n]-th candidate [T]. *)
Fixpoint state (input : bytes) (n : nat) : bytes * bytes :=
  match n with
  | O => let '(K, V) := update input (replicate 32 0) (replicate 32 1) in (K, HMAC K V)
  | S n => let '(K, V) := next (state input n) in (K, HMAC K V)
  end.

Definition candidate (input : bytes) (n : nat) : bytes := snd (state input n).

(** Step h: the result of the first suitable candidate among [tries] from the
    [n]-th on. *)
Fixpoint search {A} (input : bytes) (suitable : bytes → res (option A)) (n tries : nat) : res A :=
  match tries with
  | O => Throw "drbg: tried 1000 values"
  | S tries =>
      r ← suitable (candidate input n);
      match r with Some a => Ok a | None => search input suitable (S n) tries end
  end.
End rfc.
End RFC6979.

(** ** The candidates of the generator *)

Section candidates.
Context (fn : bytes → list bytes → bytes).
Let HMAC (key m : bytes) : bytes := fn key [m].
(** The HMAC of several parts is that of their concatenation. *)
Context (fn_join : ∀ key ms, fn key ms = fn key [mjoin ms]).

(** The loop runs through the candidates. *)
Lemma drbg_loop_search {A} input (pred : bytes → res (option A)) tries n k v :
  RFC6979.state HMAC input n = (k, fn k [v]) →
  drbg_loop (callHash (Some fn)) tries k v pred = RFC6979.search HMAC input pred n tries.
Proof.
  revert n k v. induction tries as [|tries IH]; intros n k v Hs; [done|]. cbn [drbg_loop RFC6979.search].
  cbn [callHash mbind res_bind]. change (fn k [v]) with (snd (k, fn k [v])). rewrite <-Hs.
  fold (RFC6979.candidate HMAC input n).
  destruct (pred (RFC6979.candidate HMAC input n)) as [[a|]|e]; [done| |done].
  cbn [reseed callHash mbind res_bind length Nat.eqb]. apply IH. cbn [RFC6979.state].
  unfold RFC6979.candidate. rewrite Hs. cbn [RFC6979.next snd]. unfold HMAC.
  rewrite (fn_join _ [_; _; _]). cbn [mjoin list_join]. rewrite !app_nil_r. done.
Qed.

Lemma hmacDrbg_search {A} input (pred : bytes → res (option A)) :
  input ≠ [] →
  hmacDrbg (callHash (Some fn)) input pred = RFC6979.search HMAC input pred 0 1000.
Proof.
  intros Hne. assert ((length input =? 0)%nat = false) as E by (by destruct input).
  unfold hmacDrbg, reseed. cbn [callHash mbind res_bind]. rewrite E.
  cbn [callHash mbind res_bind]. apply drbg_loop_search. cbn [RFC6979.state RFC6979.update].
  unfold HMAC. rewrite !(fn_join _ [_; _; _]). cbn [mjoin list_join]. rewrite !app_nil_r. done.
Qed.
End candidates.

(** The HMAC of the library joins its parts. *)
Lemma hmacSha256_join key ms : hmacSha256 key ms = hmacSha256 key [mjoin ms].
Proof.
  unfold hmacSha256. rewrite (concatBytes_join ms), (concatBytes_join [mjoin ms]).
  assert (mjoin [mjoin ms] = mjoin ms) as -> by (cbn [mjoin list_join]; apply app_nil_r). done.
Qed.

(** ** The ECDSA equation *)

Lemma agroup_Ok n x : agroup n = Ok x ↔ x = n ∧ 1 ≤ n < N_.
Proof. apply arange_Ok. Qed.

Lemma modN_mod a : modN a = a mod N_.
Proof. by apply M_mod. Qed.

Lemma Signature_Ok r s rec sig :
  Signature r s rec = Ok sig ↔ sig = mkSignature r s rec ∧ 1 ≤ r < N_ ∧ 1 ≤ s < N_.
Proof.
  unfold Signature. split.
  - intros (? & [-> Hr]%agroup_Ok & H)%bind_Ok. apply bind_Ok in H as (? & [-> Hs]%agroup_Ok & H).
    apply Ok_inj in H as <-. tauto.
  - intros (-> & Hr & Hs). assert (agroup r = Ok r) as -> by (by apply agroup_Ok).
    by assert (agroup s = Ok s) as -> by (by apply agroup_Ok).
Qed.

(** [s·k = m + d·r] when [s] is [k⁻¹(m + d·r)]. *)
Lemma s_equation k ik m d r :
  (k * ik) mod N_ = 1 mod N_ →
  (modN (ik * modN (m + modN (d * r))) * k) mod N_ = (m + d * r) mod N_.
Proof.
  intros Hi. rewrite !modN_mod. rewrite Zplus_mod_idemp_r, Zmult_mod_idemp_r, Zmult_mod_idemp_l.
  replace (ik * (m + d * r) * k) with ((k * ik) * (m + d * r)) by ring.
  rewrite <-Zmult_mod_idemp_l, Hi, Zmult_mod_idemp_l. f_equal. ring.
Qed.

Lemma neg_mod_N s : 1 ≤ s < N_ → modN (- s) = N_ - s.
Proof.
  intros Hs. rewrite modN_mod. symmetry. apply Z.mod_unique_pos with (-1); lia.
Qed.

Lemma highS_spec s : highS s = false → 2 * s ≤ N_.
Proof.
  unfold highS. rewrite Z.shiftr_div_pow2, Z.pow_1_r by lia. intros ?%Z.ltb_ge.
  pose proof (Z.mul_div_le N_ 2 ltac:(lia)). lia.
Qed.

Lemma highS_neg s : highS s = true → 2 * (N_ - s) ≤ N_.
Proof.
  unfold highS. rewrite Z.shiftr_div_pow2, Z.pow_1_r by lia. intros ?%Z.ltb_lt.
  pose proof (Z.div_mod N_ 2 ltac:(lia)). pose proof (Z.mod_pos_bound N_ 2 ltac:(lia)). lia.
Qed.

Lemma k2sig_spec m d lowS kBytes sig :
  k2sig m d lowS kBytes = Ok (Some sig) →
  ∃ k q x y, bits2int kBytes = Ok k ∧ 1 ≤ k < N_ ∧ multiple G q k ∧ toAffine q = Ok (x, y)
    ∧ sig_r sig = x mod N_ ∧ 1 ≤ sig_r sig < N_ ∧ 1 ≤ sig_s sig < N_
    ∧ (lowS = true → 2 * sig_s sig ≤ N_)
    ∧ ((sig_s sig * k) mod N_ = (m + d * sig_r sig) mod N_
       ∨ (sig_s sig * k) mod N_ = (- (m + d * sig_r sig)) mod N_).
Proof.
  intros H. unfold k2sig in H. apply bind_Ok in H as (k & Hk & H).
  destruct ((1 <=? k) && (k <? N_)) eqn:Er; [cbn [negb] in H|discriminate H].
  apply bind_Ok in H as (q & Hq & H). apply bind_Ok in H as ([x y] & Ha & H).
  destruct (modN x =? 0) eqn:E0; [discriminate H|]. apply bind_Ok in H as (ik & Hik & H).
  set (s := modN (ik * modN (m + modN (d * modN x)))) in *.
  destruct (s =? 0) eqn:Es0; [discriminate H|]. simp_bool.
  apply multiply_G in Hq as [_ Hq]. exists k, q, x, y.
  assert ((s * k) mod N_ = (m + d * modN x) mod N_) as Heq.
  { apply s_equation. pose proof (invert_spec k N_ N_pos ltac:(lia)) as Hinv. rewrite Hik in Hinv. apply Hinv. }
  assert (1 ≤ s < N_) as Hs.
  { assert (0 ≤ s < N_) by (unfold s; rewrite modN_mod; by apply Z.mod_pos_bound). lia. }
  destruct (lowS && highS s) eqn:Eh; apply bind_Ok in H as (sg & [-> [Hr Hs']]%Signature_Ok & H);
    apply Ok_inj in H; injection H as <-; cbn [sig_r sig_s] in *.
  - apply andb_true_iff in Eh as [_ Eh]. rewrite neg_mod_N in * by done.
    split_and!; try done; try lia; [apply modN_mod|intros _; by apply highS_neg|].
    right. replace ((N_ - s) * k) with (- (s * k) + k * N_) by ring. rewrite Z_mod_plus_full.
    rewrite <-(Z.sub_0_l (s * k)), <-(Z.sub_0_l (m + d * modN x)). by rewrite Zminus_mod, Heq, <-Zminus_mod.
  - split_and!; try done; try lia; first [apply modN_mod|by left|intros ->; by apply highS_spec].
Qed.

(** ** Preparation *)

Lemma toPrivScalar_bytes key :
  is_bytes key → length key = 32%nat → 1 ≤ be_num key < N_ →
  toPrivScalar (PrivU8 (inr key)) = Ok (be_num key).
Proof.
  intros Hb Hl Hn. unfold toPrivScalar, toU8, abytes. rewrite Hl. cbn [Nat.eqb L negb throw_if mbind res_bind].
  rewrite bytesToNumBE_spec by done. by apply arange_Ok.
Qed.

Lemma bits2int_modN_32 msg :
  is_bytes msg → length msg = 32%nat → bits2int_modN msg = Ok (be_num msg mod N_).
Proof.
  intros Hb Hl. unfold bits2int_modN, bits2int. rewrite Hl. change (Z.of_nat 32 * 8 - 256) with 0.
  cbn [Z.ltb Z.compare throw_if mbind res_bind]. by rewrite bytesToNumBE_spec, modN_mod.
Qed.

(** What is signed, for a 32-byte hash and a valid 32-byte key. *)
Lemma prepSig_32 rnd msg key lowS :
  is_bytes msg → length msg = 32%nat → is_bytes key → length key = 32%nat → 1 ≤ be_num key < N_ →
  prepSig rnd (inr msg) (PrivU8 (inr key)) (SignOpts false lowS NoEntropy)
  = Ok (Prepared (be_bytes 32 (be_num key) ++ be_bytes 32 (be_num msg mod N_))
          (be_num msg mod N_) (be_num key) (default true lowS)).
Proof.
  intros Hm Hml Hk Hkl Hn. pose proof N_lt.
  pose proof (Z.mod_pos_bound (be_num msg) N_ N_pos).
  unfold prepSig. cbn [so_legacy so_lowS so_extraEntropy throw_if mbind res_bind].
  unfold toU8 at 1, abytes. cbn [throw_if mbind res_bind]. rewrite bits2int_modN_32 by done.
  cbn [mbind res_bind].
  assert (numTo32b (be_num msg mod N_) = Ok (be_bytes 32 (be_num msg mod N_))) as ->
    by (apply numTo32b_spec; split; [lia|done]).
  rewrite toPrivScalar_bytes by done. cbn [mbind res_bind].
  assert (numTo32b (be_num key) = Ok (be_bytes 32 (be_num key))) as ->
    by (apply numTo32b_spec; split; [lia|done]).
  cbn [mbind res_bind]. rewrite concatBytes_join. cbn [mjoin list_join app]. by rewrite app_nil_r.
Qed.

(** ** Properties *)

(** C19 Signing a 32-byte hash with the injected HMAC-SHA-256 is deterministic
    ECDSA as RFC 6979 lays it down: the private key and the reduced hash seed
    the generator, and the signature is that of the first of at most 1000
    candidate nonces that gives one. *)
Theorem sign_implements_rfc6979 rnd msg key lowS :
  is_bytes msg → length msg = 32%nat → is_bytes key → length key = 32%nat → 1 ≤ be_num key < N_ →
  sign rnd (Some hmacSha256) (inr msg) (PrivU8 (inr key)) (SignOpts false lowS NoEntropy)
  = RFC6979.search (λ K m, hmacSha256 K [m])
      (be_bytes 32 (be_num key) ++ be_bytes 32 (be_num msg mod N_))
      (k2sig (be_num msg mod N_) (be_num key) (default true lowS)) 0 1000.
Proof.
  intros Hm Hml Hk Hkl Hn. unfold sign. rewrite prepSig_32 by done. cbn [mbind res_bind].
  apply (hmacDrbg_search hmacSha256 hmacSha256_join). intros E. apply app_eq_nil in E as [E _].
  apply (f_equal length) in E. by rewrite length_be_bytes in E.
Qed.

Lemma sign_implements_rfc6979_witness :
  sign (λ _, []) (Some hmacSha256) (inr (replicate 32 5)) (PrivU8 (inr (replicate 32 1)))
    (SignOpts false (Some true) NoEntropy)
  = RFC6979.search (λ K m, hmacSha256 K [m])
      (be_bytes 32 (be_num (replicate 32 1)) ++ be_bytes 32 (be_num (replicate 32 5) mod N_))
      (k2sig (be_num (replicate 32 5) mod N_) (be_num (replicate 32 1)) true) 0 1000.
Proof.
  apply (sign_implements_rfc6979 (λ _, []) (replicate 32 5) (replicate 32 1) (Some true)).
  - apply (bool_decide_unpack (is_bytes _)). by vm_compute.
  - reflexivity.
  - apply (bool_decide_unpack (is_bytes _)). by vm_compute.
  - reflexivity.
  - by vm_compute.
Defined.

(** A signature satisfies the ECDSA equation for its nonce [k]: [r] is the
    abscissa of [k·G] modulo the order and [s·k = ±(m + d·r)], both are in
    range, and [s] is in the lower half when asked for. *)
Theorem k2sig_ecdsa m d lowS kBytes sig :
  k2sig m d lowS kBytes = Ok (Some sig) →
  ∃ k q x y, bits2int kBytes = Ok k ∧ 1 ≤ k < N_ ∧ multiple G q k ∧ toAffine q = Ok (x, y)
    ∧ sig_r sig = x mod N_ ∧ 1 ≤ sig_r sig < N_ ∧ 1 ≤ sig_s sig < N_
    ∧ (lowS = true → 2 * sig_s sig ≤ N_)
    ∧ ((sig_s sig * k) mod N_ = (m + d * sig_r sig) mod N_
       ∨ (sig_s sig * k) mod N_ = (- (m + d * sig_r sig)) mod N_).
Proof. apply k2sig_spec. Qed.

Lemma sample_k2sig :
  match k2sig 5 7 true (be_bytes 32 1) with Ok (Some _) => True | _ => False end.
Proof. by vm_compute. Qed.

Lemma k2sig_ecdsa_witness :
  ∃ sig, k2sig 5 7 true (be_bytes 32 1) = Ok (Some sig) ∧ 2 * sig_s sig ≤ N_.
Proof.
  pose proof sample_k2sig as Hok.
  destruct (k2sig 5 7 true (be_bytes 32 1)) as [[sig|]|e] eqn:E; [|destruct Hok|destruct Hok].
  destruct (k2sig_ecdsa _ _ _ _ _ E) as (k & q & x & y & _ & _ & _ & _ & _ & _ & _ & Hl & _).
  exists sig. split; [reflexivity|]. apply Hl. reflexivity.
Defined.
