(* ===== verification/Secp.v ===== *)
(** * Secp: [contrib/uap-js/secp.js], DER signatures

    The curve module the library signs with: [signSync] on top of [NobleSign],
    the DER encoding, and [configureSecp] of [uap.js], which injects the HMAC.
    The theorems: every signature it returns is a strict DER encoding of [r]
    and [s], accepted by the node's own check; the module discharges the
    interface [SecpLaws] the transaction builders are verified against. *)

From stdpp Require Import base tactics option list numbers strings.
From Stdlib Require Import ZArith Lia Ascii.
From S2P Require Import Prelude JsInt JsStr Words Radix Sha256 Script Tx NobleField NoblePoint NobleSign.

(** ** DER *)

(** [for (i = 0; i < hex.length; i += 2) bytes.push(parseInt(hex.slice(i, i + 2), 16))]. *)
Fixpoint der_loop (l : list ascii) : bytes :=
  match l with
  | c1 :: c2 :: l => default 0 (parseInt16 [c1; c2]) :: der_loop l
  | [c] => [default 0 (parseInt16 [c])]
  | [] => []
  end.

(** [while (bytes.length > 1 && bytes[0] === 0x00 && (bytes[1] & 0x80) === 0) bytes.shift();] *)
Fixpoint strip_zeros (bs : bytes) : bytes :=
  match bs with
  | b0 :: (b1 :: _) as rest => if (b0 =? 0x00) && (js_and b1 0x80 =? 0) then strip_zeros rest else bs
  | _ => bs
  end.

Definition derInt (value : Z) : bytes :=
  let hex := big_toString16 value in
  let hex := if negb (slen hex mod 2 =? 0) then "0" +:+ hex else hex in
  let bs := der_loop (chars hex) in
  let bs := strip_zeros bs in
  let bs := if negb (js_and (at_ bs 0) 0x80 =? 0) then 0x00 :: bs else bs in
  u8of (0x02 :: zlen bs :: bs).

Definition toDER (sig : signature) : bytes :=
  let r := derInt (sig_r sig) in
  let s := derInt (sig_s sig) in
  let body := set_at (set_at (u8zeros (length r + length s)) 0 r) (length r) s in
  let out := u8zeros (2 + length body) in
  let out := set_at out 0 (u8of [0x30]) in
  let out := set_at out 1 (u8of [zlen body]) in
  set_at out 2 body.

(** ** Signing *)

Record der_opts := DerOpts {
  do_lowS : option bool;
  do_canonical : option bool;
  do_extraEntropy : option entropy;
  do_der : option bool
}.

Definition signSync (randomBytes : nat → bytes) (hmacSha256Sync : option (bytes → list bytes → bytes))
    (msgHash : string + bytes) (privKey : priv) (o : der_opts) : res bytes :=
  let lowS := match do_lowS o with
              | Some b => b
              | None => match do_canonical o with Some b => b | None => true end
              end in
  let nobleOpts := SignOpts false (Some lowS) (default NoEntropy (do_extraEntropy o)) in
  sig ← sign randomBytes hmacSha256Sync msgHash privKey nobleOpts;
  match do_der o with
  | Some false => sig_toBytes sig
  | _ => Ok (toDER sig)
  end.

(** ** The injected HMAC *)

(** A module with the objects that may hold the hook. *)
Record secp_module := SecpModule {
  m_etc : option (option (bytes → list bytes → bytes));
  m_utils : option (option (bytes → list bytes → bytes))
}.

Definition configureSecp (m : secp_module) : res secp_module :=
  let hmac := λ key msgs, hmacSha256 key msgs in
  match m_etc m, m_utils m with
  | Some _, u => Ok (SecpModule (Some (Some hmac)) u)
  | None, Some _ => Ok (SecpModule None (Some (Some hmac)))
  | None, None => Throw "configureSecp: secp module exposes neither etc nor utils"
  end.

(** The module [uap.js] is given: [secp.js] over a noble module, with the
    options the library passes. *)
Definition secp_js (randomBytes : nat → bytes) (m : secp_module) : secp :=
  Secp
    (λ h k, signSync randomBytes (match m_etc m with Some f => f | None => None end)
              (inr h) (PrivU8 (inr k)) (DerOpts None (Some true) None (Some true)))
    (λ k c, getPublicKey (PrivU8 (inr k)) c).

(** ** The node's check

    [IsValidSignatureEncoding] of [src/script/interpreter.cpp]. *)
Definition IsValidSignatureEncoding (sig : bytes) : bool :=
  let size := zlen sig in
  let lenR := at_ sig 3 in
  let lenS := at_ sig (5 + lenR) in
  if size <? 9 then false
  else if 73 <? size then false
  else if negb (at_ sig 0 =? 0x30) then false
  else if negb (at_ sig 1 =? size - 3) then false
  else if size <=? 5 + lenR then false
  else if negb (lenR + lenS + 7 =? size) then false
  else if negb (at_ sig 2 =? 0x02) then false
  else if lenR =? 0 then false
  else if negb (Z.land (at_ sig 4) 0x80 =? 0) then false
  else if (1 <? lenR) && (at_ sig 4 =? 0x00) && (Z.land (at_ sig 5) 0x80 =? 0) then false
  else if negb (at_ sig (lenR + 4) =? 0x02) then false
  else if lenS =? 0 then false
  else if negb (Z.land (at_ sig (lenR + 6)) 0x80 =? 0) then false
  else if (1 <? lenS) && (at_ sig (lenR + 6) =? 0x00) && (Z.land (at_ sig (lenR + 7)) 0x80 =? 0) then false
  else true.

(** ** DER integers *)

(** The shortest big-endian bytes of a positive number that do not read as
    negative. *)
Record der_body (bs : bytes) (v : Z) : Prop := {
  db_bytes : is_bytes bs;
  db_num : be_num bs = v;
  db_length : 1 ≤ zlen bs ≤ 33;
  db_positive : at_ bs 0 < 128;
  db_minimal : 1 < zlen bs → at_ bs 0 = 0 → 128 ≤ at_ bs 1
}.

Lemma land_0x80 b : is_byte b → (Z.land b 0x80 =? 0) = (b <? 128).
Proof.
  intros Hb. apply Bool.eqb_prop.
  by apply (byte_forall (λ b, Bool.eqb (Z.land b 0x80 =? 0) (b <? 128)) b).
Qed.

Lemma der_loop_digits ds k :
  length ds = (2 * k)%nat → Forall (is_digit 16) ds →
  is_bytes (der_loop (map hexdigit ds)) ∧ length (der_loop (map hexdigit ds)) = k
  ∧ be_num (der_loop (map hexdigit ds)) = of_digits 16 0 ds.
Proof.
  intros Hl Hd. destruct (n_hex_loop_digits ds k 0 Hl Hd) as (bs & E & Hb & Hbl & Ev).
  assert (der_loop (map hexdigit ds) = bs) as ->.
  { clear Hb Hbl Ev. revert ds Hl Hd bs E. induction k as [|k IH]; intros ds Hl Hd bs E.
    - destruct ds; [|done]. by apply Ok_inj in E as <-.
    - destruct ds as [|d1 [|d2 ds]]; [simpl in Hl; lia..|].
      apply Forall_cons in Hd as [H1 Hd]. apply Forall_cons in Hd as [H2 Hd]. unfold is_digit in H1, H2.
      cbn [map der_loop n_hex_loop] in *. rewrite !ch_hexdigit in E by done.
      apply bind_Ok in E as (rest & E & <-%Ok_inj).
      rewrite (parseInt16_pair _ _ d1 d2) by (by apply hexval_hexdigit). cbn [default id].
      rewrite u8_small by (split; lia). rewrite (IH ds ltac:(simpl in Hl; lia) Hd rest E). f_equal. lia. }
  by rewrite be_num_digits.
Qed.

Lemma be_num_zero bs : be_num (0 :: bs) = be_num bs.
Proof. by rewrite !be_num_digits. Qed.

Lemma strip_zeros_spec bs :
  is_bytes bs → bs ≠ [] →
  let bs' := strip_zeros bs in
  is_bytes bs' ∧ bs' ≠ [] ∧ zlen bs' ≤ zlen bs ∧ be_num bs' = be_num bs
  ∧ (1 < zlen bs' → at_ bs' 0 = 0 → 128 ≤ at_ bs' 1).
Proof.
  induction bs as [|b0 bs IH]; intros Hb Hne; [done|]. apply is_bytes_cons in Hb as [Hb0 Hb].
  destruct bs as [|b1 bs].
  { cbv zeta. cbn [strip_zeros]. split_and!; try done. by apply is_bytes_one. }
  assert (is_byte b1) as Hb1 by (by apply is_bytes_cons in Hb as [? _]).
  cbv zeta. change (strip_zeros (b0 :: b1 :: bs)) with
    (if (b0 =? 0) && (js_and b1 0x80 =? 0) then strip_zeros (b1 :: bs) else b0 :: b1 :: bs).
  rewrite and_0x80 by done. destruct (Z.eqb_spec b0 0) as [->|]; [destruct (Z.ltb_spec b1 128)|]; cbn [andb].
  - destruct (IH Hb ltac:(done)) as (? & ? & ? & E & ?). split_and!; try done.
    + cbn [length] in *. lia.
    + by rewrite E, be_num_zero.
  - split_and!; try done. by apply is_bytes_cons.
  - split_and!; try done. by apply is_bytes_cons.
Qed.

(** An even number of hexadecimal digits, a zero in front where needed. *)
Lemma even_hex_digits v :
  1 ≤ v < 2 ^ 256 →
  let hex := big_toString16 v in
  ∃ ds k, chars (if negb (slen hex mod 2 =? 0) then "0" +:+ hex else hex) = map hexdigit ds
    ∧ Forall (is_digit 16) ds ∧ of_digits 16 0 ds = v ∧ length ds = (2 * k)%nat ∧ (1 ≤ k ≤ 32)%nat.
Proof.
  intros Hv. cbv zeta. destruct (big_hex_digits v ltac:(lia)) as (ds & Ec & Hd & Ev & Hl).
  specialize (Hl 64%nat ltac:(lia) ltac:(apply Hv)).
  assert (ds ≠ []) as Hne by (intros ->; cbn in Ev; lia).
  unfold slen. rewrite Ec, length_map.
  pose proof (Z.mod_pos_bound (zlen ds) 2 ltac:(lia)). pose proof (Z.div_mod (zlen ds) 2 ltac:(lia)).
  assert (0 < zlen ds) by (destruct ds; [done|cbn [length]; lia]).
  destruct (Z.eqb_spec (zlen ds mod 2) 0); cbn [negb].
  - exists ds, (Z.to_nat (zlen ds / 2)). split_and!; [done..|lia|lia|lia].
  - exists (0 :: ds), (Z.to_nat (zlen ds / 2 + 1)). split_and!.
    + by rewrite chars_app, Ec.
    + constructor; [split; lia|done].
    + done.
    + cbn [length]. lia.
    + lia.
    + lia.
Qed.

Lemma derInt_spec v :
  1 ≤ v < 2 ^ 256 → ∃ bs, derInt v = 0x02 :: zlen bs :: bs ∧ der_body bs v.
Proof.
  intros Hv. destruct (even_hex_digits v Hv) as (ds & k & Ec & Hd & Ev & Hl & Hk).
  unfold derInt. rewrite Ec. destruct (der_loop_digits ds k Hl Hd) as (Hb & Hbl & En). rewrite Ev in En.
  set (bs0 := der_loop (map hexdigit ds)) in *.
  destruct (strip_zeros_spec bs0 Hb ltac:(intros E; rewrite E in Hbl; simpl in Hbl; lia))
    as (Hb1 & Hne & Hl1 & En1 & Hmin).
  set (bs1 := strip_zeros bs0) in *. rewrite En in En1.
  assert (1 ≤ zlen bs1 ≤ 32) by (destruct bs1; [done|cbn [length] in *; lia]).
  rewrite and_0x80 by (by apply at_byte). destruct (Z.ltb_spec (at_ bs1 0) 128); cbn [negb].
  - exists bs1. split; [apply u8of_small; repeat (apply is_bytes_cons; split); [done|split; lia|done]|].
    constructor; [done|done|lia|done|done].
  - exists (0 :: bs1). split.
    + apply u8of_small. repeat (apply is_bytes_cons; split); [done| |done|done]. cbn [length]. split; lia.
    + constructor; [apply is_bytes_cons; split; [done|done]|by rewrite be_num_zero|cbn [length]; lia|done|].
      intros _ _. rewrite at_cons by lia. done.
Qed.

(** ** DER signatures *)

Lemma toDER_spec sig :
  1 ≤ sig_r sig < N_ → 1 ≤ sig_s sig < N_ →
  ∃ R S, der_body R (sig_r sig) ∧ der_body S (sig_s sig)
    ∧ toDER sig = 0x30 :: (zlen R + zlen S + 4) :: 0x02 :: zlen R :: R ++ 0x02 :: zlen S :: S.
Proof.
  intros Hr Hs. pose proof N_lt. destruct (derInt_spec (sig_r sig) ltac:(lia)) as (R & ER & HR).
  destruct (derInt_spec (sig_s sig) ltac:(lia)) as (S & ES & HS).
  exists R, S. split_and!; [done..|]. unfold toDER. rewrite ER, ES.
  pose proof (db_length _ _ HR). pose proof (db_length _ _ HS).
  set (r := 2 :: zlen R :: R). set (s := 2 :: zlen S :: S).
  assert (set_at (set_at (u8zeros (length r + length s)) 0 r) (length r) s = r ++ s) as ->.
  { unfold u8zeros. rewrite replicate_add, set_at_0 by (by rewrite length_replicate).
    pose proof (set_at_app r (replicate (length s) 0) [] s) as E. rewrite app_nil_r in E.
    rewrite E by (by rewrite length_replicate). by rewrite app_nil_r. }
  set (body := r ++ s).
  assert (zlen body = zlen R + zlen S + 4) as Hl by (unfold body, r, s; rewrite length_app; cbn [length]; lia).
  assert (set_at (u8zeros (2 + length body)) 0 (u8of [0x30]) = [0x30] ++ [0] ++ u8zeros (length body)) as -> by done.
  assert (u8of [zlen body] = [zlen body]) as -> by (apply u8of_small, is_bytes_one; split; lia).
  pose proof (set_at_app [0x30] [0] (u8zeros (length body)) [zlen body] eq_refl) as E.
  change (length [0x30]) with 1%nat in E. rewrite E.
  pose proof (set_at_app ([0x30] ++ [zlen body]) (u8zeros (length body)) [] body) as E2.
  change (length ([0x30] ++ [zlen body])) with 2%nat in E2. rewrite app_nil_r, <-app_assoc in E2.
  rewrite E2 by apply length_replicate. rewrite app_nil_r, Hl. done.
Qed.

(** The node's test for a superfluous leading zero fails on a minimal body. *)
Lemma der_minimal bs v b :
  der_body bs v → (1 < zlen bs → b = at_ bs 1) →
  (1 <? zlen bs) && (at_ bs 0 =? 0) && (Z.land b 0x80 =? 0) = false.
Proof.
  intros [Hb _ _ _ Hm] Eb. destruct (Z.ltb_spec 1 (zlen bs)) as [Hl|]; [|done].
  destruct (Z.eqb_spec (at_ bs 0) 0) as [E0|]; [|done]. rewrite (Eb Hl), land_0x80 by (by apply at_byte).
  specialize (Hm Hl E0). cbn [andb]. lia.
Qed.

(** The node accepts the encoding with any type byte after it. *)
Lemma der_accepted R S r s ht :
  der_body R r → der_body S s → is_byte ht →
  IsValidSignatureEncoding
    ((0x30 :: (zlen R + zlen S + 4) :: 0x02 :: zlen R :: R ++ 0x02 :: zlen S :: S) ++ [ht]) = true.
Proof.
  intros HR HS Hht. pose proof HR as [HbR _ HlR HpR _]. pose proof HS as [HbS _ HlS HpS _].
  set (sig := _ ++ [ht]).
  assert (sig = [0x30; zlen R + zlen S + 4; 0x02; zlen R] ++ R ++ [0x02; zlen S] ++ S ++ [ht]) as Esig.
  { unfold sig. cbn [app]. by rewrite <-app_assoc. }
  assert (zlen sig = zlen R + zlen S + 7) as Hl.
  { rewrite Esig, !length_app. cbn [length]. lia. }
  assert (∀ j, 0 ≤ j < zlen R → at_ sig (4 + j) = at_ R j) as AR.
  { intros j Hj. rewrite Esig, at_app_r, at_app_l by (cbn [length]; lia). f_equal. cbn [length]. lia. }
  assert (∀ j, 0 ≤ j < 2 → at_ sig (zlen R + 4 + j) = at_ [0x02; zlen S] j) as AM.
  { intros j Hj. rewrite Esig, at_app_r, at_app_r, at_app_l by (cbn [length]; lia).
    f_equal. cbn [length]. lia. }
  assert (∀ j, 0 ≤ j < zlen S → at_ sig (zlen R + 6 + j) = at_ S j) as AS.
  { intros j Hj. rewrite Esig, !at_app_r, at_app_l by (cbn [length]; lia). f_equal. cbn [length]. lia. }
  unfold IsValidSignatureEncoding. rewrite Hl.
  assert (at_ sig 0 = 0x30 ∧ at_ sig 1 = zlen R + zlen S + 4 ∧ at_ sig 2 = 0x02 ∧ at_ sig 3 = zlen R)
    as (-> & -> & -> & ->) by (rewrite Esig; done).
  pose proof (AM 0 ltac:(lia)) as A0. pose proof (AM 1 ltac:(lia)) as A1.
  rewrite Z.add_0_r in A0. rewrite A0. change (at_ [2; zlen S] 0) with 2.
  replace (5 + zlen R) with (zlen R + 4 + 1) by lia. rewrite A1. change (at_ [2; zlen S] 1) with (zlen S).
  pose proof (AR 0 ltac:(lia)) as A4. rewrite Z.add_0_r in A4. rewrite A4.
  pose proof (AS 0 ltac:(lia)) as A6. rewrite Z.add_0_r in A6. rewrite A6.
  rewrite !(land_0x80 (at_ R 0)), !(land_0x80 (at_ S 0)) by (by apply at_byte).
  rewrite (der_minimal R r) by (try done; intros; by apply (AR 1); lia).
  rewrite (der_minimal S s) by (try done; intros; replace (zlen R + 7) with (zlen R + 6 + 1) by lia; apply AS; lia).
  repeat match goal with |- context [if ?b then _ else _] => replace b with false by lia end. done.
Qed.

(** ** The signatures the module returns *)

Lemma drbg_loop_pred {A} h tries k v (pred : bytes → res (option A)) a :
  drbg_loop h tries k v pred = Ok a → ∃ bs, pred bs = Ok (Some a).
Proof.
  revert k v. induction tries as [|tries IH]; intros k v H; [discriminate H|].
  cbn [drbg_loop] in H. apply bind_Ok in H as (v' & _ & H). apply bind_Ok in H as ([a'|] & Hp & H).
  - apply Ok_inj in H as <-. by exists v'.
  - apply bind_Ok in H as ([k'' v''] & _ & H). by apply IH in H.
Qed.

(** What [sign] returns is a signature of some candidate nonce. *)
Lemma sign_range rnd hm msg key o sig :
  sign rnd hm msg key o = Ok sig →
  1 ≤ sig_r sig < N_ ∧ 1 ≤ sig_s sig < N_ ∧ (default true (so_lowS o) = true → 2 * sig_s sig ≤ N_).
Proof.
  intros (p & Hp & H)%bind_Ok. apply bind_Ok in H as ([k v] & _ & H).
  apply drbg_loop_pred in H as [bs H]. apply k2sig_spec in H as (? & ? & ? & ? & _ & _ & _ & _ & _ & ? & ? & Hl & _).
  split_and!; try lia. intros Ho. apply Hl. unfold prepSig in Hp.
  repeat (apply bind_Ok in Hp as (? & _ & Hp)). apply Ok_inj in Hp as <-. done.
Qed.

Section laws.
Context (randomBytes : nat → bytes) (m : secp_module).

Lemma signSync_der h k der :
  Tx.signSync (secp_js randomBytes m) h k = Ok der →
  ∃ sig R S, 1 ≤ sig_r sig < N_ ∧ 1 ≤ sig_s sig ∧ 2 * sig_s sig ≤ N_
    ∧ der_body R (sig_r sig) ∧ der_body S (sig_s sig)
    ∧ der = 0x30 :: (zlen R + zlen S + 4) :: 0x02 :: zlen R :: R ++ 0x02 :: zlen S :: S.
Proof.
  unfold secp_js. cbn [Tx.signSync]. intros (sig & Hs & H)%bind_Ok. cbn [do_der] in H. apply Ok_inj in H as <-.
  apply sign_range in Hs as (Hr & Hs & Hl). cbn [so_lowS default] in Hl. specialize (Hl eq_refl).
  destruct (toDER_spec sig Hr Hs) as (R & S & HR & HS & E). exists sig, R, S. split_and!; try done; lia.
Qed.

(** The module keeps the interface the builders rely on. *)
#[export] Instance secp_js_laws : SecpLaws (secp_js randomBytes m).
Proof.
  constructor; intros h k der (sig & R & S & _ & _ & _ & HR & HS & ->)%signSync_der;
    pose proof (db_length _ _ HR); pose proof (db_length _ _ HS).
  - repeat (apply is_bytes_cons; split; [split; lia|]). apply is_bytes_app. split; [apply HR|].
    repeat (apply is_bytes_cons; split; [split; lia|]). apply HS.
  - cbn [length]. rewrite length_app. cbn [length]. lia.
Qed.

(** Every signature the library's module returns is the strict DER encoding
    of an [r] in range and of an [s] in the lower half of the order, and the
    node's [IsValidSignatureEncoding] accepts it with any hash type byte. *)
Theorem signSync_strict_der h k der ht :
  Tx.signSync (secp_js randomBytes m) h k = Ok der → is_byte ht →
  IsValidSignatureEncoding (der ++ [ht]) = true
  ∧ ∃ r s R S, 1 ≤ r < N_ ∧ 1 ≤ s ∧ 2 * s ≤ N_ ∧ be_num R = r ∧ be_num S = s
      ∧ der = [0x30; zlen R + zlen S + 4] ++ [0x02; zlen R] ++ R ++ [0x02; zlen S] ++ S.
Proof.
  intros (sig & R & S & Hr & Hs & Hl & HR & HS & ->)%signSync_der Hht. split; [by eapply der_accepted|].
  exists (sig_r sig), (sig_s sig), R, S. pose proof (db_num _ _ HR). pose proof (db_num _ _ HS).
  split_and!; try done; lia.
Qed.
End laws.

(** A module whose hook always yields the nonce 1, so that signing evaluates. *)
Definition sample_module : secp_module := SecpModule (Some (Some (λ _ _, be_bytes 32 1))) None.

Lemma sample_sign :
  is_ok (Tx.signSync (secp_js (λ _, []) sample_module) (replicate 32 5) (replicate 32 1)) = true.
Proof. by vm_compute. Qed.

Lemma signSync_strict_der_witness :
  ∃ der, Tx.signSync (secp_js (λ _, []) sample_module) (replicate 32 5) (replicate 32 1) = Ok der
    ∧ IsValidSignatureEncoding (der ++ [0x01]) = true.
Proof.
  pose proof sample_sign as Hok.
  destruct (Tx.signSync _ _ _) as [der|e] eqn:E; [|discriminate Hok].
  exists der. split; [reflexivity|]. eapply signSync_strict_der; [exact E|]. split; lia.
Defined.
