(* ===== verification/Transfer.v ===== *)
(** * Transfer: [contrib/uap-web/transfer.js], token transfers of the web wallet

    [planTransfer] checks a request whose every field may have come off the
    wire, [buildTransferTx] assembles and signs the transaction of a plan, and
    [positionScriptOf] decides which script the wallet's key signs over.
    Positions and coins are values of no particular shape ([jsval]), as the
    relay serves them.

    The theorems: the reader of this file accepts exactly what the library's
    [parseUapScript] accepts; whatever position object it is given, the wallet
    signs only over the canonical covenant of its own key; a plan moves the
    whole value of the position, pays its fee out of other coins and never
    leaves dust; the built transaction keeps the lineage and is signed. *)

From stdpp Require Import base tactics option list numbers strings pretty.
From Stdlib Require Import ZArith Lia Ascii.
From S2P Require Import Prelude JsInt JsStr JsNum JsVal Words Sha256 Addr Script Tx Payments.
From S2P Require Import NobleField NoblePoint.

(** ** Constants *)

Definition HARD_DUST_LIMIT : Z := DEFAULT_HARD_DUST_LIMIT.
Definition MAX_MULTIPLIER : Z := 2147483647.
Definition MAX_SAFE_SATS : Z := MAX_SAFE_INTEGER.
Definition OP_16 : Z := 0x60.

(** The kinds of output of a plan. *)
Inductive output_kind := OUTPUT_TOKEN_RECIPIENT | OUTPUT_TOKEN_CHANGE | OUTPUT_WHIP_CHANGE.

#[global] Instance output_kind_eq_dec : EqDecision output_kind.
Proof. solve_decision. Defined.

(** ** Public keys *)

(** [/^[0-9a-fA-F]+$/.test(hex) && hex.length % 2 === 0]. *)
Definition even_hex (hex : string) : bool :=
  is_hex hex && (0 <? slen hex) && (slen hex mod 2 =? 0).

(** Bytes, or the bytes a trimmed hex string spells. *)
Definition bytes_or_hex (value : jsval) : option bytes :=
  match value with
  | U8 b => Some b
  | Str s =>
      let hex := trim s in
      if negb (even_hex hex) then None
      else match hexToBytes (toLowerCase hex) with Ok b => Some b | Throw _ => None end
  | _ => None
  end.

Definition normalizePubKey (value : jsval) : option bytes :=
  bs ← bytes_or_hex value;
  let shapeOk :=
    ((zlen bs =? 33) && ((at_ bs 0 =? 0x02) || (at_ bs 0 =? 0x03)))
    || ((zlen bs =? 65) && (at_ bs 0 =? 0x04)) in
  if negb shapeOk then None
  else match fromBytes bs with Ok _ => Some bs | Throw _ => None end.

Definition sameBytes (a b : bytes) : bool :=
  if negb (zlen a =? zlen b) then false
  else forallb (λ i, nth i a 0 =? nth i b 0) (seq 0 (length a)).

(** ** Reading a covenant *)

(** [{ opcode, data, next }]; [data] is [None] for an opcode that pushes nothing. *)
Record read_op := ReadOp { ro_opcode : Z; ro_data : option bytes; ro_next : Z }.

Definition readOp (script : bytes) (pc : Z) : option read_op :=
  if pc >=? zlen script then None
  else
  let opcode := at_ script pc in
  let pc := pc + 1 in
  if opcode >? OP_PUSHDATA4 then Some (ReadOp opcode None pc)
  else
  let finish size pc :=
    if zlen script - pc <? size then None
    else Some (ReadOp opcode (Some (slice script pc (pc + size))) (pc + size)) in
  if opcode =? OP_PUSHDATA1 then
    if zlen script - pc <? 1 then None else finish (at_ script pc) (pc + 1)
  else if opcode =? OP_PUSHDATA2 then
    if zlen script - pc <? 2 then None
    else finish (js_or (at_ script pc) (js_shl (at_ script (pc + 1)) 8)) (pc + 2)
  else if opcode =? OP_PUSHDATA4 then
    if zlen script - pc <? 4 then None
    else finish (js_ushr (js_or (js_or (js_or (at_ script pc) (js_shl (at_ script (pc + 1)) 8))
                            (js_shl (at_ script (pc + 2)) 16)) (js_shl (at_ script (pc + 3)) 24)) 0)
           (pc + 4)
  else finish opcode pc.

(** [for (i = 0; ...) magnitude += bytes[i] * Math.pow(256, i)]; four bytes at
    most, so the sums are exact. *)
Definition magnitude_loop (bs : bytes) : Z :=
  fold_left (λ m i, m + nth i bs 0 * 256 ^ Z.of_nat i) (seq 0 (length bs)) 0.

Definition scriptNum (bs : bytes) : option Z :=
  if zlen bs =? 0 then Some 0
  else if zlen bs >? 4 then None
  else
    let magnitude := magnitude_loop bs in
    let top := at_ bs (zlen bs - 1) in
    if negb (js_and top 0x80 =? 0) then Some (- (magnitude - 0x80 * 256 ^ (zlen bs - 1)))
    else Some magnitude.

(** [{ pubkey, multiplier, isMint }]. *)
Record uap_covenant := UapCovenant { v_pubkey : bytes; v_multiplier : Number; v_isMint : bool }.

(** The multiplier element. *)
Definition covenant_multiplier (op : read_op) : option Z :=
  if ro_opcode op =? OP_0 then Some 0
  else if (ro_opcode op >=? OP_1) && (ro_opcode op <=? OP_16) then Some (ro_opcode op - (OP_1 - 1))
  else d ← ro_data op; scriptNum d.

(** [sameBytes(script, rebuilt)], where rebuilding may throw out of the caller. *)
Definition rebuilds_to (script : bytes) (rebuilt : res bytes) (parsed : uap_covenant)
    : res (option uap_covenant) :=
  s ← rebuilt; Ok (if sameBytes script s then Some parsed else None).

(** What follows the key and the multiplier, [thirdOp] being the next element. *)
Definition covenant_tail (script pubkey : bytes) (multiplier : Number) (thirdOp : read_op)
    : res (option uap_covenant) :=
  let mint :=
    if negb (ro_opcode thirdOp =? OP_MINT) then Ok None
    else if negb (ro_next thirdOp =? zlen script) then Ok None
    else rebuilds_to script (buildMintScript pubkey multiplier) (UapCovenant pubkey multiplier true) in
  match ro_data thirdOp with
  | Some origin =>
      if zlen origin =? 32 then
        match readOp script (ro_next thirdOp) with
        | None => Ok None
        | Some mintOp =>
            if negb (ro_opcode mintOp =? OP_MINT_TRANSFER) || negb (ro_next mintOp =? zlen script)
            then Ok None
            else rebuilds_to script (buildTransferScript pubkey multiplier (Some origin))
                   (UapCovenant pubkey multiplier false)
        end
      else mint
  | None => mint
  end.

Definition parseUapCovenant (script : bytes) : res (option uap_covenant) :=
  match readOp script 0 with
  | Some (ReadOp _ (Some pubkey) next) =>
      if negb (zlen pubkey =? 33) && negb (zlen pubkey =? 65) then Ok None
      else
      match readOp script next with
      | None => Ok None
      | Some multOp =>
          match covenant_multiplier multOp with
          | None => Ok None
          | Some multiplier =>
              if (multiplier <? 0) || (multiplier >? MAX_MULTIPLIER) then Ok None
              else
              match readOp script (ro_next multOp) with
              | None => Ok None
              | Some thirdOp => covenant_tail script pubkey (Int multiplier) thirdOp
              end
          end
      end
  | _ => Ok None
  end.

(** ** The scriptCode gate *)

Definition not_hex_message : string := "Position script_hex is not an even-length hex string".

(** The checks of the decoded script: [{ ok: true, script, parsed }] or
    [{ ok: false, message }]. *)
Definition check_covenant (bs : bytes) (expectedPubKey : option bytes)
    (expectedMultiplier : option Number) (expectIsMint : option bool)
    : res ((bytes * uap_covenant) + string) :=
  let reject m := Ok (inr m) in
  parsed ← parseUapCovenant bs;
  match parsed with
  | None =>
      reject ("Position script_hex is not a canonically encoded UAP covenant "
              +:+ "(<pubkey> <multiplier> OP_MINT for mints, or <pubkey> <multiplier> <origin32> OP_MINT_TRANSFER for transfers). "
              +:+ "Signing over it would authorise a script this wallet cannot verify.")
  | Some parsed =>
      if match expectIsMint with Some b => negb (Bool.eqb (v_isMint parsed) b) | None => false end
      then reject (if v_isMint parsed
             then "Position script_hex is a fresh mint script but the position is not marked as a mint"
             else "Position script_hex is a transfer covenant but the position is marked as a fresh mint")
      else if match expectedPubKey with Some pk => negb (sameBytes (v_pubkey parsed) pk) | None => false end
      then reject ("Position script_hex is a covenant for a different public key than the position records; "
                   +:+ "refusing to sign over it")
      else if match expectedMultiplier with Some m => negb (v_multiplier parsed =? m)%num | None => false end
      then reject ("Position script_hex carries multiplier " +:+ num_str (v_multiplier parsed)
                   +:+ ", but the position records " +:+ num_str (default NaN expectedMultiplier)
                   +:+ "; refusing to sign over it")
      else Ok (inl (bs, parsed))
  end.

Definition validatePositionScript (scriptHex : jsval) (expectedPubKey : option bytes)
    (expectedMultiplier : option Number) (expectIsMint : option bool)
    : res ((bytes * uap_covenant) + string) :=
  match scriptHex with
  | U8 b => check_covenant b expectedPubKey expectedMultiplier expectIsMint
  | Str s =>
      let hex := trim s in
      if negb (even_hex hex) then Ok (inr not_hex_message)
      else match hexToBytes (toLowerCase hex) with
           | Throw _ => Ok (inr not_hex_message)
           | Ok b => check_covenant b expectedPubKey expectedMultiplier expectIsMint
           end
  | _ => Ok (inr "Position script_hex must be a hex string or bytes")
  end.

(** ** Fees *)

Definition estimateTransferSize (nInputs nCovenantOutputs nP2PKHOutputs : Z) : Z :=
  let size := 10 in
  let size := size + nInputs * 150 in
  let size := size + nCovenantOutputs * 49 in
  let size := size + nP2PKHOutputs * 34 in
  size.

Definition feeFor (size : Z) (feeRate : Number) : Number :=
  let estimated := num_ceil (Int size * feeRate / Int 1000) in
  num_max estimated (Int RECOMMENDED_MIN_TX_FEE).

Definition virtualBalanceOf (valueSats multiplier : Number) : Number :=
  (valueSats / Int COIN * multiplier)%num.

(** ** Planning *)

Record plan_error := PlanError { e_field : string; e_message : string }.

(** What the checks of the position learn: multiplier, value and owner. *)
Record position_facts := PositionFacts {
  f_multiplier : option Number;
  f_value : option Number;
  f_owner : option bytes
}.

(** An error under a condition. *)
Definition err_if (c : bool) (f m : string) : list plan_error := if c then [PlanError f m] else [].

(** [!Number.isInteger(v) || v < 0], and the same with [v <= 0]. *)
Definition not_natural (v : jsval) : bool := negb (v_isInteger v) || (as_num v <? Int 0)%num.
Definition not_positive (v : jsval) : bool := negb (v_isInteger v) || (as_num v <=? Int 0)%num.

Definition check_value (value : jsval) : list plan_error * option Number :=
  if not_positive value
  then ([PlanError "position" "Position value must be a positive integer number of satoshis"], None)
  else if (as_num value >? Int MAX_SAFE_SATS)%num
  then ([PlanError "position" ("Position value of " +:+ num_str (as_num value)
           +:+ " satoshis is larger than " +:+ dec MAX_SAFE_SATS +:+ ", "
           +:+ "which this wallet cannot split without losing or inventing satoshis. It refuses to try.")],
        None)
  else ([], Some (as_num value)).

Definition check_multiplier (multiplier : jsval) : list plan_error * option Number :=
  if not_natural multiplier || (as_num multiplier >? Int MAX_MULTIPLIER)%num
  then ([PlanError "position" ("Position multiplier must be an integer in [0, " +:+ dec MAX_MULTIPLIER +:+ "]")],
        None)
  else ([], Some (as_num multiplier)).

(** [v === undefined || v === null || v === '']. *)
Definition is_absent (v : jsval) : bool :=
  is_nullish v || match v with Str s => str_eqb s EmptyString | _ => false end.

Definition check_recorded_owner (pubkey : jsval) : list plan_error * option bytes :=
  if is_absent pubkey
  then ([PlanError "position" ("Position does not record which public key it is addressed to, "
           +:+ "so this wallet cannot verify that it owns it")], None)
  else
    let owner := normalizePubKey pubkey in
    (err_if (bool_decide (owner = None)) "position" "Position has a malformed recipient pubkey", owner).

Definition check_script (position : jsval) (owner : option bytes) (multiplier : option Number)
    : res (list plan_error) :=
  let script_hex := field position "script_hex" in
  let is_mint := is_true (field position "is_mint") in
  let missing := err_if (is_mint && negb (truthy script_hex)) "position"
    ("This is a freshly minted position and this wallet cannot derive the origin for spending it "
     +:+ "without knowing the outpoint. Provide the script_hex explicitly, or transfer it once from a wallet that knows the outpoint.") in
  if truthy script_hex then
    check ← validatePositionScript script_hex owner multiplier (Some is_mint);
    Ok (missing ++ match check with inl _ => [] | inr m => [PlanError "position" m] end)
  else Ok missing.

(** The section on the position. *)
Definition check_position (position : jsval) : res (list plan_error * position_facts) :=
  if negb (truthy position) || negb (is_object position)
  then Ok ([PlanError "position" "No position selected to send from"], PositionFacts None None None)
  else
    let e1 := err_if (negb (is_hex_of 64 (field position "txid"))) "position"
                "Position txid is not a 64-character hex string" in
    let e2 := err_if (not_natural (field position "vout")) "position"
                "Position vout must be a non-negative integer" in
    let '(e3, positionValue) := check_value (field position "value") in
    let '(e4, multiplier) := check_multiplier (field position "multiplier") in
    let e5 := err_if (is_true (field position "spent")) "position" "That position has already been spent" in
    let '(e6, positionOwner) := check_recorded_owner (field position "pubkey") in
    e7 ← check_script position positionOwner multiplier;
    Ok (e1 ++ e2 ++ e3 ++ e4 ++ e5 ++ e6 ++ e7, PositionFacts multiplier positionValue positionOwner).

(** The section on ownership. *)
Definition check_ownership (positionOwner own : option bytes) : list plan_error :=
  match own with
  | None => [PlanError "ownPubKey" "Wallet public key is missing or malformed"]
  | Some own =>
      match positionOwner with
      | Some owner => err_if (negb (sameBytes owner own)) "position"
                        "This position is addressed to a different public key; this wallet cannot spend it"
      | None => []
      end
  end.

(** The cross-check of the recipient's address. *)
Definition check_address (toAddress : jsval) (network : string) (to : option bytes) : list plan_error :=
  let trimmed := trim (js_String toAddress) in
  if is_nullish toAddress || str_eqb trimmed EmptyString then []
  else
  match base58checkDecode trimmed with
  | Throw _ => [PlanError "toAddress" "Recipient address is not a valid Whippet address"]
  | Ok decoded =>
      match assoc network VERSIONS with
      | None => [PlanError "network" ("Unknown network: " +:+ network)]
      | Some versions =>
          if Addr.version decoded =? SCRIPT_ADDRESS versions
          then [PlanError "toAddress" "P2SH addresses are not supported by this wallet; ask for a regular (pay-to-pubkey-hash) address"]
          else if negb (Addr.version decoded =? PUBKEY_ADDRESS versions)
          then [PlanError "toAddress" ("That address is not a " +:+ network +:+ " address")]
          else if match to with Some to => negb (sameBytes (hash160 to) (payload decoded)) | None => false end
          then [PlanError "toAddress" ("The recipient public key does not match that address (hash160 mismatch). "
                  +:+ "Do not send: one of the two belongs to someone else.")]
          else []
      end
  end.

(** The section on the recipient. *)
Definition check_recipient (toAddress : jsval) (network : string) (to : option bytes) : list plan_error :=
  err_if (bool_decide (to = None)) "toPubKey"
    "Recipient public key must be 33 bytes (starting 02/03) or 65 bytes (starting 04), in hex"
  ++ check_address toAddress network to.

(** The section on the amount, with the remainder it leaves. *)
Definition check_amount (amountSats : jsval) (positionValue : option Number)
    : list plan_error * option Number :=
  let amount := as_num amountSats in
  if not_positive amountSats
  then ([PlanError "amountSats" "Amount must be a positive whole number of satoshis"], None)
  else if (amount >? Int MAX_SAFE_SATS)%num
  then ([PlanError "amountSats" ("Amount of " +:+ num_str amount +:+ " satoshis is larger than "
           +:+ dec MAX_SAFE_SATS +:+ ", "
           +:+ "which this wallet cannot compute a remainder against without losing or inventing satoshis.")],
        None)
  else
  match positionValue with
  | None => ([], None)
  | Some positionValue =>
      if (amount >? positionValue)%num
      then ([PlanError "amountSats" ("Amount " +:+ num_str amount +:+ " satoshis exceeds the position's value of "
               +:+ num_str positionValue +:+ " satoshis")], None)
      else
        let remainderSats := (positionValue - amount)%num in
        (err_if (amount <? Int HARD_DUST_LIMIT)%num "amountSats"
           ("Amount " +:+ num_str amount +:+ " satoshis is below the dust limit of "
            +:+ dec HARD_DUST_LIMIT +:+ " satoshis")
         ++ err_if ((remainderSats >? Int 0)%num && (remainderSats <? Int HARD_DUST_LIMIT)%num) "amountSats"
              ("Sending this much would leave a dust remainder of " +:+ num_str remainderSats
               +:+ " satoshis in your position. " +:+ "Send at most "
               +:+ num_str (positionValue - Int HARD_DUST_LIMIT)
               +:+ " satoshis, or send the whole position."),
         Some remainderSats)
  end.

(** The section on the fee. *)
Definition check_funding (feeRate fundingUtxos : jsval) : list plan_error :=
  err_if (negb (v_isFinite feeRate) || (as_num feeRate <=? Int 0)%num) "feeRate"
    "Fee rate must be a positive number of satoshis per kB"
  ++ err_if match fundingUtxos with Arr (_ :: _) => false | _ => true end "fundingUtxos"
       ("A token transfer needs an ordinary WHIP input to pay the fee, so the tokens themselves are not spent on it. "
        +:+ "This wallet has no spendable WHIP UTXOs.").

(** ** Funding *)

Record funding := Funding {
  fd_selected : list jsval;
  fd_total : Number;
  fd_fee : Number;
  fd_change : Number
}.

Definition utxo_value (u : jsval) : Number := as_num (field u "value").

(** [u && Number.isInteger(u.value) && u.value > 0 && typeof u.txid === 'string'
    && Number.isInteger(u.vout)]. *)
Definition usable (u : jsval) : bool :=
  truthy u && v_isInteger (field u "value") && (utxo_value u >? Int 0)%num
  && match field u "txid" with Str _ => true | _ => false end
  && v_isInteger (field u "vout").

(** [for (const utxo of sorted)]. *)
Fixpoint funding_loop (feeRate : Number) (nCovenantOutputs : Z) (sorted selected : list jsval)
    (total : Number) : funding + string :=
  match sorted with
  | utxo :: sorted =>
      let selected := selected ++ [utxo] in
      let total := (total + utxo_value utxo)%num in
      let feeWithChange := feeFor (estimateTransferSize (1 + zlen selected) nCovenantOutputs 1) feeRate in
      if (total >=? feeWithChange)%num then
        let change := (total - feeWithChange)%num in
        if (change <? Int DEFAULT_DUST_LIMIT)%num
        then inl (Funding selected total total (Int 0))
        else inl (Funding selected total feeWithChange change)
      else funding_loop feeRate nCovenantOutputs sorted selected total
  | [] =>
      let needed := feeFor (estimateTransferSize (1 + zlen selected) nCovenantOutputs 1) feeRate in
      inr ("Insufficient WHIP to pay the transfer fee: need about " +:+ num_str needed
           +:+ " satoshis, have " +:+ num_str total +:+ " satoshis")
  end.

Definition selectFunding (fundingUtxos : list jsval) (feeRate : Number) (nCovenantOutputs : Z)
    : funding + string :=
  let usable_utxos := List.filter usable fundingUtxos in
  if (length usable_utxos =? 0)%nat
  then inr "No usable WHIP UTXOs to pay the fee with (each needs txid, vout and a positive integer value)"
  else
    let sorted := js_sort (λ a b, (utxo_value a - utxo_value b)%num) usable_utxos in
    funding_loop feeRate nCovenantOutputs sorted [] (Int 0).

(** ** The plan *)

Record plan_output := PlanOutput {
  po_kind : output_kind;
  po_value : Number;
  po_pubKey : bytes;
  po_multiplier : option Number
}.

Record plan_warning := PlanWarning { w_code : string; w_field : string; w_message : string }.

Record transfer_plan := TransferPlan {
  tp_position : jsval;
  tp_multiplier : Number;
  tp_warnings : list plan_warning;
  tp_toPubKey : bytes;
  tp_ownPubKey : bytes;
  tp_amountSats : Number;
  tp_remainderSats : Number;
  tp_tokenValueIn : Number;
  tp_tokenValueOut : Number;
  tp_virtualBalanceIn : Number;
  tp_virtualBalanceOut : Number;
  tp_virtualBalanceLost : Number;
  tp_fundingInputs : list jsval;
  tp_fundingTotal : Number;
  tp_fee : Number;
  tp_change : Number;
  tp_feeRate : Number;
  tp_outputs : list plan_output
}.

(** The argument object. *)
Record transfer_input := TransferInput {
  ti_position : jsval;
  ti_ownPubKey : jsval;
  ti_toPubKey : jsval;
  ti_toAddress : jsval;
  ti_network : option string;
  ti_amountSats : jsval;
  ti_fundingUtxos : jsval;
  ti_feeRate : jsval
}.

Definition is_token (o : plan_output) : bool := negb (bool_decide (po_kind o = OUTPUT_WHIP_CHANGE)).

(** The outputs, in the order they are emitted. *)
Definition plan_outputs (amountSats remainderSats multiplier change : Number) (to own : bytes)
    : list plan_output :=
  [PlanOutput OUTPUT_TOKEN_RECIPIENT amountSats to (Some multiplier)]
  ++ (if (remainderSats >? Int 0)%num
      then [PlanOutput OUTPUT_TOKEN_CHANGE remainderSats own (Some multiplier)] else [])
  ++ (if (change >? Int 0)%num then [PlanOutput OUTPUT_WHIP_CHANGE change own None] else []).

Definition unverified_warning (positionValue : Number) : plan_warning :=
  PlanWarning "position-value-unverified" "position"
    ("This position's value of " +:+ num_str positionValue +:+ " satoshis is as reported by the indexer and "
     +:+ "cannot be verified here. If the real output holds more than that, the difference will be "
     +:+ "paid to miners as fee instead of moving with your tokens.").

(** The plan object, from values the checks have accepted. *)
Definition make_plan (i : transfer_input) (multiplier positionValue remainderSats : Number)
    (to own : bytes) (selection : funding) : transfer_plan :=
  let amountSats := as_num (ti_amountSats i) in
  let outputs := plan_outputs amountSats remainderSats multiplier (fd_change selection) to own in
  let token_outputs := List.filter is_token outputs in
  let covenantSatsOut := fold_left (λ sum o, sum + po_value o)%num token_outputs (Int 0) in
  let balanceOut :=
    fold_left (λ sum o, sum + virtualBalanceOf (po_value o) multiplier)%num token_outputs (Int 0) in
  let warnings :=
    if is_true (field (ti_position i) "value_verified") then [] else [unverified_warning positionValue] in
  {| tp_position := ti_position i;
     tp_multiplier := multiplier;
     tp_warnings := warnings;
     tp_toPubKey := to;
     tp_ownPubKey := own;
     tp_amountSats := amountSats;
     tp_remainderSats := remainderSats;
     tp_tokenValueIn := positionValue;
     tp_tokenValueOut := covenantSatsOut;
     tp_virtualBalanceIn := virtualBalanceOf positionValue multiplier;
     tp_virtualBalanceOut := balanceOut;
     tp_virtualBalanceLost := virtualBalanceOf (positionValue - covenantSatsOut) multiplier;
     tp_fundingInputs := fd_selected selection;
     tp_fundingTotal := fd_total selection;
     tp_fee := fd_fee selection;
     tp_change := fd_change selection;
     tp_feeRate := as_num (ti_feeRate i);
     tp_outputs := outputs |}.

(** Elements of an array. *)
Definition elements (v : jsval) : list jsval := match v with Arr l => l | _ => [] end.

(** [{ ok: true, plan }] or [{ ok: false, errors }].  Where no check has failed
    every value below is present. *)
Definition planTransfer (i : transfer_input) : res (transfer_plan + list plan_error) :=
  let network := default "mainnet" (ti_network i) in
  '(e1, facts) ← check_position (ti_position i);
  let own := normalizePubKey (ti_ownPubKey i) in
  let e2 := check_ownership (f_owner facts) own in
  let to := normalizePubKey (ti_toPubKey i) in
  let e3 := check_recipient (ti_toAddress i) network to in
  let '(e4, remainderSats) := check_amount (ti_amountSats i) (f_value facts) in
  let e5 := check_funding (ti_feeRate i) (ti_fundingUtxos i) in
  let errors := e1 ++ e2 ++ e3 ++ e4 ++ e5 in
  match errors, f_multiplier facts, f_value facts, own, to, remainderSats with
  | [], Some multiplier, Some positionValue, Some own, Some to, Some remainderSats =>
      let nCovenantOutputs := if (remainderSats >? Int 0)%num then 2 else 1 in
      match selectFunding (elements (ti_fundingUtxos i)) (as_num (ti_feeRate i)) nCovenantOutputs with
      | inr message => Ok (inr [PlanError "fundingUtxos" message])
      | inl selection => Ok (inl (make_plan i multiplier positionValue remainderSats to own selection))
      end
  | _, _, _, _, _, _ => Ok (inr errors)
  end.

(** ** Building *)

Definition no_origin_message : string :=
  "cannot reconstruct a transfer position's script: it needs the 32-byte "
  +:+ "lineage origin, which is not derivable from the outpoint and is not "
  +:+ "present on this position (supply script_hex or origin)".

(** [uap.hexToBytes(v)] of a value whose string is 64 hex digits: anything but
    a string is an array of one element, and of odd length. *)
Definition hexToBytes_of (v : jsval) : res bytes :=
  match v with Str s => hexToBytes s | _ => Throw "invalid hex string" end.

Definition positionScriptOf (position : jsval) (ownPubKey : bytes) (multiplier : Number) : res bytes :=
  script_hex ← get position "script_hex";
  let is_mint := is_true (field position "is_mint") in
  if truthy script_hex then
    check ← validatePositionScript script_hex (Some ownPubKey) (Some multiplier) (Some is_mint);
    match check with
    | inr message => Throw ("refusing to sign over this position's script: " +:+ message)
    | inl (script, _) => Ok script
    end
  else if is_mint then buildMintScript ownPubKey multiplier
  else
    let origin := field position "origin" in
    _ ← throw_if (negb (truthy origin) || negb (is_lower_hex_of 64 (js_String origin))) no_origin_message;
    o ← hexToBytes_of origin;
    buildTransferScript ownPubKey multiplier (Some o).

(** The output a planned output becomes. *)
Definition build_output (outputOrigin : bytes) (out : plan_output) : res txout :=
  match po_kind out with
  | OUTPUT_WHIP_CHANGE => Ok (TxOut (po_value out) (buildP2PKHScript (po_pubKey out)))
  | _ =>
      s ← buildTransferScript (po_pubKey out) (default NaN (po_multiplier out)) (Some outputOrigin);
      Ok (TxOut (po_value out) s)
  end.

(** The input that spends an outpoint. *)
Definition spend_of (v : jsval) : vin :=
  unsigned (as_str (field v "txid")) (int_of (js_Number (field v "vout"))).

(** The script a coin is locked by: its own, as hex or bytes, or the wallet's. *)
Definition coin_script (utxo : jsval) (ownScript : bytes) : res bytes :=
  let s := field utxo "scriptPubKey" in
  if negb (truthy s) then Ok ownScript
  else match s with
       | Str hex => hexToBytes hex
       | U8 b => Ok b
       | _ => Throw "scriptPubKey is neither a hex string nor bytes"
       end.

(** [for (let i = 1; i < tx.vin.length; i++)]. *)
Fixpoint sign_funding (secp : secp) (privKey ownPubKey ownScript : bytes) (utxos : list jsval)
    (i : nat) (t : tx) : res tx :=
  match utxos with
  | [] => Ok t
  | utxo :: utxos =>
      scriptCode ← coin_script utxo ownScript;
      sig ← signP2PKHInput secp scriptCode privKey ownPubKey t i None;
      sign_funding secp privKey ownPubKey ownScript utxos (S i) (set_scriptSig t i sig)
  end.

(** [{ rawHex, tx, outputs }]. *)
Definition buildTransferTx (secp : secp) (plan : transfer_plan) (privKey : option bytes)
    : res (string * tx * list plan_output) :=
  _ ← throw_if (length (tp_outputs plan) =? 0)%nat "buildTransferTx requires a plan from planTransfer";
  match privKey with
  | None => Throw "buildTransferTx requires a private key"
  | Some privKey =>
      let position := tp_position plan in
      positionScript ← positionScriptOf position (tp_ownPubKey plan) (tp_multiplier plan);
      outputOrigin ← originForSpend (Some positionScript) (as_str (field position "txid"))
                       (as_num (field position "vout"));
      vout ← mapR (build_output outputOrigin) (tp_outputs plan);
      let t := Tx (Some 1) (spend_of position :: map spend_of (tp_fundingInputs plan)) vout (Some 0) in
      sig ← signSpend secp positionScript privKey t 0 None;
      let t := set_scriptSig t 0 sig in
      let ownScript := buildP2PKHScript (tp_ownPubKey plan) in
      t ← sign_funding secp privKey (tp_ownPubKey plan) ownScript (tp_fundingInputs plan) 1 t;
      rawHex ← txToHex t;
      Ok (rawHex, t, tp_outputs plan)
  end.

(** ** Reading covenants *)

Lemma sameBytes_eq a b : sameBytes a b = true ↔ a = b.
Proof.
  unfold sameBytes. split.
  - destruct (Z.eqb_spec (zlen a) (zlen b)) as [El|]; [cbn [negb]|done]. intros H.
    rewrite forallb_forall in H. apply (nth_ext a b 0 0); [lia|]. intros i Hi.
    apply Z.eqb_eq, H, in_seq. lia.
  - intros ->. rewrite Z.eqb_refl. apply forallb_forall. intros. apply Z.eqb_refl.
Qed.

Lemma sameBytes_neq a b : sameBytes a b = false ↔ a ≠ b.
Proof. rewrite <-not_true_iff_false, sameBytes_eq. done. Qed.

(** The element as [readOp] returns it. *)
Definition op_of (p : push) (next : Z) : read_op :=
  ReadOp (opcode p) (if isPush p then Some (data p) else None) next.

Lemma pushdata_len_4 s i :
  pushdata_len s i 4
  = js_ushr (js_or (js_or (js_or (at_ s i) (js_shl (at_ s (i + 1)) 8)) (js_shl (at_ s (i + 2)) 16))
               (js_shl (at_ s (i + 3)) 24)) 0.
Proof. unfold pushdata_len. reflexivity. Qed.

(** [readOp] reads what the library's [readPushes] reads. *)
Lemma readOp_read_push s i :
  is_bytes s → 0 ≤ i < zlen s →
  readOp s i = match read_push s i with Ok (p, j) => Some (op_of p j) | Throw _ => None end.
Proof.
  intros Hs Hi. pose proof (at_byte s i Hs) as [Hb0 Hb1]. unfold readOp, read_push, op_of.
  rewrite Z.geb_leb, (proj2 (Z.leb_gt _ _)) by lia. set (op := at_ s i) in *.
  unfold OP_PUSHDATA1, OP_PUSHDATA2, OP_PUSHDATA4, OP_0. rewrite Z.gtb_ltb.
  assert (∀ w name size, size = pushdata_len s (i + 1) w →
    (if zlen s - (i + 1) <? Z.of_nat w then None
     else if zlen s - (i + 1 + Z.of_nat w) <? size then None
     else Some (ReadOp op (Some (slice s (i + 1 + Z.of_nat w) (i + 1 + Z.of_nat w + size)))
                  (i + 1 + Z.of_nat w + size)))
    = match read_pushdata s (i + 1) op w name with Ok (p, j) => Some (op_of p j) | Throw _ => None end)
    as Hw.
  { intros w name size ->. unfold read_pushdata, throw_if, op_of. rewrite !Z.gtb_ltb.
    destruct (Z.ltb_spec (zlen s - (i + 1)) (Z.of_nat w)), (Z.ltb_spec (zlen s) (i + 1 + Z.of_nat w));
      try lia; [done|]. cbn [mbind res_bind].
    set (n := pushdata_len s (i + 1) w).
    destruct (Z.ltb_spec (zlen s - (i + 1 + Z.of_nat w)) n), (Z.ltb_spec (zlen s) (i + 1 + Z.of_nat w + n));
      try lia; done. }
  destruct (Z.ltb_spec 0x4e op).
  { rewrite (proj2 (Z.leb_gt op 0x4b)), andb_false_r by lia.
    repeat (rewrite (proj2 (Z.eqb_neq op _)) by lia). done. }
  destruct (Z.eqb_spec op 0x4c) as [E|];
    [rewrite (proj2 (Z.leb_gt op 0x4b)), andb_false_r by lia; exact (Hw 1%nat "PUSHDATA1" _ eq_refl)|].
  destruct (Z.eqb_spec op 0x4d) as [E|];
    [rewrite (proj2 (Z.leb_gt op 0x4b)), andb_false_r by lia; exact (Hw 2%nat "PUSHDATA2" _ eq_refl)|].
  destruct (Z.eqb_spec op 0x4e) as [E|];
    [rewrite (proj2 (Z.leb_gt op 0x4b)), andb_false_r by lia; rewrite <-pushdata_len_4; exact (Hw 4%nat "PUSHDATA4" _ eq_refl)|].
  destruct (Z.eqb_spec op 0) as [->|].
  - rewrite (proj2 (Z.ltb_ge _ _)) by lia. cbn [Z.leb Z.compare andb isPush data opcode].
    by rewrite Z.add_0_r, slice_nil.
  - rewrite (proj2 (Z.leb_le 1 op)), (proj2 (Z.leb_le op 0x4b)) by lia. cbn [andb].
    rewrite Z.gtb_ltb. unfold throw_if.
    destruct (Z.ltb_spec (zlen s - (i + 1)) op), (Z.ltb_spec (zlen s) (i + 1 + op)); try lia; done.
Qed.

(** [readOp] at the start of an element of a script. *)
Lemma readOp_raw pre p rest :
  is_bytes (pre ++ raw p ++ rest) → wf_push p →
  readOp (pre ++ raw p ++ rest) (zlen pre) = Some (op_of p (zlen pre + zlen (raw p))).
Proof.
  intros Hb Hp. pose proof (length_raw p). rewrite readOp_read_push; [|done|rewrite !length_app; lia].
  assert (read_push (pre ++ raw p ++ rest) (zlen pre) = Ok (p, zlen pre + zlen (raw p))) as ->; [|done].
  apply read_push_spec; [done|rewrite !length_app; lia|]. split_and!; [done|done|rewrite !length_app; lia|].
  apply slice_app_mid; lia.
Qed.

Lemma magnitude_loop_le_num bs : magnitude_loop bs = le_num bs.
Proof.
  unfold magnitude_loop.
  assert (∀ k, (k ≤ length bs)%nat →
    fold_left (λ m i, m + nth i bs 0 * 256 ^ Z.of_nat i) (seq 0 k) 0 = le_num (take k bs)) as H.
  { induction k as [|k IH]; intros Hk; [done|].
    rewrite seq_S, fold_left_app, IH by lia. cbn [fold_left Nat.add].
    destruct (lookup_lt_is_Some_2 bs k) as [b Eb]; [lia|].
    rewrite (nth_lookup_Some _ _ _ _ Eb), (take_S_r _ _ _ Eb), le_num_snoc, length_take, Nat.min_l by lia. lia. }
  rewrite H by lia. by rewrite take_ge.
Qed.

(** The script number of a multiplier is read back. *)
Lemma scriptNum_multiplier z : 0 < z ≤ 2147483647 → scriptNum (scriptNumBytes z) = Some z.
Proof.
  intros Hz. destruct (scriptNumBytes_spec z ltac:(lia)) as (bs & b & E & Hb & Hlt & Hm & Hv).
  assert (zlen bs ≤ 3) as Hl.
  { pose proof Hb as [Hbs Hb0]%is_bytes_snoc. pose proof (le_num_range bs Hbs) as [Hn _].
    rewrite le_num_snoc in Hv. apply Z.nlt_ge. intros Hgt.
    assert (256 ^ 4 ≤ 256 ^ zlen bs) by (apply Z.pow_le_mono_r; lia).
    apply isMinimalScriptNum_snoc in Hm as [Hm|(bs' & b' & -> & Hb')]; [| |done].
    - destruct Hb0. assert (1 ≤ b) by (destruct (decide (b = 0)) as [->|]; [by destruct Hm|lia]). nia.
    - rewrite le_num_snoc in Hv. apply is_bytes_snoc in Hbs as [Hbs' _].
      pose proof (le_num_range bs' Hbs') as [Hn' _]. rewrite length_app in Hgt. cbn [length] in Hgt.
      assert (256 ^ 3 ≤ 256 ^ zlen bs') by (apply Z.pow_le_mono_r; lia). destruct Hb0.
      assert (0 ≤ 256 ^ zlen (bs' ++ [b']) * b) by (apply Z.mul_nonneg_nonneg; lia). nia. }
  unfold scriptNum. rewrite E, magnitude_loop_le_num, Hv, length_app. cbn [length].
  rewrite (proj2 (Z.eqb_neq _ 0)), Z.gtb_ltb, (proj2 (Z.ltb_ge 4 _)) by lia.
  rewrite at_snoc, and_0x80 by (lia || by apply is_bytes_snoc in Hb as [_ ?]).
  by rewrite (proj2 (Z.ltb_lt b 128)).
Qed.

Lemma covenant_multiplier_push z next :
  0 ≤ z ≤ 2147483647 → covenant_multiplier (op_of (mult_push z) next) = Some z.
Proof.
  intros Hz. unfold covenant_multiplier, mult_push, OP_0, OP_1, OP_16.
  destruct (Z.eqb_spec z 0) as [->|]; [done|]. destruct (Z.leb_spec z 16).
  - cbn [op_of ro_opcode opcode]. rewrite (proj2 (Z.eqb_neq _ 0)) by lia.
    rewrite Z.geb_leb, !(proj2 (Z.leb_le _ _)) by lia. cbn [andb]. f_equal. lia.
  - pose proof (length_scriptNumBytes z ltac:(lia)).
    unfold push_of. cbn [op_of ro_opcode ro_data opcode isPush data mbind option_bind].
    rewrite (proj2 (Z.leb_le _ 75)), (proj2 (Z.eqb_neq _ 0)), Z.geb_leb, (proj2 (Z.leb_gt 81 _)) by lia.
    apply scriptNum_multiplier. lia.
Qed.

Lemma rebuilds_to_self s c : rebuilds_to s (Ok s) c = Ok (Some c).
Proof. unfold rebuilds_to. cbn [mbind res_bind]. by rewrite (proj2 (sameBytes_eq s s)). Qed.

(** The elements behind the multiplier of a canonical covenant. *)
Lemma covenant_tail_complete pk z o (mint : bool) pre :
  is_bytes pk → zlen pk ≤ 65535 → 0 ≤ z ≤ 2147483647 → is_bytes o →
  zlen o = (if mint then 0 else 32) → pre = raw (push_of pk) ++ raw (mult_push z) →
  let s := mjoin (map raw (covenant pk z o mint)) in
  is_bytes s →
  match readOp s (zlen pre) with
  | Some thirdOp => covenant_tail s pk (Int z) thirdOp
  | None => Ok None
  end = Ok (Some (UapCovenant pk (Int z) mint)).
Proof.
  intros Hpk Hpl Hz Ho Hol Epre s Hs. unfold covenant_tail.
  assert (wf_push (op_push (covenant_op mint))) as Wop by (destruct mint; (split; [by split|split; [constructor|by split]])).
  destruct mint.
  - assert (o = []) as -> by (destruct o; [done|cbn [length] in Hol; lia]).
    assert (s = pre ++ raw (op_push OP_MINT) ++ []) as Es by (by rewrite Epre, <-app_assoc).
    rewrite Es in Hs |- * at 1. rewrite readOp_raw by done. cbn [op_of ro_data isPush op_push ro_opcode opcode ro_next].
    rewrite Z.eqb_refl. cbn [negb]. rewrite Es at 1. rewrite !length_app, !Nat2Z.inj_add, Z.add_0_r, Z.eqb_refl.
    cbn [negb]. assert (buildMintScript pk (Int z) = Ok s) as ->; [|apply rebuilds_to_self].
    apply buildMintScript_spec; [done|]. split; [done|]. by exists z.
  - pose proof (wf_push_of o Ho ltac:(lia)) as Wo.
    assert (s = pre ++ raw (push_of o) ++ raw (op_push OP_MINT_TRANSFER)) as Es.
    { unfold s, covenant, covenant_op. cbn [app map]. rewrite Epre, <-app_assoc.
      cbn [mjoin list_join]. by rewrite app_nil_r. }
    assert (readOp s (zlen pre) = Some (op_of (push_of o) (zlen (pre ++ raw (push_of o))))) as ->.
    { rewrite Es in *. rewrite readOp_raw by done. by rewrite length_app, Nat2Z.inj_add. }
    cbn [op_of ro_data isPush push_of data ro_next]. fold (push_of o). rewrite Hol. cbn [Z.eqb Pos.eqb].
    assert (readOp s (zlen (pre ++ raw (push_of o)))
      = Some (op_of (op_push OP_MINT_TRANSFER) (zlen s))) as ->.
    { rewrite Es in *. rewrite app_assoc in *.
      rewrite <-(app_nil_r (raw (op_push OP_MINT_TRANSFER))) in Hs |- * at 1.
      rewrite readOp_raw by done. by rewrite !length_app, !Nat2Z.inj_add. }
    cbn [op_of ro_opcode ro_next op_push opcode]. rewrite !Z.eqb_refl. cbn [negb orb].
    assert (buildTransferScript pk (Int z) (Some o) = Ok s) as ->; [|apply rebuilds_to_self].
    apply buildTransferScript_spec; [done..|]. split_and!; [done|done|]. by exists z.
Qed.

(** A canonical covenant is read. *)
Lemma parseUapCovenant_complete r z :
  wf_uap r z →
  parseUapCovenant (mjoin (map raw (covenant (pubkey r) z (origin r) (isMint r))))
  = Ok (Some (UapCovenant (pubkey r) (multiplier r) (isMint r))).
Proof.
  destruct r as [pk m o mint]. unfold wf_uap. cbn [pubkey multiplier origin isMint].
  intros (Hpk & Hpl & -> & Hz & Ho & Hol).
  assert (Forall wf_push (covenant pk z o mint)) as Hw by (apply covenant_wf; [done..|lia|destruct mint; lia|lia]).
  pose proof (raws_bytes _ Hw) as Hs. set (s := mjoin (map raw (covenant pk z o mint))) in *.
  pose (tl := mjoin (map raw ((if mint then [] else [push_of o]) ++ [op_push (covenant_op mint)]))).
  assert (s = raw (push_of pk) ++ raw (mult_push z) ++ tl) as Es by done.
  assert (wf_push (push_of pk) ∧ wf_push (mult_push z)) as [Wp Wm]
    by (split; [apply wf_push_of; [done|lia]|by apply wf_mult_push]).
  unfold parseUapCovenant.
  assert (readOp s 0 = Some (op_of (push_of pk) (zlen (raw (push_of pk))))) as ->
    by (rewrite Es in *; by apply (readOp_raw [] (push_of pk))).
  unfold op_of at 1. cbn [isPush push_of data]. fold (push_of pk).
  replace (negb (zlen pk =? 33) && negb (zlen pk =? 65)) with false by (destruct Hpl as [-> | ->]; done).
  assert (readOp s (zlen (raw (push_of pk)))
    = Some (op_of (mult_push z) (zlen (raw (push_of pk) ++ raw (mult_push z))))) as ->.
  { rewrite Es in *. rewrite readOp_raw by done. by rewrite length_app, Nat2Z.inj_add. }
  rewrite covenant_multiplier_push by done.
  replace ((z <? 0) || (z >? MAX_MULTIPLIER)) with false by (unfold MAX_MULTIPLIER; lia).
  cbn [op_of ro_next]. apply covenant_tail_complete; [done|lia|done..].
Qed.

(** What is read is what the builders would write. *)
Lemma covenant_tail_sound s pk m op c :
  covenant_tail s pk m op = Ok (Some c) →
  v_pubkey c = pk ∧ v_multiplier c = m ∧
  if v_isMint c then buildMintScript pk m = Ok s
  else ∃ o, ro_data op = Some o ∧ buildTransferScript pk m (Some o) = Ok s.
Proof.
  assert (∀ r c', rebuilds_to s r c' = Ok (Some c) → c = c' ∧ r = Ok s) as Hr.
  { intros r c'. unfold rebuilds_to. intros (s' & -> & H)%bind_Ok. simp_res. case_match; simplify_eq.
    split; [done|]. f_equal. symmetry. by apply sameBytes_eq. }
  unfold covenant_tail. intros H.
  case_in H; apply Hr in H as [-> H]; (split; [done|split; [done|]]); cbn [v_isMint]; eauto.
Qed.

Lemma readOp_data s i op d : is_bytes s → 0 ≤ i → readOp s i = Some op → ro_data op = Some d → is_bytes d.
Proof.
  intros Hs Hi H Hd. destruct (Z.ltb_spec i (zlen s)).
  - rewrite readOp_read_push in H by done. destruct (read_push s i) as [[p j]|] eqn:E; simplify_eq.
    apply read_push_spec in E as ((_ & Hb & _) & _); [|done..]. cbn in Hd. case_match; by simplify_eq.
  - unfold readOp in H. rewrite Z.geb_leb, (proj2 (Z.leb_le _ _)) in H by lia. done.
Qed.

(** Re-encoding what was read does not throw. *)
Lemma covenant_tail_total s pk z op :
  is_bytes pk → zlen pk = 33 ∨ zlen pk = 65 → 0 ≤ z ≤ 2147483647 →
  (∀ d, ro_data op = Some d → is_bytes d) →
  is_ok (covenant_tail s pk (Int z) op) = true.
Proof.
  intros Hpk Hpl Hz Hd.
  assert (∀ r c, is_ok r = true → is_ok (rebuilds_to s r c) = true) as Hr by (by intros [] ?).
  assert (is_ok (buildMintScript pk (Int z)) = true) as Hm.
  { erewrite (proj2 (buildMintScript_spec pk (Int z) _ Hpk)); [done|]. split; [lia|]. by exists z. }
  unfold covenant_tail. repeat case_match; simp_bool; auto. apply Hr.
  erewrite (proj2 (buildTransferScript_spec pk (Int z) _ _ Hpk ltac:(by apply Hd))); [done|].
  split_and!; [done|lia|]. by exists z.
Qed.

Lemma readOp_next s i op : is_bytes s → 0 ≤ i → readOp s i = Some op → 0 ≤ ro_next op.
Proof.
  intros Hs Hi H. destruct (Z.ltb_spec i (zlen s)).
  - rewrite readOp_read_push in H by done. destruct (read_push s i) as [[p j]|] eqn:E; simplify_eq.
    apply read_push_spec in E as (_ & -> & _); [|done..]. cbn. lia.
  - unfold readOp in H. rewrite Z.geb_leb, (proj2 (Z.leb_le _ _)) in H by lia. done.
Qed.

(** Reading never throws, and what it returns is a canonical covenant. *)
Lemma parseUapCovenant_sound s :
  is_bytes s →
  ∃ o, parseUapCovenant s = Ok o ∧
    ∀ c, o = Some c → ∃ r z, wf_uap r z ∧ s = mjoin (map raw (covenant (pubkey r) z (origin r) (isMint r)))
      ∧ c = UapCovenant (pubkey r) (multiplier r) (isMint r).
Proof.
  intros Hs. unfold parseUapCovenant.
  destruct (readOp s 0) as [[op0 [pk|] n0]|] eqn:E0; [|by eexists..].
  assert (is_bytes pk) as Hpk by (by eapply (readOp_data s 0); [| |exact E0|]).
  pose proof (readOp_next s 0 _ Hs ltac:(lia) E0) as Hn0. cbn [ro_next] in Hn0.
  destruct (negb (zlen pk =? 33) && negb (zlen pk =? 65)) eqn:El; [by eexists|].
  assert (zlen pk = 33 ∨ zlen pk = 65) as Hpl by (simp_bool; destruct El; simp_bool; auto).
  destruct (readOp s n0) as [op1|] eqn:E1; [|by eexists].
  pose proof (readOp_next s n0 _ Hs Hn0 E1) as Hn1.
  destruct (covenant_multiplier op1) as [z|]; [|by eexists].
  destruct ((z <? 0) || (z >? MAX_MULTIPLIER)) eqn:Ez; [by eexists|].
  assert (0 ≤ z ≤ 2147483647) as Hz by (unfold MAX_MULTIPLIER in Ez; simp_bool; lia).
  destruct (readOp s (ro_next op1)) as [op2|] eqn:E2; [|by eexists].
  assert (∀ d, ro_data op2 = Some d → is_bytes d) as Hd by (intros d; by apply (readOp_data s (ro_next op1))).
  pose proof (covenant_tail_total s pk z op2 Hpk Hpl Hz Hd) as Hok.
  destruct (covenant_tail s pk (Int z) op2) as [o|] eqn:E; [|done]. exists o. split; [done|]. intros c ->.
  apply covenant_tail_sound in E as (Ep & Em & E). destruct c as [pk' m' mint]. cbn in *. subst.
  destruct mint.
  - apply buildMintScript_spec in E as (_ & z' & [= <-] & _ & ->); [|done].
    exists (UapScript pk (Int z) [] true), z. split_and!; [|done..]. unfold wf_uap. cbn. split_and!; try done || lia. constructor.
  - destruct E as (o & Ho & E). apply buildTransferScript_spec in E as (Hol & _ & z' & [= <-] & _ & ->); [|auto..].
    exists (UapScript pk (Int z) o false), z. split_and!; [|done..]. unfold wf_uap. cbn. split_and!; try done || lia. by apply Hd.
Qed.

(** The covenant reader of the web wallet and the one of the library agree
    on every script: the wallet re-encodes and compares, the library checks
    each element for minimality, and both accept the same scripts with the
    same key, multiplier and form. *)
Theorem parseUapCovenant_agrees s :
  is_bytes s →
  parseUapCovenant s
  = Ok ((λ r, UapCovenant (pubkey r) (multiplier r) (isMint r)) <$> parseUapScript s).
Proof.
  intros Hs. destruct (parseUapScript s) as [r|] eqn:E.
  - apply parse_sound in E as (z & Hw & ->); [|done]. by rewrite (parseUapCovenant_complete r z Hw).
  - destruct (parseUapCovenant_sound s Hs) as ([c|] & Ec & H); [|done].
    destruct (H c eq_refl) as (r & z & Hw & -> & _). by rewrite (parse_complete r z Hw) in E.
Qed.

Lemma parseUapCovenant_agrees_witness :
  let s := mjoin [33 :: 2 :: replicate 32 1; [2; 232; 3]; 32 :: replicate 32 7; [0xba]] in
  parseUapCovenant s = Ok (Some (UapCovenant (2 :: replicate 32 1) (Int 1000) false)).
Proof.
  cbv zeta. rewrite parseUapCovenant_agrees.
  - reflexivity.
  - apply (bool_decide_unpack (is_bytes _)). reflexivity.
Defined.

(** ** The scriptCode gate *)

(** The elements of a [Uint8Array] are bytes. *)
Definition u8_ok (v : jsval) : Prop := match v with U8 b => is_bytes b | _ => True end.

Lemma num_eqb_eq a b : num_eqb a b = true → a = b.
Proof. unfold num_eqb. destruct a; [done|apply bool_decide_eq_true_1..]. Qed.

(** A script that passes the gate is the canonical covenant it was expected to be. *)
Lemma check_covenant_ok bs pk m mint s c :
  is_bytes bs → check_covenant bs pk m mint = Ok (inl (s, c)) →
  ∃ r z, wf_uap r z ∧ s = mjoin (map raw (covenant (pubkey r) z (origin r) (isMint r)))
    ∧ (∀ k, pk = Some k → pubkey r = k) ∧ (∀ n, m = Some n → multiplier r = n)
    ∧ (∀ b, mint = Some b → isMint r = b).
Proof.
  intros Hb (o & Ho & H)%bind_Ok. destruct (parseUapCovenant_sound bs Hb) as (o' & Ho' & Hs).
  rewrite Ho in Ho'. apply Ok_inj in Ho' as <-. destruct o as [c'|]; [|done].
  destruct (Hs c' eq_refl) as (r & z & Hw & E & ->). cbn [v_isMint v_pubkey v_multiplier] in H.
  destruct (match mint with Some b => _ | None => false end) eqn:Em; [done|].
  destruct (match pk with Some k => _ | None => false end) eqn:Ep; [done|].
  destruct (match m with Some n => _ | None => false end) eqn:En; [done|].
  apply Ok_inj in H. simplify_eq. exists r, z. split_and!; [done|done|..].
  - intros k ->. simp_bool. by apply sameBytes_eq.
  - intros n ->. simp_bool. by apply num_eqb_eq.
  - intros b ->. simp_bool. by apply Bool.eqb_prop.
Qed.

Lemma validatePositionScript_ok sh pk m mint s c :
  u8_ok sh → validatePositionScript sh pk m mint = Ok (inl (s, c)) →
  ∃ r z, wf_uap r z ∧ s = mjoin (map raw (covenant (pubkey r) z (origin r) (isMint r)))
    ∧ (∀ k, pk = Some k → pubkey r = k) ∧ (∀ n, m = Some n → multiplier r = n)
    ∧ (∀ b, mint = Some b → isMint r = b).
Proof.
  intros Hu. unfold validatePositionScript.
  destruct sh as [| | | |str|b| |]; try done; [|by apply check_covenant_ok].
  destruct (negb (even_hex (trim str))); [done|].
  destruct (hexToBytes (toLowerCase (trim str))) as [b|] eqn:Eh; [|done].
  apply check_covenant_ok. by eapply hexToBytes_bytes.
Qed.

Lemma validatePositionScript_total sh pk m mint :
  u8_ok sh → ∃ r, validatePositionScript sh pk m mint = Ok r.
Proof.
  assert (∀ bs, is_bytes bs → ∃ r, check_covenant bs pk m mint = Ok r) as Hc.
  { intros bs Hb. unfold check_covenant. destruct (parseUapCovenant_sound bs Hb) as (o & -> & _).
    cbn [mbind res_bind]. repeat case_match; eauto. }
  intros Hu. unfold validatePositionScript.
  destruct sh as [| | | |str|b| |]; eauto. case_match; eauto.
  destruct (hexToBytes _) as [b|] eqn:E; eauto using hexToBytes_bytes.
Qed.

(** Any script the wallet signs over is a canonical covenant of its own key. *)
Lemma positionScript_covenant position own m s :
  u8_ok (field position "script_hex") → is_bytes own → zlen own = 33 ∨ zlen own = 65 →
  positionScriptOf position own m = Ok s →
  ∃ r z, wf_uap r z ∧ s = mjoin (map raw (covenant (pubkey r) z (origin r) (isMint r)))
    ∧ pubkey r = own ∧ multiplier r = m ∧ isMint r = is_true (field position "is_mint").
Proof.
  intros Hu Hown Hol (sh & Hg & H)%bind_Ok.
  assert (sh = field position "script_hex") as -> by (destruct position; by simplify_eq/=).
  cbv zeta in H. destruct (truthy (field position "script_hex")).
  - apply bind_Ok in H as ([[s' c]|msg] & Hv & H); [|done]. apply Ok_inj in H as <-.
    apply validatePositionScript_ok in Hv as (r & z & Hw & -> & Hpk & Hm & Hi); [|done].
    exists r, z. split_and!; auto.
  - destruct (is_true (field position "is_mint")).
    + apply buildMintScript_spec in H as (_ & z & -> & Hz & ->); [|done].
      exists (UapScript own (Int z) [] true), z. split_and!; [|done..]. unfold wf_uap. cbn.
      split_and!; try done || lia. constructor.
    + apply bind_Ok in H as ([] & _ & H). apply bind_Ok in H as (o & Eo & H). assert (is_bytes o) as Ho.
      { unfold hexToBytes_of in Eo. destruct (field position "origin"); try done. by eapply hexToBytes_bytes. }
      apply buildTransferScript_spec in H as (Hlen & _ & z & -> & Hz & ->); [|done..].
      exists (UapScript own (Int z) o false), z. split_and!; [|done..]. unfold wf_uap. cbn.
      split_and!; try done || lia.
Qed.

Lemma covenant_bytes r z :
  wf_uap r z → is_bytes (mjoin (map raw (covenant (pubkey r) z (origin r) (isMint r)))).
Proof.
  intros (Hpk & Hpl & _ & Hz & Ho & Hol). apply raws_bytes, covenant_wf; try done; [lia|].
  destruct (isMint r); lia.
Qed.

(** C8 The wallet is no signing oracle: whatever object it is given as a
    position, the script [positionScriptOf] hands to the signer is a canonical
    covenant of the wallet's own key, with the multiplier that was planned and
    in the form, mint or transfer, the position is marked with. *)
Theorem positionScriptOf_own_covenant position own m s :
  u8_ok (field position "script_hex") → is_bytes own → zlen own = 33 ∨ zlen own = 65 →
  positionScriptOf position own m = Ok s →
  ∃ r, parseUapScript s = Some r ∧ pubkey r = own ∧ multiplier r = m
    ∧ isMint r = is_true (field position "is_mint").
Proof.
  intros Hu Hown Hol H. destruct (positionScript_covenant _ _ _ _ Hu Hown Hol H) as (r & z & Hw & -> & ?).
  exists r. split; [by apply parse_complete|done].
Qed.

(** A mint position served with its script as bytes. *)
Definition sample_own : bytes := 2 :: replicate 32 1.
Definition sample_mint_position : jsval :=
  Obj [("txid", Str "00"); ("is_mint", VBool true);
       ("script_hex", U8 (33 :: sample_own ++ [0x55; 0xb5]))].

Lemma positionScriptOf_own_covenant_witness :
  ∃ r, parseUapScript (33 :: sample_own ++ [0x55; 0xb5]) = Some r ∧ pubkey r = sample_own
    ∧ multiplier r = Int 5 ∧ isMint r = true.
Proof.
  apply (positionScriptOf_own_covenant sample_mint_position sample_own (Int 5)).
  - apply (bool_decide_unpack (is_bytes _)). reflexivity.
  - apply (bool_decide_unpack (is_bytes _)). reflexivity.
  - left. reflexivity.
  - reflexivity.
Defined.

(** ** Plans *)

Lemma err_if_nil c f m : err_if c f m = [] ↔ c = false.
Proof. by destruct c. Qed.

Lemma not_positive_inv v : not_positive v = false → ∃ z, v = Num (Int z) ∧ 0 < z.
Proof.
  unfold not_positive. intros [Hi Hp]%orb_false_iff. apply negb_false_iff in Hi.
  apply v_isInteger_inv in Hi as [z ->]. cbn [as_num] in Hp. rewrite int_leb in Hp. simp_bool. eauto.
Qed.

Lemma not_natural_inv v : not_natural v = false → ∃ z, v = Num (Int z) ∧ 0 ≤ z.
Proof.
  unfold not_natural. intros [Hi Hp]%orb_false_iff. apply negb_false_iff in Hi.
  apply v_isInteger_inv in Hi as [z ->]. cbn [as_num] in Hp. rewrite int_ltb in Hp. simp_bool. eauto.
Qed.

Lemma check_value_nil v o :
  check_value v = ([], o) → ∃ z, v = Num (Int z) ∧ 0 < z ≤ MAX_SAFE_SATS ∧ o = Some (Int z).
Proof.
  unfold check_value. destruct (not_positive v) eqn:E; [done|]. apply not_positive_inv in E as (z & -> & Hz).
  cbn [as_num]. rewrite int_ltb. destruct (Z.ltb_spec MAX_SAFE_SATS z); [done|]. intros [= <-]. eauto with lia.
Qed.

Lemma check_multiplier_nil v o :
  check_multiplier v = ([], o) → ∃ z, v = Num (Int z) ∧ 0 ≤ z ≤ MAX_MULTIPLIER ∧ o = Some (Int z).
Proof.
  unfold check_multiplier. destruct (not_natural v) eqn:E; [done|]. apply not_natural_inv in E as (z & -> & Hz).
  cbn [as_num orb]. rewrite int_ltb. destruct (Z.ltb_spec MAX_MULTIPLIER z); [done|]. intros [= <-]. eauto with lia.
Qed.

Lemma check_recorded_owner_nil v o :
  check_recorded_owner v = ([], o) → ∃ pk, normalizePubKey v = Some pk ∧ o = Some pk.
Proof.
  unfold check_recorded_owner. destruct (is_absent v); [done|]. intros [= He <-].
  apply err_if_nil, bool_decide_eq_false in He. destruct (normalizePubKey v); [eauto|done].
Qed.

(** What a position that passes its checks looks like. *)
Record good_position (position : jsval) (v z : Z) (owner : bytes) : Prop := {
  gp_txid : is_hex_of 64 (field position "txid") = true;
  gp_vout : not_natural (field position "vout") = false;
  gp_value : field position "value" = Num (Int v);
  gp_safe : 0 < v ≤ MAX_SAFE_SATS;
  gp_multiplier : field position "multiplier" = Num (Int z);
  gp_range : 0 ≤ z ≤ MAX_MULTIPLIER;
  gp_unspent : is_true (field position "spent") = false;
  gp_owner : normalizePubKey (field position "pubkey") = Some owner;
  gp_mint : is_true (field position "is_mint") = true → truthy (field position "script_hex") = true;
  gp_script : truthy (field position "script_hex") = true →
    ∃ s c, validatePositionScript (field position "script_hex") (Some owner) (Some (Int z))
             (Some (is_true (field position "is_mint"))) = Ok (inl (s, c))
}.

Lemma check_script_nil position owner z :
  check_script position (Some owner) (Some (Int z)) = Ok [] →
  (is_true (field position "is_mint") = true → truthy (field position "script_hex") = true) ∧
  (truthy (field position "script_hex") = true →
   ∃ s c, validatePositionScript (field position "script_hex") (Some owner) (Some (Int z))
            (Some (is_true (field position "is_mint"))) = Ok (inl (s, c))).
Proof.
  unfold check_script. destruct (truthy _).
  - intros (c & Hc & H)%bind_Ok. apply Ok_inj, app_eq_nil in H as [_ H]. split; [done|]. intros _.
    destruct c as [[s c]|]; [|done]. eauto.
  - intros H%Ok_inj%err_if_nil. rewrite andb_true_r in H. split; [by rewrite H|done].
Qed.

Lemma check_position_nil position facts :
  check_position position = Ok ([], facts) →
  ∃ v z owner, good_position position v z owner
    ∧ facts = PositionFacts (Some (Int z)) (Some (Int v)) (Some owner).
Proof.
  unfold check_position. destruct (negb (truthy position) || negb (is_object position)); [done|].
  destruct (check_value _) as [e3 ov] eqn:E3. destruct (check_multiplier _) as [e4 om] eqn:E4.
  destruct (check_recorded_owner _) as [e6 oo] eqn:E6. intros (e7 & H7 & H)%bind_Ok.
  apply Ok_inj in H. injection H as H <-.
  apply app_eq_nil in H as [H1 H]. apply app_eq_nil in H as [H2 H]. apply app_eq_nil in H as [-> H].
  apply app_eq_nil in H as [-> H]. apply app_eq_nil in H as [H5 H]. apply app_eq_nil in H as [-> ->].
  apply err_if_nil in H1, H2, H5. apply negb_false_iff in H1.
  apply check_value_nil in E3 as (v & Ev & Hv & ->). apply check_multiplier_nil in E4 as (z & Ez & Hz & ->).
  apply check_recorded_owner_nil in E6 as (pk & Epk & ->). apply check_script_nil in H7 as [Hm Hs].
  exists v, z, pk. by split; [constructor|].
Qed.

Lemma check_ownership_nil owner own :
  check_ownership (Some owner) own = [] → own = Some owner.
Proof.
  unfold check_ownership. destruct own as [own|]; [|done]. intros H%err_if_nil%negb_false_iff%sameBytes_eq.
  by subst.
Qed.

Lemma check_amount_nil amount v o :
  0 < v ≤ MAX_SAFE_SATS → check_amount amount (Some (Int v)) = ([], o) →
  ∃ a, amount = Num (Int a) ∧ HARD_DUST_LIMIT ≤ a ≤ v ∧ (a = v ∨ HARD_DUST_LIMIT ≤ v - a)
    ∧ o = Some (Int (v - a)).
Proof.
  intros Hv. unfold MAX_SAFE_SATS, MAX_SAFE_INTEGER in Hv. unfold check_amount.
  destruct (not_positive amount) eqn:E; [done|]. apply not_positive_inv in E as (a & -> & Ha).
  cbn [as_num]. rewrite !int_ltb. destruct (Z.ltb_spec MAX_SAFE_SATS a) as [|Hs]; [done|].
  destruct (Z.ltb_spec v a) as [|Hle]; [done|]. rewrite int_sub, !int_ltb by lia. intros [= H <-].
  apply app_eq_nil in H as [H1%err_if_nil H2%err_if_nil]. simp_bool.
  exists a. split_and!; [done|done|done| |done]. destruct H2; simp_bool; [left; lia|right; done].
Qed.

Lemma check_funding_nil rate utxos :
  check_funding rate utxos = [] →
  (∃ m k, rate = Num (Fin m k) ∧ (Fin m k <=? Int 0)%num = false) ∧ ∃ u us, utxos = Arr (u :: us).
Proof.
  unfold check_funding. intros [H1%err_if_nil H2%err_if_nil]%app_eq_nil.
  apply orb_false_iff in H1 as [Hf Hp]. split.
  - destruct rate as [| | |[| |m k]| | | |]; try done. eauto.
  - destruct utxos as [| | | | | |[|u us]|]; try done. eauto.
Qed.

(** The errors of all sections. *)
Definition all_errors (i : transfer_input) (e1 : list plan_error) (facts : position_facts)
    (e4 : list plan_error) : list plan_error :=
  e1 ++ check_ownership (f_owner facts) (normalizePubKey (ti_ownPubKey i))
  ++ check_recipient (ti_toAddress i) (default "mainnet" (ti_network i)) (normalizePubKey (ti_toPubKey i))
  ++ e4 ++ check_funding (ti_feeRate i) (ti_fundingUtxos i).

(** A request that passes every check. *)
Record good_request (i : transfer_input) (v z : Z) (own to : bytes) (a : Z) : Prop := {
  gr_position : good_position (ti_position i) v z own;
  gr_own : normalizePubKey (ti_ownPubKey i) = Some own;
  gr_to : normalizePubKey (ti_toPubKey i) = Some to;
  gr_address : check_address (ti_toAddress i) (default "mainnet" (ti_network i)) (Some to) = [];
  gr_amount : ti_amountSats i = Num (Int a);
  gr_dust : HARD_DUST_LIMIT ≤ a ≤ v ∧ (a = v ∨ HARD_DUST_LIMIT ≤ v - a);
  gr_funding : check_funding (ti_feeRate i) (ti_fundingUtxos i) = []
}.

Lemma all_errors_nil i e1 facts e4 orem :
  check_position (ti_position i) = Ok (e1, facts) →
  check_amount (ti_amountSats i) (f_value facts) = (e4, orem) → all_errors i e1 facts e4 = [] →
  ∃ v z own to a, good_request i v z own to a
    ∧ facts = PositionFacts (Some (Int z)) (Some (Int v)) (Some own) ∧ orem = Some (Int (v - a)).
Proof.
  unfold all_errors. intros H1 E4 Ee.
  apply app_eq_nil in Ee as [-> Ee]. apply app_eq_nil in Ee as [E2 Ee]. apply app_eq_nil in Ee as [E3 Ee].
  apply app_eq_nil in Ee as [-> E5]. apply check_position_nil in H1 as (v & z & own & Hg & ->).
  cbn [f_owner f_value f_multiplier] in *. apply check_ownership_nil in E2.
  apply app_eq_nil in E3 as [Et%err_if_nil%bool_decide_eq_false Ea].
  destruct (normalizePubKey (ti_toPubKey i)) as [to|] eqn:Eto; [|done].
  apply check_amount_nil in E4 as (a & Eam & Ha & Hr & ->); [|apply Hg].
  exists v, z, own, to, a. by split; [constructor|].
Qed.

(** A plan comes out of a good request, and a sufficient selection. *)
Lemma planTransfer_inv i p :
  planTransfer i = Ok (inl p) →
  ∃ v z own to a sel, good_request i v z own to a
    ∧ selectFunding (elements (ti_fundingUtxos i)) (as_num (ti_feeRate i)) (if 0 <? v - a then 2 else 1) = inl sel
    ∧ p = make_plan i (Int z) (Int v) (Int (v - a)) to own sel.
Proof.
  intros ([e1 facts] & H1 & H)%bind_Ok. destruct (check_amount _ _) as [e4 orem] eqn:E4.
  cbv zeta in H. fold (all_errors i e1 facts e4) in H. destruct (all_errors i e1 facts e4) eqn:Ee; [|discriminate H].
  destruct (all_errors_nil _ _ _ _ _ H1 E4 Ee) as (v & z & own & to & a & Hg & -> & ->).
  rewrite (gr_own _ _ _ _ _ _ Hg), (gr_to _ _ _ _ _ _ Hg) in H. cbn [f_multiplier f_value] in H.
  rewrite int_ltb in H. destruct (selectFunding _ _ _) as [sel|] eqn:Es; [|done].
  apply Ok_inj in H. injection H as <-. exists v, z, own, to, a, sel. by split_and!.
Qed.

(** Checks that all pass leave every value present: a refusal names a reason. *)
Lemma planTransfer_errors i es : planTransfer i = Ok (inr es) → es ≠ [].
Proof.
  intros ([e1 facts] & H1 & H)%bind_Ok ->. destruct (check_amount _ _) as [e4 orem] eqn:E4.
  cbv zeta in H. fold (all_errors i e1 facts e4) in H. destruct (all_errors i e1 facts e4) eqn:Ee; [|discriminate H].
  destruct (all_errors_nil _ _ _ _ _ H1 E4 Ee) as (v & z & own & to & a & Hg & -> & ->).
  rewrite (gr_own _ _ _ _ _ _ Hg), (gr_to _ _ _ _ _ _ Hg) in H. cbn [f_multiplier f_value] in H.
  destruct (selectFunding _ _ _); by apply Ok_inj in H.
Qed.

(** ** Funding *)

Definition uval (u : jsval) : Z := num_Z (utxo_value u).
Definition utotal (us : list jsval) : Z := zsum (map uval us).

Lemma usable_value u : usable u = true → utxo_value u = Int (uval u) ∧ 0 < uval u.
Proof.
  unfold usable, uval, utxo_value. intros H. simp_bool.
  destruct (v_isInteger_inv _ H3) as [z Ez]. rewrite Ez in *. cbn [as_num num_Z] in *.
  rewrite int_ltb in *. simp_bool. done.
Qed.

Lemma utotal_nonneg us : Forall (λ u, usable u = true) us → 0 ≤ utotal us.
Proof.
  induction 1 as [|u us Hu _ IH]; [done|]. apply usable_value in Hu as [_ Hu].
  change (utotal (u :: us)) with (uval u + utotal us). lia.
Qed.

Lemma utotal_app us ws : utotal (us ++ ws) = utotal us + utotal ws.
Proof. unfold utotal. by rewrite map_app, zsum_app. Qed.

(** A fee that a total covers is an integer, and never below the floor. *)
Lemma feeFor_covered size rate t :
  (Int t >=? feeFor size rate)%num = true →
  ∃ f, feeFor size rate = Int f ∧ RECOMMENDED_MIN_TX_FEE ≤ f ≤ t.
Proof.
  unfold feeFor. set (x := (_ / _)%num). intros H.
  destruct x as [|[]|m k]; cbn [num_ceil num_max] in *; try done.
  - cbn [num_ltb num_max] in *. rewrite int_leb in H. simp_bool. eexists; split; [done|lia].
  - set (c := - (- m / 2 ^ k)) in *. cbn [num_max] in *. rewrite int_ltb in *.
    destruct (Z.ltb_spec c RECOMMENDED_MIN_TX_FEE); rewrite int_leb in H; simp_bool; eexists; (split; [done|lia]).
Qed.

(** What a selection is: a total, the fee for its size, and change that is
    nothing or more than dust. *)
Definition good_funding (sel : funding) (rate : Number) (n t f : Z) : Prop :=
  fd_total sel = Int t ∧ t = utotal (fd_selected sel)
  ∧ feeFor (estimateTransferSize (1 + zlen (fd_selected sel)) n 1) rate = Int f
  ∧ RECOMMENDED_MIN_TX_FEE ≤ f ≤ t
  ∧ (t - f < DEFAULT_DUST_LIMIT ∧ fd_fee sel = Int t ∧ fd_change sel = Int 0
     ∨ DEFAULT_DUST_LIMIT ≤ t - f ∧ fd_fee sel = Int f ∧ fd_change sel = Int (t - f)).

Lemma funding_loop_spec rate n sorted selected sel :
  Forall (λ u, usable u = true) sorted → 0 ≤ utotal selected →
  utotal selected + utotal sorted ≤ 2 ^ 53 →
  funding_loop rate n sorted selected (Int (utotal selected)) = inl sel →
  ∃ pre post t f, sorted = pre ++ post ∧ fd_selected sel = selected ++ pre ∧ good_funding sel rate n t f.
Proof.
  intros Hu. revert selected. induction Hu as [|u us Hu Hus IH]; intros selected H0 Hl H; [done|].
  cbn [funding_loop] in H. destruct (usable_value u Hu) as [Ev Hv].
  pose proof (utotal_nonneg us Hus). change (utotal (u :: us)) with (uval u + utotal us) in Hl.
  rewrite Ev, int_add in H by lia.
  assert (utotal selected + uval u = utotal (selected ++ [u])) as Et
    by (rewrite utotal_app; cbn; lia).
  rewrite Et in H. set (t := utotal (selected ++ [u])) in *.
  destruct (Int t >=? feeFor _ _)%num eqn:Ec.
  - destruct (feeFor_covered _ _ _ Ec) as (f & Ef & Hf). rewrite Ef in H.
    change RECOMMENDED_MIN_TX_FEE with 1000000 in Hf.
    rewrite int_sub, int_ltb in H by lia.
    exists [u], us. exists t, f. destruct (Z.ltb_spec (t - f) DEFAULT_DUST_LIMIT); injection H as <-;
      (split_and!; [done|done|]); unfold good_funding; cbn [fd_total fd_selected fd_fee fd_change];
      change RECOMMENDED_MIN_TX_FEE with 1000000; (split_and!; [done..|lia|lia|]); tauto.
  - apply IH in H as (pre & post & t' & f & -> & Es & Hg); [|lia|lia].
    exists (u :: pre), post, t', f. split_and!; [done| |done]. by rewrite Es, <-app_assoc.
Qed.

Lemma selectFunding_spec us rate n sel :
  utotal (List.filter usable us) ≤ 2 ^ 53 →
  selectFunding us rate n = inl sel →
  ∃ rest t f, fd_selected sel ++ rest ≡ₚ List.filter usable us ∧ good_funding sel rate n t f.
Proof.
  intros Hl. unfold selectFunding. destruct (_ =? 0)%nat; [done|]. intros H.
  set (sorted := js_sort _ _) in H.
  assert (sorted ≡ₚ List.filter usable us) as Hp by apply js_sort_perm.
  assert (Forall (λ u, usable u = true) sorted) as Hu.
  { rewrite Hp. apply Forall_forall. intros u Hin. apply list_elem_of_In, filter_In in Hin. tauto. }
  assert (utotal sorted = utotal (List.filter usable us)) as Et by (by apply zsum_perm, Permutation_map).
  apply (funding_loop_spec rate n sorted [] sel) in H as (pre & post & t & f & Es & Esel & Hg);
    [|done|done|cbn; lia].
  exists post, t, f. split; [|done]. by rewrite Esel, <-Hp, Es.
Qed.

Lemma plan_outputs_int a r z c to own :
  plan_outputs (Int a) (Int r) (Int z) (Int c) to own
  = [PlanOutput OUTPUT_TOKEN_RECIPIENT (Int a) to (Some (Int z))]
    ++ (if 0 <? r then [PlanOutput OUTPUT_TOKEN_CHANGE (Int r) own (Some (Int z))] else [])
    ++ (if 0 <? c then [PlanOutput OUTPUT_WHIP_CHANGE (Int c) own None] else []).
Proof. unfold plan_outputs. by rewrite !int_ltb. Qed.

Lemma is_token_kind o : is_token o = match po_kind o with OUTPUT_WHIP_CHANGE => false | _ => true end.
Proof. unfold is_token. by destruct (po_kind o). Qed.

(** The covenant outputs carry the amount and the remainder. *)
Lemma token_sum a r z c to own :
  0 ≤ a → 0 ≤ r → a + r ≤ 2 ^ 53 →
  fold_left (λ sum o, sum + po_value o)%num
    (List.filter is_token (plan_outputs (Int a) (Int r) (Int z) (Int c) to own)) (Int 0) = Int (a + r).
Proof.
  intros Ha Hr Hl. rewrite plan_outputs_int.
  destruct (Z.ltb_spec 0 r), (Z.ltb_spec 0 c); cbn [app List.filter]; rewrite !is_token_kind;
    cbn [po_kind fold_left po_value];
    repeat (rewrite int_add by lia); f_equal; lia.
Qed.

(** C6 A plan conserves the token: all of the position's value goes to covenant
    outputs, the amount to the recipient and the rest, if any, back to the
    sender, neither of them dust.  The fee is paid out of the other coins
    alone, is never below the floor nor below what the rate asks for the
    estimated size, and what is left of them is returned unless it is dust. *)
Theorem planTransfer_conserves_tokens i p :
  utotal (List.filter usable (elements (ti_fundingUtxos i))) ≤ 2 ^ 53 →
  planTransfer i = Ok (inl p) →
  ∃ v z a f c rest,
    field (ti_position i) "value" = Num (Int v) ∧ field (ti_position i) "multiplier" = Num (Int z)
    ∧ ti_amountSats i = Num (Int a)
    ∧ tp_tokenValueIn p = Int v ∧ tp_tokenValueOut p = Int v
    ∧ HARD_DUST_LIMIT ≤ a ≤ v ∧ (a = v ∨ HARD_DUST_LIMIT ≤ v - a)
    ∧ tp_fundingInputs p ++ rest ≡ₚ List.filter usable (elements (ti_fundingUtxos i))
    ∧ tp_fee p = Int f ∧ tp_change p = Int c ∧ utotal (tp_fundingInputs p) = f + c
    ∧ RECOMMENDED_MIN_TX_FEE ≤ f ∧ (c = 0 ∨ DEFAULT_DUST_LIMIT ≤ c)
    ∧ num_leb (feeFor (estimateTransferSize (1 + zlen (tp_fundingInputs p)) (if a <? v then 2 else 1) 1)
                (tp_feeRate p)) (Int f) = true
    ∧ tp_outputs p =
        [PlanOutput OUTPUT_TOKEN_RECIPIENT (Int a) (tp_toPubKey p) (Some (Int z))]
        ++ (if a <? v then [PlanOutput OUTPUT_TOKEN_CHANGE (Int (v - a)) (tp_ownPubKey p) (Some (Int z))] else [])
        ++ (if 0 <? c then [PlanOutput OUTPUT_WHIP_CHANGE (Int c) (tp_ownPubKey p) None] else []).
Proof.
  intros Hl (v & z & own & to & a & sel & Hg & Hs & ->)%planTransfer_inv.
  destruct (selectFunding_spec _ _ _ _ Hl Hs) as (rest & t & f & Hp & Et & Eu & Ef & Hf & Hc).
  destruct Hg as [[_ _ Ev Hv Ez _ _ _ _ _] _ _ _ Ea [Hd Hr] _].
  unfold MAX_SAFE_SATS, MAX_SAFE_INTEGER in Hv. change HARD_DUST_LIMIT with 100000 in *.
  assert (∃ f' c, fd_fee sel = Int f' ∧ fd_change sel = Int c ∧ t = f' + c ∧ f ≤ f'
          ∧ (c = 0 ∨ DEFAULT_DUST_LIMIT ≤ c)) as (f' & c & Ef' & Ec & Esum & Hff & Hcc).
  { destruct Hc as [(_ & E1 & E2)|(Hd' & E1 & E2)]; [exists t, 0|exists f, (t - f)]; split_and!; auto; lia. }
  exists v, z, a, f', c, rest. replace (a <? v) with (0 <? v - a) by lia.
  unfold make_plan. rewrite Ea, Ec. cbn [as_num tp_tokenValueIn tp_tokenValueOut
    tp_fundingInputs tp_fee tp_change tp_feeRate tp_outputs tp_toPubKey tp_ownPubKey].
  rewrite token_sum, plan_outputs_int, Ef, int_leb by lia. replace (a + (v - a)) with v by lia.
  split_and!; try done; lia.
Qed.

(** A position of the generator's key, two coins, and a request to send part of it. *)
Definition sample_key : bytes := 4 :: be_bytes 32 Gx ++ be_bytes 32 Gy.
Definition sample_txid : string := repeat_char "a"%char 64.
Definition sample_origin : string := repeat_char "7"%char 64.
Definition sample_held : jsval :=
  Obj [("txid", Str sample_txid); ("vout", Num (Int 1)); ("value", Num (Int 500000000000));
       ("multiplier", Num (Int 1000)); ("pubkey", U8 sample_key); ("origin", Str sample_origin)].
Definition sample_utxo (v : Z) : jsval :=
  Obj [("txid", Str sample_txid); ("vout", Num (Int 0)); ("value", Num (Int v))].
Definition sample_request : transfer_input :=
  {| ti_position := sample_held; ti_ownPubKey := U8 sample_key; ti_toPubKey := U8 sample_key;
     ti_toAddress := Undef; ti_network := None; ti_amountSats := Num (Int 200000000000);
     ti_fundingUtxos := Arr [sample_utxo 9000000; Null; sample_utxo 200000]; ti_feeRate := Num (Int 1000000) |}.

Lemma sample_plan_ok : match planTransfer sample_request with Ok (inl _) => True | _ => False end.
Proof. by vm_compute. Qed.

Lemma planTransfer_conserves_tokens_witness :
  ∃ p, planTransfer sample_request = Ok (inl p) ∧ tp_tokenValueOut p = tp_tokenValueIn p.
Proof.
  pose proof sample_plan_ok as Hok.
  destruct (planTransfer sample_request) as [[p|]|] eqn:E; [|destruct Hok|destruct Hok].
  exists p. split; [reflexivity|].
  destruct (planTransfer_conserves_tokens sample_request p) as (v & z & a & f & c & rest & H);
    [by vm_compute|exact E|].
  destruct H as (_ & _ & _ & Hin & Hout & _). rewrite Hin, Hout. reflexivity.
Defined.

(** ** Recipients and refusals *)

(** C29 A plan is for the wallet's own position and pays a key that exists: the
    recorded owner is the wallet's key, both keys are points of the curve, and
    where an address was given, it is the recipient's address on the chosen
    network. *)
Theorem planTransfer_checks_keys i p :
  planTransfer i = Ok (inl p) →
  normalizePubKey (field (ti_position i) "pubkey") = Some (tp_ownPubKey p)
  ∧ normalizePubKey (ti_ownPubKey i) = Some (tp_ownPubKey p)
  ∧ normalizePubKey (ti_toPubKey i) = Some (tp_toPubKey p)
  ∧ is_ok (fromBytes (tp_ownPubKey p)) = true ∧ is_ok (fromBytes (tp_toPubKey p)) = true
  ∧ (is_nullish (ti_toAddress i) = true ∨ trim (js_String (ti_toAddress i)) = EmptyString
     ∨ ∃ vs, assoc (default "mainnet" (ti_network i)) VERSIONS = Some vs
         ∧ base58checkDecode (trim (js_String (ti_toAddress i)))
           = Ok (Decoded (PUBKEY_ADDRESS vs) (hash160 (tp_toPubKey p)))).
Proof.
  intros (v & z & own & to & a & sel & Hg & _ & ->)%planTransfer_inv.
  cbn [make_plan tp_ownPubKey tp_toPubKey].
  assert (∀ v pk, normalizePubKey v = Some pk → is_ok (fromBytes pk) = true) as Hn.
  { intros w pk. unfold normalizePubKey. intros (bs & _ & H)%bind_Some.
    destruct (negb _); [done|]. destruct (fromBytes bs) eqn:E; [|done]. simplify_eq. by rewrite E. }
  destruct Hg as [Hp Eo Et Ha _ _ _]. pose proof (gp_owner _ _ _ _ Hp).
  split_and!; [done..|by eapply Hn|by eapply Hn|]. unfold check_address in Ha.
  destruct (is_nullish (ti_toAddress i)); [by left|]. right. set (addr := trim _) in *.
  destruct (str_eqb addr EmptyString) eqn:Ee; [left; by apply str_eqb_eq|]. right. cbn [orb] in Ha.
  destruct (base58checkDecode addr) as [[ver pl]|]; [|done]. destruct (assoc _ _) as [vs|]; [|done].
  exists vs. split; [done|]. cbn [Addr.version payload] in Ha. case_in Ha. simp_bool.
  apply sameBytes_eq in Heqb1. by subst.
Qed.

Lemma planTransfer_checks_keys_witness :
  ∃ p, planTransfer sample_request = Ok (inl p) ∧ is_ok (fromBytes (tp_toPubKey p)) = true.
Proof.
  pose proof sample_plan_ok as Hok.
  destruct (planTransfer sample_request) as [[p|]|] eqn:E; [|destruct Hok|destruct Hok].
  exists p. split; [reflexivity|]. apply (planTransfer_checks_keys sample_request p E).
Defined.

(** C30 Planning is total: whatever values it is handed, [planTransfer] returns,
    and where it returns no plan it names at least one reason. *)
Theorem planTransfer_total i :
  u8_ok (field (ti_position i) "script_hex") →
  ∃ r, planTransfer i = Ok r ∧ ∀ es, r = inr es → es ≠ [].
Proof.
  intros Hu. assert (is_ok (planTransfer i) = true) as Hok.
  { unfold planTransfer.
    assert (∃ r, check_position (ti_position i) = Ok r) as [[e1 facts] ->].
    { unfold check_position. destruct (_ || _); [by eexists|].
      destruct (check_value _), (check_multiplier _), (check_recorded_owner _).
      assert (∃ e, check_script (ti_position i) o1 o0 = Ok e) as [e ->]; [|by eexists].
      unfold check_script. destruct (truthy _); [|by eexists].
      destruct (validatePositionScript_total (field (ti_position i) "script_hex") o1 o0
                  (Some (is_true (field (ti_position i) "is_mint"))) Hu) as [r ->]. by eexists. }
    cbn [mbind res_bind]. destruct (check_amount _ _). repeat case_match; done. }
  destruct (planTransfer i) as [r|] eqn:E; [|done]. exists r. split; [done|]. intros es ->.
  by eapply planTransfer_errors.
Qed.

Lemma planTransfer_total_witness :
  ∃ r, planTransfer (TransferInput Null Undef (Num NaN) (Obj []) None (Str "1") (Arr []) Null) = Ok r
    ∧ ∀ es, r = inr es → es ≠ [].
Proof. apply planTransfer_total. exact I. Defined.

(** ** The transaction *)

(** The coins the loop signs. *)
Definition funding_coin (privKey ownPubKey ownScript : bytes) (u : jsval) : res coin :=
  sc ← coin_script u ownScript;
  Ok (Coin (as_str (field u "txid")) (int_of (js_Number (field u "vout"))) (utxo_value u) sc privKey ownPubKey).

Lemma sign_funding_loop secp k own sc us i t t' :
  sign_funding secp k own sc us i t = Ok t' →
  ∃ cs, mapR (funding_coin k own sc) us = Ok cs ∧ sign_loop secp cs i t = Ok t'.
Proof.
  revert i t. induction us as [|u us IH]; intros i t H; [by exists []|].
  cbn [sign_funding] in H. apply bind_Ok in H as (s & Hs & H). apply bind_Ok in H as (sig & Hsig & H).
  apply IH in H as (cs & Hcs & Hl).
  eexists (Coin _ _ _ s k own :: cs). split.
  - cbn [mapR]. rewrite Hcs. unfold funding_coin. by rewrite Hs.
  - cbn [sign_loop c_scriptCode c_privKey c_pubKey]. by rewrite Hsig.
Qed.

(** A built output pays what was planned: a covenant of the lineage, or change
    to the wallet's key. *)
Definition builds (origin : bytes) (out : plan_output) (o : txout) : Prop :=
  out_value o = po_value out ∧
  if is_token out
  then parseUapScript (out_scriptPubKey o)
       = Some (UapScript (po_pubKey out) (default NaN (po_multiplier out)) origin false)
  else out_scriptPubKey o = buildP2PKHScript (po_pubKey out).

(** Keys of the size a covenant accepts. *)
Definition key_ok (pk : bytes) : Prop := is_bytes pk ∧ (zlen pk = 33 ∨ zlen pk = 65).

Lemma build_outputs_spec origin outs vout :
  is_bytes origin → Forall (λ out, key_ok (po_pubKey out)) outs →
  mapR (build_output origin) outs = Ok vout → Forall2 (builds origin) outs vout.
Proof.
  intros Ho Hk H. apply mapR_Ok in H. induction H as [|out o outs vout Hout _ IH]; [constructor|].
  apply Forall_cons in Hk as [[Hb Hl] Hk]. constructor; [|by apply IH].
  unfold builds. rewrite is_token_kind. unfold build_output in Hout.
  destruct (po_kind out); simp_res; cbn [out_value out_scriptPubKey]; (split; [done|]); try done;
    by eapply buildTransferScript_parse.
Qed.

(** C7 The transaction of a plan moves the position: its first input spends it,
    signed with the wallet's key over the covenant of that key; the others
    spend the planned coins, each signed; every covenant output carries the
    planned value, key and multiplier and the lineage of the position, and the
    last one, if any, returns the change. *)
Theorem buildTransferTx_moves_position secp p k hex t outs :
  u8_ok (field (tp_position p) "script_hex") → key_ok (tp_ownPubKey p) →
  Forall (λ out, key_ok (po_pubKey out)) (tp_outputs p) →
  buildTransferTx secp p (Some k) = Ok (hex, t, outs) →
  ∃ s r origin sig,
    positionScriptOf (tp_position p) (tp_ownPubKey p) (tp_multiplier p) = Ok s
    ∧ parseUapScript s = Some r ∧ pubkey r = tp_ownPubKey p ∧ multiplier r = tp_multiplier p
    ∧ (if isMint r then deriveOrigin (as_str (field (tp_position p) "txid")) (as_num (field (tp_position p) "vout"))
       else Ok (Script.origin r)) = Ok origin
    ∧ Forall2 (builds origin) (tp_outputs p) (tx_vout t)
    ∧ map (λ v, (in_txid v, in_vout v)) (tx_vin t)
      = map (λ v, (in_txid v, in_vout v)) (map spend_of (tp_position p :: tp_fundingInputs p))
    ∧ signSpend secp s k t 0 None = Ok sig ∧ in_scriptSig <$> tx_vin t !! 0%nat = Some (Some sig)
    ∧ (∀ i u, tp_fundingInputs p !! i = Some u →
         ∃ sc sig, coin_script u (buildP2PKHScript (tp_ownPubKey p)) = Ok sc
           ∧ signP2PKHInput secp sc k (tp_ownPubKey p) t (S i) None = Ok sig
           ∧ in_scriptSig <$> tx_vin t !! S i = Some (Some sig))
    ∧ txToHex t = Ok hex.
Proof.
  intros Hu [Hob Hol] Hk H. unfold buildTransferTx in H. apply bind_Ok in H as ([] & _ & H).
  apply bind_Ok in H as (s & Hs & H). apply bind_Ok in H as (origin & Ho & H).
  apply bind_Ok in H as (vout & Hv & H). apply bind_Ok in H as (sig & Hsig & H).
  apply bind_Ok in H as (t' & Ht & H). apply bind_Ok in H as (hex' & Hhex & H).
  apply Ok_inj in H. injection H as -> -> <-.
  destruct (positionScript_covenant _ _ _ _ Hu Hob Hol Hs) as (r & z & Hw & Es & Hpk & Hm & _).
  assert (is_bytes s) as Hsb by (rewrite Es; by apply covenant_bytes).
  pose proof (originForSpend_32 s _ _ _ Hsb Ho) as [Hoo _].
  apply sign_funding_loop in Ht as (cs & Hcs & Ht).
  apply sign_loop_spec in Ht as (Eq & Eo & _ & _ & Hpre & Hsign).
  set (t0 := Tx (Some 1) _ vout (Some 0)) in *.
  assert (t ≡ t0) as Et by (rewrite Eq; apply set_scriptSig_equiv). pose proof Et as (_ & Ei & _).
  exists s, r, origin, sig. split_and!; [done|rewrite Es; by apply parse_complete|done|done|..].
  - rewrite <-Ho, Es. symmetry. apply originForSpend_covenant. intros E.
    destruct Hw as (_ & _ & _ & _ & _ & Hl). by rewrite E in Hl.
  - rewrite Eo. by apply build_outputs_spec.
  - by rewrite (vins_equiv_outpoints _ _ Ei).
  - by rewrite (signSpend_equiv _ _ _ _ _ _ _ Et).
  - by rewrite Hpre by lia.
  - intros i u Hi. apply mapR_Ok in Hcs. destruct (Forall2_lookup_l _ _ _ _ _ Hcs Hi) as (c & Hc & Hcoin).
    apply bind_Ok in Hcoin as (sc & Hsc & Hcoin). apply Ok_inj in Hcoin as <-.
    destruct (Hsign i _ (spend_of u) Hc) as (sig' & Hsig' & Hvin).
    { cbn [set_scriptSig tx_vin t0 alter list_alter lookup list_lookup Nat.add].
      by rewrite (list_lookup_fmap spend_of), Hi. }
    exists sc, sig'. cbn [c_scriptCode c_privKey c_pubKey Nat.add] in *. by rewrite Hvin.
  - done.
Qed.

(** A plan of the wallet with the compressed key [sample_own]. *)
Definition sample_plan : transfer_plan :=
  make_plan sample_request (Int 1000) (Int 500000000000) (Int 300000000000) sample_own sample_own
    (Funding [sample_utxo 9000000] (Int 9000000) (Int 1000000) (Int 8000000)).

(** The fee estimate allows 49 bytes for a covenant output, but the covenant
    carries a 32-byte origin: a transfer with a remainder is larger than the
    size its fee was computed from. *)
Lemma transfer_size_underestimated :
  match buildTransferTx sample_secp sample_plan (Some [1]) with
  | Ok (hex, t, _) =>
      length (tx_vin t) = 2%nat ∧ length (tx_vout t) = 3%nat
      ∧ 2 * estimateTransferSize 2 2 1 < slen hex
  | Throw _ => False
  end.
Proof. vm_compute. split_and!; reflexivity. Qed.

Lemma buildTransferTx_moves_position_witness :
  ∃ hex t outs, buildTransferTx sample_secp sample_plan (Some [1]) = Ok (hex, t, outs)
    ∧ Forall2 (builds (replicate 32 0x77)) (tp_outputs sample_plan) (tx_vout t).
Proof.
  pose proof transfer_size_underestimated as Hok.
  destruct (buildTransferTx sample_secp sample_plan (Some [1])) as [[[hex t] outs]|] eqn:E; [|destruct Hok].
  exists hex, t, outs. split; [reflexivity|].
  assert (is_bytes sample_own) as Hb by (apply (bool_decide_unpack (is_bytes _)); reflexivity).
  assert (key_ok sample_own) as Hk by (split; [exact Hb|left; reflexivity]).
  destruct (buildTransferTx_moves_position sample_secp sample_plan [1] hex t outs)
    as (s & r & o & sig & Hs & Hr & _ & _ & Ho & Hout & _);
    [exact I|exact Hk|do 3 (constructor; [exact Hk|]); constructor|exact E|].
  assert (positionScriptOf (tp_position sample_plan) (tp_ownPubKey sample_plan) (tp_multiplier sample_plan)
    = Ok (33 :: sample_own ++ [2; 232; 3] ++ 32 :: replicate 32 0x77 ++ [0xba])) as Hs' by (vm_compute; reflexivity).
  rewrite Hs' in Hs. apply Ok_inj in Hs as <-. vm_compute in Hr. injection Hr as <-.
  cbn [isMint Script.origin] in Ho. apply Ok_inj in Ho as <-. exact Hout.
Defined.
