(* ===== verification/Market.v ===== *)
(** * Market: [contrib/uap-web/market.js], the taker's side of the market

    [describeOrder] prints a row of the order book, [verifyPosition] checks a
    position against the bytes of the transaction that created it, [planFill]
    and [buildFillTx] plan, build and sign the transaction that takes an order.
    [publishFill] of [app.js] composes the last three.

    The relay is a parameter: [getRawTx], any function from a txid to an answer
    or a failure.  Orders and positions are values of no particular shape;
    numbers are read from fields the API client has checked to be numbers
    ([Api]), anything else reading as NaN.

    The theorems: what [verifyPosition] returns is determined by the txid, or a
    collision of the hash has been found; a plan balances to the satoshi; a
    published fill pays the maker's price and moves the position's whole
    on-chain value to the taker under its own lineage and multiplier. *)

From stdpp Require Import base tactics option list numbers strings pretty.
From Stdlib Require Import ZArith Lia Ascii.
From S2P Require Import Prelude JsInt JsStr JsNum JsVal Effects Words Sha256 Addr Script Tx Payments Orders.
From S2P Require Import Transfer.

(** ** Describing an order *)

(** [Number#toFixed]: the nearest multiple of 10^-f, ties away from zero. *)
Definition fixed_digits (n f : Z) : string :=
  let s := dec n in
  let s := zeros (f + 1 - slen s) +:+ s in
  if f =? 0 then s else take_str (slen s - f) s +:+ "." +:+ drop_str (slen s - f) s.

Definition toFixed (x : Number) (f : Z) : string :=
  match x with
  | Fin m k =>
      if 10 ^ 21 * 2 ^ k <=? Z.abs m then num_str x
      else
        let n := (2 * Z.abs m * 10 ^ f + 2 ^ k) / (2 * 2 ^ k) in
        (if m <? 0 then "-" else EmptyString) +:+ fixed_digits n f
  | _ => num_str x
  end.

(** A middle dot between spaces. *)
Definition separator : string := str_of [chr 32; chr 183; chr 32].

Definition describeOrder (order : jsval) : string :=
  let pubkey := field order "pubkey" in
  let maker := take_str 16 (js_String (if truthy pubkey then pubkey else Str EmptyString)) in
  let payment := js_Number (field order "payment_value") in
  let price := toFixed (payment / Int COIN) 8 in
  let backing := as_num (field order "backing_value") in
  let parts :=
    ["SELL multiplier=" +:+ js_String (field order "multiplier")]
    ++ (if (backing >? Int 0)%num
        then ["backed by " +:+ toFixed (backing / Int COIN) 8 +:+ " coins";
              "@ " +:+ price +:+ " coins (" +:+ toFixed (payment / backing) 2 +:+ "x par)"]
        else ["@ " +:+ price +:+ " coins"; "backing unknown -- this relay does not publish it"])
    ++ [js_String (field order "payment_value") +:+ " sats"] in
  join separator parts +:+ " (maker: " +:+ maker +:+ "...)".

(** ** Verifying a position *)

(** [{ value, scriptPubKey, multiplier, origin, pubkey }]. *)
Record verified := Verified {
  vp_value : Number;
  vp_scriptPubKey : bytes;
  vp_multiplier : Number;
  vp_origin : string;
  vp_pubkey : string
}.

(** [list[n]]: the element an integer in range names. *)
Definition at_index {A} (l : list A) (n : Number) : option A :=
  match n with
  | Fin m k => if (k =? 0) && (0 <=? m) then l !! Z.to_nat m else None
  | _ => None
  end.

(** [v === n]. *)
Definition is_number (v : jsval) (n : Number) : bool := match v with Num m => (m =? n)%num | _ => false end.

Definition failed : string := "Position verification failed: ".

(** What the bytes of a transaction say of the output an order sells, once
    they are known to hash to its txid. *)
Definition read_position (order position : jsval) (txid : string) (vout : Number) (rawHex : string) :
    res verified :=
  actualTxid ← txidFromBytes (inl rawHex);
  _ ← throw_if (negb (str_eqb actualTxid txid))
        (failed +:+ "the relay served transaction bytes that " +:+ "hash to " +:+ actualTxid
         +:+ ", not the order's txid " +:+ txid +:+ ". Refusing to "
         +:+ "trust anything else this relay says about this position.");
  t ← try_catch (deserializeTx (inl rawHex))
        (λ e, Throw (failed +:+ "could not parse the (hash-verified) " +:+ "transaction " +:+ txid +:+ ": " +:+ e));
  match at_index (tx_vout t) vout with
  | None => Throw (failed +:+ "transaction " +:+ txid +:+ " has no output " +:+ num_str vout
                   +:+ ", but the order claims to be selling it.")
  | Some output =>
      match parseUapScript (out_scriptPubKey output) with
      | None => Throw (failed +:+ txid +:+ ":" +:+ num_str vout +:+ " is not a UAP "
                       +:+ "mint or transfer covenant on chain. Refusing to fill an order against it.")
      | Some parsed =>
          actual ← (if isMint parsed then deriveOrigin txid vout else Ok (Script.origin parsed));
          let actualOrigin := bytesToHex actual in
          let origin := field order "origin" in
          _ ← throw_if match origin with
                       | Str s => negb (str_eqb (toLowerCase s) actualOrigin)
                       | _ => true
                       end
                (failed +:+ "order claims origin " +:+ js_String origin +:+ ", but "
                 +:+ "the position's real scriptPubKey carries " +:+ actualOrigin +:+ ". Refusing to "
                 +:+ "fill -- this relay cannot be trusted about this order.");
          let multiplier := field order "multiplier" in
          _ ← throw_if (negb (is_number multiplier (Script.multiplier parsed)))
                (failed +:+ "order claims multiplier " +:+ js_String multiplier +:+ ", "
                 +:+ "but the position's real scriptPubKey carries " +:+ num_str (Script.multiplier parsed) +:+ ". "
                 +:+ "Refusing to fill -- this relay cannot be trusted about this order.");
          let value := if truthy position then field position "value" else Undef in
          _ ← throw_if match value with Num v => negb (v =? out_value output)%num | _ => false end
                (failed +:+ "the relay reported this position as worth "
                 +:+ js_String value +:+ " satoshis, but its real, on-chain value is "
                 +:+ num_str (out_value output) +:+ " "
                 +:+ "satoshis. Refusing to fill -- building against the relay's figure would "
                 +:+ "either burn the difference to fees (if it under-reports) or fail at the "
                 +:+ "node (if it over-reports).");
          Ok (Verified (out_value output) (out_scriptPubKey output) (Script.multiplier parsed)
                actualOrigin (bytesToHex (pubkey parsed)))
      end
  end.

Section relay.
(** [api.getRawTx(txid)]: the hex the relay serves, or a failure. *)
Context {W : Type} (getRawTx : string → io W string).

Definition verifyPosition (order position : jsval) : io W verified :=
  match field order "txid", field order "vout" with
  | Str txid, Num vout =>
      rawHex ← getRawTx txid;
      lift (read_position order position txid vout rawHex)
  | _, _ => lift (Throw "verifyPosition: order is missing a txid/vout to verify against")
  end.
End relay.

(** ** Planning a fill *)

Record fill_plan := FillPlan {
  fp_takerInputs : list jsval;
  fp_paymentValue : Number;
  fp_fee : Number;
  fp_change : Number;
  fp_feeRate : Number;
  fp_tokenValue : Number
}.

(** [utxos.reduce((sum, u) => sum + u.value, 0)]. *)
Definition sum_utxos (us : list jsval) : Number := fold_left (λ sum u, sum + utxo_value u)%num us (Int 0).

(** [market.js]'s own copy of the library's estimate. *)
Definition estimateFillSize (nInputs nOutputs : Z) : Z :=
  let size := 10 in
  let size := size + nInputs * 150 in
  let size := size + nOutputs * 34 in
  size.

Definition str_if (c : bool) (m : string) : list string := if c then [m] else [].

Definition planFill (order position : jsval) (takerUtxos : option (list jsval)) (takerPubkey : option bytes)
    (feeRate : Number) : fill_plan + list string :=
  let us := default [] takerUtxos in
  let missing :=
    str_if (negb (truthy order)) "Order is required"
    ++ str_if (negb (truthy position)) "Position is required"
    ++ str_if (length us =? 0)%nat "Taker UTXOs required"
    ++ str_if match takerPubkey with None => true | _ => false end "Taker pubkey required" in
  match missing with
  | _ :: _ => inr missing
  | [] =>
      let totalUtxoValue := sum_utxos us in
      let paymentRequired := as_num (field order "payment_value") in
      let nInputs := 1 + zlen us in
      let nOutputs := 2 in
      let estimatedSize := estimateFillSize nInputs (nOutputs + 1) in
      let estimatedFee := num_ceil (Int estimatedSize * feeRate / Int 1000) in
      let minFee := num_max estimatedFee (Int RECOMMENDED_MIN_TX_FEE) in
      let totalNeeded := (paymentRequired + minFee)%num in
      let change := (totalUtxoValue - totalNeeded)%num in
      let errors :=
        str_if (totalUtxoValue <? totalNeeded)%num
          ("Insufficient funds: need " +:+ num_str totalNeeded +:+ " sats for payment + fee, have "
           +:+ num_str totalUtxoValue +:+ " sats. Shortfall: " +:+ num_str (totalNeeded - totalUtxoValue) +:+ " sats")
        ++ str_if (paymentRequired <? Int HARD_DUST_LIMIT)%num
             ("Payment value " +:+ num_str paymentRequired +:+ " sats is below dust limit "
              +:+ dec HARD_DUST_LIMIT +:+ " sats")
        ++ str_if ((totalUtxoValue >=? totalNeeded)%num && (change >? Int 0)%num
                   && (change <? Int DEFAULT_DUST_LIMIT)%num)
             ("Transaction produces dust change (" +:+ num_str change
              +:+ " sats). Need more input or different payment amount.") in
      match errors with
      | _ :: _ => inr errors
      | [] =>
          inl (FillPlan us paymentRequired minFee (totalUtxoValue - paymentRequired - minFee)%num feeRate
                 (as_num (field position "value")))
      end
  end.

(** ** Building a fill *)

Definition no_lineage_message : string :=
  "this order does not publish its position's lineage origin, so the "
  +:+ "token output cannot be built: the relay must serve `origin` on every "
  +:+ "order (a taker cannot derive it -- see fillOrder in uap-js)".

(** The coin a taker's output is, for signing. *)
Definition taker_coin (privKey pubKey : bytes) (u : jsval) : coin :=
  Coin (as_str (field u "txid")) (int_of (js_Number (field u "vout"))) (utxo_value u)
    (buildP2PKHScript pubKey) privKey pubKey.

(** [{ rawHex, tx }]. *)
Definition buildFillTx (secp : secp) (plan : fill_plan) (privKey pubKey : bytes) (order position : jsval)
    (takerUtxos : list jsval) : res (string * tx) :=
  let origin := field order "origin" in
  _ ← throw_if (negb (truthy origin) || negb (is_lower_hex_of 64 (js_String origin))) no_lineage_message;
  originBytes ← hexToBytes_of origin;
  scriptSig ← hexToBytes (as_str (field order "script_sig"));
  paymentScript ← hexToBytes (as_str (field order "payment_script"));
  let makerOrder :=
    Order scriptSig (as_str (field order "txid")) (int_of (as_num (field order "vout"))) None
      (Some paymentScript) (as_num (field order "payment_value")) (OriginBytes originBytes) in
  let coins := map (taker_coin privKey pubKey) takerUtxos in
  let hasChange := (fp_change plan >=? Int DEFAULT_DUST_LIMIT)%num in
  t ← fillOrder makerOrder
        (FillOpts pubKey (as_num (field order "multiplier")) (as_num (field position "value"))
           (map (λ c, (c_txid c, c_vout c)) coins)
           (if hasChange then buildP2PKHScript pubKey else [])
           (Some (if hasChange then fp_change plan else Int 0)));
  t ← sign_loop secp coins 1 t;
  rawHex ← txToHex t;
  Ok (rawHex, t).

(** ** What a verified position is *)

(** What the chain says: the output [vout] of the transaction [bs], which is a
    covenant. *)
Record on_chain (bs : bytes) (txid : string) (vout : Number) (v : verified) : Prop := {
  oc_bytes : is_bytes bs;
  oc_txid : txidFromBytes (inr bs) = Ok txid;
  oc_output : ∃ t, deserializeTx (inr bs) = Ok t
                ∧ at_index (tx_vout t) vout = Some (TxOut (vp_value v) (vp_scriptPubKey v));
  oc_covenant : ∃ r o, parseUapScript (vp_scriptPubKey v) = Some r
                  ∧ (if isMint r then deriveOrigin txid vout else Ok (Script.origin r)) = Ok o
                  ∧ vp_origin v = bytesToHex o ∧ vp_multiplier v = Script.multiplier r
                  ∧ vp_pubkey v = bytesToHex (pubkey r)
}.

(** What an order, and a position, claim of it. *)
Record claims_agree (order position : jsval) (v : verified) : Prop := {
  ca_origin : ∃ s, field order "origin" = Str s ∧ toLowerCase s = vp_origin v;
  ca_multiplier : field order "multiplier" = Num (vp_multiplier v) ∧ vp_multiplier v ≠ NaN;
  ca_value : truthy position = true → ∀ n, field position "value" = Num n → n = vp_value v
}.

Lemma hex_data {A} (f : bytes → res A) (hex : string) a :
  (bs ← raw_data (inl hex); f bs) = Ok a → ∃ bs, hexToBytes hex = Ok bs ∧ is_bytes bs ∧ f bs = Ok a.
Proof. intros (bs & Hb & H)%bind_Ok. exists bs. split_and!; [done|by eapply hexToBytes_bytes|done]. Qed.

Lemma is_number_eq v n : is_number v n = true → v = Num n ∧ n ≠ NaN.
Proof.
  destruct v as [| | |m| | | |]; try done. cbn. intros H. pose proof (num_eqb_eq _ _ H) as ->.
  split; [done|]. by intros ->.
Qed.

(** Acceptance is agreement with the chain, in both directions. *)
Lemma read_position_inv order position txid vout raw v :
  read_position order position txid vout raw = Ok v →
  ∃ bs, hexToBytes raw = Ok bs ∧ on_chain bs txid vout v ∧ claims_agree order position v.
Proof.
  unfold read_position. intros (tid & Htid & H)%bind_Ok. apply bind_Ok in H as ([] & Heq & H).
  apply throw_if_Ok, negb_false_iff, str_eqb_eq in Heq as ->. apply bind_Ok in H as (t & Ht & H).
  destruct (deserializeTx (inl raw)) as [t'|] eqn:Ed; [|done]. apply Ok_inj in Ht as ->.
  destruct (at_index _ _) as [[val spk]|] eqn:Eo; [|done]. cbn [out_value out_scriptPubKey] in H.
  destruct (parseUapScript spk) as [r|] eqn:Er; [|done].
  apply bind_Ok in H as (o & Ho & H). cbv zeta in H. apply bind_Ok in H as ([] & H1 & H).
  apply bind_Ok in H as ([] & H2 & H). apply bind_Ok in H as ([] & H3 & H). apply Ok_inj in H as <-.
  apply throw_if_Ok in H1, H2, H3. apply negb_false_iff, is_number_eq in H2 as [H2 H2'].
  apply hex_data in Htid as (bs & Eb & Hb & Htid). exists bs.
  unfold deserializeTx, raw_data in Ed. rewrite Eb in Ed. split_and!; [done|..].
  - split; cbn [vp_value vp_scriptPubKey vp_origin vp_multiplier vp_pubkey]; [done|done|by exists t|].
    by exists r, o.
  - split; cbn [vp_value vp_scriptPubKey vp_origin vp_multiplier vp_pubkey]; [|done|].
    + destruct (field order "origin") as [| | | |s| | |]; try done. exists s. split; [done|].
      by apply str_eqb_eq, negb_false_iff.
    + intros Hp n En. rewrite Hp, En in H3. by apply num_eqb_eq, negb_false_iff.
Qed.

Lemma num_eqb_refl n : n ≠ NaN → num_eqb n n = true.
Proof.
  destruct n; intros H; [done|by apply bool_decide_eq_true..].
Qed.

(** An amount read from bytes is a number. *)
Lemma read_items_Forall {A} (item : bytes → Z → res (A * Z)) (P : A → Prop) bs :
  (∀ pos x next, item bs pos = Ok (x, next) → P x) →
  ∀ fuel count pos xs next, read_items item fuel count bs pos = Ok (xs, next) → Forall P xs.
Proof.
  intros Hi. induction fuel as [|fuel IH]; intros count pos xs next H; cbn [read_items] in H;
    destruct (count <=? 0); simplify_eq; try constructor.
  apply bind_Ok in H as ([x p'] & Hx & H). apply bind_Ok in H as ([xs' p''] & Hxs & H).
  apply Ok_inj in H. simplify_eq. constructor; eauto.
Qed.

Lemma deserializeTx_values bs t :
  deserializeTx (inr bs) = Ok t → Forall (λ o, ∃ z, out_value o = Int z) (tx_vout t).
Proof.
  intros H. unfold deserializeTx in H. cbn [raw_data mbind res_bind] in H. simp_res.
  eapply (read_items_Forall read_vout); [|done]. intros pos o next Ho. unfold read_vout, readInt64LE in Ho.
  simp_res. simp_bool. simplify_eq. eexists. apply of_bigint_safe. unfold MAX_SAFE_INTEGER in *. lia.
Qed.

Lemma on_chain_value bs txid vout v : on_chain bs txid vout v → ∃ z, vp_value v = Int z.
Proof.
  intros [_ _ (t & Ht & Ho) _]. unfold at_index in Ho. destruct vout; [done..|].
  case_match; [|done]. apply deserializeTx_values in Ht.
  by apply (Forall_lookup_1 _ _ _ _ Ht Ho).
Qed.

Lemma read_position_ok order position txid vout raw bs v :
  hexToBytes raw = Ok bs → on_chain bs txid vout v → claims_agree order position v →
  read_position order position txid vout raw = Ok v.
Proof.
  intros Hr Hc. destruct (on_chain_value _ _ _ _ Hc) as [z Hz]. revert Hc.
  intros [Hb Ht (t & Hd & Ho) (r & o & Hp & Hor & E1 & E2 & E3)] [(s & Es & Hs) [Hm Hm'] Hv].
  unfold read_position.
  replace (txidFromBytes (inl raw)) with (Ok txid) by (rewrite <-Ht; unfold txidFromBytes, raw_data; by rewrite Hr).
  cbn [mbind res_bind]. rewrite (proj2 (str_eqb_eq txid txid) eq_refl). cbn [negb throw_if mbind res_bind].
  replace (deserializeTx (inl raw)) with (Ok t) by (rewrite <-Hd; unfold deserializeTx, raw_data; by rewrite Hr).
  cbn [try_catch mbind res_bind]. rewrite Ho. cbn [out_scriptPubKey]. rewrite Hp, Hor. cbn [mbind res_bind out_value].
  rewrite Es, Hm, E2, Hs, E1, (proj2 (str_eqb_eq _ _) eq_refl). cbn [negb throw_if mbind res_bind is_number].
  rewrite num_eqb_refl by congruence. cbn [negb throw_if mbind res_bind].
  replace (match (if truthy position then field position "value" else Undef) with
    | Num v0 => negb (num_eqb v0 (vp_value v)) | _ => false end) with false.
  - cbn [throw_if]. destruct v; cbn in *. by subst.
  - destruct (truthy position); [|done]. specialize (Hv eq_refl).
    destruct (field position "value") as [| | |n| | | |]; try done. rewrite (Hv n eq_refl).
    by rewrite num_eqb_refl by congruence.
Qed.

(** A txid names one transaction, unless its hash collides. *)
Lemma txid_commits bs bs' txid :
  txidFromBytes (inr bs) = Ok txid → txidFromBytes (inr bs') = Ok txid → hash256 bs = hash256 bs'.
Proof.
  unfold txidFromBytes. cbn [raw_data mbind res_bind]. intros <-%Ok_inj H%Ok_inj.
  rewrite !reverseBytes_eq in H by apply hash256_bytes.
  apply (f_equal hexToBytes) in H. rewrite !hexToBytes_bytesToHex in H
    by (apply Forall_reverse, hash256_bytes). apply Ok_inj in H.
  by apply (f_equal reverse) in H; rewrite !reverse_involutive in H.
Qed.

Lemma on_chain_unique bs txid vout v v' :
  on_chain bs txid vout v → on_chain bs txid vout v' → v = v'.
Proof.
  intros [_ _ (t & Ht & Ho) (r & o & Hp & Hor & E1 & E2 & E3)] [_ _ (t' & Ht' & Ho') (r' & o' & Hp' & Hor' & E1' & E2' & E3')].
  rewrite Ht in Ht'. apply Ok_inj in Ht' as <-. rewrite Ho in Ho'. destruct v, v'; cbn in *. simplify_eq.
  rewrite Hor in Hor'. by apply Ok_inj in Hor' as <-.
Qed.

Lemma verifyPosition_inv {W} (getRawTx : string → io W string) order position w w' v :
  verifyPosition getRawTx order position w = (w', Ok v) →
  ∃ txid vout raw bs, field order "txid" = Str txid ∧ field order "vout" = Num vout
    ∧ getRawTx txid w = (w', Ok raw) ∧ hexToBytes raw = Ok bs ∧ on_chain bs txid vout v
    ∧ claims_agree order position v.
Proof.
  unfold verifyPosition. destruct (field order "txid") as [| | | |txid| | |] eqn:Et; try by intros [_ ?]%lift_Ok.
  destruct (field order "vout") as [| | |vout| | | |] eqn:Ev; try by intros [_ ?]%lift_Ok.
  intros H. simp_io. apply read_position_inv in H0 as (bs & Hb & Hc & Ha).
  by exists txid, vout, x0, bs.
Qed.


(** [verifyPosition] accepts exactly the truth: when the relay serves a
    string, the answer is [v] if and only if the string is the hex of bytes
    that hash to the order's txid and whose output there is the covenant [v],
    and the order's origin and multiplier, and the position's value where it
    has one, are those of [v].  So an honest relay's order is never refused. *)
Theorem verifyPosition_exact {W} (getRawTx : string → io W string) order position txid vout w w' raw v :
  field order "txid" = Str txid → field order "vout" = Num vout → getRawTx txid w = (w', Ok raw) →
  verifyPosition getRawTx order position w = (w', Ok v) ↔
  ∃ bs, hexToBytes raw = Ok bs ∧ on_chain bs txid vout v ∧ claims_agree order position v.
Proof.
  intros Et Ev Hr. split.
  - intros (txid' & vout' & raw' & bs & Et' & Ev' & Hr' & Hb & Hc & Ha)%verifyPosition_inv.
    rewrite Et in Et'. rewrite Ev in Ev'. simplify_eq. rewrite Hr in Hr'. simplify_eq. eauto.
  - intros (bs & Hb & Hc & Ha). unfold verifyPosition. rewrite Et, Ev. apply io_bind_Ok.
    exists w', raw. split; [done|]. apply lift_Ok. split; [done|]. by eapply read_position_ok.
Qed.

(** ** Plans *)

(** A list of coins with safe integer values. *)
Definition int_utxos (us : list jsval) : Prop :=
  Forall (λ u, utxo_value u = Int (uval u) ∧ 0 ≤ uval u) us ∧ utotal us ≤ 2 ^ 52.

Lemma utotal_cons u us : utotal (u :: us) = uval u + utotal us.
Proof. done. Qed.

Lemma sum_utxos_from us n :
  Forall (λ u, utxo_value u = Int (uval u) ∧ 0 ≤ uval u) us → 0 ≤ n → n + utotal us ≤ 2 ^ 53 →
  fold_left (λ sum u, sum + utxo_value u)%num us (Int n) = Int (n + utotal us) ∧ 0 ≤ utotal us.
Proof.
  intros H. revert n. induction H as [|u us [Eu Hu] Hus IH]; intros n Hn Hb.
  { cbn. by rewrite Z.add_0_r. }
  rewrite utotal_cons in *. cbn [fold_left].
  destruct (IH 0) as [_ H0]; [lia|lia|]. rewrite Eu, int_add by lia.
  destruct (IH (n + uval u)) as [-> _]; [lia|lia|]. split; [f_equal; lia|lia].
Qed.

Lemma sum_utxos_int us : int_utxos us → sum_utxos us = Int (utotal us) ∧ 0 ≤ utotal us.
Proof. intros [H Hb]. by apply (sum_utxos_from us 0 H); lia. Qed.

Lemma str_if_nil c m : str_if c m = [] ↔ c = false.
Proof. by destruct c. Qed.

Lemma not_natural_false v : not_natural v = false ↔ ∃ z, v = Num (Int z) ∧ 0 ≤ z.
Proof.
  split; [apply not_natural_inv|]. intros (z & -> & Hz). unfold not_natural. cbn [v_isInteger isInteger as_num].
  rewrite int_ltb, (proj2 (Z.ltb_ge _ _)) by done. done.
Qed.

Lemma length_eqb_nil {A} (l : list A) : (length l =? 0)%nat = true ↔ l = [].
Proof. by destruct l. Qed.

Lemma num_max_int a b : num_max (Int a) (Int b) = Int (Z.max a b).
Proof.
  unfold num_max. rewrite ?int_ltb, ?int_leb. repeat case_match; simp_bool; f_equal; lia.
Qed.

(** The fee of a fill, over the integers. *)
Definition fill_fee (n rate : Z) : Z := feeZ rate (1 + n) 3.

Lemma fill_fee_int n rate :
  0 ≤ n → 0 ≤ rate → estimateFillSize (1 + n) 3 * rate ≤ 2 ^ 53 →
  num_max (num_ceil (Int (estimateFillSize (1 + n) (2 + 1)) * Int rate / Int 1000)) (Int RECOMMENDED_MIN_TX_FEE)
  = Int (fill_fee n rate).
Proof.
  intros Hn Hr Hs. change (2 + 1) with 3. unfold fill_fee, feeZ.
  change (estimateFillSize (1 + n) 3) with (estimateTxSize (1 + n) 3) in *.
  set (size := estimateTxSize (1 + n) 3) in *.
  assert (0 ≤ size * rate) by (apply Z.mul_nonneg_nonneg; [unfold size; rewrite estimateTxSize_eq|]; lia).
  rewrite int_mul, ceil_div_1000, num_max_int by lia. f_equal. lia.
Qed.

(** [planFill] plans exactly the fills that balance.  For coins, a price and
    a rate that are safe integers, it returns a plan if and only if the price
    is not dust, the coins cover price and fee, and what is left over is
    nothing or a change output above the dust limit; the plan then spends all
    the coins, on the price, the fee and the change, with nothing lost.  A
    refusal gives at least one reason. *)
Theorem planFill_balances order position us pk price rate :
  truthy order = true → truthy position = true → us ≠ [] → int_utxos us →
  field order "payment_value" = Num (Int price) → 0 ≤ price ≤ 2 ^ 52 → 0 ≤ rate →
  estimateFillSize (1 + zlen us) 3 * rate ≤ 2 ^ 53 →
  let fee := fill_fee (zlen us) rate in
  let change := utotal us - price - fee in
  let good := HARD_DUST_LIMIT ≤ price ∧ (change = 0 ∨ DEFAULT_DUST_LIMIT ≤ change) in
  match planFill order position (Some us) (Some pk) (Int rate) with
  | inl p => good ∧ p = FillPlan us (Int price) (Int fee) (Int change) (Int rate) (as_num (field position "value"))
  | inr errors => ¬ good ∧ errors ≠ []
  end.
Proof.
  intros Ho Hp Hne Hus Ep Hprice Hr Hs fee change good.
  destruct (sum_utxos_int us Hus) as [Esum Htot]. pose proof (proj2 Hus) as Hb.
  assert (RECOMMENDED_MIN_TX_FEE ≤ fee ≤ 2 ^ 44) as Hfee by (apply feeZ_bound; lia || done).
  unfold planFill. cbn [default id]. rewrite Ho, Hp. destruct us as [|u us]; [done|].
  change (length (u :: us) =? 0)%nat with false.
  cbn [str_if negb app]. rewrite Ep. cbn [as_num].
  rewrite (fill_fee_int (zlen (u :: us)) rate) by lia || done. fold fee. rewrite Esum.
  change RECOMMENDED_MIN_TX_FEE with 1000000 in Hfee.
  rewrite int_add, !int_sub by lia. rewrite !int_ltb, int_leb.
  replace (utotal (u :: us) - (price + fee)) with change by (unfold change; lia).
  destruct (str_if _ _ ++ _) as [|e es] eqn:E.
  - apply app_eq_nil in E as [E1 E]. apply app_eq_nil in E as [E2 E3].
    rewrite str_if_nil in E1, E2, E3. simp_bool.
    split; [|done]. split; [done|]. rewrite !andb_false_iff in E3. destruct E3 as [[E3|E3]|E3]; simp_bool; lia.
  - split; [|done]. intros [Hd Hc].
    assert (change = 0 ∨ 0 < DEFAULT_DUST_LIMIT ≤ change) as Hc' by (change DEFAULT_DUST_LIMIT with 1000000 in *; lia).
    rewrite (proj2 (str_if_nil _ _)), (proj2 (str_if_nil _ _)), (proj2 (str_if_nil _ _)) in E; [done|..].
    + destruct Hc' as [->|]; [by rewrite andb_false_r|]. apply andb_false_iff. right. lia.
    + lia.
    + unfold change in *. lia.
Qed.

(** ** The transaction of a fill *)

(** The change output of a plan. *)
Definition fill_change (plan : fill_plan) (pubKey : bytes) : list txout :=
  if (fp_change plan >=? Int DEFAULT_DUST_LIMIT)%num then [TxOut (fp_change plan) (buildP2PKHScript pubKey)] else [].

Lemma leb_truthy z n : 0 < z → num_leb (Int z) n = true → num_truthy n = true.
Proof.
  intros Hz H. destruct n as [|b|m k]; [done|done|]. unfold num_truthy.
  unfold num_leb, num_ltb, num_eqb in H.
  destruct (Z.eqb_spec m 0) as [->|]; [|done]. exfalso.
  apply orb_true_iff in H as [H|H]; [apply Z.ltb_lt in H; nia|].
  apply bool_decide_eq_true in H. simplify_eq. lia.
Qed.

(** The outputs and the inputs of a fill.  The maker's input and scriptSig, at
    index 0, are left as the order has them; every other input is the taker's,
    signed with the taker's key. *)
Lemma buildFillTx_spec secp plan k pk order position us hex t :
  key_ok pk → buildFillTx secp plan k pk order position us = Ok (hex, t) →
  ∃ origin o scriptSig paymentScript script,
    field order "origin" = Str origin ∧ hexToBytes origin = Ok o ∧ is_lower_hex origin = true
    ∧ hexToBytes (as_str (field order "script_sig")) = Ok scriptSig
    ∧ hexToBytes (as_str (field order "payment_script")) = Ok paymentScript
    ∧ parseUapScript script = Some (UapScript pk (as_num (field order "multiplier")) o false)
    ∧ tx_vout t = TxOut (as_num (field order "payment_value")) paymentScript
                  :: TxOut (as_num (field position "value")) script :: fill_change plan pk
    ∧ tx_vin t !! 0%nat = Some (Vin (as_str (field order "txid")) (int_of (as_num (field order "vout")))
                                  (Some scriptSig) None (Some 0xffffffff))
    ∧ length (tx_vin t) = S (length us) ∧ tx_version t = Some 1 ∧ tx_locktime t = Some 0
    ∧ (∀ i u, us !! i = Some u →
         ∃ sig, signP2PKHInput secp (buildP2PKHScript pk) k pk t (S i) None = Ok sig
           ∧ tx_vin t !! S i = Some (Vin (as_str (field u "txid")) (int_of (js_Number (field u "vout")))
                                       (Some sig) None (Some 0xffffffff)))
    ∧ txToHex t = Ok hex.
Proof.
  intros [Hb Hl] H. unfold buildFillTx in H. apply bind_Ok in H as ([] & Hh & H).
  apply throw_if_Ok, orb_false_iff in Hh as [_ Hh]. apply negb_false_iff in Hh.
  apply bind_Ok in H as (o & Ho & H). apply bind_Ok in H as (ss & Hss & H). apply bind_Ok in H as (ps & Hps & H).
  cbv zeta in H. apply bind_Ok in H as (t0 & Ht0 & H). apply bind_Ok in H as (t1 & Ht1 & H).
  apply bind_Ok in H as (hex' & Hhex & H). apply Ok_inj in H. injection H as -> ->.
  destruct (field order "origin") as [| | | |origin| | |]; try done. cbn [hexToBytes_of js_String] in *.
  apply andb_true_iff in Hh as [Hh _]. apply (fillOrder_inv (Order ss _ _ None (Some ps) _ OriginUndefined)) with (s := ps) in Ht0
    as (_ & script & Hs & ->); [|done]. cbn [f_toPubkey f_multiplier f_takerInputs f_changeValue f_changeScript f_tokenValue
    o_txid o_vout o_scriptSig o_paymentValue] in *.
  apply sign_loop_spec in Ht1 as ((_ & Ei & _) & Eo & Ever & Eloc & Hpre & Hk).
  exists origin, o, ss, ps, script. split_and!; try done.
  - eapply buildTransferScript_parse; eauto. by eapply hexToBytes_bytes.
  - clear Hk. rewrite Eo. cbn [tx_vout]. unfold fill_change. do 2 f_equal.
    destruct (num_leb _ (fp_change plan)) eqn:E; [|done]. by rewrite (leb_truthy DEFAULT_DUST_LIMIT _ eq_refl E).
  - by rewrite Hpre by lia.
  - apply vins_equiv_outpoints, (f_equal length) in Ei. rewrite !length_map in Ei. rewrite Ei.
    cbn [tx_vin length]. by rewrite !length_map.
  - intros i u Hi. destruct (Hk i (taker_coin k pk u) (unsigned (as_str (field u "txid")) (int_of (js_Number (field u "vout")))))
      as (sig & Hsig & Hvin); [by rewrite list_lookup_fmap, Hi| |by exists sig].
    cbn [tx_vin Nat.add]. rewrite !map_map. rewrite <-lookup_tail. cbn [tail].
    rewrite (list_lookup_fmap _ us i), Hi. done.
Qed.

(** ** Samples *)

(** A transaction whose first output is a covenant, and an order that sells it. *)
Definition sample_chain_tx : tx :=
  Tx (Some 1) [] [TxOut (Int 500000000) (33 :: sample_own ++ [0x55] ++ 32 :: replicate 32 0x77 ++ [0xba])]
    (Some 0).

Definition sample_raw : string := match txToHex sample_chain_tx with Ok h => h | Throw _ => EmptyString end.
Definition sample_chain_txid : string := "f8e25460ac7ad8d5637b53330fc3f918b7ef8c1db78a24bd76bb4e9c7c2cb6cf".

Definition sample_relay (txid : string) : io unit string := lift (Ok sample_raw).

Definition sample_sale : jsval :=
  Obj [("txid", Str sample_chain_txid); ("vout", Num (Int 0)); ("multiplier", Num (Int 5));
       ("origin", Str (bytesToHex (replicate 32 0x77))); ("script_sig", Str "0101");
       ("payment_script", Str "51"); ("payment_value", Num (Int 200000000))].

Definition sample_offered : jsval := Obj [("value", Num (Int 500000000))].

Definition sample_verified : verified :=
  Verified (Int 500000000) (33 :: sample_own ++ [0x55] ++ 32 :: replicate 32 0x77 ++ [0xba]) (Int 5)
    (bytesToHex (replicate 32 0x77)) (bytesToHex sample_own).

Lemma sample_reads :
  read_position sample_sale sample_offered sample_chain_txid (Int 0) sample_raw = Ok sample_verified.
Proof. by vm_compute. Qed.

Lemma sample_verifies : verifyPosition sample_relay sample_sale sample_offered tt = (tt, Ok sample_verified).
Proof.
  change (lift (W:=unit) (read_position sample_sale sample_offered sample_chain_txid (Int 0) sample_raw) tt
    = (tt, Ok sample_verified)).
  by rewrite sample_reads.
Qed.


Lemma verifyPosition_exact_witness :
  ∃ bs, hexToBytes sample_raw = Ok bs ∧ on_chain bs sample_chain_txid (Int 0) sample_verified
    ∧ claims_agree sample_sale sample_offered sample_verified.
Proof.
  exact (proj1 (verifyPosition_exact sample_relay sample_sale sample_offered sample_chain_txid (Int 0)
    tt tt sample_raw sample_verified eq_refl eq_refl eq_refl) sample_verifies).
Defined.

Lemma planFill_balances_witness :
  planFill sample_sale sample_offered (Some [sample_utxo 900000000]) (Some sample_own) (Int 1000000)
  = inl (FillPlan [sample_utxo 900000000] (Int 200000000) (Int 1000000) (Int 699000000) (Int 1000000)
           (Int 500000000)).
Proof.
  pose proof (planFill_balances sample_sale sample_offered [sample_utxo 900000000] sample_own 200000000 1000000
    eq_refl eq_refl ltac:(discriminate)) as H.
  assert (int_utxos [sample_utxo 900000000]) as Hu.
  { split; [constructor; [split; [reflexivity|vm_compute; discriminate]|constructor]|vm_compute; discriminate]. }
  specialize (H Hu eq_refl ltac:(lia) ltac:(lia) ltac:(vm_compute; discriminate)).
  destruct (planFill _ _ _ _ _) as [p|es] eqn:E.
  - destruct H as [_ ->]. vm_compute. reflexivity.
  - exfalso. destruct H as [H _]. apply H. split; [vm_compute; discriminate|right; vm_compute; discriminate].
Defined.

(** The rate is not checked: one that is not a number makes no comparison fail,
    and the plan it gives has no change output, so that all that was not the
    price is paid as a fee. *)
Lemma planFill_accepts_nan_rate :
  ∃ p, planFill sample_sale sample_offered (Some [sample_utxo 900000000]) (Some sample_own) NaN = inl p
    ∧ fp_fee p = NaN ∧ fp_change p = NaN ∧ fill_change p sample_own = [].
Proof. by eexists. Qed.
