(* ===== verification/Mint.v ===== *)
(** * Mint: [contrib/uap-web/mint.js]

    [planMint] checks a request and computes the fee and the change;
    [buildMintTx] builds and signs the transaction, with the covenant at
    output 0, the metadata at output 1 and the change behind them.

    The theorems: a planned mint is one consensus accepts (ticker, multiplier,
    amount, virtual balance); a built mint locks the planned amount under the
    wallet's own key, names the ticker, conserves value and signs every input.
    Two lemmas at the end record what the checks let through. *)

From stdpp Require Import base tactics option list numbers strings pretty.
From Stdlib Require Import ZArith Lia Ascii.
From S2P Require Import Prelude JsInt JsStr JsNum JsVal Effects Words Sha256 Addr Script Tx Payments.
From S2P Require Import Transfer Market.

(** ** Planning *)

Record mint_plan := MintPlan {
  mp_ticker : string;
  mp_multiplier : Number;
  mp_amountSats : Number;
  mp_fee : Number;
  mp_change : Number;
  mp_feeRate : Number
}.

(** [mint.js]'s own copy of the library's estimate. *)
Definition estimateMintSize (nInputs nOutputs : Z) : Z :=
  let size := 10 in
  let size := size + nInputs * 150 in
  let size := size + nOutputs * 34 in
  size.

Definition mint_fee (nInputs nOutputs : Z) (feeRate : Number) : Number :=
  let estimatedSize := estimateMintSize nInputs nOutputs in
  let estimatedFee := num_ceil (Int estimatedSize * feeRate / Int 1000) in
  num_max estimatedFee (Int RECOMMENDED_MIN_TX_FEE).

Definition mint_multiplier_errors (multiplier : jsval) : list plan_error :=
  if negb (v_isInteger multiplier) then [PlanError "multiplier" "Multiplier must be an integer"]
  else err_if ((as_num multiplier <? Int 0)%num || (as_num multiplier >? Int 2147483647)%num)
         "multiplier" "Multiplier must be in range [0, 2147483647]".

Definition MIN_MINT : Number := Int (1000 * COIN).

(** A multiplication sign. *)
Definition times : string := str_of [chr 215].

Definition balance_errors (multiplier : jsval) (amountSats : Number) : list plan_error :=
  if v_isInteger multiplier && (as_num multiplier >=? Int 0)%num && (amountSats >=? MIN_MINT)%num then
    let amountCoins := (amountSats / Int COIN)%num in
    let virtualBalance := (amountCoins * as_num multiplier)%num in
    let maxBalance := Int (2 ^ 48) in
    err_if (virtualBalance >? maxBalance)%num "multiplier"
      ("This multiplier is too large for the amount you are locking (" +:+ num_str amountCoins +:+ " coins "
       +:+ times +:+ " " +:+ num_str (as_num multiplier) +:+ " = " +:+ num_str virtualBalance
       +:+ " > 2^48 = " +:+ num_str maxBalance +:+ ")")
  else [].

Definition mint_funding_errors (amountSats : Number) (us : list jsval) (feeRate : Number) : list plan_error :=
  match us with
  | [] => [PlanError "utxos" "No UTXOs provided"]
  | _ =>
      let totalUtxoValue := sum_utxos us in
      let minFee := mint_fee (zlen us) 2 feeRate in
      let totalNeeded := (amountSats + minFee)%num in
      if (totalUtxoValue <? totalNeeded)%num then
        let shortfallSats := (totalNeeded - totalUtxoValue)%num in
        let shortfallCoins := (shortfallSats / Int COIN)%num in
        [PlanError "utxos"
           ("Insufficient funds: need " +:+ num_str totalNeeded +:+ " satoshis (" +:+ num_str amountSats
            +:+ " for mint + " +:+ num_str minFee +:+ " for fee), have " +:+ num_str totalUtxoValue
            +:+ " satoshis. Shortfall: " +:+ num_str shortfallCoins +:+ " coins (" +:+ num_str shortfallSats
            +:+ " satoshis)")]
      else
        let change := (totalUtxoValue - totalNeeded)%num in
        err_if ((change >? Int 0)%num && (change <? Int DEFAULT_DUST_LIMIT)%num) "utxos"
          ("Transaction would produce dust change (" +:+ num_str change
           +:+ " satoshis). Need either more input or slightly less output.")
  end.

Definition planMint (ticker : option string) (multiplier : jsval) (amountSats : Number)
    (utxos : option (list jsval)) (feeRate : Number) : mint_plan + list plan_error :=
  let us := default [] utxos in
  let '(ticker_errors, normalizedTicker) :=
    match normalizeTicker ticker with
    | Ok t => ([], t)
    | Throw e => ([PlanError "ticker" e], EmptyString)
    end in
  let errors :=
    ticker_errors
    ++ mint_multiplier_errors multiplier
    ++ err_if (amountSats <? MIN_MINT)%num "amountSats"
         ("Amount must be at least 1000 coins (" +:+ num_str MIN_MINT +:+ " satoshis), got "
          +:+ num_str amountSats +:+ " satoshis")
    ++ balance_errors multiplier amountSats
    ++ mint_funding_errors amountSats us feeRate in
  match errors with
  | _ :: _ => inr errors
  | [] =>
      let totalUtxoValue := sum_utxos us in
      let fee := mint_fee (zlen us) 3 feeRate in
      let change := (totalUtxoValue - amountSats - fee)%num in
      inl (MintPlan normalizedTicker (as_num multiplier) amountSats fee change feeRate)
  end.

(** ** Building *)

(** The coin a utxo is; an explicit script wins over the wallet's own. *)
Definition mint_input (privKey pubKey : bytes) (u : jsval) : res coin :=
  scriptCode ← coin_script u (buildP2PKHScript pubKey);
  Ok (Coin (as_str (field u "txid")) (int_of (js_Number (field u "vout"))) (utxo_value u)
        scriptCode privKey pubKey).

Record built_mint := BuiltMint {
  bm_rawHex : string;
  bm_tx : tx;
  bm_mintScript : bytes;
  bm_metadataScript : bytes;
  bm_value : Number
}.

Definition buildMintTx (secp : secp) (plan : mint_plan) (privKey pubKey : bytes) (utxos : list jsval)
    (changeAddress : string) : res built_mint :=
  mintScript ← buildMintScript pubKey (mp_multiplier plan);
  metadataScript ← buildMetadataScript (Some (mp_ticker plan)) None;
  inputs ← mapR (mint_input privKey pubKey) utxos;
  changeScript ← addressToScript changeAddress;
  t ← buildPaymentTx secp
        (PaymentOpts inputs
           [TxOut (mp_amountSats plan) mintScript; TxOut (Int 0) metadataScript]
           (Some changeScript) (Some (mp_feeRate plan)) None);
  rawHex ← txToHex t;
  Ok (BuiltMint rawHex t mintScript metadataScript (mp_amountSats plan)).

(** ** What a plan guarantees *)

Lemma upper_ticker c : is_ticker_char c → upper c = [c].
Proof.
  unfold is_ticker_char, upper. intros H. cbv zeta. rewrite (proj2 (Z.eqb_neq _ 223)) by lia.
  destruct ((97 <=? code c) && _) eqn:E1, (_ && negb _) eqn:E2; simp_bool; done || lia.
Qed.

(** Folding is idempotent on what it accepts. *)
Lemma normalizeTicker_idempotent t u : normalizeTicker t = Ok u → normalizeTicker (Some u) = Ok u.
Proof.
  intros (_ & Hl & Hc)%normalizeTicker_spec. apply normalizeTicker_spec. cbn [default id]. split_and!; [|lia|lia|done].
  unfold toUpperCase. rewrite <-(str_of_chars u) at 1. f_equal. clear Hl. revert Hc.
  induction 1 as [|c l Hcl Hl' IH]; [done|]. cbn [map]. by rewrite mjoin_cons, upper_ticker, <-IH.
Qed.

Lemma num_mul_int a b : num_mul (Int a) (Int b) = of_bigint (a * b).
Proof. unfold num_mul, of_bigint. by rewrite ?Z.mul_1_r. Qed.

Lemma num_div_coin c : Z.abs c ≤ 2 ^ 53 → num_div (Int (c * COIN)) (Int COIN) = Int c.
Proof. intros Hc. unfold num_div. cbn. rewrite <-(rnd_exact c COIN) by done || lia. f_equal; cbn; lia. Qed.

Lemma mint_multiplier_nil m :
  mint_multiplier_errors m = [] → ∃ z, m = Num (Int z) ∧ 0 ≤ z ≤ 2147483647.
Proof.
  unfold mint_multiplier_errors. destruct (negb (v_isInteger m)) eqn:E; [done|].
  apply negb_false_iff, v_isInteger_inv in E as [z ->]. intros [H1 H2]%err_if_nil%orb_false_iff.
  cbn [as_num] in *. rewrite int_ltb in *. simp_bool. exists z. split; [done|lia].
Qed.

(** The bound of consensus on the virtual balance, for whole coins. *)
Lemma balance_nil z c :
  0 ≤ z ≤ 2147483647 → 1000 ≤ c ≤ 2 ^ 32 →
  balance_errors (Num (Int z)) (Int (c * COIN)) = [] → c * z ≤ 2 ^ 48.
Proof.
  intros Hz Hc. unfold balance_errors. cbn [v_isInteger isInteger as_num]. unfold MIN_MINT.
  rewrite !int_leb, (proj2 (Z.leb_le 0 z)), (proj2 (Z.leb_le (1000 * COIN) _)) by (unfold COIN; lia).
  cbn [andb isInteger Z.eqb]. rewrite num_div_coin, num_mul_int by lia. intros H%err_if_nil.
  rewrite ltb_of_bigint_r in H by (lia || nia). by simp_bool.
Qed.

Lemma mint_fee_int n nout rate :
  0 ≤ n → 0 ≤ nout → 0 ≤ rate → estimateMintSize n nout * rate ≤ 2 ^ 53 →
  mint_fee n nout (Int rate) = Int (feeZ rate n nout)
  ∧ RECOMMENDED_MIN_TX_FEE ≤ feeZ rate n nout ≤ 2 ^ 44.
Proof.
  intros Hn Ho Hr Hs. split; [|by apply feeZ_bound]. unfold mint_fee, feeZ. cbv zeta.
  change (estimateMintSize n nout) with (estimateTxSize n nout) in *.
  assert (0 ≤ estimateTxSize n nout * rate) by (apply Z.mul_nonneg_nonneg; rewrite ?estimateTxSize_eq; lia).
  rewrite int_mul, ceil_div_1000, num_max_int by lia. f_equal. lia.
Qed.

(** The scripts of a plan build, for any key. *)
Lemma mint_scripts t u z pk :
  normalizeTicker t = Ok u → 0 ≤ z ≤ 2147483647 → key_ok pk →
  ∃ s, buildMintScript pk (Int z) = Ok s
    ∧ buildMetadataScript (Some u) None = Ok (mjoin (map raw (metadata u []))).
Proof.
  intros Hu Hz [Hb Hl]. eexists. split.
  - apply buildMintScript_spec; [done|]. split; [lia|]. by exists z.
  - apply normalizeTicker_idempotent in Hu. apply buildMetadataScript_spec; [constructor|]. cbn [default].
    split; [by left|]. exists u. split_and!; [done..|]. apply normalizeTicker_spec in Hu as (_ & Hl' & Hc).
    pose proof (ticker_bytes u Hc). unfold MAX_TICKER_BYTES in Hl'. unfold metadata. cbn [map].
    rewrite !mjoin_cons, !length_app, !Nat2Z.inj_add, !length_raw_push_of by (simpl; lia). simpl. lia.
Qed.

(** A mint that is planned is one that consensus accepts and that builds.
    The multiplier is an integer in the covenant's range, at least 1000 coins
    are locked, the virtual balance of a whole number of coins is within 2^48,
    the ticker is the normal form of what was typed, the plan carries exactly
    these, with the fee of a three-output transaction and what is left of the
    coins, and both scripts of the transaction build for any key. *)
Theorem planMint_sound ticker m amt us rate p :
  int_utxos us → 0 ≤ amt ≤ 2 ^ 52 → 0 ≤ rate → estimateMintSize (zlen us) 3 * rate ≤ 2 ^ 53 →
  planMint ticker m (Int amt) (Some us) (Int rate) = inl p →
  ∃ z, m = Num (Int z) ∧ 0 ≤ z ≤ 2147483647 ∧ 1000 * COIN ≤ amt
    ∧ (∀ c, amt = c * COIN → c * z ≤ 2 ^ 48)
    ∧ normalizeTicker ticker = Ok (mp_ticker p)
    ∧ mp_multiplier p = Int z ∧ mp_amountSats p = Int amt
    ∧ mp_fee p = Int (feeZ rate (zlen us) 3) ∧ mp_change p = Int (utotal us - amt - feeZ rate (zlen us) 3)
    ∧ amt + feeZ rate (zlen us) 2 ≤ utotal us
    ∧ ∀ pk, key_ok pk → ∃ s, buildMintScript pk (mp_multiplier p) = Ok s
        ∧ buildMetadataScript (Some (mp_ticker p)) None = Ok (mjoin (map raw (metadata (mp_ticker p) []))).
Proof.
  intros Hus Hamt Hr Hs H. destruct (sum_utxos_int us Hus) as [Esum Htot]. pose proof (proj2 Hus) as Hb.
  destruct (mint_fee_int (zlen us) 3 rate) as [E3 H3]; [lia|lia|done|done|].
  destruct (mint_fee_int (zlen us) 2 rate) as [E2 H2]; [lia|lia|done|unfold estimateMintSize in *; nia|].
  unfold planMint in H. cbn [default id] in H.
  destruct (normalizeTicker ticker) as [u|] eqn:Eu; [|done]. cbn [app] in H.
  destruct (mint_multiplier_errors m ++ _) eqn:Ee; [|done]. injection H as <-.
  apply app_eq_nil in Ee as [E4 Ee]. apply app_eq_nil in Ee as [E5%err_if_nil Ee]. apply app_eq_nil in Ee as [E6 E7].
  apply mint_multiplier_nil in E4 as (z & -> & Hz). unfold MIN_MINT in E5. rewrite int_ltb in E5. simp_bool.
  change RECOMMENDED_MIN_TX_FEE with 1000000 in *.
  cbn [mp_ticker mp_multiplier mp_amountSats mp_fee mp_change as_num]. rewrite E3, Esum, !int_sub by lia.
  exists z. split_and!; try (done || lia).
  - intros c ->. apply balance_nil; [done|unfold COIN in *; lia|done].
  - unfold mint_funding_errors in E7. destruct us as [|u' us]; [done|]. rewrite E2, Esum, int_add in E7 by lia.
    rewrite int_ltb in E7. destruct (Z.ltb_spec (utotal (u' :: us)) (amt + feeZ rate (zlen (u' :: us)) 2)); [done|done].
  - intros pk Hpk. by apply (mint_scripts ticker).
Qed.

(** ** What a built mint is *)

Lemma mint_payment_ok inputs amt rate s1 s2 s3 :
  0 ≤ amt → 0 < rate → safe amt rate 2 inputs →
  payment_ok (PaymentOpts inputs [TxOut (Int amt) s1; TxOut (Int 0) s2] (Some s3) (Some (Int rate)) None)
    rate DEFAULT_TRANSACTION_MAXFEE.
Proof.
  intros Ha Hr Hs. constructor; cbn [p_feeRate p_maxFee p_outputs p_inputs or_number default].
  - by rewrite int_truthy, (proj2 (Z.eqb_neq _ _)) by lia.
  - done.
  - by repeat constructor.
  - replace (ototal _) with amt; [done|]. unfold ototal, oval. cbn. lia.
Qed.

(** C14 A mint that is built is the mint that was planned.  It locks exactly the
    planned amount at output 0, in a mint covenant of the wallet's own key with
    the planned multiplier; output 1 is a zero-valued record that reads back as
    the planned ticker; what follows, if anything, is one change output, above
    the dust limit, to the change address.  It spends coins of the wallet, each
    at most once and each signed, and what it leaves to the miner is between
    the recommended minimum and the cap. *)
Theorem buildMintTx_mints secp plan k pk us address amt rate b :
  key_ok pk → mp_amountSats plan = Int amt → 0 ≤ amt → mp_feeRate plan = Int rate → 0 < rate →
  (∀ cs, mapR (mint_input k pk) us = Ok cs → safe amt rate 2 cs) →
  buildMintTx secp plan k pk us address = Ok b →
  let t := bm_tx b in
  ∃ cs sel u meta changeScript change,
    mapR (mint_input k pk) us = Ok cs ∧ sel ⊆+ cs
    ∧ parseUapScript (bm_mintScript b) = Some (UapScript pk (mp_multiplier plan) [] true)
    ∧ normalizeTicker (Some (mp_ticker plan)) = Ok u ∧ readPushes meta = Ok (metadata u [])
    ∧ addressToScript address = Ok changeScript
    ∧ tx_vout t = TxOut (Int amt) (bm_mintScript b) :: TxOut (Int 0) meta :: change
    ∧ (change = [] ∨ ∃ v, change = [TxOut (Int v) changeScript] ∧ DEFAULT_DUST_LIMIT ≤ v)
    ∧ RECOMMENDED_MIN_TX_FEE ≤ total sel - ototal (tx_vout t) ≤ DEFAULT_TRANSACTION_MAXFEE
    ∧ map (λ v, (in_txid v, in_vout v)) (tx_vin t) = map (λ c, (c_txid c, c_vout c)) sel
    ∧ (∀ i c, sel !! i = Some c →
         ∃ sig, signP2PKHInput secp (c_scriptCode c) k pk t i None = Ok sig
           ∧ tx_vin t !! i = Some (Vin (c_txid c) (c_vout c) (Some sig) None (Some 0xffffffff)))
    ∧ txToHex t = Ok (bm_rawHex b).
Proof.
  intros [Hb Hl] Ea Ha Er Hr Hsafe H. unfold buildMintTx in H. rewrite Ea, Er in H.
  apply bind_Ok in H as (ms & Hms & H). apply bind_Ok in H as (meta & Hmeta & H).
  apply bind_Ok in H as (cs & Hcs & H). apply bind_Ok in H as (ch & Hch & H).
  apply bind_Ok in H as (t & Ht & H). apply bind_Ok in H as (hex & Hhex & H). apply Ok_inj in H as <-.
  cbn [bm_tx bm_mintScript bm_rawHex].
  pose proof (payment_shape _ _ _ _ _ (mint_payment_ok cs amt rate ms meta ch Ha Hr (Hsafe _ Hcs)) Ht)
    as (sel & change & Hsub & Ein & Eout & Hform & [Hfee _] & Hsig). cbn [p_inputs p_outputs p_changeScript app] in *.
  apply buildMintScript_spec in Hms as (_ & z & Ez & Hz & ->); [|done].
  apply buildMetadataScript_spec in Hmeta as (Hl0 & u & Hu & -> & _); [|constructor].
  exists cs, sel, u, (mjoin (map raw (metadata u []))), ch, change. split_and!; try done.
  - rewrite Ez. apply (parse_complete (UapScript pk (Int z) [] true) z). unfold wf_uap. cbn.
    split_and!; try done || lia. constructor.
  - apply readPushes_spec; [|split; [by eapply metadata_wf; eauto using is_bytes_nil|done]].
    apply raws_bytes. by eapply metadata_wf; eauto using is_bytes_nil.
  - destruct Hform as [->|(s & v & [= <-] & -> & Hv)]; [by left|right; by exists v].
  - apply Hfee.
  - apply Hfee.
  - intros i c Hi. destruct (Hsig i c Hi) as (sig & Hs & Hv). exists sig. split; [|done].
    assert (c ∈ cs) as Hc by (eapply elem_of_submseteq; [by eapply list_elem_of_lookup_2|done]).
    apply list_elem_of_lookup_1 in Hc as [j Hj]. apply mapR_Ok in Hcs.
    destruct (Forall2_lookup_r _ _ _ _ _ Hcs Hj) as (x & _ & Hx).
    apply bind_Ok in Hx as (sc & _ & Hx). apply Ok_inj in Hx as <-. done.
Qed.

(** ** Samples, and what the checks let through *)

Definition sample_mint_plan : mint_plan :=
  MintPlan "WHIP" (Int 5) (Int 200000000000) (Int 1000000) (Int 99999000000) (Int 1000000).

Lemma sample_int_utxos v : 0 ≤ v ≤ 2 ^ 52 → int_utxos [sample_utxo v].
Proof.
  intros Hv. split; [|unfold utotal, zsum, uval; cbn; lia]. constructor; [|constructor]. split; [done|]. cbn. lia.
Qed.

Lemma planMint_sound_witness :
  normalizeTicker (Some "whip") = Ok (mp_ticker sample_mint_plan) ∧ 2000 * 5 ≤ 2 ^ 48.
Proof.
  destruct (planMint_sound (Some "whip") (Num (Int 5)) 200000000000 [sample_utxo 300000000000] 1000000
    sample_mint_plan) as (z & Ez & _ & _ & Hb & Hn & _).
  - apply sample_int_utxos. lia.
  - lia.
  - lia.
  - vm_compute. discriminate.
  - vm_compute. reflexivity.
  - injection Ez as <-. split; [exact Hn|]. apply Hb. reflexivity.
Defined.

Definition sample_address : string := base58checkEncode (replicate 20 9) 0x71.

Lemma sample_address_script : addressToScript sample_address = Ok (p2pkh_script (replicate 20 9)).
Proof.
  apply addressToScript_spec. exists 0x71, (replicate 20 9). split_and!; try done.
  - apply (bool_decide_unpack (_ ∈ p2pkhVersions)). by vm_compute.
  - apply (bool_decide_unpack (is_bytes _)). by vm_compute.
Qed.

(** A coin that comes with its script. *)
Definition sample_scripted (v : Z) : jsval :=
  Obj [("txid", Str sample_txid); ("vout", Num (Int 0)); ("value", Num (Int v)); ("scriptPubKey", Str "51")].

Lemma sample_mint_builds :
  match buildMintTx sample_secp sample_mint_plan [1] sample_own [sample_scripted 300000000000] sample_address with
  | Ok _ => True
  | Throw _ => False
  end.
Proof. unfold buildMintTx. rewrite sample_address_script. by vm_compute. Qed.

Lemma buildMintTx_mints_witness :
  ∃ b, buildMintTx sample_secp sample_mint_plan [1] sample_own [sample_scripted 300000000000] sample_address = Ok b
    ∧ parseUapScript (bm_mintScript b) = Some (UapScript sample_own (Int 5) [] true).
Proof.
  pose proof sample_mint_builds as Hok.
  destruct (buildMintTx _ _ _ _ _ _) as [b|] eqn:E; [|destruct Hok]. exists b. split; [reflexivity|].
  destruct (buildMintTx_mints sample_secp sample_mint_plan [1] sample_own [sample_scripted 300000000000]
    sample_address 200000000000 1000000 b) as (cs & sel & u & meta & cscr & ch & _ & _ & Hp & _);
    [split; [apply (bool_decide_unpack (is_bytes _)); reflexivity|left; reflexivity]|reflexivity|lia|reflexivity|lia| |exact E|exact Hp].
  intros cs Hcs. apply Ok_inj in Hcs as <-. constructor; try (vm_compute; congruence).
  - constructor; [|constructor]. split; [reflexivity|vm_compute; congruence].
  - split; vm_compute; congruence.
Defined.

(** Funds are checked for two outputs and the plan is made for three: where the
    rate is above the minimum, a plan can come out with negative change, which
    [buildMintTx] then cannot fund. *)
Lemma planMint_negative_change :
  match planMint (Some "whip") (Num (Int 5)) (Int (1000 * COIN)) (Some [sample_utxo (1000 * COIN + 2280000)])
          (Int 10000000) with
  | inl p => mp_change p = Int (-340000)
  | inr _ => False
  end.
Proof. by vm_compute. Qed.

(** An amount that is not a number, which is what an empty field gives, passes
    every check. *)
Lemma planMint_accepts_nan_amount :
  match planMint (Some "whip") (Num (Int 5)) NaN (Some [sample_utxo 1]) (Int 1000000) with
  | inl p => mp_amountSats p = NaN
  | inr _ => False
  end.
Proof. by vm_compute. Qed.
