(* ===== verification/Sell.v ===== *)
(** * Sell: [contrib/uap-web/sell.js], the maker's side of the market

    [planSell] checks a proposed sale; [buildSellOrder] signs it and returns the
    body the relay is sent.  The clock is a parameter: [now], what [Date.now()]
    returns, in milliseconds.

    The theorems: a plan is refused for exactly the stated reasons; the wallet
    signs only over a covenant of its own key; and an order published by a
    maker is completed by any taker ([Market.buildFillTx]) with the maker's
    signature valid in the completed transaction and the maker's price at
    output 0, to the maker's address. *)

From stdpp Require Import base tactics option list numbers strings pretty.
From Stdlib Require Import ZArith Lia Ascii.
From S2P Require Import Prelude JsInt JsStr JsNum JsVal Effects Words Sha256 Addr Script Tx Payments Orders.
From S2P Require Import Transfer Market Mint.

Record sell_summary := SellSummary {
  ss_txid : jsval;
  ss_vout : jsval;
  ss_multiplier : jsval;
  ss_tokenValue : jsval;
  ss_priceSats : jsval;
  ss_payTo : string;
  ss_paymentScript : option bytes
}.

Record sell_plan := SellPlan {
  sl_ok : bool;
  sl_errors : list string;
  sl_position : jsval;
  sl_summary : option sell_summary
}.

Definition planSell (position priceSats : jsval) (ownAddress : string) : sell_plan :=
  if negb (truthy position) || negb (is_object position) then
    SellPlan false ["No position selected."] Undef None
  else
    let position_errors :=
      str_if match field position "txid" with Str s => negb (slen s =? 64) | _ => true end
        "Position is missing a valid transaction id."
      ++ str_if (not_natural (field position "vout")) "Position is missing a valid output index."
      ++ str_if (not_natural (field position "multiplier")) "Position has no valid multiplier." in
    let price_errors :=
      if negb (v_isInteger priceSats) then ["Enter a price in whole satoshis."]
      else if (as_num priceSats <=? Int 0)%num then ["The asking price must be greater than zero."]
      else str_if (as_num priceSats <? Int DEFAULT_HARD_DUST_LIMIT)%num
             ("The asking price is below the dust limit (" +:+ dec DEFAULT_HARD_DUST_LIMIT +:+ " satoshis); "
              +:+ "no node would relay a transaction paying it.") in
    let '(address_errors, paymentScript) :=
      match addressToScript ownAddress with
      | Ok s => ([], Some s)
      | Throw e => (["Cannot pay to this address: " +:+ e], None)
      end in
    let errors := position_errors ++ price_errors ++ address_errors in
    SellPlan (length errors =? 0)%nat errors position
      (Some (SellSummary (field position "txid") (field position "vout") (field position "multiplier")
               (field position "value") priceSats ownAddress paymentScript)).

(** [summary.paymentScript] of a plan that is ok. *)
Definition payment_script_of (plan : sell_plan) : bytes := default [] (sl_summary plan ≫= ss_paymentScript).

Definition buildSellOrder (secp : secp) (now : Z) (position : jsval) (privKey pubKey : bytes)
    (priceSats : jsval) (ownAddress : string) : res jsval :=
  let plan := planSell position priceSats ownAddress in
  _ ← throw_if (negb (sl_ok plan)) (join " " (sl_errors plan));
  scriptCode ← positionScriptOf position pubKey (as_num (field position "multiplier"));
  order ← signMakerOrder secp
            (MakerOpts (as_str (field position "txid")) (int_of (as_num (field position "vout"))) scriptCode privKey
               (payment_script_of plan) (as_num priceSats));
  Ok (Obj [("txid", field position "txid"); ("vout", field position "vout");
           ("multiplier", field position "multiplier"); ("pubkey", Str (bytesToHex pubKey));
           ("script_sig", Str (bytesToHex (o_scriptSig order)));
           ("payment_script", Str (bytesToHex (payment_script_of plan)));
           ("payment_value", priceSats); ("created_at", Num (Int (now / 1000)))]).

(** ** What is accepted *)

(** What a sale must be. *)
Record good_sale (position priceSats : jsval) (address : string) (price : Z) (payTo : bytes) : Prop := {
  gs_txid : ∃ s, field position "txid" = Str s ∧ slen s = 64;
  gs_vout : ∃ z, field position "vout" = Num (Int z) ∧ 0 ≤ z;
  gs_multiplier : ∃ z, field position "multiplier" = Num (Int z) ∧ 0 ≤ z;
  gs_price : priceSats = Num (Int price) ∧ DEFAULT_HARD_DUST_LIMIT ≤ price;
  gs_address : addressToScript address = Ok payTo
}.

Lemma price_errors_nil priceSats :
  (if negb (v_isInteger priceSats) then ["Enter a price in whole satoshis."]
   else if (as_num priceSats <=? Int 0)%num then ["The asking price must be greater than zero."]
   else str_if (as_num priceSats <? Int DEFAULT_HARD_DUST_LIMIT)%num
          ("The asking price is below the dust limit (" +:+ dec DEFAULT_HARD_DUST_LIMIT +:+ " satoshis); "
           +:+ "no node would relay a transaction paying it.")) = []
  ↔ ∃ price, priceSats = Num (Int price) ∧ DEFAULT_HARD_DUST_LIMIT ≤ price.
Proof.
  split.
  - destruct (negb (v_isInteger priceSats)) eqn:E; [done|].
    apply negb_false_iff, v_isInteger_inv in E as [z ->]. cbn [as_num]. rewrite int_leb, int_ltb.
    destruct (z <=? 0); [done|]. intros H%str_if_nil. simp_bool. eauto.
  - intros (z & -> & Hz). cbn [v_isInteger isInteger as_num]. rewrite int_leb, int_ltb.
    change DEFAULT_HARD_DUST_LIMIT with 100000 in *.
    rewrite (proj2 (Z.leb_gt _ _)), (proj2 (Z.ltb_ge _ _)) by lia. done.
Qed.

Lemma planSell_ok_inv position priceSats address :
  sl_ok (planSell position priceSats address) = true →
  truthy position = true ∧ is_object position = true
  ∧ ∃ price payTo, good_sale position priceSats address price payTo.
Proof.
  unfold planSell. destruct (truthy position), (is_object position); try done. cbn [negb orb].
  destruct (addressToScript address) as [payTo|e] eqn:Ea; cbn [sl_ok]; rewrite length_eqb_nil.
  2:{ intros [_ [_ H]%app_eq_nil]%app_eq_nil. done. }
  rewrite app_nil_r. intros [H1 H2]%app_eq_nil. apply app_eq_nil in H1 as [H1 H3].
  apply app_eq_nil in H3 as [H3 H4]. rewrite str_if_nil in H1, H3, H4. rewrite not_natural_false in H3, H4.
  apply price_errors_nil in H2 as (price & Hp). split_and!; [done..|]. exists price, payTo. constructor; try done.
  destruct (field position "txid") as [| | | |s| | |]; try done. simp_bool. by exists s.
Qed.

(** A sale is refused for the stated reasons and no other: [planSell] says ok
    if and only if there is a position with a txid of 64 characters, a natural
    output index and multiplier, a whole price that is not dust, and an address
    that can be paid; and it is ok exactly when it gives no reason. *)
Theorem planSell_exact position priceSats address :
  truthy position = true → is_object position = true →
  let plan := planSell position priceSats address in
  (sl_ok plan = true ↔ ∃ price payTo, good_sale position priceSats address price payTo)
  ∧ (sl_ok plan = true ↔ sl_errors plan = []).
Proof.
  intros Ht Ho plan. split; [split; [by intros (_ & _ & ?)%planSell_ok_inv|]|].
  - intros (price & payTo' & [(s & Es & Hs) Hv Hm Hp Ha]). unfold plan, planSell. rewrite Ht, Ho, Ha, Es, Hs.
    rewrite (proj2 (not_natural_false _) Hv), (proj2 (not_natural_false _) Hm).
    by rewrite (proj2 (price_errors_nil _)) by eauto.
  - unfold plan, planSell. rewrite Ht, Ho. cbn [negb orb].
    destruct (addressToScript address); cbn [sl_ok sl_errors]; apply length_eqb_nil.
Qed.

(** ** From the maker to the taker *)

Lemma signSpend_bytes secp `{SecpLaws secp} sc k t n ht sig :
  is_byte (default SIGHASH_ALL ht) → signSpend secp sc k t n ht = Ok sig → is_bytes sig.
Proof.
  intros Hht (h & der & _ & Hd & ->)%signSpend_spec; [|done..].
  apply raw_bytes, wf_push_of; [apply is_bytes_snoc; eauto using sign_bytes|].
  pose proof (sign_length _ _ _ Hd). rewrite length_app. cbn. lia.
Qed.

Lemma p2pkh_script_bytes h : is_bytes h → is_bytes (p2pkh_script h).
Proof.
  intros Hh. unfold p2pkh_script. apply is_bytes_app_2; [|apply is_bytes_app_2; [done|]];
    apply (bool_decide_unpack (is_bytes _)); reflexivity.
Qed.

(** An order as it is signed and published. *)
Lemma buildSellOrder_inv secp `{SecpLaws secp} now position k pk priceSats address body :
  buildSellOrder secp now position k pk priceSats address = Ok body →
  ∃ price payTo s o,
    good_sale position priceSats address price payTo ∧ is_bytes payTo
    ∧ positionScriptOf position pk (as_num (field position "multiplier")) = Ok s
    ∧ signMakerOrder secp (MakerOpts (as_str (field position "txid")) (int_of (as_num (field position "vout")))
                             s k payTo (Int price)) = Ok o
    ∧ is_bytes (o_scriptSig o)
    ∧ field body "txid" = field position "txid" ∧ field body "vout" = field position "vout"
    ∧ field body "script_sig" = Str (bytesToHex (o_scriptSig o))
    ∧ field body "payment_script" = Str (bytesToHex payTo) ∧ field body "payment_value" = Num (Int price).
Proof.
  intros ([] & Hok%throw_if_Ok%negb_false_iff & H0)%bind_Ok.
  destruct (planSell_ok_inv _ _ _ Hok) as (Ht & Ho & price & payTo & Hg).
  assert (payment_script_of (planSell position priceSats address) = payTo) as Ep.
  { unfold payment_script_of, planSell. rewrite Ht, Ho. cbn [negb orb]. by rewrite (gs_address _ _ _ _ _ Hg). }
  rewrite Ep in H0. apply bind_Ok in H0 as (s & Hs & H0). apply bind_Ok in H0 as (o & Hmk & H0). apply Ok_inj in H0 as <-.
  pose proof (gs_price _ _ _ _ _ Hg) as [-> Hd]. cbn [as_num] in Hmk.
  exists price, payTo, s, o. split_and!; try done.
  - pose proof (gs_address _ _ _ _ _ Hg) as (v & h & _ & Hh & _ & _ & ->)%addressToScript_spec.
    by apply p2pkh_script_bytes.
  - unfold signMakerOrder in Hmk. apply bind_Ok in Hmk as (sig & Hsig & <-%Ok_inj).
    refine (signSpend_bytes secp _ _ _ _ _ _ _ Hsig). by vm_compute.
Qed.

(** C5 An order that one wallet publishes, another wallet completes.  If a relay
    serves what the maker's [buildSellOrder] returned (it may add fields, such
    as the lineage), then whatever transaction a taker's [buildFillTx] builds
    from it, with whatever coins, plan and key, spends the maker's position at
    input 0 with a scriptSig that is the maker's valid signature over that
    transaction, for a covenant of the maker's own key; and it pays exactly the
    asking price to the maker's address at output 0. *)
Theorem sold_order_fills secp `{SecpLaws secp} now position k pk priceSats address body
    secp' order plan k' pk' offered us hex t :
  key_ok pk → key_ok pk' → u8_ok (field position "script_hex") →
  buildSellOrder secp now position k pk priceSats address = Ok body →
  Forall (λ f, field order f = field body f) ["txid"; "vout"; "script_sig"; "payment_script"; "payment_value"] →
  buildFillTx secp' plan k' pk' order offered us = Ok (hex, t) →
  ∃ s r sig payTo price,
    positionScriptOf position pk (as_num (field position "multiplier")) = Ok s
    ∧ parseUapScript s = Some r ∧ pubkey r = pk ∧ multiplier r = as_num (field position "multiplier")
    ∧ signSpend secp s k t 0 (Some SINGLE_ANYONECANPAY) = Ok sig
    ∧ tx_vin t !! 0%nat = Some (Vin (as_str (field position "txid")) (int_of (as_num (field position "vout")))
                                  (Some sig) None (Some 0xffffffff))
    ∧ addressToScript address = Ok payTo ∧ priceSats = Num (Int price)
    ∧ tx_vout t !! 0%nat = Some (TxOut (Int price) payTo).
Proof.
  intros [Hb Hl] Hk' Hu Hsell Hf Hfill.
  destruct (buildSellOrder_inv _ _ _ _ _ _ _ _ Hsell)
    as (price & payTo & s & o & Hg & Hpb & Hs & Hmk & Hsb & E1 & E2 & E3 & E4 & E5).
  destruct (buildFillTx_spec _ _ _ _ _ _ _ _ _ Hk' Hfill)
    as (_ & _ & ss & ps & script & _ & _ & _ & Hss & Hps & _ & Eo & Ei & _ & Ev & El & _ & _).
  rewrite !Forall_cons in Hf. destruct Hf as (F1 & F2 & F3 & F4 & F5 & _).
  rewrite F3, E3 in Hss. rewrite F4, E4 in Hps. cbn [as_str] in Hss, Hps.
  rewrite hexToBytes_bytesToHex in Hss, Hps by done. apply Ok_inj in Hss, Hps. subst ss ps.
  rewrite F1, F2, E1, E2 in Ei. rewrite F5, E5 in Eo. cbn [as_num] in Eo.
  destruct (positionScript_covenant _ _ _ _ Hu Hb Hl Hs) as (r & z & Hw & Es & Hpk & Hm & _).
  exists s, r, (o_scriptSig o), payTo, price. split_and!; try done.
  - rewrite Es. by apply parse_complete.
  - eapply (maker_signature_survives secp (MakerOpts _ _ s k payTo (Int price)) o t _ Hmk Ev El Ei); [done|].
    by rewrite Eo.
  - apply Hg.
  - apply (gs_price _ _ _ _ _ Hg).
  - by rewrite Eo.
Qed.

(** ** Samples *)

Definition sample_selling : jsval :=
  Obj [("txid", Str sample_txid); ("vout", Num (Int 1)); ("value", Num (Int 500000000));
       ("multiplier", Num (Int 5)); ("origin", Str sample_origin)].
Definition sample_price : jsval := Num (Int 200000000).

Lemma planSell_exact_witness : sl_ok (planSell sample_selling sample_price sample_address) = true.
Proof.
  apply (proj2 (proj1 (planSell_exact sample_selling sample_price sample_address eq_refl eq_refl))).
  exists 200000000, (p2pkh_script (replicate 20 9)). constructor.
  - exists sample_txid. split; reflexivity.
  - exists 1. split; [reflexivity|lia].
  - exists 5. split; [reflexivity|lia].
  - split; [reflexivity|vm_compute; discriminate].
  - exact sample_address_script.
Defined.

(** What the relay publishes: the body, and the lineage. *)
Definition listed (body : jsval) : jsval :=
  match body with Obj fields => Obj (fields ++ [("origin", Str sample_origin)]) | v => v end.

Definition sample_purchase : fill_plan :=
  FillPlan [sample_utxo 900000000] (Int 200000000) (Int 1000000) (Int 0) (Int 1000000) (Int 500000000).

Lemma listed_fields secp now position k pk priceSats address body :
  buildSellOrder secp now position k pk priceSats address = Ok body →
  Forall (λ f, field (listed body) f = field body f) ["txid"; "vout"; "script_sig"; "payment_script"; "payment_value"].
Proof. unfold buildSellOrder. intros H. simp_res. by repeat constructor. Qed.

Lemma sample_trade :
  match buildSellOrder sample_secp 1700000000000 sample_selling [1] sample_own sample_price sample_address with
  | Ok body =>
      is_ok (buildFillTx sample_secp sample_purchase [2] sample_own (listed body) sample_selling
               [sample_utxo 900000000]) = true
  | Throw _ => False
  end.
Proof. unfold buildSellOrder, planSell. rewrite sample_address_script. by vm_compute. Qed.

Lemma sold_order_fills_witness :
  ∃ body hex t,
    buildSellOrder sample_secp 1700000000000 sample_selling [1] sample_own sample_price sample_address = Ok body
    ∧ buildFillTx sample_secp sample_purchase [2] sample_own (listed body) sample_selling [sample_utxo 900000000]
      = Ok (hex, t)
    ∧ tx_vout t !! 0%nat = Some (TxOut (Int 200000000) (p2pkh_script (replicate 20 9))).
Proof.
  pose proof sample_trade as Hok.
  destruct (buildSellOrder _ _ _ _ _ _ _) as [body|] eqn:E; [|destruct Hok].
  destruct (buildFillTx _ _ _ _ _ _ _) as [[hex t]|] eqn:E'; [|discriminate Hok].
  exists body, hex, t. split_and!; [reflexivity|exact E'|].
  assert (key_ok sample_own) as Hk.
  { split; [apply (bool_decide_unpack (is_bytes _)); reflexivity|left; reflexivity]. }
  pose proof (listed_fields _ _ _ _ _ _ _ _ E) as Hf.
  destruct (sold_order_fills sample_secp (H:=sample_secp_laws) 1700000000000 sample_selling [1] sample_own sample_price sample_address body
    sample_secp (listed body) sample_purchase [2] sample_own sample_selling [sample_utxo 900000000] hex t Hk Hk I E Hf E')
    as (s & r & sig & payTo & price & _ & _ & _ & _ & _ & _ & Ha & Hp & Ho).
  rewrite sample_address_script in Ha. apply Ok_inj in Ha as <-. injection Hp as <-. exact Ho.
Defined.
