(* ===== verification/Cancel.v ===== *)
(** * Cancel: [contrib/uap-web/cancel.js], withdrawing an order

    Which orders are the wallet's ([myOrders]), whether one can be cancelled
    ([planCancel]), what the cancellation signs ([cancelSignInput]) and how a
    refusal of the relay is explained ([describeCancelFailure]).

    The theorem: a plan that is ok is one the library can sign, and the message
    signed names the order and its nonce and no other. *)

From stdpp Require Import base tactics option list numbers strings pretty.
From Stdlib Require Import ZArith Lia Ascii.
From S2P Require Import Prelude JsInt JsStr JsNum JsVal Words Sha256 Script Tx Payments Orders.
From S2P Require Import Transfer Market.

Definition myOrders (orders ownPubKeyHex : jsval) : list jsval :=
  match orders with
  | Arr l =>
      match ownPubKeyHex with
      | Str own =>
          if slen own =? 0 then []
          else List.filter (λ o, truthy o && match field o "pubkey" with Str s => str_eqb s own | _ => false end) l
      | _ => []
      end
  | _ => []
  end.

(** [typeof v !== 'string' || v.length === 0]. *)
Definition no_string (v : jsval) : bool := match v with Str s => slen s =? 0 | _ => true end.

Definition planCancel (order : jsval) : bool * list string :=
  if negb (truthy order) || negb (is_object order) then (false, ["No order selected."])
  else
    let errors :=
      str_if match field order "txid" with Str s => negb (slen s =? 64) | _ => true end
        "Order is missing a valid transaction id."
      ++ str_if (not_natural (field order "vout")) "Order is missing a valid output index."
      ++ str_if (no_string (field order "script_sig"))
           "Order is missing its signature; cannot request cancellation."
      ++ str_if (no_string (field order "cancel_nonce"))
           "Order is missing the data needed to authorize a cancellation." in
    ((length errors =? 0)%nat, errors).

(** [{ ...cancelSignInput(order), privKey }], the argument of [signCancelOrder]. *)
Definition cancelSignInput (order : jsval) (privKey : bytes) : cancel_opts :=
  CancelOpts (as_str (field order "txid")) (as_num (field order "vout")) (as_str (field order "script_sig"))
    match field order "cancel_nonce" with Str s => NonceString s | _ => NonceOther end privKey.

(** [s.includes(p)]. *)
Fixpoint includes_chars (p l : list ascii) : bool :=
  match strip_prefix p l with
  | Some _ => true
  | None => match l with [] => false | _ :: l => includes_chars p l end
  end.
Definition includes (s p : string) : bool := includes_chars (chars p) (chars s).

Definition describeCancelFailure (message : jsval) : string :=
  let m := js_String (if truthy message then message else Str EmptyString) in
  if includes m "no such order" then
    "This order is no longer open. It may already have been filled, "
    +:+ "cancelled elsewhere, or the underlying position has been spent."
  else if includes m "cancel signature does not authorize this order" then
    "This cancellation could not be verified against the order on file. "
    +:+ "If the order was recently republished, try again with a fresh signature."
  else "Could not cancel this order: " +:+ m.

(** ** Properties *)

(** The wallet's own orders, in the order the relay lists them. *)
Lemma myOrders_own l own o :
  o ∈ myOrders (Arr l) (Str own) ↔ own ≠ EmptyString ∧ o ∈ l ∧ field o "pubkey" = Str own.
Proof.
  unfold myOrders. destruct (Z.eqb_spec (slen own) 0) as [E|E].
  { split; [by intros ?%not_elem_of_nil|]. intros (Hne & _). by destruct own. }
  rewrite list_elem_of_In, filter_In, <-list_elem_of_In, andb_true_iff. split.
  - intros (Ho & Ht & Hf). split; [by intros ->|]. split; [done|].
    destruct (field o "pubkey"); try done. by apply str_eqb_eq in Hf as ->.
  - intros (_ & Ho & Hf). split; [done|]. rewrite Hf, (proj2 (str_eqb_eq own own) eq_refl).
    destruct o; by simplify_eq/=.
Qed.

(** What can be cancelled. *)
Record cancellable (order : jsval) (txid : string) (vout : Z) (sig nonce : string) : Prop := {
  cc_txid : field order "txid" = Str txid ∧ slen txid = 64;
  cc_vout : field order "vout" = Num (Int vout) ∧ 0 ≤ vout;
  cc_sig : field order "script_sig" = Str sig ∧ sig ≠ EmptyString;
  cc_nonce : field order "cancel_nonce" = Str nonce ∧ nonce ≠ EmptyString
}.

Lemma no_string_false v : no_string v = false ↔ ∃ s, v = Str s ∧ s ≠ EmptyString.
Proof.
  split.
  - destruct v as [| | | |s| | |]; try done. cbn. intros H. simp_bool. exists s. split; [done|]. by intros ->.
  - intros (s & -> & Hs). cbn. apply Z.eqb_neq. by destruct s.
Qed.

(** [planCancel] accepts exactly the orders that can be withdrawn, and what it
    accepts can be signed.  It says ok if and only if the order has a txid of
    64 characters, a natural output index, a signature and a nonce that is a
    string; the library then never refuses the nonce, and the signature it
    returns is one by the wallet's key over the five lines of the cancellation
    of this order: the domain, the txid, the index, the signature being
    withdrawn and the nonce of its publication. *)
Theorem planCancel_signable order :
  truthy order = true → is_object order = true →
  ((planCancel order).1 = true ↔ ∃ txid vout sig nonce, cancellable order txid vout sig nonce)
  ∧ ((planCancel order).1 = true ↔ (planCancel order).2 = [])
  ∧ ∀ txid vout sig nonce secp k, cancellable order txid vout sig nonce →
      signCancelOrder secp (cancelSignInput order k)
      = (der ← signSync secp (hash256 (utf8 (join (str_of [newline])
                  [CANCEL_DOMAIN; txid; num_str (Int vout); sig; nonce]))) k; Ok (bytesToHex der)).
Proof.
  intros Ht Ho. unfold planCancel. rewrite Ht, Ho. cbn [negb orb fst snd]. split_and!.
  - rewrite length_eqb_nil. split.
    + intros H. apply app_eq_nil in H as [H1 H]. apply app_eq_nil in H as [H2 H]. apply app_eq_nil in H as [H3 H4].
      rewrite str_if_nil in H1, H2, H3, H4. rewrite not_natural_false in H2. rewrite no_string_false in H3, H4.
      destruct H2 as (z & Hz), H3 as (s & Hs), H4 as (n & Hn).
      destruct (field order "txid") as [| | | |txid| | |] eqn:Et; try done. simp_bool.
      by exists txid, z, s, n.
    + intros (txid & z & s & n & [[Et Hl] Hz Hs Hn]). rewrite Et, Hl.
      rewrite (proj2 (not_natural_false _)), (proj2 (no_string_false _)), (proj2 (no_string_false _)); eauto.
  - by rewrite length_eqb_nil.
  - intros txid vout sig nonce secp k [[Et _] [Ev _] [Es _] [En _]]. unfold cancelSignInput, signCancelOrder.
    rewrite Et, Ev, Es, En. cbn [as_str as_num x_txid x_vout x_scriptSig x_cancelNonce x_privKey cancelMessage mbind res_bind].
    do 4 f_equal. apply chars_inj. unfold join. cbn [fold_left]. by rewrite !chars_app, <-!app_assoc.
Qed.

Definition sample_standing : jsval :=
  Obj [("txid", Str sample_txid); ("vout", Num (Int 1)); ("script_sig", Str "0101");
       ("cancel_nonce", Str "1789000000000000001"); ("pubkey", Str "02aa")].

Lemma planCancel_signable_witness :
  (planCancel sample_standing).1 = true ∧ (planCancel sample_standing).2 = [].
Proof.
  destruct (planCancel_signable sample_standing eq_refl eq_refl) as (H1 & H2 & _).
  assert ((planCancel sample_standing).1 = true) as Hok.
  { apply H1. exists sample_txid, 1, "0101", "1789000000000000001".
    constructor; (split; [reflexivity|]); [reflexivity|lia|discriminate|discriminate]. }
  split; [exact Hok|]. apply H2. exact Hok.
Defined.

(** A refusal of the relay is recognised behind the status line [Api] puts in
    front of it. *)
Lemma describeCancelFailure_recognises :
  describeCancelFailure (Str "HTTP 400: no such order")
  = "This order is no longer open. It may already have been filled, cancelled elsewhere, or the underlying position has been spent."
  ∧ describeCancelFailure (Str "HTTP 500") = "Could not cancel this order: HTTP 500".
Proof. split; vm_compute; reflexivity. Qed.
