(* ===== verification/Api.v ===== *)
(** * Api: [contrib/uap-web/api.js], the client of the indexer

    Every method of [class API], the pagination loop [requestAllPages], the
    marking of results that came from the offline cache ([attachStaleInfo],
    [staleInfo]) and [pollForConfirmation].

    The network is a parameter: [fetchImpl], any function from a request to a
    response or a rejection.  A response is its status, what [json()] gives
    (a value, or a failure to parse) and its headers, which a substitute for
    [fetch] may not have.

    The theorems hold for every server: what a method returns has the shape it
    promises; a broadcast succeeds exactly on an accepted txid; polling always
    ends, and misses nothing it was shown.  For a server that pages honestly,
    all of its rows arrive. *)

From stdpp Require Import base tactics option list numbers strings pretty.
From Stdlib Require Import ZArith Lia Ascii.
From S2P Require Import Prelude JsInt JsStr JsNum JsVal Effects Script Transfer Cancel.

(** ** The platform *)

Record request := Request {
  rq_url : string;
  rq_method : string;
  rq_headers : list (string * string);
  rq_body : option string
}.

Record response := Response {
  rs_status : Z;
  rs_json : res jsval;
  rs_headers : option (string → option string)
}.

(** [headers && typeof headers.get === 'function' && headers.get(name)]. *)
Definition header (r : response) (name : string) : option string :=
  match rs_headers r with Some get => get name | None => None end.

Definition is_header (r : response) (name value : string) : bool :=
  match header r name with Some v => str_eqb v value | None => false end.

(** [JSON.stringify(v)]; [None] is [undefined]. *)
Fixpoint JSON_stringify (v : jsval) : option string :=
  match v with
  | Undef => None
  | Null => Some "null"
  | VBool b => Some (if b then "true" else "false")
  | Num n => Some (match n with Fin _ _ => num_str n | _ => "null" end)
  | Str s => Some (json_string s)
  | U8 b => Some ("{" +:+ join "," (imap (λ i x, json_string (dec (Z.of_nat i)) +:+ ":" +:+ dec x) b) +:+ "}")
  | Arr l => Some ("[" +:+ join "," (map (λ v, default "null" (JSON_stringify v)) l) +:+ "]")
  | Obj fields =>
      Some ("{" +:+ join "," (mjoin (map (λ '(k, v),
        match JSON_stringify v with Some s => [json_string k +:+ ":" +:+ s] | None => [] end) fields)) +:+ "}")
  end.

(** [`${JSON.stringify(v)}`]. *)
Definition json_text (v : jsval) : string := default "undefined" (JSON_stringify v).

(** A byte in [application/x-www-form-urlencoded]. *)
Definition form_byte (b : Z) : string :=
  if ((48 <=? b) && (b <=? 57)) || ((65 <=? b) && (b <=? 90)) || ((97 <=? b) && (b <=? 122))
     || (b =? 42) || (b =? 45) || (b =? 46) || (b =? 95)
  then str_of [chr b]
  else if b =? 32 then "+"
  else "%" +:+ toUpperCase (padStart (byte_toString16 b) 2 "0"%char).

Definition form_encode (s : string) : string := foldr (λ b t, form_byte b +:+ t) EmptyString (utf8 s).

(** [new URLSearchParams], [append] and [toString]. *)
Definition url_params (params : list (string * string)) : string :=
  join "&" (map (λ '(k, v), form_encode k +:+ "=" +:+ form_encode v) params).

(** ** Stale results *)

Definition STALE_HEADER : string := "X-Whippet-Stale".
Definition CACHED_AT_HEADER : string := "X-Whippet-Cached-At".

(** A value with what the symbol [STALE_INFO] holds on it, if anything: the
    time it was cached at, where that is known. *)
Record tagged := Tagged { tg_data : jsval; tg_stale : option (option string) }.

Definition attachStaleInfo (data : jsval) (r : response) : tagged :=
  if match data with Null => true | _ => negb (is_object data) end then Tagged data None
  else if negb (is_header r STALE_HEADER "1") then Tagged data None
  else Tagged data (Some match header r CACHED_AT_HEADER with
                         | Some t => if str_eqb t EmptyString then None else Some t
                         | None => None
                         end).

(** [{ stale, cachedAt }]. *)
Definition staleInfo (t : tagged) : bool * option string :=
  if match tg_data t with Null => true | _ => negb (is_object (tg_data t)) end then (false, None)
  else match tg_stale t with Some cachedAt => (true, cachedAt) | None => (false, None) end.

(** ** Requests *)

Definition MAX_PAGES : nat := 100.

Definition bad_status (r : response) : bool := (rs_status r <? 200) || (rs_status r >=? 300).

Definition GET (url : string) : request := Request url "GET" [] None.

Definition POST (url : string) (body : jsval) : request :=
  Request url "POST" [("Content-Type", "application/json")] (JSON_stringify body).

(** [`HTTP ${status}`], with the reason in the body where there is one. *)
Definition http_error (r : response) (reason : jsval → jsval) : string :=
  let message := "HTTP " +:+ dec (rs_status r) in
  match rs_json r with
  | Ok body =>
      let why := if truthy body then reason body else Null in
      if truthy why then message +:+ ": " +:+ js_String why else message
  | Throw _ => message
  end.

(** [body.error || body.store_error], and [body.error]. *)
Definition any_reason (body : jsval) : jsval :=
  if truthy (field body "error") then field body "error" else field body "store_error".
Definition error_reason (body : jsval) : jsval := field body "error".

Section client.
Context {W : Type} (baseUrl : string) (fetchImpl : request → io W response).

Definition parse_body (r : response) : res tagged :=
  match rs_json r with
  | Ok data => Ok (attachStaleInfo data r)
  | Throw e => Throw ("Failed to parse JSON response: " +:+ e)
  end.

Definition request_ (path : string) : io W tagged :=
  r ← fetchImpl (GET (baseUrl +:+ path));
  if bad_status r then lift (Throw (http_error r any_reason)) else lift (parse_body r).

Definition requestPage (path : string) : io W (tagged * bool) :=
  r ← fetchImpl (GET (baseUrl +:+ path));
  if bad_status r then data ← request_ path; mret (data, false)
  else data ← lift (parse_body r); mret (data, is_header r "X-Has-More" "true").

(** The body of the loop of [requestAllPages], [pages] times. *)
Fixpoint page_loop (pages : nat) (basePath sep : string) (offset : Z) (out : option tagged) : io W tagged :=
  match pages with
  | O => mret (default (Tagged (Arr []) None) out)
  | S pages =>
      '(data, hasMore) ← requestPage (basePath +:+ sep +:+ "offset=" +:+ dec offset);
      match tg_data data with
      | Arr rows =>
          let out := match out with
                     | None => data
                     | Some acc => Tagged (Arr (elements (tg_data acc) ++ rows)) None
                     end in
          if negb hasMore || (length rows =? 0)%nat then mret out
          else page_loop pages basePath sep (offset + zlen rows) (Some out)
      | _ => mret data
      end
  end.

Definition requestAllPages (basePath : string) : io W tagged :=
  let sep := if includes basePath "?" then "&" else "?" in
  page_loop MAX_PAGES basePath sep 0 None.

(** ** Checking shapes *)

Inductive js_type := TString | TNumber.

Definition has_type (t : js_type) (v : jsval) : bool :=
  match t, v with TString, Str _ | TNumber, Num _ => true | _, _ => false end.

(** The checks of one entry, in order; [typeof entry.f] of a null entry throws. *)
Definition check_fields (entry : jsval) (spec : list (string * js_type)) (complaint : string → js_type → string) :
    res unit :=
  foldR (λ _ '(f, t), v ← get entry f; throw_if (negb (has_type t v)) (complaint f t)) tt spec.

Definition type_name (t : js_type) : string := match t with TString => "string" | TNumber => "number" end.

Definition entry_complaint (method : string) (i : nat) (f : string) (t : js_type) : string :=
  method +:+ ": entry " +:+ dec (Z.of_nat i) +:+ " has non-" +:+ type_name t +:+ " " +:+ f.

Definition missing_complaint (method number : string) (f : string) (t : js_type) : string :=
  method +:+ ": response missing " +:+ match t with TString => "string" | TNumber => number end +:+ " " +:+ f +:+ " field".

Fixpoint check_entries (method : string) (spec : list (string * js_type)) (i : nat) (l : list jsval) : res unit :=
  match l with
  | [] => Ok tt
  | entry :: l => _ ← check_fields entry spec (entry_complaint method i); check_entries method spec (S i) l
  end.

Definition check_list (method : string) (spec : list (string * js_type)) (result : tagged) : res tagged :=
  match tg_data result with
  | Arr l => _ ← check_entries method spec 0 l; Ok result
  | _ => Throw (method +:+ ": response is not an array")
  end.

Definition is_plain_object (v : jsval) : bool := match v with Obj _ => true | _ => false end.

Definition check_object (method number : string) (spec : list (string * js_type)) (result : tagged) : res tagged :=
  _ ← throw_if (negb (is_plain_object (tg_data result))) (method +:+ ": expected an object");
  _ ← check_fields (tg_data result) spec (missing_complaint method number);
  Ok result.

(** ** The methods *)

Definition position_fields : list (string * js_type) :=
  [("txid", TString); ("vout", TNumber); ("height", TNumber); ("value", TNumber)].
Definition utxo_fields : list (string * js_type) :=
  [("txid", TString); ("vout", TNumber); ("value", TNumber); ("height", TNumber)].
Definition order_fields : list (string * js_type) :=
  [("txid", TString); ("vout", TNumber); ("multiplier", TNumber); ("pubkey", TString); ("script_sig", TString);
   ("payment_script", TString); ("payment_value", TNumber); ("created_at", TNumber); ("cancel_nonce", TString)].
Definition status_fields : list (string * js_type) :=
  [("tip_height", TNumber); ("tip_hash", TString); ("position_count", TNumber)].
Definition feerate_fields : list (string * js_type) := [("sat_per_kb", TNumber); ("source", TString)].

Definition getPositions (pubkeyHex : string) (unspentOnly : bool) : io W tagged :=
  result ← requestAllPages
             ("/positions?" +:+ url_params [("pubkey", pubkeyHex); ("unspent", if unspentOnly then "true" else "false")]);
  lift (check_list "getPositions" position_fields result).

Definition getPosition (txid : string) (vout : Number) : io W tagged :=
  result ← request_ ("/position/" +:+ txid +:+ "/" +:+ num_str vout);
  lift (check_object "getPosition" "number" position_fields result).

Definition getRawTx (txid : string) : io W string :=
  result ← request_ ("/rawtx/" +:+ txid);
  _ ← lift (throw_if (negb (is_plain_object (tg_data result))) "getRawTx: expected an object");
  match field (tg_data result) "hex" with
  | Str hex => if even_hex hex then mret hex else lift (Throw "getRawTx: response missing a well-formed hex field")
  | _ => lift (Throw "getRawTx: response missing a well-formed hex field")
  end.

Definition getUtxos (address : string) : io W tagged :=
  result ← requestAllPages ("/utxos?" +:+ url_params [("address", address)]);
  lift (check_list "getUtxos" utxo_fields result).

Definition getStatus : io W tagged :=
  result ← request_ "/status";
  lift (check_object "getStatus" "numeric" status_fields result).

Definition broadcast (rawHex : string) : io W string :=
  r ← fetchImpl (POST (baseUrl +:+ "/broadcast") (Obj [("hex", Str rawHex)]));
  _ ← lift (throw_if (bad_status r) (http_error r error_reason));
  txid ← lift match rs_json r with
              | Ok v => Ok v
              | Throw e => Throw ("Failed to parse broadcast response: " +:+ e)
              end;
  match txid with
  | Str s => if is_lower_hex_of 64 s then mret s
             else lift (Throw ("broadcast: expected a 64-character hex txid, got " +:+ json_text txid))
  | _ => lift (Throw ("broadcast: expected a 64-character hex txid, got " +:+ json_text txid))
  end.

Definition getFeeRate : io W tagged :=
  result ← request_ "/feerate";
  lift (check_object "getFeeRate" "numeric" feerate_fields result).

Definition listOrders (multiplier : option Number) : io W tagged :=
  let path := "/orders" in
  let path := match multiplier with Some m => path +:+ "?multiplier=" +:+ num_str m | None => path end in
  result ← request_ path;
  lift (check_list "listOrders" order_fields result).

Definition getOrder (txid : string) (vout : Number) : io W tagged :=
  result ← request_ ("/orders/" +:+ txid +:+ "/" +:+ num_str vout);
  lift (check_object "getOrder" "number" order_fields result).

Definition publishOrder (order : jsval) : io W tagged :=
  r ← fetchImpl (POST (baseUrl +:+ "/orders") order);
  _ ← lift (throw_if (bad_status r) (http_error r error_reason));
  result ← lift match rs_json r with
                | Ok v => Ok v
                | Throw e => Throw ("Failed to parse order response: " +:+ e)
                end;
  lift (check_object "publishOrder" "number" order_fields (Tagged result None)).

Definition cancelOrder (txid : string) (vout : Number) (cancelSigHex : string) : io W unit :=
  r ← fetchImpl (Request (baseUrl +:+ "/orders/" +:+ txid +:+ "/" +:+ num_str vout +:+ "?"
                          +:+ url_params [("sig", cancelSigHex)]) "DELETE" [] None);
  if rs_status r =? 204 then mret tt else lift (Throw (http_error r error_reason)).

End client.

(** ** Polling *)

(** [{ status: 'confirmed', utxo }] or [{ status: 'timeout' }]. *)
Inductive confirmation := Confirmed (utxo : jsval) | TimedOut.

(** [utxos.find((u) => u.txid === txid)]. *)
Fixpoint find_utxo (txid : string) (l : list jsval) : res (option jsval) :=
  match l with
  | [] => Ok None
  | u :: l =>
      v ← get u "txid";
      match v with
      | Str s => if str_eqb s txid then Ok (Some u) else find_utxo txid l
      | _ => find_utxo txid l
      end
  end.

Section poll.
Context {W : Type} (getUtxos : string → io W tagged) (sleep : Z → io W unit) (onError : string → io W unit).
Context (address txid : string) (intervalMs : Z).

(** One attempt; an error is reported and counts as finding nothing. *)
Definition poll_once : io W (option jsval) :=
  io_try (utxos ← getUtxos address; lift (find_utxo txid (elements (tg_data utxos))))
    (λ e, _ ← onError e; mret None).

Fixpoint poll_loop (attempts : nat) (first : bool) : io W confirmation :=
  match attempts with
  | O => mret TimedOut
  | S attempts =>
      _ ← (if first then mret tt else sleep intervalMs);
      m ← poll_once;
      match m with Some u => mret (Confirmed u) | None => poll_loop attempts false end
  end.

Definition pollForConfirmation (maxAttempts : nat) : io W confirmation := poll_loop maxAttempts true.

(** The world the [n]th attempt runs in, if those before it found nothing. *)
Fixpoint poll_world (n : nat) (w : W) : W :=
  match n with
  | O => w
  | S n => (sleep intervalMs (poll_once (poll_world n w)).1).1
  end.
End poll.

(** ** Which methods only read *)

Section reads.
Context {W : Type} (R : relation W) `{!PreOrder R} (baseUrl : string) (fetchImpl : request → io W response).
Hypothesis gets : ∀ q, rq_method q = "GET" → keeps R (fetchImpl q).

Lemma request_reads path : keeps R (request_ baseUrl fetchImpl path).
Proof. unfold request_. eauto 30 with reads. Qed.

Lemma requestPage_reads path : keeps R (requestPage baseUrl fetchImpl path).
Proof. unfold requestPage. eauto 30 using request_reads with reads. Qed.

Lemma page_loop_reads n basePath sep offset out : keeps R (page_loop baseUrl fetchImpl n basePath sep offset out).
Proof.
  revert offset out. induction n; intros offset out; simpl; [eauto 30 with reads|].
  apply keeps_bind; [done|apply requestPage_reads|]. intros [data more]. eauto 30 with reads.
Qed.

Lemma getUtxos_reads a : keeps R (getUtxos baseUrl fetchImpl a).
Proof. apply keeps_bind; [done|apply page_loop_reads|eauto 30 with reads]. Qed.
Lemma getPositions_reads pk u : keeps R (getPositions baseUrl fetchImpl pk u).
Proof. apply keeps_bind; [done|apply page_loop_reads|eauto 30 with reads]. Qed.
Lemma getPosition_reads t v : keeps R (getPosition baseUrl fetchImpl t v).
Proof. unfold getPosition. eauto 30 using request_reads with reads. Qed.
Lemma getRawTx_reads t : keeps R (getRawTx baseUrl fetchImpl t).
Proof. unfold getRawTx. eauto 30 using request_reads with reads. Qed.
Lemma getFeeRate_reads : keeps R (getFeeRate baseUrl fetchImpl).
Proof. unfold getFeeRate. eauto 30 using request_reads with reads. Qed.
Lemma listOrders_reads m : keeps R (listOrders baseUrl fetchImpl m).
Proof. unfold listOrders. eauto 30 using request_reads with reads. Qed.

Lemma pollForConfirmation_reads sleep a txid ms n :
  (∀ ms, keeps R (sleep ms)) →
  keeps R (pollForConfirmation (getUtxos baseUrl fetchImpl) sleep (λ _, mret tt) a txid ms n).
Proof.
  intros Hs. unfold pollForConfirmation. generalize true as first. induction n; intros first; simpl; [eauto 30 with reads|].
  unfold poll_once. eauto 30 using getUtxos_reads with reads.
Qed.
End reads.

#[export] Hint Resolve getUtxos_reads getPositions_reads getPosition_reads getRawTx_reads getFeeRate_reads
  listOrders_reads pollForConfirmation_reads : reads.

(** ** Shapes *)

Definition shaped (spec : list (string * js_type)) (v : jsval) : Prop :=
  Forall (λ '(f, t), has_type t (field v f) = true) spec ∧ is_nullish v = false.

Lemma get_field v k x : get v k = Ok x → x = field v k ∧ is_nullish v = false.
Proof. by destruct v; intros [= <-]. Qed.

Lemma check_fields_shaped v spec complaint :
  spec ≠ [] → check_fields v spec complaint = Ok tt → shaped spec v.
Proof.
  unfold check_fields, shaped. intros Hne H. split; [clear Hne|].
  - induction spec as [|[f t] spec IH]; [constructor|]. cbn [foldR] in H.
    apply bind_Ok in H as ([] & H0 & H). apply bind_Ok in H0 as (x & [-> _]%get_field & H0%throw_if_Ok%negb_false_iff).
    constructor; [done|by apply IH].
  - destruct spec as [|[f t] spec]; [done|]. cbn [foldR] in H.
    apply bind_Ok in H as (u & H0 & _). by apply bind_Ok in H0 as (x & [_ ?]%get_field & _).
Qed.

Lemma check_entries_shaped method spec i l :
  spec ≠ [] → check_entries method spec i l = Ok tt → Forall (shaped spec) l.
Proof.
  intros Hne. revert i. induction l as [|v l IH]; intros i H; [constructor|]. cbn [check_entries] in H.
  apply bind_Ok in H as ([] & H0 & H). constructor; [by eapply check_fields_shaped|by eapply IH].
Qed.

Lemma check_list_shaped method spec r r' :
  spec ≠ [] → check_list method spec r = Ok r' →
  r' = r ∧ ∃ l, tg_data r = Arr l ∧ Forall (shaped spec) l.
Proof.
  intros Hne. unfold check_list. destruct (tg_data r) as [| | | | | |l|]; try done.
  intros ([] & H & <-%Ok_inj)%bind_Ok. split; [done|]. exists l. split; [done|]. by eapply check_entries_shaped.
Qed.

Lemma check_object_shaped method number spec r r' :
  spec ≠ [] → check_object method number spec r = Ok r' →
  r' = r ∧ ∃ fields, tg_data r = Obj fields ∧ shaped spec (tg_data r).
Proof.
  intros Hne ([] & Ho%throw_if_Ok%negb_false_iff & H)%bind_Ok. apply bind_Ok in H as ([] & H & <-%Ok_inj).
  split; [done|]. destruct (tg_data r) eqn:E; try done. exists fields. split; [done|]. by eapply check_fields_shaped.
Qed.

Section typed.
Context {W : Type} (baseUrl : string) (fetchImpl : request → io W response).

(** A broadcast succeeds exactly when the node accepted: [broadcast] makes one
    request, a POST of the transaction to [/broadcast], and returns a txid if
    and only if the answer is a success whose body is that string, of 64
    lower-case hexadecimal digits.  Every other answer, and a network failure,
    is an error; a rejection is never taken for a txid. *)
Theorem broadcast_exact rawHex w w' txid :
  broadcast baseUrl fetchImpl rawHex w = (w', Ok txid) ↔
  ∃ r, fetchImpl (Request (baseUrl +:+ "/broadcast") "POST" [("Content-Type", "application/json")]
                    (Some ("{" +:+ json_string "hex" +:+ ":" +:+ json_string rawHex +:+ "}"))) w = (w', Ok r)
    ∧ 200 ≤ rs_status r < 300 ∧ rs_json r = Ok (Str txid) ∧ is_lower_hex_of 64 txid = true.
Proof.
  unfold broadcast. rewrite io_bind_Ok. split.
  - intros (w1 & r & Hr & H). apply io_bind_Ok in H as (w2 & [] & [-> Hs%throw_if_Ok]%lift_Ok & H).
    apply io_bind_Ok in H as (w3 & v & [-> Hv]%lift_Ok & H). unfold bad_status in Hs. rewrite Z.geb_leb in Hs. simp_bool.
    destruct (rs_json r) as [v'|] eqn:Ej; [|done]. apply Ok_inj in Hv as ->.
    destruct v as [| | | |s| | |]; try (by apply lift_Ok in H as [_ ?]).
    destruct (is_lower_hex_of 64 s) eqn:E; [|by apply lift_Ok in H as [_ ?]]. apply io_ret_Ok in H as [-> ->].
    exists r. split_and!; done.
  - intros (r & Hr & Hs & Hj & Ht). exists w', r. split; [exact Hr|]. apply io_bind_Ok. exists w', tt.
    split; [apply lift_Ok; split; [done|apply throw_if_Ok; unfold bad_status; rewrite Z.geb_leb; apply orb_false_iff; lia]|].
    apply io_bind_Ok. exists w', (Str txid). rewrite Hj. split; [by apply lift_Ok|]. rewrite Ht. by apply io_ret_Ok.
Qed.
End typed.

(** ** Polling ends *)

Lemma find_utxo_shaped spec txid l :
  Forall (shaped spec) l →
  find_utxo txid l = Ok None ∧ Forall (λ u, field u "txid" ≠ Str txid) l
  ∨ ∃ u, find_utxo txid l = Ok (Some u) ∧ u ∈ l ∧ field u "txid" = Str txid.
Proof.
  induction 1 as [|u l [_ Hn] Hl IH]; [by left|]. cbn [find_utxo].
  replace (get u "txid") with (Ok (field u "txid")) by (by destruct u). cbn [mbind res_bind].
  destruct (field u "txid") as [| | | |s| | |] eqn:E.
  5: destruct (str_eqb s txid) eqn:Es;
     [apply str_eqb_eq in Es as ->; right; exists u; split_and!; [done|by constructor|done]|].
  all: destruct IH as [[-> IH]|(u' & -> & Hu & Hx)];
    [left; split; [done|constructor; [rewrite E|done]]|right; exists u'; split_and!; [done|by constructor|done]].
  5: { intros [= ->]. by rewrite (proj2 (str_eqb_eq _ _) eq_refl) in Es. }
  all: done.
Qed.

Section polling.
Context {W : Type} (baseUrl : string) (fetchImpl : request → io W response).
Context (sleep : Z → io W unit) (onError : string → io W unit) (address txid : string) (intervalMs : Z).
Hypothesis sleep_returns : ∀ ms w, ∃ w', sleep ms w = (w', Ok tt).
Hypothesis onError_returns : ∀ e w, ∃ w', onError e w = (w', Ok tt).

Let utxos := getUtxos baseUrl fetchImpl.
Let once := poll_once utxos onError address txid.
Let world := poll_world utxos sleep onError address txid intervalMs.

(** What an answer shows: an entry of the transaction, or none. *)
Definition shown (w : W) (u : jsval) : Prop :=
  ∃ w' us, utxos address w = (w', Ok us) ∧ u ∈ elements (tg_data us) ∧ field u "txid" = Str txid.

Lemma utxos_shaped w w' us : utxos address w = (w', Ok us) → Forall (shaped utxo_fields) (elements (tg_data us)).
Proof.
  intros (? & r & _ & [_ H]%lift_Ok)%io_bind_Ok. apply check_list_shaped in H as (-> & l & -> & ?); done.
Qed.

Lemma poll_once_spec w :
  ∃ w' m, once w = (w', Ok m)
    ∧ match m with Some u => shown w u | None => ∀ u, ¬ shown w u end.
Proof.
  unfold once, poll_once, io_try. unfold mbind at 1, io_bind at 1.
  destruct (utxos address w) as [w1 [us|e]] eqn:E.
  - pose proof (utxos_shaped _ _ _ E) as Hs. unfold lift.
    destruct (find_utxo_shaped _ txid _ Hs) as [[-> Hn]|(u & -> & Hu & Hx)].
    + exists w1, None. split; [done|]. intros u (w' & us' & E' & Hu & Hx). rewrite E in E'. simplify_eq.
      by eapply Forall_forall in Hn; [|done].
    + exists w1, (Some u). split; [done|]. by exists w1, us.
  - destruct (onError_returns e w1) as [w2 H2]. unfold mbind, io_bind. rewrite H2. exists w2, None.
    split; [done|]. intros u (w' & us & E' & _). by rewrite E in E'.
Qed.

Lemma poll_loop_spec n k w :
  let start := match k with O => w | S k => (once (world k w)).1 end in
  ∃ w' r, poll_loop utxos sleep onError address txid intervalMs n (match k with O => true | _ => false end) start
          = (w', Ok r)
    ∧ match r with
      | Confirmed u => ∃ i, (k ≤ i < k + n)%nat ∧ shown (world i w) u
      | TimedOut => ∀ i u, (k ≤ i < k + n)%nat → ¬ shown (world i w) u
      end.
Proof.
  revert k. induction n as [|n IH]; intros k; cbn [poll_loop].
  { eexists _, TimedOut. split; [done|]. intros; lia. }
  assert (∃ m, (if match k with O => true | _ => false end then mret tt else sleep intervalMs)
    (match k with O => w | S k => (once (world k w)).1 end) = (world k w, m) ∧ m = Ok tt) as (? & Hw & ->).
  { destruct k as [|k]; [by eexists|]. destruct (sleep_returns intervalMs (once (world k w)).1) as [w1 Hs].
    exists (Ok tt). cbn [world poll_world]. fold (world k w) (once (world k w)). by rewrite Hs. }
  cbv zeta. unfold mbind at 1, io_bind at 1. rewrite Hw.
  destruct (poll_once_spec (world k w)) as (w1 & m & Hm & Hr). unfold mbind, io_bind. fold once. rewrite Hm.
  destruct m as [u|].
  - eexists _, (Confirmed u). split; [done|]. exists k. split; [lia|done].
  - destruct (IH (S k)) as (w' & r & Hp & Hr'). rewrite Hm in Hp. cbn [fst] in Hp. exists w', r. split; [done|].
    destruct r as [u|].
    + destruct Hr' as (i & Hi & ?). exists i. split; [lia|done].
    + intros i u Hi. destruct (decide (i = k)) as [->|]; [apply Hr|apply Hr'; lia].
Qed.

(** C37 [pollForConfirmation] always ends, never rejects and misses nothing.
    Whatever the network does, for a clock and an error callback that return,
    it resolves after at most [maxAttempts] attempts.  If it says confirmed,
    an attempt was shown the output it returns, of the transaction it watched;
    if it says timeout, all the attempts were made and none was shown one. *)
Theorem pollForConfirmation_resolves maxAttempts w :
  ∃ w' r, pollForConfirmation utxos sleep onError address txid intervalMs maxAttempts w = (w', Ok r)
    ∧ match r with
      | Confirmed u => ∃ i, (i < maxAttempts)%nat ∧ shown (world i w) u
      | TimedOut => ∀ i u, (i < maxAttempts)%nat → ¬ shown (world i w) u
      end.
Proof.
  destruct (poll_loop_spec maxAttempts 0 w) as (w' & r & Hp & Hr). exists w', r. split; [done|].
  destruct r as [u|].
  - destruct Hr as (i & Hi & ?). exists i. split; [lia|done].
  - intros i u Hi. apply Hr. lia.
Qed.
End polling.

(** ** Pagination *)

Section paging.
Context {W : Type} (baseUrl : string) (fetchImpl : request → io W response) (basePath : string).
Context (rows : list jsval) (p : nat).

Let sep := if includes basePath "?" then "&" else "?".

(** A server that serves [rows], [p] at a time from the offset it is asked for,
    and says whether more follow. *)
Definition serves_pages : Prop :=
  ∀ o w, ∃ w' r,
    fetchImpl (GET (baseUrl +:+ (basePath +:+ sep +:+ "offset=" +:+ dec (Z.of_nat o)))) w = (w', Ok r)
    ∧ 200 ≤ rs_status r < 300 ∧ rs_json r = Ok (Arr (take p (drop o rows)))
    ∧ is_header r "X-Has-More" "true" = (o + p <? length rows)%nat.

Lemma requestPage_serves o w :
  serves_pages →
  ∃ w' t, requestPage baseUrl fetchImpl (basePath +:+ sep +:+ "offset=" +:+ dec (Z.of_nat o)) w
          = (w', Ok (Tagged (Arr (take p (drop o rows))) t, (o + p <? length rows)%nat)).
Proof.
  intros Hs. destruct (Hs o w) as (w' & r & Hf & Hst & Hj & Hm). unfold requestPage.
  unfold mbind at 1, io_bind at 1. rewrite Hf.
  assert (bad_status r = false) as -> by (unfold bad_status; rewrite Z.geb_leb; apply orb_false_iff; lia).
  unfold parse_body. rewrite Hj, Hm. unfold attachStaleInfo. cbn [is_object negb].
  destruct (negb (is_header r STALE_HEADER "1")); by eexists _, _.
Qed.

(** What has been read when [o] rows have been. *)
Definition read_so_far (o : nat) (out : option tagged) : Prop :=
  match out with None => o = 0%nat | Some t => tg_data t = Arr (take o rows) end.

Lemma page_loop_spec pages o out w :
  serves_pages → (0 < p)%nat → (o ≤ length rows)%nat → read_so_far o out →
  ∃ w' t, page_loop baseUrl fetchImpl pages basePath sep (Z.of_nat o) out w
          = (w', Ok (Tagged (Arr (take (o + pages * p) rows)) t)).
Proof.
  intros Hs Hp. revert o out w. induction pages as [|pages IH]; intros o out w Ho Hr; cbn [page_loop].
  { rewrite Nat.mul_0_l, Nat.add_0_r. destruct out as [[d t]|]; cbn in Hr; subst; by eexists _, _. }
  destruct (requestPage_serves o w Hs) as (w1 & t & Hf). unfold mbind at 1, io_bind at 1. rewrite Hf.
  cbn [tg_data]. set (out' := match out with None => _ | Some _ => _ end).
  assert (tg_data out' = Arr (take (o + p) rows)) as Eo.
  { unfold out'. destruct out as [[d t']|]; cbn in Hr; subst; cbn [tg_data elements].
    - by rewrite take_take_drop.
    - by rewrite drop_0. }
  destruct (Nat.ltb_spec (o + p) (length rows)) as [Hlt|Hge]; cbn [negb orb].
  - assert (length (take p (drop o rows)) = p) as El by (rewrite length_take, length_drop; lia).
    rewrite El, (proj2 (Nat.eqb_neq p 0)) by lia. replace (Z.of_nat o + Z.of_nat p) with (Z.of_nat (o + p)) by lia.
    destruct (IH (o + p)%nat (Some out') w1) as (w' & t' & Hl); [lia|done|].
    exists w', t'. rewrite Hl. do 5 f_equal. lia.
  - exists w1, (tg_stale out'). unfold mret, io_ret. destruct out' as [d t']; cbn in *. subst d.
    by rewrite !take_ge by lia.
Qed.

(** C38 All the rows arrive.  From a server that pages honestly, whatever the page
    size, [requestAllPages] returns exactly the rows the server has, in their
    order, each once, up to the limit of [MAX_PAGES] pages; it never asks for
    more than that many. *)
Theorem requestAllPages_complete w :
  serves_pages → (0 < p)%nat →
  ∃ w' t, requestAllPages baseUrl fetchImpl basePath w = (w', Ok (Tagged (Arr (take (MAX_PAGES * p) rows)) t))
    ∧ ((length rows ≤ MAX_PAGES * p)%nat → take (MAX_PAGES * p) rows = rows).
Proof.
  intros Hs Hp. destruct (page_loop_spec MAX_PAGES 0 None w Hs Hp) as (w' & t & H); [lia|done|].
  exists w', t. split; [exact H|]. intros Hl. by rewrite take_ge.
Qed.
End paging.

(** ** Samples *)

(** A server that answers every request the same way. *)
Definition always (r : response) (q : request) : io unit response := lift (Ok r).

Definition sample_listed : jsval :=
  Obj [("txid", Str "aa"); ("vout", Num (Int 0)); ("value", Num (Int 7)); ("height", Num (Int 3))].


(** A clock that does not wait, and a callback that ignores what it is told. *)
Definition no_sleep (ms : Z) : io unit unit := lift (Ok tt).
Definition ignore (e : string) : io unit unit := lift (Ok tt).

Lemma pollForConfirmation_resolves_witness :
  ∃ w' r, pollForConfirmation (getUtxos "http://x" (always (Response 200 (Ok (Arr [sample_listed])) None)))
            no_sleep ignore "addr" "aa" 6000 15 tt = (w', Ok r)
    ∧ r = Confirmed sample_listed.
Proof.
  destruct (pollForConfirmation_resolves "http://x" (always (Response 200 (Ok (Arr [sample_listed])) None))
    no_sleep ignore "addr" "aa" 6000 (λ _ w, ex_intro _ w eq_refl) (λ _ w, ex_intro _ w eq_refl) 15 tt)
    as (w' & r & H & _).
  exists w', r. split; [exact H|]. vm_compute in H. injection H as _ <-. reflexivity.
Defined.

(** Two rows, one to a page. *)
Definition two_pages (q : request) : io unit response :=
  let first := str_eqb (rq_url q) "http://x/l?offset=0" in
  lift (Ok (Response 200
    (Ok (Arr (if first then [sample_listed] else if str_eqb (rq_url q) "http://x/l?offset=1" then [Null] else [])))
    (Some (λ name, if str_eqb name "X-Has-More" then (if first then Some "true" else None)
                   else if str_eqb name STALE_HEADER then Some "1" else None)))).

Lemma offset_url_inj o o' : 0 ≤ o → 0 ≤ o' →
  "http://x" +:+ ("/l" +:+ "?" +:+ "offset=" +:+ dec o) = "http://x/l?offset=" +:+ dec o' → o = o'.
Proof. intros _ _ H. simpl in H. injection H as H. by apply (inj dec). Qed.

Lemma requestAllPages_complete_witness :
  ∃ w' t, requestAllPages "http://x" two_pages "/l" tt = (w', Ok (Tagged (Arr [sample_listed; Null]) t)).
Proof.
  destruct (requestAllPages_complete "http://x" two_pages "/l" [sample_listed; Null] 1 tt) as (w' & t & H & _).
  - intros o w. exists w. eexists. split; [reflexivity|]. split; [cbn; lia|].
    destruct o as [|[|o]]; [split; reflexivity|split; reflexivity|].
    assert (str_eqb ("http://x" +:+ ("/l" +:+ "?" +:+ "offset=" +:+ dec (Z.of_nat (S (S o))))) "http://x/l?offset=0" = false) as E0.
    { apply not_true_iff_false. intros E%str_eqb_eq. apply (offset_url_inj _ 0) in E; lia. }
    assert (str_eqb ("http://x" +:+ ("/l" +:+ "?" +:+ "offset=" +:+ dec (Z.of_nat (S (S o))))) "http://x/l?offset=1" = false) as E1.
    { apply not_true_iff_false. intros E%str_eqb_eq. apply (offset_url_inj _ 1) in E; lia. }
    cbn [GET rq_url rs_json rs_headers is_header header]. change (if includes "/l" "?" then "&" else "?")%string with "?"%string.
    rewrite E0, E1. split; [by rewrite drop_ge by (simpl; lia)|reflexivity].
  - lia.
  - exists w', t. exact H.
Defined.

(** The mark of a cached answer survives one page and is lost with the second:
    the arrays are concatenated into a new one, which nothing marks. *)
Lemma stale_mark_lost :
  staleInfo (Tagged (Arr [sample_listed]) (Some None)) = (true, None)
  ∧ match requestAllPages "http://x" two_pages "/l" tt with
    | (_, Ok t) => staleInfo t = (false, None)
    | _ => False
    end.
Proof. split; vm_compute; reflexivity. Qed.
