(* ===== verification/App.v ===== *)
(** * App: [contrib/uap-web/app.js], from a plan to the network

    The functions of the application that sign and publish ([publishMint],
    [publishTransfer], [publishFill], [publishSellOrder]), the ones around them
    that talk to the indexer ([resolveMintInputs], [confirmCancel]), and the
    badge that shows how a broadcast is doing.  They compose the other
    components: the API client ([Api]), the planners and builders ([Mint],
    [Transfer], [Market], [Sell], [Cancel]) and the curve module ([Secp]).

    The theorems: none of these rejects, whatever the network does; a fill
    that is published takes exactly what the chain says the position is, and
    nothing is sent before that is verified; the badge never claims a
    confirmation that polling did not see. *)

From stdpp Require Import base tactics option list numbers strings pretty.
From Stdlib Require Import ZArith Lia Ascii.
From S2P Require Import Prelude JsInt JsStr JsNum JsVal Effects Words Sha256 Addr Script Tx Payments Orders.
From S2P Require Import NobleField NoblePoint NobleSign Secp Transfer Market Mint Sell Cancel Api.

(** ** Publishing *)

(** [try { ...; return { ok: true, ... } } catch (e) { return { ok: false, error: e.message } }]. *)
Definition settle {W A} (m : io W A) : io W (A + string) :=
  io_try (a ← m; mret (inl a)) (λ e, mret (inr e)).

(** [{ ...v, k: x }]. *)
Fixpoint set_assoc (k : string) (x : jsval) (l : list (string * jsval)) : list (string * jsval) :=
  match l with
  | [] => [(k, x)]
  | (k', v) :: l => if str_eqb k' k then (k', x) :: l else (k', v) :: set_assoc k x l
  end.
Definition spread_with (v : jsval) (k : string) (x : jsval) : jsval :=
  Obj (set_assoc k x match v with Obj fields => fields | _ => [] end).

(** The module of the wallet after [configureSecp(secp)]. *)
Definition wallet_secp (randomBytes : nat → bytes) (m : secp_module) : res secp :=
  m ← configureSecp m; Ok (secp_js randomBytes m).

Section app.
Context {W : Type} (baseUrl : string) (fetchImpl : request → io W response).
(** What [configureSecp(secp)] gives. *)
Context (configured : res secp).

Definition publishFill (plan : fill_plan) (privKey : bytes) (order position : jsval) (takerUtxos : list jsval) :
    io W (string + string) :=
  settle (
    verified ← verifyPosition (getRawTx baseUrl fetchImpl) order position;
    secp ← lift configured;
    pubKey ← lift (Tx.getPublicKey secp privKey true);
    '(rawHex, _) ← lift (buildFillTx secp plan privKey pubKey order
                          (spread_with position "value" (Num (vp_value verified))) takerUtxos);
    broadcast baseUrl fetchImpl rawHex).

Definition publishMint (plan : mint_plan) (privKey : bytes) (address : string) (utxos : list jsval) :
    io W (string + string) :=
  settle (
    secp ← lift configured;
    pubKey ← lift (Tx.getPublicKey secp privKey true);
    built ← lift (buildMintTx secp plan privKey pubKey utxos address);
    broadcast baseUrl fetchImpl (bm_rawHex built)).

Definition publishTransfer (plan : transfer_plan) (privKey : option bytes) : io W (string + string) :=
  settle (
    secp ← lift configured;
    '(rawHex, _, _) ← lift (Transfer.buildTransferTx secp plan privKey);
    broadcast baseUrl fetchImpl rawHex).

(** [plan.summary] of a plan without one throws, as any read of null does. *)
Definition publishSellOrder (now : Z) (plan : sell_plan) (privKey : bytes) (address : string) : io W (unit + string) :=
  settle (
    secp ← lift configured;
    s ← lift match sl_summary plan with
             | Some s => Ok s
             | None => Throw "Cannot read properties of null (reading 'priceSats')"
             end;
    pubKey ← lift (Tx.getPublicKey secp privKey true);
    order ← lift (buildSellOrder secp now (sl_position plan) privKey pubKey (ss_priceSats s) address);
    _ ← Api.publishOrder baseUrl fetchImpl order;
    mret tt).

(** ** Loading *)

(** [{ ok: true, utxos, feeRate }] or [{ ok: false, error }]. *)
Definition resolveMintInputs (address : string) : io W (list jsval * Number + string) :=
  utxos ← settle (getUtxos baseUrl fetchImpl address);
  match utxos with
  | inr e => mret (inr ("Could not load your coins: " +:+ e))
  | inl utxos =>
      resp ← settle (getFeeRate baseUrl fetchImpl);
      match resp with
      | inr e => mret (inr ("Could not load the current fee rate: " +:+ e))
      | inl resp => mret (inl (elements (tg_data utxos), as_num (field (tg_data resp) "sat_per_kb")))
      end
  end.

(** ** Cancelling *)

Record orders_state := OrdersState {
  st_screen : string;
  st_selectedOrder : jsval;
  st_cancelling : bool;
  st_cancelError : option string
}.

(** The state the screen is left in; it is drawn again on the way, while the
    request runs. *)
Definition confirmCancel (secp : secp) (privKey : bytes) (st : orders_state) : io W orders_state :=
  let order := st_selectedOrder st in
  if negb (planCancel order).1 then mret st
  else
    let st := OrdersState (st_screen st) order true None in
    r ← settle (
      cancelSig ← lift (signCancelOrder secp (cancelSignInput order privKey));
      cancelOrder baseUrl fetchImpl (as_str (field order "txid")) (as_num (field order "vout")) cancelSig);
    match r with
    | inl _ => mret (OrdersState "my-orders" Null false (st_cancelError st))
    | inr e => mret (OrdersState (st_screen st) (st_selectedOrder st) false (Some (describeCancelFailure (Str e))))
    end.
End app.

(** ** The badge

    [broadcastStatus]: set when a transaction is accepted, and again when the
    poll that was started for it resolves, unless a newer broadcast has taken
    its place meanwhile. *)

Inductive badge_state := Pending | BadgeConfirmed | BadgeTimeout.

Definition badge : Type := option (string * badge_state).

(** What happens to it, in whatever order: a broadcast is accepted, or a poll
    resolves. *)
Inductive badge_event :=
| Accepted (txid : string)
| PollResolved (txid : string) (r : confirmation).

Definition badge_step (b : badge) (ev : badge_event) : badge :=
  match ev with
  | Accepted txid => Some (txid, Pending)
  | PollResolved txid r =>
      match b with
      | None => None
      | Some (current, _) =>
          if negb (str_eqb current txid) then b
          else Some (txid, match r with Confirmed _ => BadgeConfirmed | TimedOut => BadgeTimeout end)
      end
  end.

Definition badge_run (evs : list badge_event) : badge := fold_left badge_step evs None.

(** ** Keys of the module *)

(** What publishing relies on of the curve module's keys. *)
Class SecpKeys (secp : secp) : Prop :=
  compressed_key k pk : Tx.getPublicKey secp k true = Ok pk → is_bytes pk ∧ zlen pk = 33.

Lemma toBytes_compressed p b : toBytes p true = Ok b → is_bytes b ∧ zlen b = 33.
Proof.
  unfold toBytes. intros H. simp_res. apply numTo32b_spec in H1 as [_ ->].
  rewrite concatBytes_join, getPrefix_eq. cbn [mjoin list_join]. rewrite app_nil_r.
  split; [|rewrite length_app, length_be_bytes; by case_match].
  apply is_bytes_app_2; [|apply be_bytes_bytes]. case_match; apply is_bytes_one; split; lia.
Qed.

#[export] Instance secp_js_keys randomBytes m : SecpKeys (secp_js randomBytes m).
Proof.
  intros k pk (n & _ & (p & _ & H)%bind_Ok)%bind_Ok. by eapply toBytes_compressed.
Qed.

Lemma key_ok_compressed secp `{SecpKeys secp} k pk : Tx.getPublicKey secp k true = Ok pk → key_ok pk.
Proof. intros Hk. destruct (compressed_key _ _ Hk) as [Hb Hl]. split; [done|by left]. Qed.

(** ** Settling *)

Lemma settle_Ok {W A} (m : io W A) w : ∃ w' r, settle m w = (w', Ok r).
Proof.
  unfold settle, io_try, mbind, io_bind. destruct (m w) as [w' [a|e]]; by eexists _, _.
Qed.

Lemma settle_inl {W A} (m : io W A) w w' a : settle m w = (w', Ok (inl a)) → m w = (w', Ok a).
Proof. unfold settle, io_try, mbind, io_bind. destruct (m w) as [w1 [b|e]]; by intros [= <- <-]. Qed.

Lemma settle_Throw {W A} (m : io W A) w w' e : m w = (w', Throw e) → settle m w = (w', Ok (inr e)).
Proof. unfold settle, io_try, mbind, io_bind. by intros ->. Qed.

Lemma field_spread v k x : field (spread_with v k x) k = x.
Proof.
  unfold spread_with. cbn [field]. generalize (match v with Obj fields => fields | _ => [] end) as l.
  induction l as [|[k' y] l IH]; cbn [set_assoc assoc].
  - by rewrite (proj2 (str_eqb_eq k k) eq_refl).
  - destruct (str_eqb k' k) eqn:E; cbn [assoc]; by rewrite E.
Qed.

Lemma lower_hex_lower s : is_lower_hex s = true → toLowerCase s = s.
Proof.
  unfold is_lower_hex, toLowerCase. intros H. rewrite <-(str_of_chars s) at 2. f_equal.
  induction (chars s) as [|c l IH]; [done|]. cbn [forallb map] in *. apply andb_true_iff in H as [Hc H].
  rewrite IH by done. f_equal. unfold is_lower_hex_char in Hc. unfold lower. cbv zeta in *.
  destruct (_ || _) eqn:E in |- *; [|done]. exfalso. simp_bool. lia.
Qed.

(** ** Properties *)

Section publishing.
Context {W : Type} (baseUrl : string) (fetchImpl : request → io W response) (configured : res secp).

(** Publishing and loading never reject: whatever the network answers or
    fails with, and whatever they are given, each of these functions resolves,
    to a result or to an error to show. *)
Theorem app_never_rejects w :
  (∀ plan k order position us, ∃ w' r, publishFill baseUrl fetchImpl configured plan k order position us w = (w', Ok r))
  ∧ (∀ plan k a us, ∃ w' r, publishMint baseUrl fetchImpl configured plan k a us w = (w', Ok r))
  ∧ (∀ plan k, ∃ w' r, publishTransfer baseUrl fetchImpl configured plan k w = (w', Ok r))
  ∧ (∀ now plan k a, ∃ w' r, publishSellOrder baseUrl fetchImpl configured now plan k a w = (w', Ok r))
  ∧ (∀ a, ∃ w' r, resolveMintInputs baseUrl fetchImpl a w = (w', Ok r))
  ∧ (∀ secp k st, ∃ w' r, confirmCancel baseUrl fetchImpl secp k st w = (w', Ok r)).
Proof.
  split_and!; intros; try apply settle_Ok.
  - unfold resolveMintInputs. unfold mbind at 1, io_bind at 1.
    destruct (settle_Ok (getUtxos baseUrl fetchImpl a) w) as (w1 & [us|e] & ->); [|by eexists _, _].
    unfold mbind, io_bind. destruct (settle_Ok (getFeeRate baseUrl fetchImpl) w1) as (w2 & [r|e] & ->); by eexists _, _.
  - unfold confirmCancel. destruct (negb _); [by eexists _, _|]. unfold mbind at 1, io_bind at 1.
    match goal with |- context [settle ?m w] => destruct (settle_Ok m w) as (w1 & [[]|e] & ->) end; by eexists _, _.
Qed.

(** C1 A fill that is published takes exactly what the chain holds.  If
    [publishFill] reports a txid, it broadcast one transaction, after the
    relay's bytes had been verified, and that transaction spends the order's
    outpoint, pays the order's price to the order's script at output 0, and at
    output 1 moves the whole value the position has on chain into a covenant
    of the taker's own key, with the multiplier and the lineage it has on
    chain.  If verification fails, nothing is broadcast. *)
Theorem publishFill_takes_position secp `{SecpKeys secp} plan k order position us w :
  configured = Ok secp →
  (∀ w' e, verifyPosition (getRawTx baseUrl fetchImpl) order position w = (w', Throw e) →
     publishFill baseUrl fetchImpl configured plan k order position us w = (w', Ok (inr e)))
  ∧ ∀ w' txid, publishFill baseUrl fetchImpl configured plan k order position us w = (w', Ok (inl txid)) →
    ∃ w1 v bs otxid ovout pk o script payScript hex t,
      verifyPosition (getRawTx baseUrl fetchImpl) order position w = (w1, Ok v)
      ∧ field order "txid" = Str otxid ∧ field order "vout" = Num ovout ∧ on_chain bs otxid ovout v
      ∧ Tx.getPublicKey secp k true = Ok pk
      ∧ hexToBytes (as_str (field order "payment_script")) = Ok payScript
      ∧ tx_vout t = TxOut (as_num (field order "payment_value")) payScript
                    :: TxOut (vp_value v) script :: fill_change plan pk
      ∧ parseUapScript script = Some (UapScript pk (vp_multiplier v) o false) ∧ bytesToHex o = vp_origin v
      ∧ (∃ sig, tx_vin t !! 0%nat = Some (Vin otxid (int_of ovout) (Some sig) None (Some 0xffffffff)))
      ∧ txToHex t = Ok hex ∧ broadcast baseUrl fetchImpl hex w1 = (w', Ok txid).
Proof.
  intros Hc. split.
  - intros w' e Hv. apply settle_Throw. unfold mbind at 1, io_bind at 1. by rewrite Hv.
  - intros w' txid (w1 & v & Hv & H0)%settle_inl%io_bind_Ok.
    apply io_bind_Ok in H0 as (w2 & s & [-> Hs]%lift_Ok & H0). rewrite Hc in Hs. apply Ok_inj in Hs as <-.
    apply io_bind_Ok in H0 as (w2 & pk & [-> Hpk]%lift_Ok & H0).
    apply io_bind_Ok in H0 as (w2 & [hex t] & [-> Hb]%lift_Ok & H0).
    destruct (verifyPosition_inv _ _ _ _ _ _ Hv) as (otxid & ovout & raw & bs & Et & Ev & _ & _ & Hch & Hag).
    destruct (buildFillTx_spec _ _ _ _ _ _ _ _ _ (key_ok_compressed _ _ _ Hpk) Hb)
      as (os & o & ss & ps & script & Eos & Ho & Hlow & _ & Hps & Hp & Eout & Ein & _ & _ & _ & _ & Hhex).
    destruct Hag as [(s & Es & Hlo) [Em _] _]. rewrite Em in Hp. rewrite field_spread in Eout. cbn [as_num] in *.
    rewrite Et, Ev in Ein. cbn [as_str as_num] in Ein. rewrite Eos in Es. injection Es as <-.
    exists w1, v, bs, otxid, ovout, pk, o, script, ps, hex, t. split_and!; try done; [|by exists ss].
    rewrite <-Hlo, lower_hex_lower by done. by apply bytesToHex_hexToBytes.
Qed.
End publishing.

(** ** The badge, by its history *)

(** What polling said of a transaction, in order. *)
Definition polls (t : string) (evs : list badge_event) : list confirmation :=
  omap (λ ev, match ev with
              | PollResolved t' r => if bool_decide (t' = t) then Some r else None
              | Accepted _ => None
              end) evs.

Definition shown_as (b : badge_state) (l : list confirmation) : badge_state :=
  match last l with
  | None => b
  | Some (Confirmed _) => BadgeConfirmed
  | Some TimedOut => BadgeTimeout
  end.

Definition no_broadcast (ev : badge_event) : Prop := match ev with Accepted _ => False | _ => True end.

Lemma badge_run_from t b post :
  Forall no_broadcast post → fold_left badge_step post (Some (t, b)) = Some (t, shown_as b (polls t post)).
Proof.
  intros H. revert b. induction H as [|ev post Hev _ IH]; intros b; [done|]. destruct ev as [|t' r]; [done|].
  cbn [fold_left badge_step polls omap list_omap]. destruct (str_eqb t t') eqn:E.
  - apply str_eqb_eq in E as <-. rewrite bool_decide_eq_true_2 by done. cbn [negb]. rewrite IH. do 2 f_equal.
    unfold shown_as. fold (polls t post). rewrite last_cons. by destruct (last (polls t post)), r.
  - rewrite bool_decide_eq_false_2; [cbn [negb]; apply IH|]. intros ->. by rewrite (proj2 (str_eqb_eq _ _) eq_refl) in E.
Qed.

(** The badge tells the truth about the last broadcast, in every interleaving
    of broadcasts and of polls that resolve late: whatever came before, it
    names the last transaction that was accepted, and it says pending exactly
    while no poll for that transaction has resolved since, and then what the
    last of them said.  A poll for an earlier transaction never changes it. *)
Theorem badge_reflects_history pre t post :
  Forall no_broadcast post →
  badge_run (pre ++ Accepted t :: post) = Some (t, shown_as Pending (polls t post)).
Proof.
  intros H. unfold badge_run. rewrite fold_left_app. cbn [fold_left badge_step]. by apply badge_run_from.
Qed.

Lemma badge_reflects_history_witness :
  badge_run [Accepted "a"; Accepted "b"; PollResolved "a" (Confirmed Null); PollResolved "b" TimedOut]
  = Some ("b"%string, BadgeTimeout).
Proof.
  refine (badge_reflects_history [Accepted "a"] "b" [PollResolved "a" (Confirmed Null); PollResolved "b" TimedOut] _).
  repeat constructor.
Defined.

(** ** A sample fill *)

#[local] Instance sample_secp_keys : SecpKeys sample_secp.
Proof. intros k pk [= <-]. split; [apply (bool_decide_unpack (is_bytes _)); reflexivity|reflexivity]. Qed.

(** A relay that serves the sample transaction and accepts what it is sent. *)
Definition sample_net (q : request) : io unit response :=
  lift (Ok (if str_eqb (rq_method q) "POST" then Response 200 (Ok (Str sample_chain_txid)) None
            else Response 200 (Ok (Obj [("hex", Str sample_raw)])) None)).

Lemma sample_net_verifies :
  verifyPosition (getRawTx "http://x" sample_net) sample_sale sample_offered tt = (tt, Ok sample_verified).
Proof.
  change (rawHex ← getRawTx "http://x" sample_net sample_chain_txid;
    lift (read_position sample_sale sample_offered sample_chain_txid (Int 0) rawHex)) with
    (verifyPosition (getRawTx "http://x" sample_net) sample_sale sample_offered).
  assert (getRawTx "http://x" sample_net sample_chain_txid tt = (tt, Ok sample_raw)) as E by (by vm_compute).
  apply io_bind_Ok. exists tt, sample_raw. split; [exact E|]. apply lift_Ok. split; [done|exact sample_reads].
Qed.

Lemma sample_fill_published :
  publishFill "http://x" sample_net (Ok sample_secp) sample_purchase [2] sample_sale sample_offered
    [sample_utxo 900000000] tt = (tt, Ok (inl sample_chain_txid)).
Proof.
  unfold publishFill, settle, io_try. unfold mbind at 1 2, io_bind at 1 2. rewrite sample_net_verifies.
  by vm_compute.
Qed.

Lemma publishFill_takes_position_witness :
  ∃ pk script o, parseUapScript script = Some (UapScript pk (Int 5) o false) ∧ Tx.getPublicKey sample_secp [2] true = Ok pk.
Proof.
  destruct (publishFill_takes_position "http://x" sample_net (Ok sample_secp) sample_secp sample_purchase [2]
    sample_sale sample_offered [sample_utxo 900000000] tt eq_refl) as [_ H].
  destruct (H _ _ sample_fill_published)
    as (w1 & v & bs & otxid & ovout & pk & o & script & ps & hex & t & Hv & _ & _ & _ & Hpk & _ & _ & Hp & _).
  exists pk, script, o. split; [|exact Hpk]. rewrite sample_net_verifies in Hv. injection Hv as <- <-. exact Hp.
Defined.
