(* ===== verification/Sw.v ===== *)
(** * Sw: [contrib/uap-web/sw.js], the service worker

    Which requests the worker answers ([onFetch]) and how: application code
    from the network with the cache behind it ([handleAppShellRequest]), chain
    data the same way but marked when it is not live ([handleApiRequest]); and
    what it deletes when it takes over ([onActivate]).

    The state is the Cache Storage of the origin: named caches, each from the
    URL of a request to the response stored for it.  The platform is a
    parameter: [fetch], the clock, and [allow], which rejects when the browser
    refuses to store (a quota).  [Request.url] is the serialized form the
    platform gives, so parsing it is splitting it.

    The theorems: an answer about the chain is live or says that it is not,
    with the time it is from, and the client of [Api] reports it so; the cache
    of chain data only ever holds stamped successes; a write is never touched. *)

From stdpp Require Import base tactics option list numbers strings gmap.
From Stdlib Require Import ZArith Lia Ascii.
From S2P Require Import Prelude JsInt JsStr JsNum JsVal Effects Api.

(** ** The platform *)

Record sw_request := SwRequest { sq_method : string; sq_url : string }.

Record sw_response := SwResponse {
  sr_status : Z;
  sr_statusText : string;
  sr_headers : list (string * string);
  sr_body : bytes
}.

Definition ok_status (r : sw_response) : bool := (200 <=? sr_status r) && (sr_status r <=? 299).

(** [headers.get(name)] and [headers.set(name, value)]: names are compared
    without regard to case. *)
Definition same_name (a b : string) : bool := str_eqb (toLowerCase a) (toLowerCase b).

Fixpoint header_get (name : string) (l : list (string * string)) : option string :=
  match l with
  | [] => None
  | (k, v) :: l => if same_name k name then Some v else header_get name l
  end.

Definition header_set (name value : string) (l : list (string * string)) : list (string * string) :=
  List.filter (λ kv, negb (same_name kv.1 name)) l ++ [(name, value)].

(** [new Response(body, { status, statusText, headers })] with a body that is not
    null: the statuses that have none are refused. *)
Definition new_Response (status : Z) (statusText : string) (headers : list (string * string)) (body : bytes) :
    res sw_response :=
  _ ← throw_if ((status <? 200) || (status >? 599)) "The status provided is outside the range [200, 599].";
  _ ← throw_if ((status =? 204) || (status =? 205) || (status =? 304))
        "Response with null body status cannot have body";
  Ok (SwResponse status statusText headers body).

Abbreviation storage := (gmap string (gmap string sw_response)).

(** The characters up to the first that stops. *)
Fixpoint take_until (stop : ascii → bool) (l : list ascii) : list ascii * list ascii :=
  match l with
  | [] => ([], [])
  | c :: l' => if stop c then ([], l) else let '(a, b) := take_until stop l' in (c :: a, b)
  end.

Fixpoint after_scheme (l : list ascii) : list ascii * list ascii :=
  match l with
  | ":"%char :: "/"%char :: "/"%char :: l => (chars "://", l)
  | c :: l => let '(a, b) := after_scheme l in (c :: a, b)
  | [] => ([], [])
  end.

(** [new URL(url)]: its [origin] and its [pathname]. *)
Definition url_split (url : string) : string * string :=
  let '(scheme, rest) := after_scheme (chars url) in
  let '(host, rest) := take_until (λ c, Ascii.eqb c "/" || Ascii.eqb c "?" || Ascii.eqb c "#") rest in
  let '(path, _) := take_until (λ c, Ascii.eqb c "?" || Ascii.eqb c "#") rest in
  (str_of (scheme ++ host), str_of path).

(** ** The worker *)

Definition CACHE_VERSION : string := "v1".
Definition APP_SHELL_CACHE : string := "whippet-shell-" +:+ CACHE_VERSION.
Definition API_CACHE : string := "whippet-api-" +:+ CACHE_VERSION.
Definition KNOWN_CACHES : gset string := {[APP_SHELL_CACHE; API_CACHE]}.

Definition starts_with (p s : string) : bool :=
  match strip_prefix (chars p) (chars s) with Some _ => true | None => false end.

Definition api_routes : list string :=
  ["status"; "positions"; "position/"; "utxos"; "tokens"; "token/"; "orders"; "orders/"; "broadcast"; "feerate"].

(** [API_PATH_RE.test(path)]. *)
Definition API_PATH_RE (path : string) : bool :=
  existsb (λ route, starts_with ("/" +:+ route) path || starts_with ("/api/" +:+ route) path) api_routes.

(** What the worker does with a request: nothing, or one of its two handlers. *)
Inductive route := PassThrough | ApiRoute | ShellRoute.

Definition onFetch (location_origin : string) (req : sw_request) : route :=
  if negb (str_eqb (sq_method req) "GET") then PassThrough
  else
    let '(origin, pathname) := url_split (sq_url req) in
    if negb (str_eqb origin location_origin) then PassThrough
    else if API_PATH_RE pathname then ApiRoute else ShellRoute.

(** The state while a handler runs: the storage, and the rest of the world. *)
Record sw_state (W : Type) := SwState { st_caches : storage; st_world : W }.
Arguments SwState {W}.
Arguments st_caches {W}.
Arguments st_world {W}.

Section worker.
Context {W : Type}.
Context (fetch : sw_request → io W sw_response) (toISOString : io W string) (allow : string → io W unit).

Local Abbreviation sw := (io (sw_state W)).

(** A call of the platform leaves the storage alone. *)
Definition platform {A} (m : io W A) : sw A := λ s,
  let '(w, r) := m (st_world s) in (SwState (st_caches s) w, r).

(** [caches.open(name)]: the cache, made if it is not there. *)
Definition caches_open (name : string) : sw string := λ s,
  (SwState (<[name := default ∅ (st_caches s !! name)]> (st_caches s)) (st_world s), Ok name).

Definition cache_match (name : string) (req : sw_request) : sw (option sw_response) := λ s,
  (s, Ok (st_caches s !! name ≫= λ c, c !! sq_url req)).

Definition cache_store (name : string) (req : sw_request) (r : sw_response) : sw unit := λ s,
  (SwState (<[name := <[sq_url req := r]> (default ∅ (st_caches s !! name))]> (st_caches s)) (st_world s), Ok tt).

(** [cache.put(req, r)]. *)
Definition cache_put (name : string) (req : sw_request) (r : sw_response) : sw unit :=
  _ ← platform (allow (sq_url req));
  cache_store name req r.

(** [put] is not awaited there: what it throws is not seen. *)
Definition handleAppShellRequest (req : sw_request) : sw sw_response :=
  io_try (
    fresh ← platform (fetch req);
    _ ← (if ok_status fresh then
           cache ← caches_open APP_SHELL_CACHE;
           io_try (cache_put cache req fresh) (λ _, mret tt)
         else mret tt);
    mret fresh)
  (λ err,
    cache ← caches_open APP_SHELL_CACHE;
    cached ← cache_match cache req;
    match cached with Some r => mret r | None => lift (Throw err) end).

Definition cacheStampedResponse (cache : string) (req : sw_request) (r : sw_response) : sw unit :=
  now ← platform toISOString;
  let headers := header_set CACHED_AT_HEADER now (sr_headers r) in
  stamped ← lift (new_Response (sr_status r) (sr_statusText r) headers (sr_body r));
  cache_put cache req stamped.

Definition readStampedResponse (cache : string) (req : sw_request) : sw (option sw_response) :=
  cached ← cache_match cache req;
  match cached with
  | None => mret None
  | Some cached =>
      let headers := header_set STALE_HEADER "1" (sr_headers cached) in
      r ← lift (new_Response (sr_status cached) (sr_statusText cached) headers (sr_body cached));
      mret (Some r)
  end.

Definition handleApiRequest (req : sw_request) : sw sw_response :=
  cache ← caches_open API_CACHE;
  io_try (
    fresh ← platform (fetch req);
    _ ← (if ok_status fresh then cacheStampedResponse cache req fresh else mret tt);
    mret fresh)
  (λ err,
    stale ← readStampedResponse cache req;
    match stale with Some r => mret r | None => lift (Throw err) end).

(** The caches that are kept when the worker takes over. *)
Definition onActivate : sw unit := λ s,
  (SwState (filter (λ kv, kv.1 ∈ KNOWN_CACHES) (st_caches s)) (st_world s), Ok tt).

(** An event of the worker's life. *)
Inductive sw_event := Activate | Fetch (req : sw_request).

Definition on_event (origin : string) (ev : sw_event) : sw unit :=
  match ev with
  | Activate => onActivate
  | Fetch req =>
      match onFetch origin req with
      | PassThrough => mret tt
      | ApiRoute => io_try (_ ← handleApiRequest req; mret tt) (λ _, mret tt)
      | ShellRoute => io_try (_ ← handleAppShellRequest req; mret tt) (λ _, mret tt)
      end
  end.
End worker.

Create HintDb keeps.

(** ** Headers *)

Lemma same_name_refl n : same_name n n = true.
Proof. by apply str_eqb_eq. Qed.

Lemma header_get_app n l l' :
  header_get n (l ++ l') = match header_get n l with Some v => Some v | None => header_get n l' end.
Proof. induction l as [|[k v] l IH]; [done|]. cbn [app header_get]. by destruct (same_name k n). Qed.

Lemma header_get_filter_same n l : header_get n (List.filter (λ kv, negb (same_name kv.1 n)) l) = None.
Proof.
  induction l as [|[k v] l IH]; [done|]. cbn [List.filter fst]. destruct (same_name k n) eqn:E; [done|].
  cbn [negb header_get]. by rewrite E.
Qed.

Lemma header_get_filter_other m n l :
  same_name n m = false → header_get m (List.filter (λ kv, negb (same_name kv.1 n)) l) = header_get m l.
Proof.
  intros Hn. induction l as [|[k v] l IH]; [done|]. cbn [List.filter fst header_get].
  destruct (same_name k n) eqn:E; cbn [negb header_get].
  - replace (same_name k m) with false; [done|]. symmetry. apply not_true_iff_false.
    unfold same_name in *. intros E'%str_eqb_eq. apply str_eqb_eq in E. rewrite <-E', E in Hn.
    by rewrite (proj2 (str_eqb_eq _ _) eq_refl) in Hn.
  - by rewrite IH.
Qed.

Lemma header_get_set n v l : header_get n (header_set n v l) = Some v.
Proof.
  unfold header_set. rewrite header_get_app, header_get_filter_same. cbn [header_get]. by rewrite same_name_refl.
Qed.

Lemma header_get_set_other m n v l :
  same_name n m = false → header_get m (header_set n v l) = header_get m l.
Proof.
  intros Hn. unfold header_set. rewrite header_get_app, header_get_filter_other by done. cbn [header_get].
  rewrite Hn. by destruct (header_get m l).
Qed.

(** ** The storage of chain data *)

Lemma new_Response_ok status text headers body r :
  new_Response status text headers body = Ok r ↔
  200 ≤ status ≤ 599 ∧ status ≠ 204 ∧ status ≠ 205 ∧ status ≠ 304 ∧ r = SwResponse status text headers body.
Proof.
  unfold new_Response. rewrite bind_Ok. setoid_rewrite bind_Ok. split.
  - intros (? & H1%throw_if_Ok & ? & H2%throw_if_Ok & <-%Ok_inj). simp_bool. split_and!; try done; lia.
  - intros (H1 & H2 & H3 & H4 & ->). exists tt. split.
    { apply throw_if_Ok, orb_false_iff. rewrite Z.gtb_ltb. lia. }
    exists tt. split; [|done]. apply throw_if_Ok. rewrite !orb_false_iff. lia.
Qed.

(** A success that says when it was stored. *)
Definition stamped (r : sw_response) : Prop :=
  ok_status r = true ∧ sr_status r ≠ 204 ∧ sr_status r ≠ 205
  ∧ ∃ t, header_get CACHED_AT_HEADER (sr_headers r) = Some t ∧ t ≠ EmptyString.

(** All that the cache of chain data holds is stamped. *)
Definition api_cache_ok (c : storage) : Prop :=
  ∀ cache url r, c !! API_CACHE = Some cache → cache !! url = Some r → stamped r.

Lemma shell_not_api : APP_SHELL_CACHE ≠ API_CACHE.
Proof. done. Qed.

Section storage.
Context {W : Type}.
Context (fetch : sw_request → io W sw_response) (toISOString : io W string) (allow : string → io W unit).
Hypothesis clock_says : ∀ w w' t, toISOString w = (w', Ok t) → t ≠ EmptyString.

(** What keeps the storage as it should be. *)
Definition cache_kept (s s' : sw_state W) : Prop := api_cache_ok (st_caches s) → api_cache_ok (st_caches s').

#[local] Instance cache_kept_preorder : PreOrder cache_kept.
Proof. split; [by intros s Hs|]. intros s1 s2 s3 H1 H2 Hs. by apply H2, H1. Qed.

Lemma keeps_platform {A} (m : io W A) : keeps cache_kept (platform m).
Proof. intros s Hs. unfold platform. by destruct (m (st_world s)). Qed.

Lemma keeps_open name : keeps cache_kept (caches_open name).
Proof.
  intros s Hs cache url r. unfold caches_open. cbn [fst st_caches].
  destruct (decide (name = API_CACHE)) as [->|Hn]; [|by rewrite lookup_insert_ne; eauto].
  rewrite lookup_insert_eq. intros [= <-] Hr. destruct (st_caches s !! API_CACHE) eqn:E; [|done]. by eapply Hs.
Qed.

Lemma keeps_match name req : keeps cache_kept (cache_match name req).
Proof. by intros s Hs. Qed.

Lemma keeps_put name req r : (name = API_CACHE → stamped r) → keeps cache_kept (cache_put allow name req r).
Proof.
  intros Hr. apply keeps_bind; [exact _|apply keeps_platform|]. intros _ s Hs cache url r'. unfold cache_store. cbn [fst st_caches].
  destruct (decide (name = API_CACHE)) as [->|Hn]; [|by rewrite lookup_insert_ne; eauto].
  rewrite lookup_insert_eq. intros [= <-] Hl. apply lookup_insert_Some in Hl as [[_ <-]|[_ Hl]]; [auto|].
  destruct (st_caches s !! API_CACHE) eqn:E; [by eapply Hs|done].
Qed.

Hint Resolve cache_kept_preorder : reads.
Hint Resolve keeps_platform keeps_open keeps_match keeps_put : keeps.

Lemma stamped_response r t r' :
  ok_status r = true → t ≠ EmptyString →
  new_Response (sr_status r) (sr_statusText r) (header_set CACHED_AT_HEADER t (sr_headers r)) (sr_body r) = Ok r' →
  stamped r'.
Proof.
  intros Hok Ht (_ & H4 & H5 & _ & ->)%new_Response_ok. unfold stamped, ok_status in *. cbn [sr_status sr_headers].
  split_and!; try done. exists t. by rewrite header_get_set.
Qed.

Lemma keeps_stamp cache req r : ok_status r = true → keeps cache_kept (cacheStampedResponse toISOString allow cache req r).
Proof.
  intros Hok s Hs. unfold cacheStampedResponse. unfold mbind at 1, io_bind at 1, platform at 1.
  destruct (toISOString (st_world s)) as [w [t|e]] eqn:Et; [|done]. cbv zeta. unfold mbind at 1, io_bind at 1, lift at 1.
  destruct (new_Response _ _ _ _) as [r'|] eqn:Er; [|done].
  apply keeps_put; [|done]. intros _. by eapply stamped_response; [|eapply clock_says|].
Qed.

Lemma keeps_api req : keeps cache_kept (handleApiRequest fetch toISOString allow req).
Proof.
  unfold handleApiRequest. apply keeps_bind; [exact _|apply keeps_open|]. intros cache. apply keeps_try; [exact _| |].
  - apply keeps_bind; [exact _|apply keeps_platform|]. intros fresh. apply keeps_bind; [exact _| |eauto 20 with keeps reads].
    destruct (ok_status fresh) eqn:E; [by apply keeps_stamp|apply keeps_ret, _].
  - intros e. apply keeps_bind; [exact _| |].
    + unfold readStampedResponse. apply keeps_bind; [exact _|apply keeps_match|]. intros [r|]; eauto 20 with keeps reads.
    + intros [r|]; eauto 20 with keeps reads.
Qed.

Lemma keeps_shell req : keeps cache_kept (handleAppShellRequest fetch allow req).
Proof.
  unfold handleAppShellRequest. apply keeps_try; [exact _| |].
  - apply keeps_bind; [exact _|apply keeps_platform|]. intros fresh. apply keeps_bind; [exact _| |eauto 20 with keeps reads].
    destruct (ok_status fresh); [|apply keeps_ret, _]. intros s Hs. unfold mbind, io_bind, caches_open at 1.
    apply (keeps_try cache_kept); [by apply keeps_put|eauto 20 with keeps reads|]. by apply (keeps_open APP_SHELL_CACHE s Hs).
  - intros e. apply keeps_bind; [exact _|apply keeps_open|]. intros c. apply keeps_bind; [exact _|apply keeps_match|].
    intros [r|]; eauto 20 with keeps reads.
Qed.

Lemma keeps_activate : keeps cache_kept onActivate.
Proof. intros s Hs cache url r [Hl _]%map_lookup_filter_Some. by eapply Hs. Qed.

Lemma keeps_event origin ev : keeps cache_kept (on_event fetch toISOString allow origin ev).
Proof.
  destruct ev as [|req]; [apply keeps_activate|]. cbn [on_event].
  destruct (onFetch origin req); eauto 20 using keeps_api, keeps_shell with keeps reads.
Qed.
End storage.

(** ** Properties *)

(** A response of the worker as the API client sees it. *)
Definition client_sees (parse : bytes → res jsval) (r : sw_response) : response :=
  Response (sr_status r) (parse (sr_body r)) (Some (λ name, header_get name (sr_headers r))).

(** A stored response, served as stale. *)
Record served_stale (c : storage) (req : sw_request) (r : sw_response) : Prop := {
  ss_stored : ∃ cache r0, c !! API_CACHE = Some cache ∧ cache !! sq_url req = Some r0
                ∧ sr_body r = sr_body r0 ∧ sr_status r = sr_status r0
                ∧ header_get CACHED_AT_HEADER (sr_headers r) = header_get CACHED_AT_HEADER (sr_headers r0);
  ss_marked : header_get STALE_HEADER (sr_headers r) = Some "1"
}.

Lemma readStamped_spec {W} req (s s' : sw_state W) r :
  readStampedResponse API_CACHE req s = (s', Ok (Some r)) → served_stale (st_caches s) req r.
Proof.
  intros (s1 & o & [= <- <-] & H)%io_bind_Ok.
  destruct (st_caches s !! API_CACHE ≫= λ c, c !! sq_url req) as [r0|] eqn:E; [|by apply io_ret_Ok in H as [_ ?]].
  apply io_bind_Ok in H as (s2 & r' & [-> Hr]%lift_Ok & [_ [= ->]]%io_ret_Ok).
  apply new_Response_ok in Hr as (_ & _ & _ & _ & ->). apply bind_Some in E as (cache & Ec & Er).
  split; cbn [sr_headers sr_body sr_status].
  - exists cache, r0. split_and!; try done. by apply header_get_set_other.
  - apply header_get_set.
Qed.

(** A call that throws before it stores leaves the storage alone. *)
Definition throws_early {W A} (m : io (sw_state W) A) : Prop :=
  ∀ s s' e, m s = (s', Throw e) → st_caches s' = st_caches s.

Lemma early_platform {W A} (m : io W A) : throws_early (platform m).
Proof. intros s s' e. unfold platform. destruct (m (st_world s)) as [w r]. by intros [= <- _]. Qed.

Lemma early_lift {W A} (m : res A) : throws_early (W:=W) (lift m).
Proof. by intros s s' e [= <- _]. Qed.

(** [m] leaves the storage alone, whatever it does. *)
Lemma early_bind {W A B} (m : io (sw_state W) A) (f : A → io (sw_state W) B) :
  (∀ s s' r, m s = (s', r) → st_caches s' = st_caches s) → (∀ a, throws_early (f a)) → throws_early (m ≫= f).
Proof.
  intros Hm Hf s s' e. unfold mbind, io_bind. destruct (m s) as [s1 [a|e']] eqn:E.
  - intros H. rewrite <-(Hm _ _ _ E). by eapply Hf.
  - intros [= <- _]. by eapply Hm.
Qed.

Lemma platform_same {W A} (m : io W A) (s s' : sw_state W) r : platform m s = (s', r) → st_caches s' = st_caches s.
Proof. unfold platform. destruct (m (st_world s)). by intros [= <- _]. Qed.

Lemma early_stamp {W} (clock : io W string) allow cache req r :
  throws_early (cacheStampedResponse clock allow cache req r).
Proof.
  apply early_bind; [intros; by eapply platform_same|]. intros t. cbv zeta.
  apply early_bind; [by intros s s' r0 [= <- _]|]. intros r'.
  apply early_bind; [intros; by eapply platform_same|]. done.
Qed.

Section honesty.
Context {W : Type}.
Context (fetch : sw_request → io W sw_response) (toISOString : io W string) (allow : string → io W unit).
Hypothesis clock_says : ∀ w w' t, toISOString w = (w', Ok t) → t ≠ EmptyString.

(** C32 Chain data is live, or says that it is not.  After any sequence of events
    from an empty storage, an answer of [handleApiRequest] is either the very
    response the network has just given to this request, or a stored success
    for the same URL marked with the stale header; and a marked answer that
    parses to an object or an array is reported by the API client as stale,
    with the time it was stored. *)
Theorem handleApiRequest_honest origin evs w0 req s s' r :
  fold_left (λ s ev, (on_event fetch toISOString allow origin ev s).1) evs (SwState ∅ w0) = s →
  handleApiRequest fetch toISOString allow req s = (s', Ok r) →
  (∃ w', fetch req (st_world s) = (w', Ok r))
  ∨ served_stale (st_caches s) req r
    ∧ ∀ parse data, parse (sr_body r) = Ok data → is_object data = true → data ≠ Null →
      ∃ t, staleInfo (attachStaleInfo data (client_sees parse r)) = (true, Some t).
Proof.
  intros Hs H. assert (api_cache_ok (st_caches s)) as Hok.
  { rewrite <-Hs. cut (api_cache_ok (st_caches (SwState (∅ : storage) w0))); [|intros c url r0; cbn [st_caches]; by rewrite lookup_empty].
    generalize (SwState (∅ : storage) w0). clear Hs. induction evs as [|ev evs IH]; intros s0 H0; [done|].
    cbn [fold_left]. by apply IH, keeps_event. }
  apply io_bind_Ok in H as (s1 & cache & [= <- <-] & H). set (s1 := SwState _ _) in H.
  assert (served_stale (st_caches s1) req r → served_stale (st_caches s) req r) as Hopen.
  { intros [(c & r0 & Ec & Er & ?) Hm]. split; [|done]. cbn [s1 st_caches] in Ec. rewrite lookup_insert_eq in Ec.
    injection Ec as <-. destruct (st_caches s !! API_CACHE) as [c|] eqn:E; [|done]. by exists c, r0. }
  apply io_try_Ok in H as [H|(s2 & e & H & H')].
  { left. apply io_bind_Ok in H as (s2 & fresh & Hf & H). apply io_bind_Ok in H as (s3 & [] & _ & [_ <-]%io_ret_Ok).
    unfold platform in Hf. cbn [s1 st_world] in Hf. destruct (fetch req (st_world s)) as [w' [f|]]; by simplify_eq; eauto. }
  right. apply io_bind_Ok in H' as (s3 & [r'|] & Hr & H'); [|by apply lift_Ok in H' as [_ ?]].
  apply io_ret_Ok in H' as [_ ->]. assert (st_caches s2 = st_caches s1) as Es.
  { revert H. apply early_bind; [intros; by eapply platform_same|]. intros fresh. destruct (ok_status fresh).
    - intros t t' e' He. unfold mbind, io_bind in He.
      destruct (cacheStampedResponse _ _ _ _ _ t) as [t1 [[]|]] eqn:E; [done|]. injection He as <- _. by eapply early_stamp.
    - by intros t t' e'. }
  apply readStamped_spec in Hr. rewrite Es in Hr. split; [by apply Hopen|].
  intros parse data Hp Hd Hn. apply Hopen in Hr as [(cache & r0 & Ec & Er & _ & _ & Eh) Hm].
  destruct (Hok _ _ _ Ec Er) as (_ & _ & _ & t & Ht & Hne). rewrite Ht in Eh. exists t.
  unfold attachStaleInfo, is_header, header. cbn [client_sees rs_headers]. rewrite Hm, Eh.
  replace (str_eqb t EmptyString) with false; [|symmetry; apply not_true_iff_false; by intros ?%str_eqb_eq].
  by destruct data.
Qed.
End honesty.

(** ** Samples *)

Definition sample_origin_url : string := "https://w.example".
Definition sample_status_req : sw_request := SwRequest "GET" (sample_origin_url +:+ "/api/status?x=1").
Definition sample_live : sw_response := SwResponse 200 "OK" [("Content-Type", "application/json")] [123; 125].

(** A network that answers once and is then gone, a clock, and storage without a
    quota. *)
Definition once_net (q : sw_request) : io bool sw_response := λ up,
  (false, if up then Ok sample_live else Throw "Failed to fetch").
Definition sample_clock : io bool string := λ up, (up, Ok "2026-11-15T00:00:00.000Z").
Definition no_quota (url : string) : io bool unit := λ up, (up, Ok tt).

Definition sample_seen : sw_state bool :=
  (on_event once_net sample_clock no_quota sample_origin_url (Fetch sample_status_req) (SwState ∅ true)).1.

Lemma sample_offline :
  ∃ s' r, handleApiRequest once_net sample_clock no_quota sample_status_req sample_seen = (s', Ok r)
    ∧ once_net sample_status_req (st_world sample_seen) = (false, Throw "Failed to fetch") ∧ sr_body r = [123; 125].
Proof. eexists _, _. split; [vm_compute; reflexivity|]. by vm_compute. Qed.

Lemma handleApiRequest_honest_witness :
  ∃ r, served_stale (st_caches sample_seen) sample_status_req r.
Proof.
  destruct sample_offline as (s' & r & H & Hd & _). exists r.
  assert (∀ (w w' : bool) t, sample_clock w = (w', Ok t) → t ≠ EmptyString) as Hc by (intros w w' t [= _ <-]; discriminate).
  destruct (handleApiRequest_honest once_net sample_clock no_quota Hc sample_origin_url [Fetch sample_status_req]
    true sample_status_req sample_seen s' r eq_refl H) as [[w' Hl]|[Hst _]].
  - rewrite Hd in Hl. discriminate Hl.
  - exact Hst.
Defined.

(** The route of [/rawtx/], which the client reads positions from, is not among
    the API routes: what it answers is kept with the application code, and
    comes back from there without a mark. *)
Lemma rawtx_is_shell :
  onFetch sample_origin_url (SwRequest "GET" (sample_origin_url +:+ "/api/rawtx/aa")) = ShellRoute
  ∧ onFetch sample_origin_url (SwRequest "GET" (sample_origin_url +:+ "/api/utxos?address=a")) = ApiRoute
  ∧ onFetch sample_origin_url (SwRequest "POST" (sample_origin_url +:+ "/api/broadcast")) = PassThrough.
Proof. by vm_compute. Qed.

(** When storing is refused, a live answer is lost: the error of the storage is
    caught as if it were the network's. *)
Lemma live_answer_lost :
  match handleApiRequest once_net sample_clock (λ _ up, (up, Throw "QuotaExceededError")) sample_status_req
          (SwState ∅ true) with
  | (_, Throw e) => e = "QuotaExceededError"
  | _ => False
  end.
Proof. by vm_compute. Qed.
