(* ===== verification/SwRegister.v ===== *)
(** * SwRegister: registering the service worker, and reloading for a new one

    Model of [sw-register.js].  The script runs once as the page loads; what
    happens afterwards are the events it listens to.  The model keeps what the
    script does to the browser: the registrations it asks for, its warnings and
    the reloads of the page.

    The theorem: the page is reloaded at most once, exactly when it was already
    under a worker as the script ran and another worker took control since; and a
    browser without service workers is left alone. *)

From stdpp Require Import base tactics option list numbers strings.
From Stdlib Require Import ZArith Lia.
From S2P Require Import Prelude.

(** The variables of the script and what it has asked of the browser. *)
Record page_state := PageState {
  listening : bool;  (** ['serviceWorker' in navigator], and so the two listeners are set *)
  hadControllerAtLoad : bool;
  reloading : bool;
  registered : list string;
  warned : list string;
  reloads : nat
}.

(** The window's [load], the promise of [register] rejecting, and [controllerchange]. *)
Inductive page_event := PageLoaded | RegisterRejected (err : string) | ControllerChange.

Definition register_script (serviceWorker_in_navigator controller : bool) : page_state :=
  if serviceWorker_in_navigator then PageState true controller false [] [] 0
  else PageState false false false [] [] 0.

(** The body of the [controllerchange] listener. *)
Definition on_controllerchange (p : page_state) : page_state :=
  if negb (hadControllerAtLoad p) then p
  else if reloading p then p
  else PageState (listening p) (hadControllerAtLoad p) true (registered p) (warned p) (S (reloads p)).

Definition on_page_event (p : page_state) (ev : page_event) : page_state :=
  if negb (listening p) then p
  else match ev with
       | PageLoaded =>
           PageState true (hadControllerAtLoad p) (reloading p) (registered p ++ ["/sw.js"]) (warned p) (reloads p)
       | RegisterRejected err =>
           PageState true (hadControllerAtLoad p) (reloading p) (registered p)
             (warned p ++ ["service worker registration failed: " +:+ err]) (reloads p)
       | ControllerChange => on_controllerchange p
       end.

Definition page_run (p : page_state) (evs : list page_event) : page_state := fold_left on_page_event evs p.

Definition is_change (ev : page_event) : bool := match ev with ControllerChange => true | _ => false end.

(** The flag and the count go together. *)
Lemma page_run_spec p evs :
  reloads p = (if reloading p then 1 else 0)%nat →
  let q := page_run p evs in
  listening q = listening p ∧ hadControllerAtLoad q = hadControllerAtLoad p
  ∧ reloading q = reloading p || (listening p && hadControllerAtLoad p && existsb is_change evs)
  ∧ reloads q = (if reloading q then 1 else 0)%nat.
Proof.
  unfold page_run. revert p. induction evs as [|ev evs IH]; intros p Hp; cbn [fold_left existsb].
  - by rewrite andb_false_r, orb_false_r.
  - assert (reloads (on_page_event p ev) = (if reloading (on_page_event p ev) then 1 else 0)%nat) as Hq.
    { unfold on_page_event, on_controllerchange. destruct (listening p), ev, (hadControllerAtLoad p), (reloading p) eqn:E;
        cbn; rewrite ?E; auto. }
    destruct (IH _ Hq) as (-> & -> & -> & ->). clear IH Hq. destruct p as [l h r rg wn rl].
    by destruct l, h, r, ev; cbn; rewrite ?orb_true_r.
Qed.

(** The page reloads once if a worker controlled it as it loaded and another took
    over since, and otherwise never: not on a first visit, not twice, and not
    where there are no service workers. *)
Theorem reloads_once_per_update sw ctl evs :
  reloads (page_run (register_script sw ctl) evs) = (if sw && ctl && existsb is_change evs then 1 else 0)%nat.
Proof.
  destruct (page_run_spec (register_script sw ctl) evs) as (_ & _ & Hr & ->); [by destruct sw|]. rewrite Hr. by destruct sw, ctl.
Qed.
