(* ===== verification/Mnemonic.v ===== *)
(** * Mnemonic: the BIP39 half of [contrib/uap-web/wallet.js]

    From entropy to words ([entropyToMnemonic]) and back
    ([mnemonicToEntropy]), through strings of binary digits as the source does
    it.  The theorems: every entropy of 16 or 32 bytes survives the trip, and
    what is accepted is exactly what the wallet would print, up to the white
    space between the words; so a mistyped word or checksum is always refused. *)

From stdpp Require Import base tactics option list numbers strings.
From Stdlib Require Import ZArith Lia Ascii.
From S2P Require Import Prelude JsInt JsStr JsNum JsVal Radix Words Sha256 Wordlist.

(** ** Binary digits *)

(** [n.toString(2)] of a natural number. *)
Definition toString2 (n : Z) : string :=
  if n =? 0 then "0" else str_of (map hexdigit (to_digits 2 (fuel_for n) n [])).

(** [n.toString(2).padStart(k, '0')]. *)
Definition bits_of (k : nat) (n : Z) : list ascii := chars (padStart (toString2 n) k "0"%char).

(** [parseInt(s, 2)] of a string of binary digits; [None] is NaN, for the empty
    one. *)
Fixpoint bin_prefix (acc : option Z) (l : list ascii) : option Z :=
  match l with
  | "0"%char :: l => bin_prefix (Some (2 * default 0 acc)) l
  | "1"%char :: l => bin_prefix (Some (2 * default 0 acc + 1)) l
  | _ => acc
  end.
Definition parseInt2 (l : list ascii) : option Z := bin_prefix None l.

(** [for (let i = 0; i < s.length; i += k) s.substring(i, i + k)]. *)
Fixpoint chunks_of (k : nat) (fuel : nat) (l : list ascii) : list (list ascii) :=
  match fuel, l with
  | S fuel, _ :: _ => take k l :: chunks_of k fuel (drop k l)
  | _, _ => []
  end.
Definition chunks (k : nat) (l : list ascii) : list (list ascii) := chunks_of k (length l) l.

(** ** White space *)

(** The characters up to the first white space. *)
Fixpoint take_word (l : list ascii) : list ascii * list ascii :=
  match l with
  | [] => ([], [])
  | c :: l' => if is_space c then ([], l) else let '(a, b) := take_word l' in (c :: a, b)
  end.

(** [s.split(/\s+/)]. *)
Fixpoint split_loop (fuel : nat) (l : list ascii) : list (list ascii) :=
  match fuel with
  | O => [l]
  | S fuel =>
      let '(w, rest) := take_word l in
      match rest with [] => [w] | _ => w :: split_loop fuel (trim_start rest) end
  end.
Definition split_spaces (s : string) : list string := map str_of (split_loop (S (length (chars s))) (chars s)).

(** ** The functions of the wallet *)

Definition entropyToBits (entropy : bytes) : list ascii := mjoin (map (bits_of 8) entropy).
Definition checksumToBits (checksum : bytes) : list ascii := mjoin (map (bits_of 8) checksum).

(** [{ bytes, bits }]; a fraction of a bit is dropped where it is used. *)
Definition calculateBIP39Checksum (entropy : bytes) : bytes * Z :=
  let hash := sha256 entropy in
  let checksumBits := zlen entropy * 8 / 32 in
  let checksumBytes := cdiv (zlen entropy * 8) (32 * 8) in
  (slice hash 0 checksumBytes, checksumBits).

(** The bits of a checksum that count. *)
Definition checksum_bits (entropy : bytes) : list ascii :=
  let '(bytes, bits) := calculateBIP39Checksum entropy in
  take (Z.to_nat bits) (checksumToBits bytes).

Definition entropyToMnemonic (entropy : bytes) : string :=
  let bits := entropyToBits entropy ++ checksum_bits entropy in
  let mnemonicIndices := map parseInt2 (chunks 11 bits) in
  join " " (map (λ i, default EmptyString (i ≫= λ i, WORDLIST !! Z.to_nat i)) mnemonicIndices).

Definition bitsToEntropy (bits : list ascii) : bytes :=
  u8of (map (λ c, default 0 (parseInt2 c)) (chunks 8 bits)).

(** [WORDLIST.indexOf(word)], for a word of the list. *)
Fixpoint word_index (i : Z) (word : string) (l : list string) : option Z :=
  match l with
  | [] => None
  | w :: l => if str_eqb w word then Some i else word_index (i + 1) word l
  end.

Definition index_of_word (word : string) : res Z :=
  match word_index 0 word WORDLIST with
  | Some i => Ok i
  | None => Throw ("invalid word: " +:+ quote +:+ word +:+ quote +:+ " not in BIP39 wordlist")
  end.

Definition mnemonicToEntropy (mnemonic : string) : res bytes :=
  let words := split_spaces (trim mnemonic) in
  _ ← throw_if (negb (length words =? 12)%nat && negb (length words =? 24)%nat) "Mnemonic must be 12 or 24 words";
  indices ← mapR index_of_word words;
  let bits := mjoin (map (bits_of 11) indices) in
  let entropyBits := if (length words =? 12)%nat then 128%nat else 256%nat in
  let entropyBitString := take entropyBits bits in
  let checksumBitString := drop entropyBits bits in
  let entropy := bitsToEntropy entropyBitString in
  _ ← throw_if (negb (str_eqb (str_of checksumBitString) (str_of (checksum_bits entropy))))
        "BIP39 checksum validation failed";
  Ok entropy.

(** ** Binary strings *)

(** A string of [k] binary digits. *)
Definition binary (k : nat) (l : list ascii) : Prop :=
  ∃ ds, l = map hexdigit ds ∧ Forall (is_digit 2) ds ∧ length ds = k.

Lemma digits_inj ds es :
  Forall (is_digit 2) ds → Forall (is_digit 2) es → length ds = length es →
  of_digits 2 0 ds = of_digits 2 0 es → ds = es.
Proof.
  revert es. induction ds as [|d ds IH] using rev_ind; intros es Hd He Hl Hv.
  { by destruct es. }
  destruct es as [|e es _] using rev_ind; [rewrite length_app in Hl; simpl in Hl; lia|].
  rewrite !length_app in Hl. simpl in Hl. rewrite Forall_app, Forall_singleton in Hd, He.
  destruct Hd as [Hd Hd'], He as [He He']. unfold is_digit in Hd', He'. rewrite !of_digits_snoc in Hv.
  rewrite (IH es) by (done || lia). repeat f_equal. lia.
Qed.

Lemma hexdigit_inj_bin d e : is_digit 2 d → is_digit 2 e → hexdigit d = hexdigit e → d = e.
Proof.
  unfold is_digit. intros Hd He E. apply (f_equal code) in E. rewrite !code_hexdigit in E by lia.
  destruct (Z.ltb_spec d 10), (Z.ltb_spec e 10); lia.
Qed.

Lemma bits_of_spec k n :
  (0 < k)%nat → 0 ≤ n < 2 ^ Z.of_nat k →
  ∃ ds, bits_of k n = map hexdigit ds ∧ Forall (is_digit 2) ds ∧ length ds = k ∧ of_digits 2 0 ds = n.
Proof.
  intros Hk [Hn Hlt]. unfold bits_of, padStart.
  assert (∃ ds, chars (toString2 n) = map hexdigit ds ∧ Forall (is_digit 2) ds ∧ of_digits 2 0 ds = n
    ∧ (length ds ≤ k)%nat) as (ds & Ec & Hd & Ev & Hl).
  { unfold toString2. destruct (Z.eqb_spec n 0) as [->|Hz].
    { exists [0]. split_and!; [done|by repeat constructor|done|simpl; lia]. }
    exists (to_digits 2 (fuel_for n) n []). rewrite chars_str_of.
    assert (of_digits 2 0 (to_digits 2 (fuel_for n) n []) = n) as Ev by (apply of_to_digits; [lia|done|by apply fuel_enough]).
    split_and!; [done|by apply to_digits_range|done|].
    pose proof (to_digits_canonical 2 ltac:(lia) (fuel_for n) n Hn (fuel_enough n Hn)) as Hc.
    destruct (decide (to_digits 2 (fuel_for n) n [] = [])) as [->|Hne]; [simpl; lia|].
    pose proof (of_digits_lower 2 ltac:(lia) _ Hc Hne) as Hlow. rewrite Ev in Hlow.
    assert (zlen (to_digits 2 (fuel_for n) n []) - 1 < Z.of_nat k); [|lia]. apply (Z.pow_lt_mono_r_iff 2); lia. }
  exists (replicate (k - length ds) 0 ++ ds). unfold repeat_char.
  rewrite chars_app, chars_str_of, Ec, length_map, map_app. split_and!.
  - f_equal. change "0"%char with (hexdigit 0). generalize (k - length ds)%nat as j.
    induction j as [|j IH]; [done|]. cbn. by f_equal.
  - apply Forall_app. split; [|done]. apply Forall_replicate. split; lia.
  - rewrite length_app, length_replicate. lia.
  - by rewrite of_digits_zeros.
Qed.

Lemma bin_prefix_digits ds a :
  Forall (is_digit 2) ds → ds ≠ [] ∨ is_Some a →
  bin_prefix a (map hexdigit ds) = Some (of_digits 2 (default 0 a) ds).
Proof.
  intros Hd. revert a. induction Hd as [|d ds Hd Hds IH]; intros a Ha.
  { destruct Ha as [?|[x ->]]; done. }
  assert (d = 0 ∨ d = 1) as [->| ->] by (unfold is_digit in Hd; lia); cbn [map bin_prefix];
    (change (hexdigit 0) with "0"%char || change (hexdigit 1) with "1"%char); cbn [bin_prefix];
    rewrite IH by eauto; unfold of_digits; cbn [fold_left default id]; do 2 f_equal; lia.
Qed.

(** Reading a string of digits inverts writing it. *)
Lemma parse_bits k n : (0 < k)%nat → 0 ≤ n < 2 ^ Z.of_nat k → parseInt2 (bits_of k n) = Some n.
Proof.
  intros Hk Hn. destruct (bits_of_spec k n Hk Hn) as (ds & -> & Hd & Hl & <-). apply bin_prefix_digits; [done|].
  left. by destruct ds; [simpl in Hl; lia|].
Qed.

Lemma of_digits_bound ds : Forall (is_digit 2) ds → 0 ≤ of_digits 2 0 ds < 2 ^ zlen ds.
Proof.
  intros H. induction ds as [|d ds IH] using rev_ind; [done|]. rewrite Forall_app, Forall_singleton in H.
  destruct H as [Hds Hd]. specialize (IH Hds). unfold is_digit in Hd. rewrite of_digits_snoc, length_app. cbn [length].
  replace (Z.of_nat (length ds + 1)) with (Z.succ (zlen ds)) by lia. rewrite Z.pow_succ_r by lia. lia.
Qed.

Lemma bits_parse k l :
  (0 < k)%nat → binary k l → ∃ n, parseInt2 l = Some n ∧ 0 ≤ n < 2 ^ Z.of_nat k ∧ bits_of k n = l.
Proof.
  intros Hk (ds & -> & Hd & Hl). exists (of_digits 2 0 ds). pose proof (of_digits_bound ds Hd) as Hb.
  rewrite Hl in Hb. split_and!; try lia.
  - apply bin_prefix_digits; [done|]. left. by destruct ds; [simpl in Hl; lia|].
  - destruct (bits_of_spec k _ Hk Hb) as (es & -> & He & Hle & Ev). f_equal. apply digits_inj; [done..|lia|done].
Qed.

Lemma binary_length k l : binary k l → length l = k.
Proof. intros (ds & -> & _ & <-). apply length_map. Qed.

Lemma binary_app k j l l' : binary k l → binary j l' → binary (k + j) (l ++ l').
Proof.
  intros (ds & -> & Hd & <-) (es & -> & He & <-). exists (ds ++ es).
  rewrite map_app, length_app. by split_and!; [|apply Forall_app|].
Qed.

Lemma binary_take i k l : binary k l → (i ≤ k)%nat → binary i (take i l).
Proof.
  intros (ds & -> & Hd & Hl) Hi. exists (take i ds). rewrite <-firstn_map, length_take.
  split_and!; [done|by apply Forall_take|lia].
Qed.

Lemma binary_drop i k l : binary k l → binary (k - i) (drop i l).
Proof.
  intros (ds & -> & Hd & Hl). exists (drop i ds). rewrite <-skipn_map, length_drop.
  split_and!; [done|by apply Forall_drop|lia].
Qed.

Lemma bits_binary k n : (0 < k)%nat → 0 ≤ n < 2 ^ Z.of_nat k → binary k (bits_of k n).
Proof. intros Hk Hn. destruct (bits_of_spec k n Hk Hn) as (ds & ? & ? & ? & _). by exists ds. Qed.

Lemma binary_join k ls : Forall (binary k) ls → binary (k * length ls) (mjoin ls).
Proof.
  induction 1 as [|l ls Hl Hls IH]; cbn [length].
  { exists []. split_and!; [done..|]. simpl. lia. }
  rewrite mjoin_cons. replace (k * S (length ls))%nat with (k + k * length ls)%nat by lia. by apply binary_app.
Qed.

(** Cutting what was joined, and joining what was cut. *)
Lemma chunks_of_join k ls fuel :
  (0 < k)%nat → Forall (binary k) ls → (length ls ≤ fuel)%nat → chunks_of k fuel (mjoin ls) = ls.
Proof.
  intros Hk H. revert fuel. induction H as [|l ls Hl Hls IH]; intros fuel Hf; [by destruct fuel|].
  destruct fuel as [|fuel]; [simpl in Hf; lia|]. rewrite mjoin_cons. apply binary_length in Hl.
  destruct (l ++ mjoin ls) as [|c r] eqn:E.
  { apply (f_equal length) in E. rewrite length_app in E. simpl in E. lia. }
  cbn [chunks_of]. rewrite <-E. rewrite take_app_length', drop_app_length' by done. rewrite IH; [done|]. simpl in Hf. lia.
Qed.

Lemma chunks_join k ls : (0 < k)%nat → Forall (binary k) ls → chunks k (mjoin ls) = ls.
Proof.
  intros Hk H. apply chunks_of_join; [done..|]. apply binary_join, binary_length in H. rewrite H. nia.
Qed.

Lemma join_chunks k m l :
  (0 < k)%nat → binary (k * m) l →
  ∃ ls, l = mjoin ls ∧ length ls = m ∧ Forall (binary k) ls.
Proof.
  intros Hk. revert l. induction m as [|m IH]; intros l Hl.
  { exists []. apply binary_length in Hl. destruct l; [done|simpl in Hl; lia]. }
  destruct (IH (drop k l)) as (ls & E & Hm & Hb).
  { replace (k * m)%nat with (k * S m - k)%nat by lia. by apply binary_drop. }
  exists (take k l :: ls). rewrite mjoin_cons, <-E, take_drop. split_and!; [done|simpl; lia|].
  constructor; [|done]. eapply binary_take; [done|lia].
Qed.

(** Numbers of [k] bits, written one after the other and read back. *)
Lemma parse_chunks k ns :
  (0 < k)%nat → Forall (λ n, 0 ≤ n < 2 ^ Z.of_nat k) ns →
  map parseInt2 (chunks k (mjoin (map (bits_of k) ns))) = map Some ns.
Proof.
  intros Hk H. rewrite chunks_join; [|done|].
  - induction H as [|n ns Hn Hns IH]; [done|]. cbn [map]. rewrite IH. by rewrite parse_bits.
  - rewrite Forall_map. eapply Forall_impl; [done|]. intros n Hn. by apply bits_binary.
Qed.

Lemma chunks_numbers k m l :
  (0 < k)%nat → binary (k * m) l →
  ∃ ns, l = mjoin (map (bits_of k) ns) ∧ length ns = m ∧ Forall (λ n, 0 ≤ n < 2 ^ Z.of_nat k) ns.
Proof.
  intros Hk Hl. destruct (join_chunks k m l Hk Hl) as (ls & -> & <- & Hb). clear Hl.
  induction Hb as [|c ls Hc Hls IH]; [by exists []|]. destruct IH as (ns & E & Hl & Hn).
  destruct (bits_parse k c Hk Hc) as (n & _ & Hb & <-). exists (n :: ns).
  cbn [map]. rewrite !mjoin_cons, E. split_and!; [done|simpl; lia|by constructor].
Qed.

(** ** Words *)

(** A run of characters with no white space in it. *)
Definition word (l : list ascii) : Prop := l ≠ [] ∧ Forall (λ c, is_space c = false) l.

Lemma take_word_app w rest :
  Forall (λ c, is_space c = false) w → (match rest with [] => True | c :: _ => is_space c = true end) →
  take_word (w ++ rest) = (w, rest).
Proof.
  intros H Hr. induction H as [|c w Hc Hw IH]; cbn.
  - destruct rest as [|c rest]; [done|]. cbn. by rewrite Hr.
  - by rewrite Hc, IH.
Qed.

Definition joined (ws : list (list ascii)) : list ascii :=
  match ws with [] => [] | w :: ws => w ++ mjoin (map (cons " "%char) ws) end.

Lemma chars_join ws : chars (join " " ws) = joined (map chars ws).
Proof.
  destruct ws as [|w ws]; [done|]. cbn [join joined map]. revert w.
  induction ws as [|v ws IH]; intros w; [by rewrite app_nil_r|].
  cbn [fold_left map]. rewrite IH, mjoin_cons, !chars_app. by rewrite <-!app_assoc.
Qed.

Lemma trim_start_word w l : word w → trim_start (w ++ l) = w ++ l.
Proof. intros [Hne H]. destruct H as [|c w Hc Hw]; [done|]. cbn. by rewrite Hc. Qed.

Lemma split_joined ws fuel :
  Forall word ws → ws ≠ [] → (length ws ≤ fuel)%nat → split_loop fuel (joined ws) = ws.
Proof.
  intros H. revert fuel. induction H as [|w ws Hw Hws IH]; intros fuel Hne Hf; [done|].
  destruct fuel as [|fuel]; [simpl in Hf; lia|]. cbn [split_loop joined].
  rewrite take_word_app; [|apply Hw|by destruct ws].
  destruct ws as [|v ws]; [done|]. cbn [map]. rewrite mjoin_cons. cbn [app].
  change (trim_start (" "%char :: ?l)) with (trim_start l). change (v ++ mjoin (map (cons " "%char) ws)) with (joined (v :: ws)).
  cbn [joined]. inversion Hws as [|?? Hv _]; subst. rewrite trim_start_word by done. f_equal. apply IH; [done|]. simpl in *. lia.
Qed.

(** Neither end is white space. *)
Definition starts_solid (l : list ascii) : Prop := match l with [] => True | c :: _ => is_space c = false end.
Definition ends_solid (l : list ascii) : Prop := starts_solid (reverse l).

Lemma trim_start_spec l :
  ∃ sp, l = sp ++ trim_start l ∧ Forall (λ c, is_space c = true) sp ∧ starts_solid (trim_start l).
Proof.
  induction l as [|c l (sp & E & Hs & Hn)]; [by exists []|]. cbn. destruct (is_space c) eqn:Hc.
  - exists (c :: sp). split_and!; [by rewrite <-app_comm_cons, <-E|by constructor|done].
  - by exists [].
Qed.

Lemma trim_start_solid l : starts_solid l → trim_start l = l.
Proof. destruct l as [|c l]; [done|]. cbn. by intros ->. Qed.

Lemma starts_solid_prefix l k : starts_solid (l ++ k) → starts_solid l.
Proof. by destruct l. Qed.

Lemma ends_solid_suffix l k : ends_solid (l ++ k) → ends_solid k.
Proof. unfold ends_solid. rewrite reverse_app. apply starts_solid_prefix. Qed.

Lemma trim_solid s : starts_solid (chars (trim s)) ∧ ends_solid (chars (trim s)).
Proof.
  unfold trim, ends_solid. rewrite chars_str_of, reverse_involutive.
  destruct (trim_start_spec (chars s)) as (_ & _ & _ & Hs).
  destruct (trim_start_spec (reverse (trim_start (chars s)))) as (sp & E & _ & He).
  split; [|done]. apply (f_equal reverse) in E. rewrite reverse_involutive, reverse_app in E.
  rewrite E in Hs. by apply starts_solid_prefix in Hs.
Qed.

Lemma trim_id s : starts_solid (chars s) → ends_solid (chars s) → trim s = s.
Proof.
  unfold trim, ends_solid. intros Hs He. rewrite (trim_start_solid (chars s)) by done.
  rewrite (trim_start_solid (reverse _)) by done. by rewrite reverse_involutive, str_of_chars.
Qed.

Lemma take_word_spec l :
  ∃ w rest, take_word l = (w, rest) ∧ l = w ++ rest ∧ Forall (λ c, is_space c = false) w
    ∧ match rest with [] => True | c :: _ => is_space c = true end.
Proof.
  induction l as [|c l (w & rest & E & -> & Hw & Hr)]; [by exists [], []|]. cbn. destruct (is_space c) eqn:Hc.
  - by exists [], (c :: w ++ rest).
  - rewrite E. exists (c :: w), rest. split_and!; [done..|by constructor|done].
Qed.

Lemma no_space_end l : Forall (λ c, is_space c = true) l → ends_solid l → l = [].
Proof.
  unfold ends_solid. destruct l as [|c l _] using rev_ind; [done|]. rewrite reverse_snoc, Forall_app, Forall_singleton.
  cbn. intros [_ Hc] H. congruence.
Qed.

Lemma split_solid fuel l :
  starts_solid l → ends_solid l → l ≠ [] → (length l ≤ fuel)%nat →
  Forall word (split_loop fuel l) ∧ split_loop fuel l ≠ [].
Proof.
  revert l. induction fuel as [|fuel IH]; intros l Hs He Hne Hf; [by destruct l; [|simpl in Hf; lia]|].
  cbn [split_loop]. destruct (take_word_spec l) as (w & rest & -> & E & Hw & Hr).
  assert (word w) as Hword.
  { split; [|done]. intros ->. destruct rest as [|c rest]; [done|]. rewrite E in Hs. cbn in Hs. congruence. }
  destruct rest as [|c rest]; [split; [by constructor|done]|].
  split; [|done]. constructor; [done|].
  destruct (trim_start_spec (c :: rest)) as (sp & Er & Hsp & Hst). rewrite E in He. apply ends_solid_suffix in He.
  apply IH; [done| | |].
  - rewrite Er in He. by apply ends_solid_suffix in He.
  - intros En. rewrite En, app_nil_r in Er. rewrite <-Er in Hsp. by apply no_space_end in Hsp.
  - apply (f_equal length) in E, Er. rewrite length_app in E, Er.
    assert (length w ≠ 0)%nat by (destruct w; [by destruct Hword|done]). lia.
Qed.

(** The words of a phrase: one empty word for a blank phrase, and otherwise
    runs of characters with no white space in them. *)
Lemma split_words s :
  split_spaces (trim s) = [EmptyString] ∨
  (Forall (λ w, word (chars w)) (split_spaces (trim s)) ∧ split_spaces (trim s) ≠ []).
Proof.
  destruct (trim_solid s) as [Hs He]. unfold split_spaces. destruct (decide (chars (trim s) = [])) as [->|Hne]; [by left|].
  right. destruct (split_solid (S (length (chars (trim s)))) _ Hs He Hne) as [Hw Hn]; [lia|]. split.
  - rewrite Forall_map. eapply Forall_impl; [done|]. intros w. cbn. by rewrite chars_str_of.
  - by intros ?%map_eq_nil.
Qed.

Lemma joined_app w ws : ∃ l, joined (ws ++ [w]) = l ++ w.
Proof.
  destruct ws as [|v ws]; [exists []; apply app_nil_r|]. cbn [app joined]. rewrite map_app, mjoin_app. cbn [map]. rewrite mjoin_cons.
  exists (v ++ mjoin (map (cons " "%char) ws) ++ [" "%char]). cbn. by rewrite app_nil_r, <-!app_assoc.
Qed.

Lemma length_joined ws : Forall word ws → (length ws ≤ length (joined ws))%nat.
Proof.
  destruct 1 as [|w ws Hw Hws]; [simpl; lia|]. cbn [joined]. rewrite length_app. cbn [length].
  assert (length w ≠ 0)%nat by (destruct w; [by destruct Hw|done]).
  assert (length ws ≤ length (mjoin (map (cons " "%char) ws)))%nat; [|lia]. clear.
  induction ws as [|v ws IH]; [simpl; lia|]. cbn [map]. rewrite mjoin_cons, length_app. simpl. lia.
Qed.

(** Words joined by spaces are read back. *)
Lemma split_join ws :
  Forall (λ w, word (chars w)) ws → ws ≠ [] → split_spaces (trim (join " " ws)) = ws.
Proof.
  intros H Hne. assert (Forall word (map chars ws)) as Hw by by apply Forall_map.
  rewrite trim_id.
  - unfold split_spaces. rewrite chars_join, split_joined.
    + rewrite map_map. erewrite map_ext; [apply map_id|]. apply str_of_chars.
    + done.
    + by intros ?%map_eq_nil.
    + pose proof (length_joined _ Hw). lia.
  - rewrite chars_join. destruct Hw as [|w l [Hn Hw] _]; [done|]. cbn [joined].
    destruct Hw as [|c w Hc _]; [done|]. done.
  - rewrite chars_join. destruct (map chars ws) as [|w l _] eqn:E using rev_ind; [by apply map_eq_nil in E|].
    apply Forall_app in Hw as [_ Hw]. apply Forall_singleton in Hw as [Hn Hw].
    destruct (joined_app w l) as [k ->]. unfold ends_solid. rewrite reverse_app.
    destruct w as [|c w _] using rev_ind; [done|]. rewrite reverse_snoc. apply Forall_app in Hw as [_ Hw].
    rewrite Forall_singleton in Hw. exact Hw.
Qed.

Lemma letter_not_space c : is_letter c = true → is_space c = false.
Proof. unfold is_letter, is_space. simp_bool. intros ?. repeat (apply orb_false_iff; split); simp_bool; lia. Qed.

Lemma WORDLIST_words w : w ∈ WORDLIST → word (chars w).
Proof.
  intros H. apply WORDLIST_letters in H as [Hl Hne]. split; [done|]. eapply Forall_impl; [done|]. apply letter_not_space.
Qed.

Lemma word_index_spec i w l j : word_index i w l = Some j → 0 ≤ j - i ∧ l !! Z.to_nat (j - i) = Some w.
Proof.
  revert i. induction l as [|v l IH]; intros i; cbn; [done|]. destruct (str_eqb v w) eqn:E.
  - intros [= ->]. apply str_eqb_eq in E as ->. by rewrite Z.sub_diag.
  - intros H. apply IH in H as [Hj Hl]. split; [lia|].
    replace (Z.to_nat (j - i)) with (S (Z.to_nat (j - (i + 1)))) by lia. done.
Qed.

Lemma word_index_lookup i w l k : NoDup l → l !! k = Some w → word_index i w l = Some (i + Z.of_nat k).
Proof.
  intros Hnd. revert i k. induction Hnd as [|v l Hv Hnd IH]; intros i k Hk; [done|].
  destruct k as [|k]; cbn in Hk |- *.
  - injection Hk as ->. rewrite (proj2 (str_eqb_eq w w)) by done. f_equal. lia.
  - destruct (str_eqb v w) eqn:E; [|rewrite (IH _ k) by done; f_equal; lia].
    apply str_eqb_eq in E as ->. by apply list_elem_of_lookup_2 in Hk.
Qed.

(** Finding a word inverts reading the list. *)
Lemma index_of_word_Ok w n : index_of_word w = Ok n ↔ 0 ≤ n ∧ WORDLIST !! Z.to_nat n = Some w.
Proof.
  unfold index_of_word. split.
  - destruct (word_index 0 w WORDLIST) as [i|] eqn:E; [|done]. intros [= <-].
    apply word_index_spec in E. by rewrite Z.sub_0_r in E.
  - intros [Hn Hl]. rewrite (word_index_lookup _ _ _ _ WORDLIST_NoDup Hl). f_equal. lia.
Qed.

Lemma WORDLIST_bound n w : WORDLIST !! n = Some w → Z.of_nat n < 2048.
Proof. intros H%lookup_lt_Some. rewrite (proj1 WORDLIST_facts) in H. lia. Qed.

(** The word of a number of eleven bits. *)
Definition word_at (n : Z) : string := default EmptyString (WORDLIST !! Z.to_nat n).

Lemma word_at_lookup n : 0 ≤ n < 2048 → WORDLIST !! Z.to_nat n = Some (word_at n).
Proof.
  intros Hn. unfold word_at. destruct (WORDLIST !! Z.to_nat n) eqn:E; [done|].
  apply lookup_ge_None in E. rewrite (proj1 WORDLIST_facts) in E. lia.
Qed.

Lemma words_at_indices ns ws :
  Forall (λ n, 0 ≤ n < 2048) ns → mapR index_of_word ws = Ok ns ↔ ws = map word_at ns.
Proof.
  intros H. rewrite mapR_Ok. split.
  - intros H2. clear H. induction H2 as [|w n ws ns Hw _ IH]; [done|]. cbn [map]. f_equal; [|done].
    apply index_of_word_Ok in Hw as [_ Hw]. unfold word_at. by rewrite Hw.
  - intros ->. induction H as [|n ns Hn _ IH]; [constructor|]. cbn [map]. constructor; [|done].
    apply index_of_word_Ok. split; [lia|]. by apply word_at_lookup.
Qed.

Lemma indices_range ws ns : mapR index_of_word ws = Ok ns → Forall (λ n, 0 ≤ n < 2048) ns ∧ length ns = length ws.
Proof.
  rewrite mapR_Ok. induction 1 as [|w n ws ns Hw _ [IH Hl]]; [done|]. split; [|simpl; lia].
  constructor; [|done]. apply index_of_word_Ok in Hw as [Hn Hw]. apply WORDLIST_bound in Hw. lia.
Qed.

(** ** The phrase *)

(** Entropy of a supported size. *)
Definition entropy_ok (e : bytes) : Prop := is_bytes e ∧ (length e = 16%nat ∨ length e = 32%nat).

Lemma bytes_of_bits e : is_bytes e → bitsToEntropy (entropyToBits e) = e.
Proof.
  intros He. unfold bitsToEntropy, entropyToBits.
  rewrite <-(map_map parseInt2 (default 0)), parse_chunks, map_map, map_id; [by apply u8of_small|lia|done].
Qed.

Lemma entropy_binary e : is_bytes e → binary (8 * length e) (entropyToBits e).
Proof.
  intros He. unfold entropyToBits. rewrite <-(length_map (bits_of 8) e). apply binary_join.
  rewrite Forall_map. eapply Forall_impl; [done|]. intros b Hb. apply bits_binary; [lia|done].
Qed.

(** Four bits of checksum for sixteen bytes, eight for thirty-two. *)
Lemma checksum_binary e : entropy_ok e → binary (length e / 4) (checksum_bits e).
Proof.
  intros [_ He]. unfold checksum_bits, calculateBIP39Checksum.
  pose proof (entropy_binary (slice (sha256 e) 0 1) (is_bytes_slice _ _ _ (sha256_bytes e))) as H.
  replace (length (slice (sha256 e) 0 1)) with 1%nat in H
    by (apply Nat2Z.inj; rewrite length_slice by (rewrite ?length_sha256; lia); done).
  change (entropyToBits ?x) with (checksumToBits x) in H.
  destruct He as [He|He]; rewrite !He; eapply binary_take; try exact H; vm_compute; lia.
Qed.

Lemma phrase_binary e : entropy_ok e → binary (11 * (length e * 3 / 4)) (entropyToBits e ++ checksum_bits e).
Proof.
  intros He. pose proof (binary_app _ _ _ _ (entropy_binary e (proj1 He)) (checksum_binary e He)) as H.
  destruct He as [_ [El|El]]; rewrite El in H |- *; exact H.
Qed.

Lemma entropyToMnemonic_words e ns :
  Forall (λ n, 0 ≤ n < 2048) ns → entropyToBits e ++ checksum_bits e = mjoin (map (bits_of 11) ns) →
  entropyToMnemonic e = join " " (map word_at ns).
Proof.
  intros Hn E. unfold entropyToMnemonic. rewrite E, parse_chunks by (lia || done). by rewrite map_map.
Qed.

Lemma indices_binary ns : Forall (λ n, 0 ≤ n < 2048) ns → binary (11 * length ns) (mjoin (map (bits_of 11) ns)).
Proof.
  intros H. rewrite <-(length_map (bits_of 11) ns). apply binary_join. rewrite Forall_map.
  eapply Forall_impl; [done|]. intros n Hn. apply bits_binary; [lia|done].
Qed.

Lemma bitsToEntropy_bits m l :
  binary (8 * m) l → is_bytes (bitsToEntropy l) ∧ length (bitsToEntropy l) = m ∧ entropyToBits (bitsToEntropy l) = l.
Proof.
  intros H. destruct (chunks_numbers 8 m l ltac:(lia) H) as (ns & -> & Hm & Hb). change (mjoin (map (bits_of 8) ns)) with (entropyToBits ns).
  by rewrite bytes_of_bits.
Qed.

(** What is accepted, word by word. *)
Lemma mnemonicToEntropy_words m e :
  mnemonicToEntropy m = Ok e ↔
  entropy_ok e ∧ ∃ ns, Forall (λ n, 0 ≤ n < 2048) ns ∧ split_spaces (trim m) = map word_at ns
    ∧ entropyToBits e ++ checksum_bits e = mjoin (map (bits_of 11) ns).
Proof.
  unfold mnemonicToEntropy. split.
  - intros H. apply bind_Ok in H as (u1 & Hl & H). apply throw_if_Ok in Hl.
    apply bind_Ok in H as (ns & Hns & H). apply bind_Ok in H as (u2 & Hc & [= He]). apply throw_if_Ok, negb_false_iff, str_eqb_eq in Hc.
    destruct (indices_range _ _ Hns) as [Hr Hlen]. pose proof (indices_binary ns Hr) as Hb.
    apply (words_at_indices ns _ Hr) in Hns. set (k := if (_ =? 12)%nat then 128%nat else 256%nat) in *.
    assert (binary (8 * (k / 8)) (take k (mjoin (map (bits_of 11) ns))) ∧ (k = 128 ∨ k = 256)%nat) as [Ht Hk].
    { subst k. rewrite <-Hlen in Hl |- *. destruct (Nat.eqb_spec (length ns) 12) as [El|_].
      - rewrite El in Hb. split; [|by left]. apply (binary_take 128 _ _ Hb). lia.
      - destruct (Nat.eqb_spec (length ns) 24) as [El|_]; [|done]. rewrite El in Hb.
        split; [|by right]. apply (binary_take 256 _ _ Hb). lia. }
    apply bitsToEntropy_bits in Ht as (Hbytes & Hle & Ebits). rewrite He in *. split.
    + split; [done|]. rewrite Hle. destruct Hk as [->| ->]; auto.
    + exists ns. split_and!; [done..|]. apply (f_equal chars) in Hc. rewrite !chars_str_of in Hc.
      by rewrite Ebits, <-Hc, take_drop.
  - intros (He & ns & Hr & Ews & Ebits). pose proof (phrase_binary e He) as Hp. pose proof (indices_binary ns Hr) as Hb.
    rewrite <-Ebits in Hb. apply binary_length in Hp, Hb.
    assert (mapR index_of_word (split_spaces (trim m)) = Ok ns) as Hm by by apply words_at_indices.
    assert (length ns = 12%nat ∧ length e = 16%nat ∨ length ns = 24%nat ∧ length e = 32%nat) as Hl.
    { destruct (proj2 He) as [El|El]; rewrite El in Hp; [left|right]; split; (done || simpl in Hp; lia). }
    pose proof (binary_length _ _ (entropy_binary e (proj1 He))) as Hle.
    rewrite Hm, Ews, length_map. cbn [mbind res_bind]. rewrite <-Ebits.
    destruct Hl as [[-> El]|[-> El]]; rewrite El in Hle; cbn [Nat.eqb negb andb throw_if mbind res_bind];
      rewrite take_app_length', drop_app_length' by (rewrite Hle; done); rewrite bytes_of_bits by apply He;
      rewrite (proj2 (str_eqb_eq _ _)) by done; done.
Qed.

(** The printed words of an entropy. *)
Lemma printed_words e :
  entropy_ok e →
  ∃ ns, Forall (λ n, 0 ≤ n < 2048) ns ∧ entropyToBits e ++ checksum_bits e = mjoin (map (bits_of 11) ns)
    ∧ entropyToMnemonic e = join " " (map word_at ns) ∧ split_spaces (trim (entropyToMnemonic e)) = map word_at ns.
Proof.
  intros He. destruct (chunks_numbers 11 _ _ ltac:(lia) (phrase_binary e He)) as (ns & E & Hlen & Hr). exists ns.
  rewrite (entropyToMnemonic_words e ns Hr E). split_and!; [done..|]. apply split_join.
  - rewrite Forall_map. eapply Forall_impl; [exact Hr|]. intros n Hn.
    eapply WORDLIST_words, list_elem_of_lookup_2, word_at_lookup, Hn.
  - destruct ns; [|done]. by destruct He as [_ [Hl|Hl]]; rewrite Hl in Hlen.
Qed.

Lemma mnemonic_roundtrip e : entropy_ok e → mnemonicToEntropy (entropyToMnemonic e) = Ok e.
Proof. intros He. apply mnemonicToEntropy_words. split; [done|]. destruct (printed_words e He) as (ns & ? & ? & _ & ?). eauto. Qed.

(** C24 The BIP39 phrase of the wallet is faithful in both directions: every
    entropy of sixteen or thirty-two bytes is read back from the phrase printed
    for it, and a phrase is accepted, with entropy [e], exactly when [e] has one
    of these sizes and the phrase is, word for word and up to white space, what
    the wallet prints for [e].  So no mistyped word, word order or checksum is
    ever accepted, and nothing that was printed is refused. *)
Theorem mnemonic_bijection e :
  (entropy_ok e → mnemonicToEntropy (entropyToMnemonic e) = Ok e)
  ∧ ∀ m, mnemonicToEntropy m = Ok e ↔ entropy_ok e ∧ entropyToMnemonic e = join " " (split_spaces (trim m)).
Proof.
  split; [apply mnemonic_roundtrip|]. intros m. rewrite mnemonicToEntropy_words. split; intros [He H]; (split; [done|]).
  - destruct H as (ns & Hr & -> & E). by apply entropyToMnemonic_words.
  - destruct (printed_words e He) as (ns & Hr & E & Ep & Es). exists ns. split_and!; [done| |done].
    rewrite H in Es. rewrite <-Es.
    destruct (split_words m) as [E1|[Hws Hn]]; [rewrite E1; by vm_compute|]. symmetry. by apply split_join.
Qed.

Definition abandon_about : string :=
  join " " (replicate 11 "abandon" ++ ["about"]).

Lemma mnemonic_bijection_witness :
  mnemonicToEntropy (entropyToMnemonic (replicate 16 0)) = Ok (replicate 16 0)
  ∧ entropyToMnemonic (replicate 16 0) = abandon_about
  ∧ mnemonicToEntropy (" " +:+ abandon_about) = Ok (replicate 16 0)
  ∧ is_ok (mnemonicToEntropy (join " " (replicate 12 "abandon"))) = false.
Proof.
  assert (entropy_ok (replicate 16 0)) as Hok by (split; [by repeat constructor|by left]).
  assert (entropyToMnemonic (replicate 16 0) = abandon_about) as Ep by by vm_compute.
  split; [exact (proj1 (mnemonic_bijection (replicate 16 0)) Hok)|]. split; [exact Ep|].
  split; [|by vm_compute].
  apply (proj2 (mnemonic_bijection (replicate 16 0))). split; [exact Hok|]. rewrite Ep. by vm_compute.
Defined.
