(* ===== verification/Bip32.v ===== *)
(** * Bip32: [contrib/uap-web/bip32.js]

    From a mnemonic to the wallet's private key: the BIP39 seed, the BIP32
    master key, and three hardened children.  The platform's WebCrypto is the
    record [subtle] of its operations, with [SubtleLaws] for what is relied on;
    the JavaScript around it (range checks, byte packing, big integers) is
    translated.  [BIP32] states the derivation of the BIP as equations on
    numbers, and the theorem is that the code computes exactly that. *)

From stdpp Require Import base tactics option list numbers strings.
From Stdlib Require Import ZArith Lia Ascii.
From S2P Require Import Prelude JsInt JsStr JsNum Words NobleField NoblePoint NobleSign.

(** ** WebCrypto *)

(** The operations of [crypto.subtle] the wallet awaits, on raw keys.  A hash
    takes its key and data, a key derivation its password, salt, iteration count
    and length in bytes, and AES-GCM its key, nonce and data, the tag of sixteen
    bytes at the end of the ciphertext; a tag that does not verify is [None]. *)
Record subtle := Subtle {
  hmac_sha512 : bytes → bytes → bytes;
  pbkdf2_sha512 : bytes → bytes → Z → nat → bytes;
  pbkdf2_sha256 : bytes → bytes → Z → nat → bytes;
  gcm_encrypt : bytes → bytes → bytes → bytes;
  gcm_decrypt : bytes → bytes → bytes → option bytes
}.

(** HMAC-SHA512 returns sixty-four bytes; AES-GCM returns bytes, sixteen more
    than it was given, and decryption under the same key and nonce inverts it. *)
Class SubtleLaws (s : subtle) : Prop := {
  hmac_sha512_bytes k d : is_bytes (hmac_sha512 s k d);
  length_hmac_sha512 k d : length (hmac_sha512 s k d) = 64%nat;
  gcm_bytes k iv d : is_bytes (gcm_encrypt s k iv d);
  length_gcm k iv d : length (gcm_encrypt s k iv d) = (length d + 16)%nat;
  gcm_inverse k iv d : is_bytes d → gcm_decrypt s k iv (gcm_encrypt s k iv d) = Some d
}.

Definition unavailable : string :=
  "crypto.subtle is unavailable. This wallet requires a secure context (HTTPS or localhost).".

(** [subtle()]: the global of the page, if it has one. *)
Definition subtle_ (g : option subtle) : res subtle :=
  match g with Some s => Ok s | None => Throw unavailable end.

(** ** [enc.encode(s.normalize('NFKD'))] *)

(** The compatibility decompositions of the Latin-1 range.  Each starts with a
    starter, so no reordering of marks follows. *)
Definition nfkd_table : list (Z * list Z) :=
  [(0xA0, [0x20]); (0xA8, [0x20; 0x308]); (0xAA, [0x61]); (0xAF, [0x20; 0x304]); (0xB2, [0x32]);
   (0xB3, [0x33]); (0xB4, [0x20; 0x301]); (0xB5, [0x3BC]); (0xB8, [0x20; 0x327]); (0xB9, [0x31]);
   (0xBA, [0x6F]); (0xBC, [0x31; 0x2044; 0x34]); (0xBD, [0x31; 0x2044; 0x32]); (0xBE, [0x33; 0x2044; 0x34]);
   (0xC0, [0x41; 0x300]); (0xC1, [0x41; 0x301]); (0xC2, [0x41; 0x302]); (0xC3, [0x41; 0x303]);
   (0xC4, [0x41; 0x308]); (0xC5, [0x41; 0x30A]); (0xC7, [0x43; 0x327]); (0xC8, [0x45; 0x300]);
   (0xC9, [0x45; 0x301]); (0xCA, [0x45; 0x302]); (0xCB, [0x45; 0x308]); (0xCC, [0x49; 0x300]);
   (0xCD, [0x49; 0x301]); (0xCE, [0x49; 0x302]); (0xCF, [0x49; 0x308]); (0xD1, [0x4E; 0x303]);
   (0xD2, [0x4F; 0x300]); (0xD3, [0x4F; 0x301]); (0xD4, [0x4F; 0x302]); (0xD5, [0x4F; 0x303]);
   (0xD6, [0x4F; 0x308]); (0xD9, [0x55; 0x300]); (0xDA, [0x55; 0x301]); (0xDB, [0x55; 0x302]);
   (0xDC, [0x55; 0x308]); (0xDD, [0x59; 0x301]); (0xE0, [0x61; 0x300]); (0xE1, [0x61; 0x301]);
   (0xE2, [0x61; 0x302]); (0xE3, [0x61; 0x303]); (0xE4, [0x61; 0x308]); (0xE5, [0x61; 0x30A]);
   (0xE7, [0x63; 0x327]); (0xE8, [0x65; 0x300]); (0xE9, [0x65; 0x301]); (0xEA, [0x65; 0x302]);
   (0xEB, [0x65; 0x308]); (0xEC, [0x69; 0x300]); (0xED, [0x69; 0x301]); (0xEE, [0x69; 0x302]);
   (0xEF, [0x69; 0x308]); (0xF1, [0x6E; 0x303]); (0xF2, [0x6F; 0x300]); (0xF3, [0x6F; 0x301]);
   (0xF4, [0x6F; 0x302]); (0xF5, [0x6F; 0x303]); (0xF6, [0x6F; 0x308]); (0xF9, [0x75; 0x300]);
   (0xFA, [0x75; 0x301]); (0xFB, [0x75; 0x302]); (0xFC, [0x75; 0x308]); (0xFD, [0x79; 0x301]);
   (0xFF, [0x79; 0x308])].

Definition nfkd_char (c : ascii) : list Z :=
  match find (λ p, p.1 =? code c) nfkd_table with Some (_, l) => l | None => [code c] end.

(** UTF-8 of a code point of the basic plane. *)
Definition utf8_point (n : Z) : bytes :=
  if n <? 0x80 then [n]
  else if n <? 0x800 then [0xc0 + n / 64; 0x80 + n mod 64]
  else [0xe0 + n / 4096; 0x80 + n / 64 mod 64; 0x80 + n mod 64].

Definition encode_nfkd (s : string) : bytes := mjoin (map utf8_point (mjoin (map nfkd_char (chars s)))).

(** ** The functions of the file *)

Definition N : Z := 0xfffffffffffffffffffffffffffffffebaaedce6af48a03bbfd25e8cd0364141.
Definition HARDENED : Z := 0x80000000.
Definition WHIPPET_KEY_PATH : string := "m/0'/3'/0'".
Definition WHIPPET_KEY_INDICES : list Number := [Int 0; Int 3; Int 0].

Definition mnemonicToSeed (g : option subtle) (mnemonic passphrase : string) : res bytes :=
  s ← subtle_ g;
  Ok (pbkdf2_sha512 s (encode_nfkd mnemonic) (encode_nfkd ("mnemonic" +:+ passphrase)) 2048 64).

Definition hmacSha512 (g : option subtle) (keyBytes data : bytes) : res bytes :=
  s ← subtle_ g; Ok (hmac_sha512 s keyBytes data).

Definition bytesToBigInt (b : bytes) : Z := fold_left (λ n byte, Z.lor (Z.shiftl n 8) byte) b 0.

(** The loop runs [i] from 31 down to 0. *)
Definition bigIntTo32Bytes (n : Z) : bytes :=
  (fold_left (λ '(out, n) i, (<[i := Z.land n 0xff]> out, Z.shiftr n 8)) (reverse (seq 0 32)) (u8zeros 32, n)).1.

Record node := Node { key : bytes; chainCode : bytes }.

Definition masterKeyFromSeed (g : option subtle) (seed : bytes) : res node :=
  I ← hmacSha512 g (utf8 "Bitcoin seed") seed;
  let key := slice I 0 32 in
  let k := bytesToBigInt key in
  _ ← throw_if ((k =? 0) || (N <=? k)) "invalid seed: master key out of range";
  Ok (Node key (slice I 32 64)).

(** The thirty-seven bytes that are hashed; [data.set] refuses a key that does
    not fit. *)
Definition child_data (key : bytes) (i : Z) : res bytes :=
  let data := u8zeros (1 + 32 + 4) in
  let data := set_at data 0 [0x00] in
  _ ← throw_if (length data <? 1 + length key)%nat "offset is out of bounds";
  let data := set_at data 1 key in
  let data := set_at data 33 [js_and (js_ushr i 24) 0xff] in
  let data := set_at data 34 [js_and (js_ushr i 16) 0xff] in
  let data := set_at data 35 [js_and (js_ushr i 8) 0xff] in
  let data := set_at data 36 [js_and i 0xff] in
  Ok data.

Definition deriveHardened (g : option subtle) (parent : node) (index : Number) : res node :=
  _ ← throw_if (negb (isInteger index) || (index <? Int 0)%num || (index >=? Int HARDENED)%num)
        ("hardened index out of range: " +:+ num_str index);
  index ← to_bigint index;
  let i := js_ushr (index + HARDENED) 0 in
  data ← child_data (key parent) i;
  I ← hmacSha512 g (chainCode parent) data;
  let IL := bytesToBigInt (slice I 0 32) in
  _ ← throw_if (N <=? IL) "derived scalar out of range; use the next index";
  let childKey := (IL + bytesToBigInt (key parent)) mod N in
  _ ← throw_if (childKey =? 0) "derived key is zero; use the next index";
  Ok (Node (bigIntTo32Bytes childKey) (slice I 32 64)).

Definition derivePath (g : option subtle) (seed : bytes) (indices : list Number) : res node :=
  node ← masterKeyFromSeed g seed;
  foldR (deriveHardened g) node indices.

Definition mnemonicToPrivateKey (g : option subtle) (mnemonic passphrase : string) : res bytes :=
  seed ← mnemonicToSeed g mnemonic passphrase;
  node ← derivePath g seed WHIPPET_KEY_INDICES;
  Ok (key node).

(** ** The BIP

    BIP32, for private parent to private child with hardened indices: an
    extended key is a number and a chain code, and a step is undefined where
    the BIP calls the key invalid. *)
Module BIP32.
Section bip.
Context (HMAC_SHA512 : bytes → bytes → bytes).

Definition n : Z := 2 ^ 256 - 432420386565659656852420866394968145599.
Definition ser32 (i : Z) : bytes := be_bytes 4 i.
Definition ser256 (p : Z) : bytes := be_bytes 32 p.
Definition parse256 (p : bytes) : Z := be_num p.

Definition master (S : bytes) : option (Z * bytes) :=
  let I := HMAC_SHA512 [66; 105; 116; 99; 111; 105; 110; 32; 115; 101; 101; 100] S in
  let k := parse256 (take 32 I) in
  if (1 <=? k) && (k <? n) then Some (k, drop 32 I) else None.

Definition CKDpriv (kpar : Z * bytes) (i : Z) : option (Z * bytes) :=
  let I := HMAC_SHA512 kpar.2 ([0x00] ++ ser256 kpar.1 ++ ser32 i) in
  let k := (parse256 (take 32 I) + kpar.1) mod n in
  if (parse256 (take 32 I) <? n) && negb (k =? 0) then Some (k, drop 32 I) else None.

(** [m/i1'/i2'/...]. *)
Definition hardened_path (S : bytes) (path : list Z) : option (Z * bytes) :=
  foldl (λ k i, k ≫= λ k, CKDpriv k (2 ^ 31 + i)) (master S) path.
End bip.
End BIP32.

(** ** Bytes and numbers *)

Lemma bytesToBigInt_be b : is_bytes b → bytesToBigInt b = be_num b.
Proof.
  unfold bytesToBigInt. induction b as [|x b IH] using rev_ind; [done|]. intros H. apply is_bytes_app in H as [Hb Hx].
  apply is_bytes_cons in Hx as [Hx _]. rewrite fold_left_app. cbn [fold_left]. rewrite IH, be_num_snoc by done.
  apply be_step; [|done]. by apply be_num_range.
Qed.

(** The bytes from [i - 1] down are still zero, and those from [i] up are the
    low bytes. *)
Lemma to_bytes_loop k n post :
  (fold_left (λ '(out, n) i, (<[i := Z.land n 0xff]> out, Z.shiftr n 8)) (reverse (seq 0 k))
     (u8zeros k ++ post, n)).1 = be_bytes k n ++ post.
Proof.
  revert n post. induction k as [|k IH]; intros n post; [done|].
  rewrite seq_S, reverse_app. cbn [reverse rev_append app fold_left plus]. unfold u8zeros.
  replace (S k) with (k + 1)%nat at 1 by lia. rewrite replicate_add, <-app_assoc. cbn [replicate app].
  rewrite insert_app_r_alt by (rewrite length_replicate; lia). rewrite length_replicate, Nat.sub_diag. cbn.
  change (replicate k 0) with (u8zeros k).
  change (rev_append ?l [?b]) with (reverse (b :: l)). rewrite IH, reverse_cons, <-app_assoc. cbn [app].
  rewrite Z.shiftr_div_pow2 by lia. change 255 with (Z.ones 8). by rewrite Z.land_ones by lia.
Qed.

Lemma bigIntTo32Bytes_be n : bigIntTo32Bytes n = be_bytes 32 n.
Proof. unfold bigIntTo32Bytes. rewrite <-(app_nil_r (u8zeros 32)), to_bytes_loop. apply app_nil_r. Qed.

Lemma index_bytes i :
  0 ≤ i < 2 ^ 32 →
  [js_and (js_ushr i 24) 0xff; js_and (js_ushr i 16) 0xff; js_and (js_ushr i 8) 0xff; js_and i 0xff] = be_bytes 4 i.
Proof.
  intros Hi. assert (∀ k, 0 ≤ k < 32 → js_and (js_ushr i k) 0xff = i / 2 ^ k mod 256) as E.
  { intros k Hk. rewrite and_byte. unfold js_ushr, to_uint32. rewrite (Z.mod_small i), (Z.mod_small k) by lia.
    by rewrite Z.shiftr_div_pow2 by lia. }
  rewrite !E, and_byte by lia. unfold be_bytes. cbn. by rewrite !Z.div_div by lia.
Qed.

Lemma child_data_bytes k i :
  length k = 32%nat → 0 ≤ i < 2 ^ 32 → child_data k i = Ok (0x00 :: k ++ be_bytes 4 i).
Proof.
  intros Hk Hi. rewrite <-(index_bytes i Hi). unfold child_data.
  change (set_at (u8zeros (1 + 32 + 4)) 0 [0x00]) with ([0x00] ++ u8zeros 32 ++ [0; 0; 0; 0]).
  rewrite Hk. change ((_ <? _)%nat) with false. cbn [throw_if mbind res_bind].
  change (set_at ?l 1 k) with (set_at l (length [0x00]) k).
  rewrite (set_at_app [0x00] (u8zeros 32) [0; 0; 0; 0] k) by (symmetry; exact Hk). cbn [app].
  change (0 :: k ++ ?x) with ((0 :: k) ++ x). generalize (js_and (js_ushr i 24) 255) (js_and (js_ushr i 16) 255)
    (js_and (js_ushr i 8) 255) (js_and i 255). intros b0 b1 b2 b3. f_equal.
  assert (length (0 :: k) = 33%nat) as Hp by (simpl; lia). revert Hp. generalize (0 :: k) as p. intros p Hp.
  do 33 (destruct p as [|? p]; [done|]). by destruct p.
Qed.

(** ** Refinement *)

(** What a node of the code stands for: its key is the number in thirty-two
    bytes, and a valid one. *)
Definition represents (m : node) (x : Z * bytes) : Prop :=
  key m = be_bytes 32 x.1 ∧ chainCode m = x.2 ∧ 1 ≤ x.1 < N_.

Definition refines (r : res node) (o : option (Z * bytes)) : Prop :=
  match r, o with
  | Ok m, Some x => represents m x
  | Throw _, None => True
  | _, _ => False
  end.

Section refinement.
Context (s : subtle) `{!SubtleLaws s}.

Lemma halves k d :
  slice (hmac_sha512 s k d) 0 32 = take 32 (hmac_sha512 s k d)
  ∧ slice (hmac_sha512 s k d) 32 64 = drop 32 (hmac_sha512 s k d)
  ∧ is_bytes (take 32 (hmac_sha512 s k d)) ∧ length (take 32 (hmac_sha512 s k d)) = 32%nat.
Proof.
  pose proof (length_hmac_sha512 k d) as Hl. split_and!.
  - done.
  - unfold slice. apply take_ge. rewrite length_drop, Hl. done.
  - apply is_bytes_take, hmac_sha512_bytes.
  - rewrite length_take, Hl. done.
Qed.

Lemma master_refines seed : refines (masterKeyFromSeed (Some s) seed) (BIP32.master (hmac_sha512 s) seed).
Proof.
  unfold masterKeyFromSeed, BIP32.master. cbn [hmacSha512 subtle_ mbind res_bind].
  change (utf8 "Bitcoin seed") with [66; 105; 116; 99; 111; 105; 110; 32; 115; 101; 101; 100].
  generalize [66; 105; 116; 99; 111; 105; 110; 32; 115; 101; 101; 100] as tag. intros tag.
  destruct (halves tag seed) as (-> & -> & Hb & Hl). rewrite bytesToBigInt_be by done. unfold BIP32.parse256.
  pose proof (be_num_range _ Hb) as Hr. change BIP32.n with N_. change N with N_.
  destruct (Z.eqb_spec (be_num (take 32 (hmac_sha512 s tag seed))) 0), (Z.leb_spec 1 (be_num (take 32 (hmac_sha512 s tag seed)))),
    (Z.leb_spec N_ (be_num (take 32 (hmac_sha512 s tag seed)))), (Z.ltb_spec (be_num (take 32 (hmac_sha512 s tag seed))) N_);
    cbn; try lia.
  split_and!; cbn [key chainCode fst snd]; [|done|lia..].
  pose proof (be_bytes_be_num _ Hb) as E. rewrite Hl in E. by rewrite E.
Qed.

Lemma child_refines m x i :
  represents m x → 0 ≤ i < 2 ^ 31 →
  refines (deriveHardened (Some s) m (Int i)) (BIP32.CKDpriv (hmac_sha512 s) x (2 ^ 31 + i)).
Proof.
  intros (Hk & Hc & Hx) Hi. unfold deriveHardened, BIP32.CKDpriv.
  assert (negb (isInteger (Int i)) || (Int i <? Int 0)%num || (Int i >=? Int HARDENED)%num = false) as ->.
  { cbn [isInteger Z.eqb negb orb]. rewrite int_ltb, int_leb. unfold HARDENED.
    apply orb_false_iff. split; [apply Z.ltb_ge|apply Z.leb_gt]; lia. }
  cbn [throw_if to_bigint mbind res_bind].
  assert (js_ushr (i + HARDENED) 0 = 2 ^ 31 + i) as ->.
  { unfold js_ushr, to_uint32, HARDENED. rewrite Z.mod_small, Z.shiftr_0_r by lia. lia. }
  rewrite child_data_bytes, Hk, Hc; [|rewrite Hk; apply length_be_bytes|lia]. cbn [mbind res_bind hmacSha512 subtle_].
  unfold BIP32.ser256, BIP32.ser32, BIP32.parse256. cbn [app].
  generalize (0 :: be_bytes 32 x.1 ++ be_bytes 4 (2 ^ 31 + i)) as d. intros d.
  destruct (halves x.2 d) as (-> & -> & Hb & Hl). rewrite !bytesToBigInt_be by auto with bytes.
  rewrite be_num_be_bytes, (Z.mod_small x.1) by (pose proof N_lt; lia).
  change BIP32.n with N_. change N with N_. rewrite Z.leb_antisym.
  destruct (_ <? N_); cbn [negb andb throw_if mbind res_bind]; [|done].
  pose proof (Z.mod_pos_bound (be_num (take 32 (hmac_sha512 s x.2 d)) + x.1) N_ N_pos).
  destruct (Z.eqb_spec ((be_num (take 32 (hmac_sha512 s x.2 d)) + x.1) mod N_) 0); cbn [negb throw_if mbind res_bind]; [done|].
  split_and!; cbn [key chainCode fst snd]; [apply bigIntTo32Bytes_be|done|lia..].
Qed.

Lemma path_refines seed path :
  Forall (λ i, 0 ≤ i < 2 ^ 31) path →
  refines (derivePath (Some s) seed (map (λ i, Int i) path)) (BIP32.hardened_path (hmac_sha512 s) seed path).
Proof.
  intros Hp. unfold derivePath, BIP32.hardened_path. pose proof (master_refines seed) as H.
  destruct (masterKeyFromSeed _ _) as [m|e]; [|destruct (BIP32.master _ _); [done|]];
    cbn [mbind res_bind].
  2:{ clear Hp H. by induction path. }
  revert m H. generalize (BIP32.master (hmac_sha512 s) seed) as o. induction Hp as [|i path Hi Hp IH]; intros o m H; [done|].
  destruct o as [x|]; [|done]. cbn [map foldR foldl mbind option_bind]. pose proof (child_refines m x i H Hi) as Hc.
  destruct (deriveHardened _ m (Int i)) as [m'|e]; cbn [mbind res_bind]; [by apply IH|].
  destruct (BIP32.CKDpriv _ x _); [done|]. clear. by induction path.
Qed.
End refinement.

(** C22 A mnemonic's private key is the one the standards name: the seed is
    PBKDF2-HMAC-SHA512 of the phrase under the salt [mnemonic] and the
    passphrase, and the key is the thirty-two big-endian bytes of the number BIP32 puts at
    m/0'/3'/0'.  The code fails exactly where the BIP leaves that key undefined,
    and the key it returns is one the signing library accepts, as that number. *)
Theorem mnemonicToPrivateKey_bip32 (s : subtle) `{!SubtleLaws s} mnemonic passphrase :
  let seed := pbkdf2_sha512 s (encode_nfkd mnemonic) (encode_nfkd ("mnemonic" +:+ passphrase)) 2048 64 in
  match mnemonicToPrivateKey (Some s) mnemonic passphrase, BIP32.hardened_path (hmac_sha512 s) seed [0; 3; 0] with
  | Ok k, Some x => k = be_bytes 32 x.1 ∧ 1 ≤ x.1 < N_ ∧ toPrivScalar (PrivU8 (inr k)) = Ok x.1
  | Throw _, None => True
  | _, _ => False
  end.
Proof.
  intros seed. unfold mnemonicToPrivateKey, mnemonicToSeed. cbn [subtle_ mbind res_bind]. fold seed.
  pose proof (path_refines s seed [0; 3; 0]) as H. change WHIPPET_KEY_INDICES with (map (λ i, Int i) [0; 3; 0]).
  destruct (derivePath _ _ _) as [m|e], (BIP32.hardened_path _ _ _) as [x|]; try (apply H; repeat constructor; lia).
  destruct H as (Hk & _ & Hx); [repeat constructor; lia|]. cbn [mbind res_bind]. rewrite Hk. split_and!; [done|lia..|].
  rewrite toPrivScalar_bytes; [|auto with bytes|apply length_be_bytes|].
  all: rewrite be_num_be_bytes, Z.mod_small by (pose proof N_lt; lia). all: done.
Qed.

(** ** A platform for the witnesses

    Keyed functions with the laws, and nothing secret about them. *)
Definition sample_tag (k : bytes) : bytes := u8of (take 16 (k ++ replicate 16 0)).
Definition sample_subtle : subtle :=
  Subtle
    (λ k d, u8of (take 64 (d ++ k ++ replicate 64 7)))
    (λ password salt _ n, take n (password ++ salt ++ replicate n 0))
    (λ password salt _ n, take n (password ++ salt ++ replicate n 0))
    (λ k _ d, u8of d ++ sample_tag k)
    (λ k _ d, let n := (length d - 16)%nat in if bool_decide (drop n d = sample_tag k) then Some (take n d) else None).

#[export] Instance sample_subtle_laws : SubtleLaws sample_subtle.
Proof.
  assert (∀ k, length (sample_tag k) = 16%nat) as Ht.
  { intros k. unfold sample_tag, u8of. rewrite length_map, length_take, length_app, length_replicate. lia. }
  split; intros; cbn -[sample_tag replicate take].
  - apply u8of_bytes.
  - unfold u8of. rewrite length_map, length_take, !length_app, length_replicate. lia.
  - apply is_bytes_app. split; apply u8of_bytes.
  - unfold u8of. by rewrite length_app, length_map, Ht.
  - rewrite u8of_small by done. rewrite length_app, Ht, Nat.add_sub, drop_app_length, take_app_length.
    by rewrite bool_decide_true.
Qed.

Lemma mnemonicToPrivateKey_bip32_witness :
  ∃ k x, mnemonicToPrivateKey (Some sample_subtle) "legal winner" EmptyString = Ok k
    ∧ BIP32.hardened_path (hmac_sha512 sample_subtle) (utf8 "legal winnermnemonic" ++ replicate 44 0) [0; 3; 0] = Some x
    ∧ toPrivScalar (PrivU8 (inr k)) = Ok x.1.
Proof.
  pose proof (mnemonicToPrivateKey_bip32 sample_subtle "legal winner" EmptyString) as H.
  assert (is_ok (mnemonicToPrivateKey (Some sample_subtle) "legal winner" EmptyString) = true) as Hok by by vm_compute.
  cbv zeta in H.
  replace (pbkdf2_sha512 _ _ _ _ _) with (utf8 "legal winnermnemonic" ++ replicate 44 0) in H by by vm_compute.
  revert H Hok. generalize (mnemonicToPrivateKey (Some sample_subtle) "legal winner" EmptyString).
  generalize (BIP32.hardened_path (hmac_sha512 sample_subtle) (utf8 "legal winnermnemonic" ++ replicate 44 0) [0; 3; 0]).
  intros [x|] [k|e] H Hok; try done. exists k, x. split_and!; [done..|]. apply H.
Defined.
