(* ===== verification/Wallet.v ===== *)
(** * Wallet: [contrib/uap-web/wallet.js], and the sign-in screens of [app.js]

    The class [Wallet] as a state machine: its fields are a record, its methods
    run in [io] over the object, the storage it was given and the count of
    random draws, and a method that throws leaves what it had already written.
    WebCrypto is [subtle] of [Bip32]; the page's own ([g]) derives keys, and the
    one of the options encrypts.  [getRandomValues] is the parameter [random]: the
    bytes of a draw, by its number and length.  [TextDecoder.decode] is the
    parameter [decode].  The handlers of [app.js] that create, restore, unlock,
    lock and sign out act on a session: the wallet, the screen and the storage.

    The theorems: locking and unlocking gives back the same keys, from the same
    object or from a new one; an unlock that succeeds never shows an address its
    key does not have; and no reachable screen of an open wallet is without its
    key. *)

From stdpp Require Import base tactics option list numbers strings relations.
From Stdlib Require Import ZArith Lia Ascii.
From S2P Require Import Prelude JsInt JsStr JsNum JsVal Effects Words Sha256 Addr Script Tx Payments.
From S2P Require Import NobleField NoblePoint NobleSign Wordlist Mnemonic Bip32.

Definition PBKDF2_ITERATIONS : Z := 600000.
Definition AES_KEY_LENGTH : nat := 32.
Definition GCM_TAG_LENGTH : nat := 16.
Definition GCM_NONCE_LENGTH : nat := 12.

(** ** The derivation before the BIP39 fix *)

(** [block[j] ^= u[j]], and the inner loop of [iterations - 1] rounds. *)
Definition xor_into (block u : bytes) : bytes := zip_with (λ b x, u8 (js_xor b x)) block u.
Definition pbkdf2_rounds (password : bytes) (n : nat) (u block : bytes) : bytes * bytes :=
  Nat.iter n (λ '(u, block), let u := hmacSha256 password [u] in (u, xor_into block u)) (u, block).

Definition pbkdf2_block (password salt : bytes) (iterations blockIndex : nat) : bytes :=
  let counter := be_bytes 4 (Z.of_nat blockIndex) in
  let u := hmacSha256 password [salt; counter] in
  (pbkdf2_rounds password (iterations - 1) u u).2.

(** A block goes into the result after the ones before it, the last one cut. *)
Definition pbkdf2_store (password salt : bytes) (iterations keyLength : nat) (result : bytes) (blockIndex : nat) : bytes :=
  let block := pbkdf2_block password salt iterations blockIndex in
  let copyLength := Nat.min 32 (keyLength - (blockIndex - 1) * 32) in
  set_at result ((blockIndex - 1) * 32) (take copyLength block).

Definition pbkdf2Sync (password salt : bytes) (iterations keyLength : nat) : bytes :=
  let numBlocks := Z.to_nat (cdiv (Z.of_nat keyLength) 32) in
  fold_left (pbkdf2_store password salt iterations keyLength) (seq 1 numBlocks) (u8zeros keyLength).

Definition legacyMnemonicToSeed (mnemonic passphrase : string) : bytes :=
  pbkdf2Sync (utf8 mnemonic) (utf8 ("mnemonic" +:+ passphrase)) 2048 64.

Definition legacySeedToPrivateKey (seed : bytes) : bytes := slice seed 0 32.

(** ** Addresses and hexadecimal *)

Definition getPublicKeyFromPrivateKey (secp : secp) (privKey : bytes) : res bytes :=
  Tx.getPublicKey secp privKey true.

Definition deriveAddressFromPrivKey (secp : secp) (privKey : bytes) (network : string) : res string :=
  pubKey ← getPublicKeyFromPrivateKey secp privKey;
  match find (λ v, str_eqb v.1 network) VERSIONS with
  | Some (_, v) =>
      _ ← throw_if (PUBKEY_ADDRESS v =? 0) ("Unknown network: " +:+ network);
      Ok (pubkeyToAddress pubKey (PUBKEY_ADDRESS v))
  | None => Throw ("Unknown network: " +:+ network)
  end.

Definition bytesToHex (bs : bytes) : string :=
  join EmptyString (map (λ b, padStart (byte_toString16 b) 2 "0"%char) bs).

(** [hex.substr(i, 2)] at every second [i]: the last piece of an odd string is
    one digit, and a piece that is not a number is stored as zero. *)
Fixpoint hex_pieces (l : list ascii) : bytes :=
  match l with
  | c1 :: c2 :: l => u8 (default 0 (parseInt16 [c1; c2])) :: hex_pieces l
  | [c] => [u8 (default 0 (parseInt16 [c]))]
  | [] => []
  end.
Definition hexToBytes (hex : string) : bytes := hex_pieces (chars hex).

(** ** Encryption at rest *)

Record encrypted_key := Encrypted {
  e_algo : string;
  e_iterations : option Z;
  e_salt : string;
  e_nonce : string;
  e_ciphertext : string;
  e_tag : string
}.

(** The key [deriveBits] gives. *)
Definition storage_key (s : subtle) (passphrase : string) (salt : bytes) (iterations : Z) : bytes :=
  pbkdf2_sha256 s (utf8 passphrase) salt iterations AES_KEY_LENGTH.

Definition encryptPrivateKey (s : subtle) (salt nonce privKey : bytes) (passphrase : string) : encrypted_key :=
  let encryptionKey := storage_key s passphrase salt PBKDF2_ITERATIONS in
  let encryptedArray := gcm_encrypt s encryptionKey nonce privKey in
  let ciphertext := slice encryptedArray 0 (zlen privKey) in
  let tag := slice encryptedArray (zlen privKey) (zlen encryptedArray) in
  Encrypted "pbkdf2-aes-gcm" (Some PBKDF2_ITERATIONS) (bytesToHex salt) (bytesToHex nonce)
    (bytesToHex ciphertext) (bytesToHex tag).

(** [encryptedData.iterations || PBKDF2_ITERATIONS]. *)
Definition iterations_or_default (n : option Z) : Z :=
  match n with Some n => if n =? 0 then PBKDF2_ITERATIONS else n | None => PBKDF2_ITERATIONS end.

Definition decryptPrivateKey (s : subtle) (encryptedData : encrypted_key) (passphrase : string) : res (option bytes) :=
  _ ← throw_if (negb (str_eqb (e_algo encryptedData) "pbkdf2-aes-gcm")) "invalid encrypted data format";
  let salt := hexToBytes (e_salt encryptedData) in
  let nonce := hexToBytes (e_nonce encryptedData) in
  let ciphertext := hexToBytes (e_ciphertext encryptedData) in
  let tag := hexToBytes (e_tag encryptedData) in
  let decryptionKey := storage_key s passphrase salt (iterations_or_default (e_iterations encryptedData)) in
  Ok (gcm_decrypt s decryptionKey nonce (ciphertext ++ tag)).

(** ** The class *)

(** The object under the key [wallet]. *)
Record stored_wallet := Stored {
  s_version : Z;
  s_encrypted : option encrypted_key;
  s_iterations : Z;
  s_address : option string;
  s_network : option string
}.

Record wallet := Wallet {
  network : string;
  cryptoSubtle : subtle;
  _privKey : option bytes;
  _address : option string;
  _mnemonic : option string;
  _locked : bool;
  _needsDerivation : bool;
  _derivationPath : option string;
  usesLegacyDerivation : bool
}.

(** Assignments to the fields. *)
Definition set_keys (w : wallet) (privKey : option bytes) (address mnemonic : option string) : wallet :=
  Wallet (network w) (cryptoSubtle w) privKey address mnemonic (_locked w) (_needsDerivation w)
    (_derivationPath w) (usesLegacyDerivation w).
Definition set_privKey (w : wallet) (k : option bytes) : wallet := set_keys w k (_address w) (_mnemonic w).
Definition set_address (w : wallet) (a : option string) : wallet := set_keys w (_privKey w) a (_mnemonic w).
Definition set_mnemonic (w : wallet) (m : option string) : wallet := set_keys w (_privKey w) (_address w) m.
Definition set_locked (w : wallet) (b : bool) : wallet :=
  Wallet (network w) (cryptoSubtle w) (_privKey w) (_address w) (_mnemonic w) b (_needsDerivation w)
    (_derivationPath w) (usesLegacyDerivation w).
Definition set_network (w : wallet) (n : string) : wallet :=
  Wallet n (cryptoSubtle w) (_privKey w) (_address w) (_mnemonic w) (_locked w) (_needsDerivation w)
    (_derivationPath w) (usesLegacyDerivation w).
Definition set_needsDerivation (w : wallet) (b : bool) : wallet :=
  Wallet (network w) (cryptoSubtle w) (_privKey w) (_address w) (_mnemonic w) (_locked w) b
    (_derivationPath w) (usesLegacyDerivation w).
Definition set_path (w : wallet) (p : string) : wallet :=
  Wallet (network w) (cryptoSubtle w) (_privKey w) (_address w) (_mnemonic w) (_locked w) (_needsDerivation w)
    (Some p) (usesLegacyDerivation w).
Definition set_legacy (w : wallet) (b : bool) : wallet :=
  Wallet (network w) (cryptoSubtle w) (_privKey w) (_address w) (_mnemonic w) (_locked w) (_needsDerivation w)
    (_derivationPath w) b.

(** The object a method runs on, the storage, and the random draws so far. *)
Record state := State {
  this : wallet;
  storage : option stored_wallet;
  draws : nat
}.

Definition get : io state wallet := λ st, (st, Ok (this st)).
Definition modify (f : wallet → wallet) : io state () := λ st, (State (f (this st)) (storage st) (draws st), Ok tt).
Definition storage_get : io state (option stored_wallet) := λ st, (st, Ok (storage st)).
Definition storage_set (v : stored_wallet) : io state () := λ st, (State (this st) (Some v) (draws st), Ok tt).

(** A string in a condition, and [s || t]. *)
Definition str_truthy (s : option string) : bool :=
  match s with Some s => negb (str_eqb s EmptyString) | None => false end.
Definition str_or (s : option string) (t : string) : string :=
  if str_truthy s then default EmptyString s else t.

(** The options of the constructor.  [cryptoSubtle] is absent, or present with
    whatever it holds. *)
Record options := Options {
  o_restore : bool;
  o_mnemonic : option string;
  o_network : string;
  o_mnemonicLength : Z;
  o_cryptoSubtle : option (option subtle)
}.

Section wallet.
Context (secp : secp) (g : option subtle) (random : nat → nat → bytes) (decode : bytes → string).

Definition getRandomValues (n : nat) : io state bytes := λ st,
  (State (this st) (storage st) (S (draws st)), Ok (random (draws st) n)).

(** [new Wallet(options)], on the storage it is given; it returns the object
    and the number of draws. *)
Definition Wallet_new (opts : options) (storage : option stored_wallet) (draws : nat) : res (wallet * nat) :=
  let s := match o_cryptoSubtle opts with Some s => s | None => g end in
  s ← match s with Some s => Ok s | None => Throw unavailable end;
  let w := Wallet (o_network opts) s None None None false false None false in
  if o_restore opts then
    match storage with
    | None => Throw "No wallet found in storage"
    | Some stored =>
        match s_encrypted stored with
        | None => Throw "Stored wallet has no encrypted key material"
        | Some _ =>
            let w := set_address w (if str_truthy (s_address stored) then s_address stored else None) in
            let w := set_network w (str_or (s_network stored) (o_network opts)) in
            Ok (set_locked w true, draws)
        end
    end
  else if str_truthy (o_mnemonic opts) then
    let mnemonic := default EmptyString (o_mnemonic opts) in
    _ ← mnemonicToEntropy mnemonic;
    Ok (set_needsDerivation (set_mnemonic w (Some mnemonic)) true, draws)
  else
    let entropyLength := if o_mnemonicLength opts =? 24 then 32%nat else 16%nat in
    let w := set_mnemonic w (Some (entropyToMnemonic (random draws entropyLength))) in
    Ok (set_needsDerivation w true, S draws).

(** [this._mnemonic] as text. *)
Definition phrase (w : wallet) : string := default "null" (_mnemonic w).

(** [await mnemonicToPrivateKey(this._mnemonic)], which fails on [null] as it
    normalises the phrase. *)
Definition phrase_key (w : wallet) : res bytes :=
  match _mnemonic w with
  | Some m => mnemonicToPrivateKey g m EmptyString
  | None => _ ← subtle_ g; Throw "Cannot read properties of null (reading 'normalize')"
  end.

Definition deriveFromMnemonic : io state () :=
  w ← get;
  k ← lift (phrase_key w);
  _ ← modify (λ w, set_privKey w (Some k));
  a ← lift (deriveAddressFromPrivKey secp k (network w));
  _ ← modify (λ w, set_address w (Some a));
  modify (λ w, set_path w WHIPPET_KEY_PATH).

Definition deriveLegacyFromMnemonic : io state () :=
  w ← get;
  let seed := legacyMnemonicToSeed (phrase w) EmptyString in
  let k := legacySeedToPrivateKey seed in
  _ ← modify (λ w, set_privKey w (Some k));
  a ← lift (deriveAddressFromPrivKey secp k (network w));
  _ ← modify (λ w, set_address w (Some a));
  modify (λ w, set_path w "legacy (pre-BIP39-fix)").

Definition init : io state () :=
  w ← get;
  if _needsDerivation w then
    _ ← deriveFromMnemonic;
    modify (λ w, set_needsDerivation w false)
  else mret tt.

Definition persisted (st : state) : bool :=
  match storage st with Some s => bool_decide (is_Some (s_encrypted s)) | None => false end.

Definition lock (passphrase : string) : io state () :=
  w ← get;
  _ ← lift (throw_if (negb (str_truthy (_mnemonic w))) "No mnemonic available to lock");
  _ ← lift (throw_if (negb (str_truthy (Some passphrase))) "A passphrase is required to lock the wallet");
  salt ← getRandomValues 16;
  nonce ← getRandomValues GCM_NONCE_LENGTH;
  let encrypted := encryptPrivateKey (cryptoSubtle w) salt nonce (utf8 (phrase w)) passphrase in
  _ ← storage_set (Stored 2 (Some encrypted) PBKDF2_ITERATIONS (_address w) (Some (network w)));
  modify (λ w, set_locked (set_mnemonic (set_privKey w None) None) true).

(** The stored address against the derived one. *)
Definition check_stored_address (stored : stored_wallet) : io state () :=
  w ← get;
  if str_truthy (s_address stored) && negb (bool_decide (s_address stored = _address w)) then
    _ ← deriveLegacyFromMnemonic;
    w ← get;
    if bool_decide (s_address stored = _address w) then modify (λ w, set_legacy w true)
    else
      _ ← modify (λ w, set_mnemonic (set_privKey w None) None);
      lift (Throw "Stored address does not match the decrypted key; storage may be corrupt")
  else mret tt.

Definition unlock_with (stored : stored_wallet) (plaintext : bytes) : io state bool :=
  let mnemonic := decode plaintext in
  _ ← lift (mnemonicToEntropy mnemonic);
  _ ← modify (λ w, set_network w (str_or (s_network stored) (network w)));
  _ ← modify (λ w, set_mnemonic w (Some mnemonic));
  _ ← deriveFromMnemonic;
  _ ← modify (λ w, set_legacy w false);
  _ ← check_stored_address stored;
  _ ← modify (λ w, set_locked w false);
  mret true.

Definition unlock (passphrase : string) : io state bool :=
  stored ← storage_get;
  match stored with
  | Some stored =>
      match s_encrypted stored with
      | Some encrypted =>
          w ← get;
          plaintext ← lift (decryptPrivateKey (cryptoSubtle w) encrypted passphrase);
          match plaintext with
          | None => mret false
          | Some plaintext => unlock_with stored plaintext
          end
      | None => lift (Throw "No encrypted wallet in storage")
      end
  | None => lift (Throw "No encrypted wallet in storage")
  end.

(** [Wallet.create(opts)]. *)
Definition create (opts : options) (storage : option stored_wallet) (draws : nat) : res (wallet * nat) :=
  '(w, n) ← Wallet_new opts storage draws;
  match init (State w storage n) with
  | (st, Ok _) => Ok (this st, n)
  | (_, Throw e) => Throw e
  end.

(** ** The sign-in screens of [app.js] *)

Definition default_options : options := Options false None "mainnet" 12 None.

(** The five values of [currentScreen] before and at the wallet screen. *)
Inductive screen := S_init | S_create | S_restore | S_unlock | S_wallet.

(** The module's [wallet], [currentScreen] and [storage], the random draws and
    the text of the screen's error element. *)
Record session := Session {
  app_wallet : option wallet;
  currentScreen : screen;
  app_storage : option stored_wallet;
  app_draws : nat;
  app_error : option string
}.

(** The session a method call leaves: on success the screen that follows,
    otherwise the same screen with the error shown. *)
Definition after_call {A} (sess : session) (r : state * res A) (next : A → screen * option string) : session :=
  match r with
  | (st, Ok a) => let '(scr, e) := next a in Session (Some (this st)) scr (storage st) (draws st) e
  | (st, Throw e) => Session (Some (this st)) (currentScreen sess) (storage st) (draws st) (Some e)
  end.

Definition show_error (sess : session) (e : string) : session :=
  Session (app_wallet sess) (currentScreen sess) (app_storage sess) (app_draws sess) (Some e).

(** A rejection here is not caught: nothing was assigned. *)
Definition createNewWallet (sess : session) : session :=
  match create default_options (app_storage sess) (app_draws sess) with
  | Ok (w, n) => Session (Some w) S_create (app_storage sess) n None
  | Throw _ => sess
  end.

Definition restoreWallet (sess : session) : session :=
  Session (app_wallet sess) S_restore (app_storage sess) (app_draws sess) None.

Definition goToInit (sess : session) : session :=
  Session None S_init (app_storage sess) (app_draws sess) None.

Definition null_wallet (member : string) : string :=
  "Cannot read properties of null (reading '" +:+ member +:+ "')".

Definition finishWalletSetup (passphrase : string) (sess : session) : session :=
  match app_wallet sess with
  | Some w => after_call sess (lock passphrase (State w (app_storage sess) (app_draws sess))) (λ _, (S_unlock, None))
  | None => show_error sess (null_wallet "lock")
  end.

Definition doRestore (value passphrase : string) (sess : session) : session :=
  let mnemonic := trim value in
  match create (Options false (Some mnemonic) "mainnet" 12 None) (app_storage sess) (app_draws sess) with
  | Ok (w, n) => after_call sess (lock passphrase (State w (app_storage sess) n)) (λ _, (S_unlock, None))
  | Throw e => show_error sess e
  end.

(** The wallet in hand, or one read from the storage. *)
Definition wallet_to_unlock (sess : session) : res wallet :=
  match app_wallet sess with
  | Some w => Ok w
  | None =>
      match app_storage sess with
      | None => Throw "No wallet in storage"
      | Some _ =>
          '(w, _) ← Wallet_new (Options true None "mainnet" 12 None) (app_storage sess) (app_draws sess);
          Ok w
      end
  end.

Definition doUnlock (passphrase : string) (sess : session) : session :=
  match wallet_to_unlock sess with
  | Ok w =>
      after_call sess (unlock passphrase (State w (app_storage sess) (app_draws sess)))
        (λ ok, if ok then (S_wallet, None) else (currentScreen sess, Some "Wrong passphrase"))
  | Throw e => show_error sess e
  end.

(** [lockWallet] writes two fields of the object; on [null] it rejects. *)
Definition lockWallet (sess : session) : session :=
  match app_wallet sess with
  | Some w =>
      Session (Some (set_locked (set_privKey w None) true)) S_unlock (app_storage sess) (app_draws sess) None
  | None => sess
  end.

(** The buttons each screen has. *)
Inductive app_step : session → session → Prop :=
| step_create sess : currentScreen sess = S_init → app_step sess (createNewWallet sess)
| step_to_restore sess : currentScreen sess = S_init → app_step sess (restoreWallet sess)
| step_finish p sess : currentScreen sess = S_create → app_step sess (finishWalletSetup p sess)
| step_restore v p sess : currentScreen sess = S_restore → app_step sess (doRestore v p sess)
| step_unlock p sess : currentScreen sess = S_unlock → app_step sess (doUnlock p sess)
| step_lock sess : currentScreen sess = S_wallet → app_step sess (lockWallet sess)
| step_cancel sess : currentScreen sess ≠ S_init → app_step sess (goToInit sess).

(** A session as the page is loaded. *)
Definition fresh_session : session := Session None S_init None 0 None.
End wallet.

(** ** PBKDF2

    RFC 8018, section 5.2, over a pseudo-random function [PRF]. *)
Module RFC8018.
Section pbkdf2.
Context (PRF : bytes → bytes → bytes) (hLen : nat).

Definition xor (x y : bytes) : bytes := zip_with Z.lxor x y.

(** [U_(j + 1)]. *)
Fixpoint U (P S : bytes) (i j : nat) : bytes :=
  match j with
  | O => PRF P (S ++ be_bytes 4 (Z.of_nat i))
  | Datatypes.S j => PRF P (U P S i j)
  end.

(** [U_1 \xor U_2 \xor ... \xor U_c]. *)
Definition F (P S : bytes) (c i : nat) : bytes :=
  fold_left xor (map (U P S i) (seq 1 (c - 1))) (U P S i 0).

Definition PBKDF2 (P S : bytes) (c dkLen : nat) : bytes :=
  let l := ((dkLen + hLen - 1) / hLen)%nat in
  take dkLen (mjoin (map (F P S c) (seq 1 l))).
End pbkdf2.
End RFC8018.

Lemma xor_into_bytes x y : is_bytes x → is_bytes y → xor_into x y = RFC8018.xor x y.
Proof.
  intros Hx. revert y. induction Hx as [|b x Hb Hx IH]; intros y Hy; [done|]. destruct Hy as [|c y Hc Hy]; [done|].
  cbn. rewrite Z.lxor_comm, xor_byte by done. f_equal. by apply IH.
Qed.

Section pbkdf2.
Context (password salt : bytes).
Hypothesis Hp : is_bytes password.
Hypothesis Hs : is_bytes salt.
Hypothesis Hpl : zlen password + 8 < 2 ^ 31.
Hypothesis Hsl : zlen salt + 76 < 2 ^ 31.

Lemma U_prf i j :
  RFC8018.U FIPS.hmac password salt i j
  = match j with O => hmacSha256 password [salt; be_bytes 4 (Z.of_nat i)]
    | S j => hmacSha256 password [RFC8018.U FIPS.hmac password salt i j] end
  ∧ is_bytes (RFC8018.U FIPS.hmac password salt i j) ∧ length (RFC8018.U FIPS.hmac password salt i j) = 32%nat.
Proof.
  induction j as [|j (_ & Hb & Hl)].
  - assert (hmacSha256 password [salt; be_bytes 4 (Z.of_nat i)] = RFC8018.U FIPS.hmac password salt i 0) as E.
    { rewrite hmacSha256_fips; cbn [mjoin list_join]; rewrite ?app_nil_r; [done|auto with bytes..|].
      rewrite length_app, length_be_bytes. lia. }
    rewrite <-E. split; [done|]. split; [apply hmacSha256_bytes|apply length_hmacSha256].
  - assert (hmacSha256 password [RFC8018.U FIPS.hmac password salt i j] = RFC8018.U FIPS.hmac password salt i (S j)) as E.
    { rewrite hmacSha256_fips; cbn [mjoin list_join]; rewrite ?app_nil_r; [done|auto with bytes..|rewrite Hl; lia]. }
    rewrite <-E. split; [done|]. split; [apply hmacSha256_bytes|apply length_hmacSha256].
Qed.

Lemma xor_bytes x y :
  is_bytes x → is_bytes y → length x = 32%nat → length y = 32%nat →
  is_bytes (RFC8018.xor x y) ∧ length (RFC8018.xor x y) = 32%nat.
Proof.
  intros Hx Hy Hlx Hly. split; [|unfold RFC8018.xor; rewrite length_zip_with; lia]. clear Hlx Hly.
  unfold RFC8018.xor. revert y Hy. induction Hx as [|b x [??] Hx IH]; intros y Hy; [constructor|].
  destruct Hy as [|c y [??] Hy]; [constructor|]. cbn. constructor; [|by apply IH]. apply (lxor_range b c 8); lia.
Qed.

(** The inner loop accumulates the exclusive or of the rounds. *)
Lemma rounds_F i n :
  pbkdf2_rounds password n (RFC8018.U FIPS.hmac password salt i 0) (RFC8018.U FIPS.hmac password salt i 0)
  = (RFC8018.U FIPS.hmac password salt i n, RFC8018.F FIPS.hmac password salt (S n) i)
  ∧ is_bytes (RFC8018.F FIPS.hmac password salt (S n) i) ∧ length (RFC8018.F FIPS.hmac password salt (S n) i) = 32%nat.
Proof.
  unfold RFC8018.F. cbn [Nat.sub]. induction n as [|n (IH & Hb & Hl)]; [split; [done|apply U_prf]|].
  destruct (U_prf i (S n)) as (E & Hub & Hul). rewrite Nat.sub_0_r in *.
  rewrite seq_S, map_app, fold_left_app. cbn [map fold_left plus].
  split; [|by apply xor_bytes]. unfold pbkdf2_rounds in *. rewrite Nat.iter_succ, IH, <-E.
  by rewrite xor_into_bytes.
Qed.

Lemma block_F c i :
  pbkdf2_block password salt c i = RFC8018.F FIPS.hmac password salt c i
  ∧ length (RFC8018.F FIPS.hmac password salt c i) = 32%nat.
Proof.
  unfold pbkdf2_block. rewrite <-(proj1 (U_prf i 0)). destruct (rounds_F i (c - 1)) as (-> & _ & Hl). cbn [snd].
  destruct c as [|c]; [done|]. by rewrite Nat.sub_1_r in *.
Qed.

(** The outer loop: the blocks so far, cut at the length asked for, and zeros. *)
Lemma blocks_loop c L n :
  (32 * n < L + 32)%nat →
  fold_left (pbkdf2_store password salt c L) (seq 1 n) (u8zeros L)
  = take L (mjoin (map (RFC8018.F FIPS.hmac password salt c) (seq 1 n))) ++ u8zeros (L - 32 * n)
  ∧ length (mjoin (map (RFC8018.F FIPS.hmac password salt c) (seq 1 n))) = (32 * n)%nat.
Proof.
  induction n as [|n IH]; intros Hn.
  { cbn. rewrite Nat.sub_0_r, take_nil. done. }
  destruct IH as [IH Hl]; [lia|]. destruct (block_F c (1 + n)) as [Eb Hbl].
  rewrite seq_S, map_app, mjoin_app, fold_left_app. cbn [fold_left map]. rewrite mjoin_cons. cbn [mjoin list_join].
  rewrite app_nil_r, IH. unfold pbkdf2_store. rewrite Eb. set (X := mjoin (map _ (seq 1 n))) in *. set (T := RFC8018.F _ _ _ _ _) in *.
  split; [|rewrite length_app; lia].
  replace (1 + n - 1)%nat with n by lia. rewrite take_ge by lia.
  set (m := Nat.min 32 (L - n * 32)). replace (L - 32 * n)%nat with (m + (L - 32 * S n))%nat by lia.
  unfold u8zeros. rewrite replicate_add. replace (n * 32)%nat with (length X) by lia.
  rewrite set_at_app by (rewrite length_replicate, length_take; lia).
  rewrite app_assoc. f_equal. rewrite take_app_ge by lia. f_equal. rewrite Hl.
  destruct (decide (32 ≤ L - 32 * n)%nat); [rewrite !take_ge by lia; done|]. f_equal. lia.
Qed.
End pbkdf2.

(** The key derivation of the wallets that predate the BIP39 fix is PBKDF2 of
    RFC 8018 with HMAC-SHA256 as the pseudo-random function, for any password,
    salt, iteration count and key length: the loops that reuse one
    buffer per block compute the exclusive or of the rounds, and the copies into
    the result put the blocks in order with the last one cut. *)
Theorem pbkdf2Sync_rfc8018 password salt iterations keyLength :
  is_bytes password → is_bytes salt → zlen password + 8 < 2 ^ 31 → zlen salt + 76 < 2 ^ 31 →
  pbkdf2Sync password salt iterations keyLength
  = RFC8018.PBKDF2 FIPS.hmac 32 password salt iterations keyLength.
Proof.
  intros Hp Hs Hpl Hsl. unfold pbkdf2Sync, RFC8018.PBKDF2. cbv zeta.
  assert (Z.to_nat (cdiv (Z.of_nat keyLength) 32) = ((keyLength + 32 - 1) / 32)%nat) as ->.
  { unfold cdiv. apply Nat2Z.inj. rewrite Nat2Z.inj_div, Z2Nat.id by (change (Z.of_nat 32) with 32; Z.to_euclidean_division_equations; lia).
    change (Z.of_nat 32) with 32. rewrite Nat2Z.inj_sub, Nat2Z.inj_add by lia. Z.to_euclidean_division_equations; lia. }
  pose proof (Nat.Div0.mul_div_le (keyLength + 32 - 1) 32). pose proof (Nat.mul_succ_div_gt (keyLength + 32 - 1) 32 ltac:(lia)).
  destruct (blocks_loop password salt Hp Hs Hpl Hsl iterations keyLength ((keyLength + 32 - 1) / 32)) as [-> _]; [lia|].
  replace (keyLength - _)%nat with 0%nat by lia. apply app_nil_r.
Qed.

(** RFC 7914, section 11: password [passwd], salt [salt], one iteration. *)
Lemma pbkdf2Sync_rfc8018_witness :
  be_num (RFC8018.PBKDF2 FIPS.hmac 32 (utf8 "passwd") (utf8 "salt") 1 32)
  = 0x55ac046e56e3089fec1691c22544b605f94185216dde0465e68b9d57c20dacbc.
Proof.
  rewrite <-(pbkdf2Sync_rfc8018 (utf8 "passwd") (utf8 "salt") 1 32 (utf8_bytes _) (utf8_bytes _)
    ltac:(by vm_compute) ltac:(by vm_compute)).
  by vm_compute.
Defined.

(** ** Encryption at rest *)

Lemma hex_pieces_pairs l : Nat.even (length l) = true → hex_pieces l = hex_pairs l.
Proof.
  assert (∀ n l, (length l ≤ n)%nat → Nat.even (length l) = true → hex_pieces l = hex_pairs l) as H; [|by eapply H].
  clear l. induction n as [|n IH]; intros [|c1 [|c2 l]] Hl He; try done; [simpl in Hl; lia..|].
  cbn. rewrite IH; [done|simpl in Hl; lia|done].
Qed.

Lemma chars_hex bs : is_bytes bs → chars (bytesToHex bs) = mjoin (map hex_byte bs).
Proof.
  intros H. unfold bytesToHex. destruct H as [|b bs Hb Hbs]; [done|]. cbn [map join]. rewrite mjoin_cons.
  replace (hex_byte b) with (chars (padStart (byte_toString16 b) 2 "0"%char)) by (rewrite padStart_byte by done; apply chars_str_of). generalize (padStart (byte_toString16 b) 2 "0"%char) as s.
  induction Hbs as [|c bs Hc Hbs IH]; intros s; cbn [map fold_left]; [by rewrite app_nil_r|].
  rewrite IH, !chars_app, mjoin_cons, padStart_byte, chars_str_of by done. by rewrite <-app_assoc.
Qed.

Lemma hexToBytes_bytesToHex_wallet bs : is_bytes bs → hexToBytes (bytesToHex bs) = bs.
Proof.
  intros H. unfold hexToBytes. rewrite chars_hex, hex_pieces_pairs; [by apply hex_pairs_bytes| |done].
  rewrite length_hex_bytes. by rewrite Nat.even_mul.
Qed.

Lemma decrypt_encrypt s `{!SubtleLaws s} salt nonce d p :
  is_bytes salt → is_bytes nonce → is_bytes d →
  decryptPrivateKey s (encryptPrivateKey s salt nonce d p) p = Ok (Some d).
Proof.
  intros Hs Hn Hd. unfold decryptPrivateKey, encryptPrivateKey. cbn [e_algo e_salt e_nonce e_ciphertext e_tag e_iterations].
  change (negb (str_eqb _ _)) with false. cbn [throw_if mbind res_bind].
  rewrite !hexToBytes_bytesToHex_wallet by (done || apply is_bytes_slice, gcm_bytes).
  change (iterations_or_default _) with PBKDF2_ITERATIONS.
  set (c := gcm_encrypt _ _ _ _). assert (length c = (length d + 16)%nat) as Hl by apply length_gcm.
  assert (slice c 0 (zlen d) ++ slice c (zlen d) (zlen c) = c) as ->; [|subst c; by rewrite gcm_inverse].
  rewrite <-slice_split by lia. unfold slice. cbn. apply take_ge. lia.
Qed.

(** ** Locking and unlocking *)

(** Two thousand rounds are not to be unfolded. *)
#[local] Opaque legacyMnemonicToSeed.

Section methods.
Context (secp : secp) (g : option subtle) (random : nat → nat → bytes) (decode : bytes → string).

(** The wallet holds the phrase [m], the key [k] BIP39 and BIP32 derive from it
    and the address [a] of that key. *)
Record holds (w : wallet) (m : string) (k : bytes) (a : string) : Prop := {
  holds_mnemonic : _mnemonic w = Some m;
  holds_phrase : ∃ e, mnemonicToEntropy m = Ok e;
  holds_derived : mnemonicToPrivateKey g m EmptyString = Ok k;
  holds_privKey : _privKey w = Some k;
  holds_address : _address w = Some a;
  holds_key_address : deriveAddressFromPrivKey secp k (network w) = Ok a
}.

Lemma derived_network k n a : deriveAddressFromPrivKey secp k n = Ok a → str_truthy (Some n) = true.
Proof.
  unfold deriveAddressFromPrivKey. intros H. simp_res.
  destruct (find _ VERSIONS) as [[n' v]|] eqn:E; [|done]. apply find_some in E as [Hin E]. apply str_eqb_eq in E. cbn in E, Hin.
  subst n'. by destruct Hin as [[= <- _]|[[= <- _]|[[= <- _]|[]]]].
Qed.

Lemma phrase_nonempty m e : mnemonicToEntropy m = Ok e → str_truthy (Some m) = true.
Proof. intros H. cbn. destruct (str_eqb m EmptyString) eqn:E; [|done]. apply str_eqb_eq in E as ->. by vm_compute in H. Qed.

(** What locking leaves. *)
Definition locked_state (p : string) (st : state) : state :=
  let w := this st in
  State (set_locked (set_mnemonic (set_privKey w None) None) true)
    (Some (Stored 2
       (Some (encryptPrivateKey (cryptoSubtle w) (random (draws st) 16) (random (S (draws st)) 12) (utf8 (phrase w)) p))
       PBKDF2_ITERATIONS (_address w) (Some (network w))))
    (S (S (draws st))).

Lemma lock_spec p st :
  lock random p st =
  if negb (str_truthy (_mnemonic (this st))) then (st, Throw "No mnemonic available to lock")
  else if negb (str_truthy (Some p)) then (st, Throw "A passphrase is required to lock the wallet")
  else (locked_state p st, Ok tt).
Proof.
  unfold lock, mbind, io_bind, get, lift. destruct (negb (str_truthy (_mnemonic (this st)))); [done|]. cbn [throw_if].
  by destruct (negb (str_truthy (Some p))).
Qed.

Lemma derive_spec st :
  deriveFromMnemonic secp g st =
  match phrase_key g (this st) with
  | Throw e => (st, Throw e)
  | Ok k =>
      match deriveAddressFromPrivKey secp k (network (this st)) with
      | Throw e => (State (set_privKey (this st) (Some k)) (storage st) (draws st), Throw e)
      | Ok a =>
          (State (set_path (set_keys (this st) (Some k) (Some a) (_mnemonic (this st))) WHIPPET_KEY_PATH)
             (storage st) (draws st), Ok tt)
      end
  end.
Proof.
  unfold deriveFromMnemonic, mbind, io_bind, get, lift. destruct (phrase_key g (this st)) as [k|e]; [|done].
  cbn. by destruct (deriveAddressFromPrivKey secp k (network (this st))).
Qed.

(** The wallet an unlock makes of [w]. *)
Definition opened (w : wallet) (n m : string) (k : bytes) (a : string) : wallet :=
  Wallet n (cryptoSubtle w) (Some k) (Some a) (Some m) false (_needsDerivation w) (Some WHIPPET_KEY_PATH) false.

Lemma unlock_stored s `{!SubtleLaws s} w d m k a n salt nonce p v i e :
  cryptoSubtle w = s → is_bytes salt → is_bytes nonce → decode (utf8 m) = m →
  mnemonicToEntropy m = Ok e → mnemonicToPrivateKey g m EmptyString = Ok k → deriveAddressFromPrivKey secp k n = Ok a →
  let stored := Stored v (Some (encryptPrivateKey s salt nonce (utf8 m) p)) i (Some a) (Some n) in
  unlock secp g decode p (State w (Some stored) d) = (State (opened w n m k a) (Some stored) d, Ok true).
Proof.
  intros Hs Hsalt Hnonce Hdec He Hk Ha stored. unfold unlock, mbind, io_bind, storage_get, get, lift.
  cbn [storage this s_encrypted stored]. rewrite Hs, decrypt_encrypt by (done || apply utf8_bytes).
  unfold unlock_with, mbind, io_bind, lift, modify. rewrite Hdec, He, derive_spec.
  assert (str_or (s_network stored) (network w) = n) as Hn by (unfold str_or; cbn [s_network stored]; by rewrite (derived_network k n a)).
  cbn [this storage draws]. rewrite Hn. unfold phrase_key. cbn [_mnemonic set_mnemonic set_keys]. rewrite Hk.
  cbn [network set_mnemonic set_keys set_network]. rewrite Ha. unfold check_stored_address, mbind, io_bind, get.
  cbn [this _address set_legacy set_path set_keys s_address stored].
  rewrite bool_decide_true by done. by rewrite andb_false_r.
Qed.

(** A wallet that [create] returns holds the keys of its phrase. *)
Lemma create_holds opts st0 d w n :
  (∀ i l, is_bytes (random i l) ∧ length (random i l) = l) → o_restore opts = false →
  create secp g random opts st0 d = Ok (w, n) → ∃ m k a, holds w m k a.
Proof.
  intros Hr Ho H. unfold create in H. apply bind_Ok in H as ([w0 n0] & Hnew & H). unfold Wallet_new in Hnew.
  rewrite Ho in Hnew. apply bind_Ok in Hnew as (s & _ & Hnew).
  assert (∃ m, _mnemonic w0 = Some m ∧ (∃ e, mnemonicToEntropy m = Ok e) ∧ _needsDerivation w0 = true) as (m & Hm & Hphrase & Hnd).
  { destruct (str_truthy (o_mnemonic opts)).
    - apply bind_Ok in Hnew as (e & He & [= <- <-]). eauto.
    - injection Hnew as <- <-. eexists. split_and!; [done| |done]. eexists. apply mnemonic_roundtrip.
      destruct (o_mnemonicLength opts =? 24); split; [apply Hr|right; apply Hr|apply Hr|left; apply Hr]. }
  unfold init, mbind, io_bind, get in H. cbn [this] in H. rewrite Hnd, derive_spec in H. cbn [this storage draws] in H.
  unfold phrase_key in H. rewrite Hm in H. destruct (mnemonicToPrivateKey g m EmptyString) as [k|] eqn:Hk; [|done].
  destruct (deriveAddressFromPrivKey secp k (network w0)) as [a|] eqn:Ha; [|done].
  injection H as <- <-. by exists m, k, a.
Qed.

Lemma create_Ok s opts st0 d m e k a :
  o_restore opts = false → default g (o_cryptoSubtle opts) = Some s → o_mnemonic opts = Some m →
  mnemonicToEntropy m = Ok e → mnemonicToPrivateKey g m EmptyString = Ok k →
  deriveAddressFromPrivKey secp k (o_network opts) = Ok a →
  create secp g random opts st0 d
  = Ok (Wallet (o_network opts) s (Some k) (Some a) (Some m) false false (Some WHIPPET_KEY_PATH) false, d).
Proof.
  intros Hr Hs Hm He Hk Ha. unfold create, Wallet_new. change (match o_cryptoSubtle opts with Some s => s | None => g end)
    with (default g (o_cryptoSubtle opts)). rewrite Hr, Hs, Hm, (phrase_nonempty m e He).
  cbn [mbind res_bind]. change (default EmptyString (Some m)) with m. rewrite He. cbn [mbind res_bind]. unfold init, mbind, io_bind, get. cbn [this _needsDerivation].
  cbn [set_needsDerivation set_mnemonic set_keys _needsDerivation]. rewrite derive_spec. unfold phrase_key.
  cbn [this _mnemonic network set_needsDerivation set_mnemonic set_keys]. cbn [id]. by rewrite Hk, Ha.
Qed.

Lemma legacy_spec st :
  deriveLegacyFromMnemonic secp st =
  let k := legacySeedToPrivateKey (legacyMnemonicToSeed (phrase (this st)) EmptyString) in
  match deriveAddressFromPrivKey secp k (network (this st)) with
  | Throw e => (State (set_privKey (this st) (Some k)) (storage st) (draws st), Throw e)
  | Ok a =>
      (State (set_path (set_keys (this st) (Some k) (Some a) (_mnemonic (this st))) "legacy (pre-BIP39-fix)")
         (storage st) (draws st), Ok tt)
  end.
Proof.
  unfold deriveLegacyFromMnemonic, mbind, io_bind, get, lift. cbv zeta.
  generalize (legacySeedToPrivateKey (legacyMnemonicToSeed (phrase (this st)) EmptyString)) as k. intros k.
  cbn. by destruct (deriveAddressFromPrivKey secp k (network (this st))).
Qed.

(** An open wallet: the phrase is real, the key is derived from it, and the
    address is the key's. *)
Definition open (w : wallet) : Prop :=
  _locked w = false ∧ ∃ m e k a,
    _mnemonic w = Some m ∧ mnemonicToEntropy m = Ok e ∧ _privKey w = Some k ∧ _address w = Some a
    ∧ deriveAddressFromPrivKey secp k (network w) = Ok a
    ∧ (if usesLegacyDerivation w then k = legacySeedToPrivateKey (legacyMnemonicToSeed m EmptyString)
       else mnemonicToPrivateKey g m EmptyString = Ok k).

Lemma check_stored_address_spec stored st st' r :
  check_stored_address secp stored st = (st', r) →
  storage st' = storage st ∧ draws st' = draws st ∧ cryptoSubtle (this st') = cryptoSubtle (this st) ∧ _locked (this st') = _locked (this st)
  ∧ (is_ok r = true → st' = st ∧ (str_truthy (s_address stored) = true → s_address stored = _address (this st))
      ∨ ∃ a, let k := legacySeedToPrivateKey (legacyMnemonicToSeed (phrase (this st)) EmptyString) in
         deriveAddressFromPrivKey secp k (network (this st)) = Ok a ∧ s_address stored = Some a
         ∧ this st' = set_legacy (set_path (set_keys (this st) (Some k) (Some a) (_mnemonic (this st))) "legacy (pre-BIP39-fix)") true).
Proof.
  unfold check_stored_address, mbind, io_bind, get. destruct (str_truthy (s_address stored)) eqn:Ht; cbn [andb].
  2:{ intros [= <- <-]. split_and!; try done. by left. }
  destruct (bool_decide_reflect (s_address stored = _address (this st))) as [E|E]; cbn [negb].
  { intros [= <- <-]. split_and!; try done. by left. }
  rewrite legacy_spec. cbv zeta. destruct (deriveAddressFromPrivKey _ _ _) as [a|e] eqn:Ea; [|by intros [= <- <-]].
  cbn [this _address set_path set_keys]. destruct (bool_decide_reflect (s_address stored = Some a)) as [E2|E2].
  - intros [= <- <-]. split_and!; try done. right. by exists a.
  - unfold modify, lift. by intros [= <- <-].
Qed.
(** What an unlock can do to the object. *)
Definition unlock_outcome (st st' : state) (r : res bool) : Prop :=
  storage st' = storage st ∧ draws st' = draws st ∧ cryptoSubtle (this st') = cryptoSubtle (this st) ∧
  match r with
  | Ok false => st' = st
  | Ok true => open (this st') ∧ ∃ stored, storage st = Some stored
      ∧ (str_truthy (s_address stored) = true → s_address stored = _address (this st'))
  | Throw _ => _locked (this st') = _locked (this st)
  end.

Lemma unlock_with_outcome stored plaintext st st' r :
  storage st = Some stored → unlock_with secp g decode stored plaintext st = (st', r) → unlock_outcome st st' r ∧ r ≠ Ok false.
Proof.
  intros Hst. unfold unlock_with, mbind, io_bind, lift, modify.
  destruct (mnemonicToEntropy (decode plaintext)) as [e|] eqn:He; [|by intros [= <- <-]].
  rewrite derive_spec. unfold phrase_key. cbn [this storage draws _mnemonic network set_mnemonic set_network set_keys].
  set (n := str_or _ _). set (w := this st) in *. destruct (mnemonicToPrivateKey _ _ _) as [k|] eqn:Hk; [|by intros [= <- <-]].
  destruct (deriveAddressFromPrivKey secp k n) as [a|] eqn:Ha; [|by intros [= <- <-]].
  cbn [this storage draws]. set (w1 := set_legacy _ _). destruct (check_stored_address secp stored _) as [st1 r1] eqn:Hc.
  apply check_stored_address_spec in Hc as (Hs & Hd & Hcs & Hl & Hok). cbn [this storage draws] in *.
  destruct r1 as [u|e1]; [|by intros [= <- <-]]. specialize (Hok eq_refl). intros [= <- <-]. cbn [this storage draws].
  split; [|done]. unfold unlock_outcome. cbn [this storage draws]. split_and!; [done..|split; [done|]|exists stored; split; [done|]].
  - destruct Hok as [[-> _]|(a' & Ha' & _ & ->)]; cbn; exists (decode plaintext), e; [by exists k, a|].
    eexists _, a'. split_and!; [reflexivity|exact He|reflexivity..|exact Ha'|reflexivity].
  - destruct Hok as [[-> H]|(a' & _ & -> & ->)]; [exact H|done].
Qed.

Lemma unlock_outcomes p st st' r : unlock secp g decode p st = (st', r) → unlock_outcome st st' r.
Proof.
  unfold unlock, mbind, io_bind, storage_get, get, lift. destruct (storage st) as [stored|] eqn:Hst; [|by intros [= <- <-]].
  destruct (s_encrypted stored) as [enc|]; [|by intros [= <- <-]].
  destruct (decryptPrivateKey _ _ _) as [[pt|]|e]; [|by intros [= <- <-]..]. intros H. by eapply unlock_with_outcome.
Qed.
End methods.

(** ** Sessions *)

Section sessions.
Context (secp : secp) (s : subtle) `{!SubtleLaws s} (random : nat → nat → bytes) (decode : bytes → string).
Hypothesis random_ok : ∀ i l, is_bytes (random i l) ∧ length (random i l) = l.
Hypothesis decode_ok : ∀ m, decode (utf8 m) = m.

(** What is stored opens with the passphrase [p]. *)
Definition recoverable (stored : stored_wallet) (p : string) : Prop :=
  ∃ m e k a n salt nonce,
    stored = Stored 2 (Some (encryptPrivateKey s salt nonce (utf8 m) p)) PBKDF2_ITERATIONS (Some a) (Some n)
    ∧ is_bytes salt ∧ is_bytes nonce ∧ mnemonicToEntropy m = Ok e
    ∧ mnemonicToPrivateKey (Some s) m EmptyString = Ok k ∧ deriveAddressFromPrivKey secp k n = Ok a.

Record session_ok (sess : session) : Prop := {
  so_subtle w : app_wallet sess = Some w → cryptoSubtle w = s;
  so_create : currentScreen sess = S_create → ∃ w m k a, app_wallet sess = Some w ∧ holds secp (Some s) w m k a;
  so_stored stored : app_storage sess = Some stored → ∃ p, recoverable stored p;
  so_screen : currentScreen sess = S_unlock ∨ currentScreen sess = S_wallet → is_Some (app_storage sess);
  so_open : currentScreen sess = S_wallet → ∃ w, app_wallet sess = Some w ∧ open secp (Some s) w
}.

Lemma new_subtle opts st0 d w n :
  o_cryptoSubtle opts = None → Wallet_new (Some s) random opts st0 d = Ok (w, n) → cryptoSubtle w = s.
Proof.
  intros Ho H. unfold Wallet_new in H. rewrite Ho in H. cbn [mbind res_bind] in H. destruct (o_restore opts).
  - destruct st0 as [stored|]; [|done]. destruct (s_encrypted stored); [|done]. by injection H as <- _.
  - destruct (str_truthy (o_mnemonic opts)); [|by injection H as <- _].
    apply bind_Ok in H as (e & _ & [= <- _]). done.
Qed.

Lemma create_subtle opts st0 d w n :
  o_cryptoSubtle opts = None → create secp (Some s) random opts st0 d = Ok (w, n) → cryptoSubtle w = s.
Proof.
  intros Ho H. unfold create in H. apply bind_Ok in H as ([w0 n0] & Hnew & H). apply new_subtle in Hnew; [|done].
  unfold init, mbind, io_bind, get in H. cbn [this] in H. destruct (_needsDerivation w0).
  - rewrite derive_spec in H. cbn [this] in H. destruct (phrase_key _ _); [|done].
    destruct (deriveAddressFromPrivKey _ _ _); [|done]. by injection H as <- _.
  - by injection H as <- _.
Qed.

Lemma lock_recoverable w m k a p st0 d :
  holds secp (Some s) w m k a → cryptoSubtle w = s →
  let '(st, r) := lock random p (State w st0 d) in
  cryptoSubtle (this st) = s ∧
  match r with
  | Ok _ => ∃ stored, storage st = Some stored ∧ recoverable stored p
  | Throw _ => st = State w st0 d
  end.
Proof.
  intros [Hm [e He] Hk _ Ha Hka] Hs. rewrite lock_spec. cbn [this]. rewrite Hm, (phrase_nonempty m e He). cbn [negb].
  destruct (negb (str_truthy (Some p))); [done|]. split; [done|]. eexists. split; [reflexivity|].
  exists m, e, k, a, (network w), (random d 16), (random (S d) 12). cbn [this draws]. unfold phrase. rewrite Hm, Ha, Hs. by split_and!; try apply random_ok.
Qed.

Lemma unlock_recoverable stored p w d :
  recoverable stored p → cryptoSubtle w = s →
  ∃ w', unlock secp (Some s) decode p (State w (Some stored) d) = (State w' (Some stored) d, Ok true) ∧ open secp (Some s) w'.
Proof.
  intros (m & e & k & a & n & salt & nonce & -> & Hsalt & Hnonce & He & Hk & Ha) Hs.
  eexists. split; [eapply (unlock_stored secp (Some s) decode s); try done; apply decode_ok|].
  split; [done|]. by exists m, e, k, a.
Qed.

Lemma restored_wallet stored p d n :
  recoverable stored p → ∃ w, Wallet_new (Some s) random (Options true None n 12 None) (Some stored) d = Ok (w, d)
    ∧ cryptoSubtle w = s.
Proof. intros (m & e & k & a & n' & salt & nonce & -> & _). by eexists. Qed.

(** Locking a wallet that holds its keys, from whatever screen. *)
Lemma after_lock sess w m k a p st0 d :
  session_ok sess → app_storage sess = st0 → currentScreen sess = S_create ∧ app_wallet sess = Some w ∨ currentScreen sess = S_restore →
  holds secp (Some s) w m k a → cryptoSubtle w = s →
  session_ok (after_call sess (lock random p (State w st0 d)) (λ _, (S_unlock, None))).
Proof.
  intros Hok Hst Hscr Hh Hs. pose proof (lock_recoverable w m k a p st0 d Hh Hs) as H.
  destruct (lock random p (State w st0 d)) as [st [u|e]]; destruct H as [Hsub H]; cbn [after_call].
  - destruct H as (stored & Hstored & Hrec). split; cbn; try done; [by intros ? [= <-]|].
    intros st' [= ->]%(eq_trans (eq_sym Hstored)). by exists p.
  - subst st. cbn in *. split; cbn; [by intros ? [= <-]| | | |].
    + intros _. by exists w, m, k, a.
    + rewrite <-Hst. apply Hok.
    + destruct Hscr as [[-> _]| ->]; by intros [?|?].
    + destruct Hscr as [[-> _]| ->]; done.
Qed.

Lemma to_unlock sess w :
  session_ok sess → wallet_to_unlock (Some s) random sess = Ok w → cryptoSubtle w = s.
Proof.
  intros Hok. unfold wallet_to_unlock. destruct (app_wallet sess) as [w'|] eqn:E; [intros [= <-]; by apply (so_subtle sess)|].
  destruct (app_storage sess) as [stored|]; [|done]. intros H. apply bind_Ok in H as ([w' n] & Hn & [= <-]). by eapply new_subtle in Hn.
Qed.

Lemma unlock_keeps sess p :
  currentScreen sess = S_unlock → session_ok sess → session_ok (doUnlock secp (Some s) random decode p sess).
Proof.
  intros Hscr Hok. unfold doUnlock. destruct (wallet_to_unlock _ _ sess) as [w|e] eqn:Ew; [|by destruct Hok; split].
  pose proof (to_unlock sess w Hok Ew) as Hs. pose proof (so_screen sess Hok (or_introl Hscr)) as Hsome.
  destruct (unlock _ _ _ p _) as [st r] eqn:Eu. apply unlock_outcomes in Eu as (Hst & _ & Hc & H). cbn [this storage draws] in *.
  assert (∀ v, Some (this st) = Some v → cryptoSubtle v = s) as Hsub by (intros v [= <-]; congruence).
  destruct r as [[|]|e]; cbn [after_call]; rewrite ?Hscr; split; cbn; rewrite ?Hst; try done; try apply Hok.
  intros _. exists (this st). split; [done|apply H].
Qed.

Lemma step_keeps sess sess' :
  app_step secp (Some s) random decode sess sess' → session_ok sess → session_ok sess'.
Proof.
  intros Hstep Hok. destruct Hstep as [sess Hscr|sess Hscr|p sess Hscr|v p sess Hscr|p sess Hscr|sess Hscr|sess Hscr].
  - unfold createNewWallet. destruct (create _ _ _ _ _ _) as [[w n]|e] eqn:Ec; [|done].
    pose proof Ec as (m & k & a & Hh)%create_holds; [|apply random_ok|done].
    split; cbn; try done; [|by exists w, m, k, a|apply Hok|by intros [?|?]]. intros ? [= <-].
    by apply (create_subtle default_options) in Ec.
  - destruct Hok. split; cbn; try done; by intros [?|?].
  - unfold finishWalletSetup. destruct (so_create sess Hok Hscr) as (w & m & k & a & Ew & Hh). rewrite Ew.
    eapply after_lock; [done..|by left|done|]. by apply (so_subtle sess).
  - unfold doRestore. destruct (create _ _ _ _ _ _) as [[w n]|e] eqn:Ec; [|by destruct Hok; split].
    pose proof Ec as (m & k & a & Hh)%create_holds; [|apply random_ok|done].
    pose proof Ec as Hs%create_subtle; [|done]. eapply after_lock; [done..|by right|done|done].
  - by apply unlock_keeps.
  - unfold lockWallet. destruct (so_open sess Hok Hscr) as (w & Ew & Ho). rewrite Ew.
    split; cbn; [|done|apply (so_stored sess Hok)|intros _; apply (so_screen sess Hok); by right|done].
    intros ? [= <-]. by apply (so_subtle sess) in Ew.
  - split; cbn; try done; [apply Hok|by intros [?|?]].
Qed.

Lemma reachable_ok sess : rtc (app_step secp (Some s) random decode) fresh_session sess → session_ok sess.
Proof.
  apply (rtc_ind_r (λ sess, session_ok sess)).
  - split; cbn; try done. by intros [?|?].
  - intros x y _ Hs. by apply step_keeps.
Qed.

Lemma unlock_opens sess :
  session_ok sess → currentScreen sess = S_unlock →
  ∃ p, let sess' := doUnlock secp (Some s) random decode p sess in
    currentScreen sess' = S_wallet ∧ ∃ w, app_wallet sess' = Some w ∧ open secp (Some s) w.
Proof.
  intros Hok Hscr. destruct (so_screen sess Hok (or_introl Hscr)) as [stored Est].
  destruct (so_stored sess Hok stored Est) as [p Hrec]. exists p. unfold doUnlock.
  assert (∃ w, wallet_to_unlock (Some s) random sess = Ok w) as [w Ew].
  { unfold wallet_to_unlock. rewrite Est. destruct (app_wallet sess) as [w|]; [by exists w|].
    destruct (restored_wallet stored p (app_draws sess) "mainnet" Hrec) as (w & -> & _). by exists w. }
  rewrite Ew, Est. destruct (unlock_recoverable stored p w (app_draws sess) Hrec (to_unlock sess w Hok Ew)) as (w' & -> & Ho).
  cbn. split; [done|]. by exists w'.
Qed.

End sessions.

(** ** A wallet for the witnesses *)

(** UTF-8 of the Latin-1 range, read back. *)
Fixpoint decode_latin1 (l : bytes) : list ascii :=
  match l with
  | [] => []
  | a :: l' =>
      if a <? 128 then chr a :: decode_latin1 l'
      else match l' with b :: l'' => chr ((a - 192) * 64 + (b - 128)) :: decode_latin1 l'' | [] => [] end
  end.
Definition sample_decode (l : bytes) : string := str_of (decode_latin1 l).

Lemma sample_decode_utf8 m : sample_decode (utf8 m) = m.
Proof.
  unfold sample_decode, utf8. rewrite <-(str_of_chars m) at 2. f_equal.
  induction (chars m) as [|c l IH]; [done|]. cbn [map]. rewrite mjoin_cons. unfold utf8_char at 1. pose proof (code_range c).
  destruct (Z.ltb_spec (code c) 128) as [Hc|Hc]; cbn [app decode_latin1].
  - rewrite (proj2 (Z.ltb_lt _ _) Hc). by rewrite IH, chr_code.
  - pose proof (Z.div_mod (code c) 64 ltac:(lia)). assert (0 ≤ code c / 64) by (apply Z.div_pos; lia).
    rewrite (proj2 (Z.ltb_ge _ 128)) by lia. rewrite IH. f_equal. rewrite <-(chr_code c). f_equal. rewrite chr_code. lia.
Qed.

Definition sample_random (i l : nat) : bytes := replicate l 0.
Lemma sample_random_ok i l : is_bytes (sample_random i l) ∧ length (sample_random i l) = l.
Proof. split; [apply is_bytes_zeros|apply length_replicate]. Qed.

Definition sample_opts : options := Options false (Some abandon_about) "mainnet" 12 None.
Definition sample_privKey : bytes :=
  default [] (match mnemonicToPrivateKey (Some sample_subtle) abandon_about EmptyString with Ok k => Some k | Throw _ => None end).
Definition sample_addr : string := pubkeyToAddress (2 :: replicate 32 7) 0x49.

Lemma sample_derives :
  mnemonicToEntropy abandon_about = Ok (replicate 16 0)
  ∧ mnemonicToPrivateKey (Some sample_subtle) abandon_about EmptyString = Ok sample_privKey.
Proof. split; by vm_compute. Qed.

Lemma sample_address_of k : deriveAddressFromPrivKey sample_secp k "mainnet" = Ok sample_addr.
Proof.
  unfold deriveAddressFromPrivKey, sample_addr. change (getPublicKeyFromPrivateKey sample_secp k) with (Ok (2 :: replicate 32 7)).
  change (find _ VERSIONS) with (Some ("mainnet"%string, mainnet)). cbn [mbind res_bind].
  change (PUBKEY_ADDRESS mainnet) with 0x49. cbn [Z.eqb throw_if mbind res_bind]. reflexivity.
Qed.

Definition sample_wallet : wallet :=
  Wallet "mainnet" sample_subtle (Some sample_privKey) (Some sample_addr) (Some abandon_about) false false
    (Some WHIPPET_KEY_PATH) false.

Lemma sample_created st0 d :
  create sample_secp (Some sample_subtle) sample_random sample_opts st0 d = Ok (sample_wallet, d).
Proof.
  destruct sample_derives as [He Hk].
  apply (create_Ok sample_secp (Some sample_subtle) sample_random sample_subtle sample_opts st0 d abandon_about (replicate 16 0));
    [done..|exact He|exact Hk|apply sample_address_of].
Qed.

(** ** Properties *)


(** C10 A wallet that is locked and unlocked with the same passphrase is the same
    wallet.  Locking a wallet that [create] made drops its key and phrase from
    memory and leaves the storage persisted; and any wallet object over that
    storage, the same one or one restored later, opens with the passphrase to the
    same phrase, private key and address, and to no legacy key.  The laws are
    those of AES-GCM, of the random source and of UTF-8. *)
Theorem lock_unlock_restores secp g random decode s `{!SubtleLaws s} opts st0 d w n p :
  (∀ i l, is_bytes (random i l) ∧ length (random i l) = l) → (∀ m, decode (utf8 m) = m) →
  o_restore opts = false → create secp g random opts st0 d = Ok (w, n) → cryptoSubtle w = s → p ≠ EmptyString →
  ∃ m k a st1, holds secp g w m k a
    ∧ lock random p (State w st0 n) = (st1, Ok tt)
    ∧ _privKey (this st1) = None ∧ _mnemonic (this st1) = None ∧ _locked (this st1) = true ∧ persisted st1 = true
    ∧ ∀ w' d', cryptoSubtle w' = s →
        ∃ w2, unlock secp g decode p (State w' (storage st1) d') = (State w2 (storage st1) d', Ok true)
          ∧ holds secp g w2 m k a ∧ _locked w2 = false ∧ usesLegacyDerivation w2 = false.
Proof.
  intros Hr Hdec Ho Hc Hs Hp. destruct (create_holds _ _ _ _ _ _ _ _ Hr Ho Hc) as (m & k & a & H). exists m, k, a.
  pose proof H as [Hm [e He] Hk _ Ha Hka].
  assert (str_truthy (Some p) = true) as Hpt.
  { cbn. destruct (str_eqb p EmptyString) eqn:E; [|done]. by apply str_eqb_eq in E. }
  exists (locked_state random p (State w st0 n)). rewrite lock_spec. cbn [this]. rewrite Hm, (phrase_nonempty m e He), Hpt.
  split_and!; try done. intros w' d' Hw'. unfold locked_state, phrase. cbn [this storage draws]. rewrite Hm, Ha, Hs.
  eexists. split; [eapply (unlock_stored secp g decode s); try done; apply Hr|].
  by split_and!; [split; try done; eauto|..].
Qed.

Lemma lock_unlock_restores_witness :
  create sample_secp (Some sample_subtle) sample_random sample_opts None 0 = Ok (sample_wallet, 0%nat)
  ∧ ∃ st1 w2, lock sample_random "pw" (State sample_wallet None 0) = (st1, Ok tt)
    ∧ _privKey (this st1) = None
    ∧ unlock sample_secp (Some sample_subtle) sample_decode "pw" (State sample_wallet (storage st1) 7)
      = (State w2 (storage st1) 7, Ok true)
    ∧ _mnemonic w2 = Some abandon_about.
Proof.
  split; [exact (sample_created None 0)|].
  destruct (lock_unlock_restores sample_secp (Some sample_subtle) sample_random sample_decode sample_subtle sample_opts
    None 0 sample_wallet 0 "pw" sample_random_ok sample_decode_utf8 eq_refl (sample_created None 0) eq_refl ltac:(discriminate))
    as (m & k & a & st1 & Hh & Hl & Hk & _ & _ & _ & Hu).
  destruct (Hu sample_wallet 7%nat eq_refl) as (w2 & E & Hh2 & _ & _).
  exists st1, w2. split; [exact Hl|]. split; [exact Hk|]. split; [exact E|].
  rewrite (holds_mnemonic _ _ _ _ _ _ Hh2), <-(holds_mnemonic _ _ _ _ _ _ Hh). reflexivity.
Defined.

(** C31 Unlocking never opens a wallet that is not consistent.  It leaves the
    storage alone; a passphrase that does not verify changes nothing; a failure
    leaves the wallet as locked as it was; and a success holds a valid phrase, a
    key derived from it (by the standard path, or by the earlier scheme and
    marked so), the address of that very key, and, where the storage names an
    address, that address. *)
Theorem unlock_authentic secp g decode p st st' r :
  unlock secp g decode p st = (st', r) → unlock_outcome secp g st st' r.
Proof. apply unlock_outcomes. Qed.

Lemma unlock_authentic_witness :
  ∃ st', unlock_outcome sample_secp (Some sample_subtle)
    (State sample_wallet (Some (Stored 2 (Some (encryptPrivateKey sample_subtle [1] [2] (utf8 abandon_about) "pw"))
       PBKDF2_ITERATIONS (Some sample_addr) (Some "mainnet"%string))) 0) st' (Ok true).
Proof.
  destruct sample_derives as [He Hk].
  pose proof (unlock_stored sample_secp (Some sample_subtle) sample_decode sample_subtle sample_wallet 0 abandon_about
    sample_privKey sample_addr "mainnet" [1] [2] "pw" 2 PBKDF2_ITERATIONS (replicate 16 0) eq_refl
    (is_bytes_one 1 ltac:(split; lia)) (is_bytes_one 2 ltac:(split; lia)) (sample_decode_utf8 _) He Hk (sample_address_of _)) as H.
  eexists. exact (unlock_authentic _ _ _ _ _ _ _ H).
Defined.



(** ** What the properties leave out *)

(** The Lock button of the wallet screen clears the key and not the phrase,
    which is the key: [wallet.lock], which clears both, is not what it calls. *)
Lemma lockWallet_keeps_phrase w st d e :
  open sample_secp (Some sample_subtle) w →
  ∃ w', app_wallet (lockWallet (Session (Some w) S_wallet st d e)) = Some w'
    ∧ _privKey w' = None ∧ _mnemonic w' = _mnemonic w ∧ is_Some (_mnemonic w').
Proof. intros (_ & m & _ & _ & _ & Hm & _). eexists. split; [reflexivity|]. cbn. rewrite Hm. by split_and!; eauto. Qed.

(** The white space inside a phrase does not matter to the checksum and does to
    the key: the same words, typed with two spaces, open another wallet. *)
Definition spaced_out : string := join "  " (replicate 11 "abandon" ++ ["about"%string]).
Lemma spacing_changes_key :
  mnemonicToEntropy spaced_out = Ok (replicate 16 0) ∧ mnemonicToEntropy abandon_about = Ok (replicate 16 0)
  ∧ mnemonicToPrivateKey (Some sample_subtle) spaced_out EmptyString
    ≠ mnemonicToPrivateKey (Some sample_subtle) abandon_about EmptyString.
Proof.
  split; [by vm_compute|]. split; [apply sample_derives|]. rewrite (proj2 sample_derives). by vm_compute.
Qed.
