(* ===== verification/Dom.v ===== *)
(** * Dom: [contrib/uap-web/dom.js], building the page

    The tree of nodes the helpers build, with the attribute, listener and child
    operations of the document they use.  A node is text or an element; the type
    of event handlers is a parameter, and [held] marks an element the code keeps
    a reference to, to fill it later.  Characters of the page's texts outside the
    model's alphabet are in the class [Page].

    The theorems: a tree built from inert parts is inert (it has no inline
    handler and no script URL, whatever strings the network supplies), text
    reaches the page as text, and the lemmas at the end show the three holes the
    checks of [el] leave to its callers. *)

From stdpp Require Import base tactics option list numbers strings.
From Stdlib Require Import ZArith Lia Ascii.
From S2P Require Import Prelude JsInt JsStr JsNum JsVal.

(** ** Text outside the alphabet *)

Inductive glyph_name := EmDash | Ellipsis | CrossMark | WarningSign.

(** What the page takes from its environment: the characters above, the source
    text of a function, and the number format of the user's locale. *)
Class Page (H : Type) := {
  glyph : glyph_name → string;
  fn_source : H → string;
  toLocaleString : Number → string
}.

(** ** Nodes *)

Inductive node (H : Type) :=
| TextNode (s : string)
| Element (tag : string) (held : bool) (attrs : list (string * string)) (listeners : list (string * H))
    (children : list (node H)).
Arguments TextNode {H} s.
Arguments Element {H} tag held attrs listeners children.

(** [s.startsWith(p)]. *)
Definition startsWith (s p : string) : bool := bool_decide (is_Some (strip_prefix (chars p) (chars s))).

Definition ascii_lower (c : ascii) : ascii :=
  let n := code c in if (65 <=? n) && (n <=? 90) then chr (n + 32) else c.
(** [s.replace(/([A-Z])/g, c => c.toLowerCase())], and what the document does to
    the names of attributes and tags. *)
Definition ascii_lowercase (s : string) : string := str_of (map ascii_lower (chars s)).

(** A valid name of an attribute or tag, as the DOM standard has it for names
    that begin with a letter. *)
Definition name_char (c : ascii) : bool :=
  negb (existsb (Z.eqb (code c)) [0; 9; 10; 12; 13; 32; 47; 61; 62]).
Definition valid_name (s : string) : bool :=
  negb (str_eqb s EmptyString) && forallb name_char (chars s).

Fixpoint set_pair (k v : string) (l : list (string * string)) : list (string * string) :=
  match l with
  | [] => [(k, v)]
  | (k', v') :: l => if str_eqb k' k then (k, v) :: l else (k', v') :: set_pair k v l
  end.

Section dom.
Context {H : Type} `{!Page H}.

Definition createElement (tag : string) : res (node H) :=
  _ ← throw_if (negb (valid_name tag)) "InvalidCharacterError";
  Ok (Element (ascii_lowercase tag) false [] [] []).

Definition createTextNode (s : string) : node H := TextNode s.

Definition setAttribute (n : node H) (k v : string) : res (node H) :=
  match n with
  | TextNode _ => Throw "setAttribute is not a function"
  | Element tag h attrs ls cs =>
      _ ← throw_if (negb (valid_name k)) "InvalidCharacterError";
      Ok (Element tag h (set_pair (ascii_lowercase k) v attrs) ls cs)
  end.

Definition addEventListener (n : node H) (event : string) (f : H) : node H :=
  match n with
  | TextNode s => TextNode s
  | Element tag h attrs ls cs => Element tag h attrs (ls ++ [(event, f)]) cs
  end.

Definition appendChild (n : node H) (c : node H) : node H :=
  match n with
  | TextNode s => TextNode s
  | Element tag h attrs ls cs => Element tag h attrs ls (cs ++ [c])
  end.

Definition children (n : node H) : list (node H) :=
  match n with TextNode _ => [] | Element _ _ _ _ cs => cs end.

Definition with_children (n : node H) (cs : list (node H)) : node H :=
  match n with TextNode s => TextNode s | Element tag h attrs ls _ => Element tag h attrs ls cs end.

(** The value of an attribute, and a child, in the arguments of [el]. *)
Inductive attr_arg := AVal (v : jsval) | AFun (f : H).
Inductive child_arg := CStr (s : string) | CNode (n : node H) | CNull.

(** ** [el] *)

Definition event_name (key : string) : string :=
  let name := ascii_lowercase (str_of (drop 2 (chars key))) in
  let name := if startsWith name "on" then str_of (drop 2 (chars name)) else name in
  ascii_lowercase name.

(** [value.replace(/\s/g, '').toLowerCase()]. *)
Definition normalize_url (v : string) : string :=
  toLowerCase (str_of (List.filter (λ c, negb (is_space c)) (chars v))).

Definition el_attr (n : node H) (a : string * attr_arg) : res (node H) :=
  let '(key, value) := a in
  match value with
  | AFun f =>
      if startsWith key "on" then Ok (addEventListener n (event_name key) f)
      else setAttribute n (if str_eqb key "className" then "class" else key) (fn_source f)
  | AVal v =>
      let is_string := match v with Str _ => true | _ => false end in
      _ ← throw_if (startsWith key "on" && is_string)
            ("Refusing to set " +:+ key
             +:+ " attribute from a string value (event handlers must use addEventListener)");
      _ ← throw_if ((str_eqb key "href" || str_eqb key "src") && is_string
                    && startsWith (normalize_url (as_str v)) "javascript:")
            ("Refusing to set " +:+ key +:+ " to a javascript: URI");
      if str_eqb key "class" || str_eqb key "className" then setAttribute n "class" (js_String v)
      else if is_nullish v then Ok n
      else setAttribute n key (js_String v)
  end.

Definition el_child (n : node H) (c : child_arg) : node H :=
  match c with
  | CStr s => appendChild n (createTextNode s)
  | CNode c => appendChild n c
  | CNull => n
  end.

Definition el (tag : string) (attrs : list (string * attr_arg)) (cs : list child_arg) : res (node H) :=
  n ← createElement tag;
  n ← foldR el_attr n attrs;
  Ok (fold_left el_child cs n).

Definition text (s : string) : node H := createTextNode s.

(** [while (node.lastChild) node.removeChild(node.lastChild)]. *)
Fixpoint clear_loop (fuel : nat) (cs : list (node H)) : list (node H) :=
  match fuel, cs with
  | S fuel, _ :: _ => clear_loop fuel (take (length cs - 1) cs)
  | _, _ => cs
  end.
Definition clear (n : node H) : node H := with_children n (clear_loop (length (children n)) (children n)).

(** The code keeps a reference to the element; [fill] is what it does to that
    element later, wherever the element is in the page. *)
Definition hold (n : node H) : node H :=
  match n with TextNode s => TextNode s | Element tag _ attrs ls cs => Element tag true attrs ls cs end.

Fixpoint fill (f : list (node H) → list (node H)) (n : node H) : node H :=
  match n with
  | TextNode s => TextNode s
  | Element tag true attrs ls cs => Element tag true attrs ls (f cs)
  | Element tag false attrs ls cs => Element tag false attrs ls (map (fill f) cs)
  end.

(** ** The building blocks *)

(** [el(tag, attrs, ...children)] with children that are themselves calls,
    evaluated from left to right before the call. *)
Definition E (tag : string) (attrs : list (string * attr_arg)) (cs : list (res child_arg)) : res child_arg :=
  cs ← mapR id cs;
  n ← el tag attrs cs;
  Ok (CNode n).
Definition T (s : string) : res child_arg := Ok (CStr s).
Definition no_child : res child_arg := Ok CNull.
Definition cls (s : string) : string * attr_arg := ("class", AVal (Str s)).
Definition att (k s : string) : string * attr_arg := (k, AVal (Str s)).
Definition on (k : string) (f : H) : string * attr_arg := (k, AFun f).

(** [skeleton]: the rows get their [aria-hidden] after they are appended, which
    the shared references make visible in the container. *)
Definition skeleton_row (className : string) : res (node H) :=
  row ← el "div" [cls (if negb (str_eqb className EmptyString)
                       then "skeleton-line " +:+ className else "skeleton-line")] [];
  setAttribute row "aria-hidden" "true".

Definition skeleton (lines : nat) (className : string) : res child_arg :=
  rows ← mapR (λ _, skeleton_row className) (seq 0 lines);
  n ← el "div" [cls "skeleton"; att "role" "status"; att "aria-label" "Loading"] (map CNode rows);
  Ok (CNode n).

Definition TX_STATUS_LABELS : list (string * string) :=
  [ ("pending", "Broadcast " +:+ glyph EmDash +:+ " waiting for confirmation (~6s per block)");
    ("confirmed", "Confirmed");
    ("timeout", "Not yet confirmed " +:+ glyph EmDash +:+ " check back later") ].

(** The properties every object literal inherits: each is truthy and no Node. *)
Definition inherited_names : list string :=
  ["constructor"; "toString"; "toLocaleString"; "valueOf"; "hasOwnProperty"; "isPrototypeOf";
   "propertyIsEnumerable"; "__proto__"; "__defineGetter__"; "__defineSetter__"; "__lookupGetter__";
   "__lookupSetter__"].

Definition txStatus (state txid : string) : res child_arg :=
  match assoc state TX_STATUS_LABELS with
  | None =>
      _ ← throw_if (existsb (str_eqb state) inherited_names) "appendChild: the argument is not a Node";
      Throw ("txStatus: unknown state " +:+ json_string state)
  | Some label =>
      E "div" [cls ("tx-status tx-status-" +:+ state); att "role" "status"]
        [E "span" [cls "tx-status-label"] [T label];
         E "code" [cls "tx-status-txid"] [T txid]]
  end.

Definition staleNotice (cachedAt : jsval) : res child_arg :=
  let suffix := if truthy cachedAt then " Last updated " +:+ js_String cachedAt +:+ "." else EmptyString in
  E "div" [cls "stale-notice"; att "role" "status"]
    [T ("Offline " +:+ glyph EmDash +:+ " showing cached data, which may be out of date." +:+ suffix)].

(** ** What the browser runs *)

Definition dropWhile {A} (p : A → bool) : list A → list A :=
  fix go l := match l with [] => [] | x :: l => if p x then go l else x :: l end.

(** Whether a URL has the [javascript:] scheme for the URL parser: leading C0
    controls and spaces are skipped, tabs and newlines removed, and the scheme
    compared without regard to case. *)
Definition url_char (c : ascii) : bool := negb (existsb (Z.eqb (code c)) [9; 10; 13]).
Definition runs_as_script (v : string) : bool :=
  let l := dropWhile (λ c, code c <=? 32) (chars v) in
  startsWith (str_of (map ascii_lower (List.filter url_char l))) "javascript:".

(** Attributes other than [href] and [src] whose value the browser can run. *)
Definition unguarded : list string :=
  ["action"; "formaction"; "data"; "srcdoc"; "xlink:href"; "style"; "ping"; "manifest"; "codebase"].
Definition active_tags : list string := ["script"; "style"; "iframe"; "object"; "embed"; "base"; "link"; "meta"].

Definition inert_attr (a : string * string) : bool :=
  negb (startsWith (fst a) "on") && negb (existsb (str_eqb (fst a)) unguarded)
  && negb ((str_eqb (fst a) "href" || str_eqb (fst a) "src") && runs_as_script (snd a)).

Definition inert_elem (tag : string) (attrs : list (string * string)) : bool :=
  negb (existsb (str_eqb tag) active_tags) && forallb inert_attr attrs.

(** No node of the tree gives the browser a string to run. *)
Fixpoint inert (n : node H) : bool :=
  match n with
  | TextNode _ => true
  | Element tag _ attrs _ cs => inert_elem tag attrs && forallb inert cs
  end.

(** [textContent]. *)
Fixpoint textContent (n : node H) : string :=
  match n with
  | TextNode s => s
  | Element _ _ _ _ cs => foldr (λ c acc, textContent c +:+ acc) EmptyString cs
  end.

(** The handlers of a tree, in document order. *)
Fixpoint handlers (n : node H) : list (string * H) :=
  match n with
  | TextNode _ => []
  | Element _ _ _ ls cs => ls ++ mjoin (map handlers cs)
  end.
End dom.

#[global] Arguments el : simpl never.
#[global] Arguments E : simpl never.

Section facts.
Context {H : Type} `{!Page H}.
Implicit Types n : node H.

(** Induction that reaches the children. *)
Lemma node_rect' (P : node H → Prop) :
  (∀ s, P (TextNode s)) →
  (∀ tag h attrs ls cs, Forall P cs → P (Element tag h attrs ls cs)) → ∀ n, P n.
Proof.
  intros HT HE. fix IH 1. intros [s|tag h attrs ls cs]; [apply HT|].
  apply HE. induction cs; constructor; [apply IH|done].
Qed.

(** *** Characters *)

Lemma strip_prefix_app p l : strip_prefix p (p ++ l) = Some l.
Proof. induction p as [|c p IH]; [done|]. simpl. by rewrite Ascii.eqb_refl. Qed.

Lemma strip_prefix_Some p l r : strip_prefix p l = Some r → l = p ++ r.
Proof.
  revert l. induction p as [|c p IH]; intros [|d l]; simpl; try by intros [=->].
  destruct (Ascii.eqb_spec c d) as [->|]; [|done]. by intros ->%IH.
Qed.

Lemma startsWith_spec s p : startsWith s p = true ↔ ∃ l, chars s = chars p ++ l.
Proof.
  unfold startsWith. rewrite bool_decide_eq_true. split.
  - intros [l Hl]. exists l. by apply strip_prefix_Some.
  - intros [l ->]. rewrite strip_prefix_app. eauto.
Qed.

Definition control_ok (c : ascii) : bool := negb (code c <=? 32) || is_space c.

Lemma scheme_char c :
  negb (url_char c) || negb ((33 <=? code (ascii_lower c)) && (code (ascii_lower c) <? 128))
  || (negb (is_space c) && Ascii.eqb (lower c) (ascii_lower c)) = true.
Proof. destruct c as [[] [] [] [] [] [] [] []]; vm_compute; reflexivity. Qed.

Lemma removed_is_space c : url_char c || is_space c = true.
Proof. destruct c as [[] [] [] [] [] [] [] []]; vm_compute; reflexivity. Qed.

(** Dropping all white space and lowering the case keeps a scheme the URL parser
    would read. *)
Lemma normalize_keeps_scheme p l r :
  forallb (λ c, (33 <=? code c) && (code c <? 128)) p = true →
  map ascii_lower (List.filter url_char l) = p ++ r →
  ∃ r', map lower (List.filter (λ c, negb (is_space c)) l) = p ++ r'.
Proof.
  revert p. induction l as [|c l IH]; intros [|p0 p] Hp Heq; try by eexists.
  simpl in Heq. pose proof (removed_is_space c) as Hrem. pose proof (scheme_char c) as Hsc.
  destruct (url_char c) eqn:Hu; simpl in Heq.
  - injection Heq as Hc Heq. simpl in Hp. apply andb_true_iff in Hp as [Hp0 Hp].
    subst p0. rewrite Hp0 in Hsc. simpl in Hsc. apply andb_true_iff in Hsc as [Hs Hl].
    apply Ascii.eqb_eq in Hl. destruct (IH p Hp Heq) as [r' Hr'].
    exists r'. simpl. rewrite Hs. simpl. by rewrite Hl, Hr'.
  - simpl in Hrem. destruct (IH (p0 :: p) Hp Heq) as [r' Hr']. exists r'.
    simpl. by rewrite Hrem.
Qed.

Lemma dropWhile_nonspace l :
  forallb control_ok l = true →
  List.filter (λ c, negb (is_space c)) l
  = List.filter (λ c, negb (is_space c)) (dropWhile (λ c, code c <=? 32) l).
Proof.
  induction l as [|c l IH]; [done|]. simpl. intros [Hc Hl]%andb_true_iff.
  unfold control_ok in Hc. destruct (code c <=? 32); [|done]. simpl in Hc. rewrite Hc. simpl. auto.
Qed.

(** On values whose controls are white space, the check of [el] catches every
    URL the browser would run as a script. *)
Lemma el_check_complete v :
  forallb control_ok (chars v) = true → runs_as_script v = true →
  startsWith (normalize_url v) "javascript:" = true.
Proof.
  intros Hv Hrun. apply startsWith_spec in Hrun as [r Hr]. rewrite chars_str_of in Hr.
  apply normalize_keeps_scheme in Hr as [r' Hr']; [|done].
  apply startsWith_spec. exists r'. unfold normalize_url, toLowerCase.
  by rewrite !chars_str_of, dropWhile_nonspace.
Qed.

(** *** Attributes *)

Lemma set_pair_forallb P k v l :
  P (k, v) = true → forallb P l = true → forallb P (set_pair k v l) = true.
Proof.
  intros Hk. induction l as [|[k' v'] l IH]; simpl; [by rewrite Hk|].
  intros [H1 H2]%andb_true_iff. destruct (str_eqb k' k); simpl; [by rewrite Hk|].
  rewrite H1. simpl. auto.
Qed.

(** What [el] leaves to its caller: names in lower case and not of the kinds it
    does not look at, and values that are strings where it checks strings. *)
Definition attr_ok (a : string * @attr_arg H) : bool :=
  let '(k, v) := a in
  let url := str_eqb k "href" || str_eqb k "src" in
  match v with
  | AFun _ => startsWith k "on"
  | AVal v =>
      str_eqb (ascii_lowercase k) k && negb (existsb (str_eqb k) unguarded)
      && match v with
         | Str s => negb url || forallb control_ok (chars s)
         | _ => negb (startsWith k "on" || url)
         end
  end.

(** The keys alone settle the matter: no URL, no handler from a value. *)
Definition static_attr (a : string * @attr_arg H) : bool :=
  let '(k, v) := a in
  match v with
  | AFun _ => startsWith k "on"
  | AVal _ =>
      valid_name k && str_eqb (ascii_lowercase k) k && negb (startsWith k "on")
      && negb (existsb (str_eqb k) ("href" :: "src" :: unguarded))
  end.

Definition static_tag (tag : string) : bool :=
  valid_name tag && negb (existsb (str_eqb (ascii_lowercase tag)) active_tags).

Lemma setAttribute_inert n k v n' :
  inert_attr (ascii_lowercase k, v) = true → inert n = true → setAttribute n k v = Ok n' → inert n' = true.
Proof.
  destruct n as [|tag h attrs ls cs]; simpl; [done|]. intros Hk [[Ht Ha]%andb_true_iff Hc]%andb_true_iff Hset.
  apply bind_Ok in Hset as (_ & _ & <-%Ok_inj). simpl. unfold inert_elem.
  by rewrite Ht, Hc, set_pair_forallb.
Qed.

Lemma addEventListener_inert n e f : inert (addEventListener n e f) = inert n.
Proof. by destruct n. Qed.

Lemma appendChild_inert n c : inert n = true → inert c = true → inert (appendChild n c) = true.
Proof.
  destruct n as [|tag h attrs ls cs]; simpl; [done|]. intros [Ht Hc]%andb_true_iff Hn.
  rewrite Ht, forallb_app, Hc. simpl. by rewrite Hn.
Qed.

Lemma inert_value k v :
  attr_ok (k, AVal v) = true →
  startsWith k "on" && (match v with Str _ => true | _ => false end) = false →
  (str_eqb k "href" || str_eqb k "src") && (match v with Str _ => true | _ => false end)
    && startsWith (normalize_url (as_str v)) "javascript:" = false →
  inert_attr (ascii_lowercase k, js_String v) = true.
Proof.
  simpl. intros [[Hl%str_eqb_eq Hu]%andb_true_iff Hv]%andb_true_iff Hon Hurl.
  unfold inert_attr. rewrite Hl. simpl. rewrite Hu.
  destruct v; try (apply negb_true_iff, orb_false_iff in Hv as [-> Hv]; by rewrite Hv).
  rewrite andb_true_r in Hon. rewrite Hon. simpl. simpl in Hurl. rewrite andb_true_r in Hurl.
  destruct (str_eqb k "href" || str_eqb k "src"); [|done]. simpl in *.
  destruct (runs_as_script s) eqn:Hrun; [|done].
  by rewrite (el_check_complete s) in Hurl.
Qed.

Lemma el_attr_inert n a n' :
  attr_ok a = true → inert n = true → el_attr n a = Ok n' → inert n' = true.
Proof.
  destruct a as [k [v|f]]; intros Hok Hn Hel.
  - unfold el_attr in Hel.
    apply bind_Ok in Hel as (_ & Hon%throw_if_Ok & (_ & Hurl%throw_if_Ok & Hel)%bind_Ok).
    pose proof (inert_value k v Hok Hon Hurl) as Hin.
    destruct (str_eqb k "class" || str_eqb k "className"); [by eapply (setAttribute_inert _ "class"); [reflexivity|..]|].
    destruct (is_nullish v); [by simp_res|]. by eapply setAttribute_inert.
  - simpl in *. rewrite Hok in Hel. simp_res. by rewrite addEventListener_inert.
Qed.

Definition inert_child (c : @child_arg H) : bool := match c with CNode n => inert n | _ => true end.

Lemma fold_el_child_inert cs n :
  inert n = true → forallb inert_child cs = true → inert (fold_left el_child cs n) = true.
Proof.
  revert n. induction cs as [|c cs IH]; intros n Hn; [done|]. simpl. intros [Hc Hcs]%andb_true_iff.
  apply IH; [|done]. destruct c; simpl; [by apply appendChild_inert..|done].
Qed.

(** Under those conditions whatever [el] builds is inert. *)
Lemma el_inert tag attrs cs n :
  static_tag tag = true → forallb attr_ok attrs = true → forallb inert_child cs = true →
  el tag attrs cs = Ok n → inert n = true.
Proof.
  intros [_ Ht]%andb_true_iff Ha Hc Hel. unfold el, createElement in Hel.
  apply bind_Ok in Hel as (m & (_ & _ & <-%Ok_inj)%bind_Ok & (m' & Hm' & <-%Ok_inj)%bind_Ok).
  apply fold_el_child_inert; [|done].
  revert Hm'. assert (inert (Element (H:=H) (ascii_lowercase tag) false [] [] []) = true) as Hi 
    by (cbn -[inert_elem]; unfold inert_elem; by rewrite Ht).
  revert Hi. generalize (Element (H:=H) (ascii_lowercase tag) false [] [] []).
  induction attrs as [|a attrs IH]; intros m Hm Hf; simpl in Hf; [by simp_res|].
  apply bind_Ok in Hf as (m1 & Hm1 & Hf). apply andb_true_iff in Ha as [Ha1 Ha2].
  eapply IH; [done| |done]. by eapply el_attr_inert.
Qed.

(** *** Keys fixed in the code

    The calls of the program have literal tags and keys: for them [el] never
    throws, and its element is known. *)

Definition plain_attr (l : list (string * string)) (a : string * @attr_arg H) : list (string * string) :=
  match snd a with
  | AVal v =>
      if is_nullish v && negb (str_eqb (fst a) "class") then l else set_pair (fst a) (js_String v) l
  | AFun _ => l
  end.
Definition listener (a : string * @attr_arg H) : list (string * H) :=
  match snd a with AVal _ => [] | AFun f => [(event_name (fst a), f)] end.
Definition child_node (c : @child_arg H) : list (node H) :=
  match c with CStr s => [TextNode s] | CNode n => [n] | CNull => [] end.

Lemma el_attr_static tag h ats ls cs a :
  static_attr a = true →
  el_attr (Element tag h ats ls cs) a = Ok (Element tag h (plain_attr ats a) (ls ++ listener a) cs).
Proof.
  destruct a as [k [v|f]]; [|simpl; by intros ->].
  unfold static_attr. intros (((Hv & Hl%str_eqb_eq)%andb_true_iff & Hon%negb_true_iff)%andb_true_iff & Hu)%andb_true_iff.
  apply negb_true_iff in Hu. simpl in Hu. apply orb_false_iff in Hu as [Hh [Hs _]%orb_false_iff].
  unfold el_attr, plain_attr, listener. cbn [fst snd]. rewrite Hon, Hh, Hs. simpl.
  assert (str_eqb k "className" = false) as ->.
  { apply not_true_iff_false. intros ->%str_eqb_eq. discriminate Hl. }
  rewrite orb_false_r. destruct (str_eqb k "class") eqn:Hc.
  - apply str_eqb_eq in Hc as ->. by rewrite andb_false_r, app_nil_r.
  - rewrite andb_true_r, app_nil_r. destruct (is_nullish v); [done|]. simpl. rewrite Hv. simpl. by rewrite Hl.
Qed.

Lemma fold_el_child tag h ats ls cs l :
  fold_left (@el_child H) cs (Element tag h ats ls l) = Element tag h ats ls (l ++ mjoin (map child_node cs)).
Proof.
  revert l. induction cs as [|c cs IH]; intros l; simpl; [by rewrite app_nil_r|].
  destruct c; simpl; by rewrite IH, <- ?app_assoc.
Qed.

Lemma el_static tag attrs cs :
  static_tag tag = true → forallb static_attr attrs = true →
  el tag attrs cs
  = Ok (Element (ascii_lowercase tag) false (fold_left plain_attr attrs []) (mjoin (map listener attrs))
          (mjoin (map child_node cs))).
Proof.
  intros [Ht _]%andb_true_iff Ha. unfold el, createElement. rewrite Ht. simpl.
  change (mjoin (map listener attrs)) with ([] ++ mjoin (map listener attrs)).
  generalize (@nil (string * string)) (@nil (string * H)).
  induction attrs as [|a attrs IH]; intros ats ls; simpl.
  - by rewrite fold_el_child, app_nil_r.
  - simpl in Ha. apply andb_true_iff in Ha as [Ha1 Ha2]. rewrite el_attr_static by done. simpl.
    by rewrite IH, <- app_assoc.
Qed.

(** A part of the page that is built, whatever the data in it, and is inert. *)
Definition good (r : res (@child_arg H)) : Prop := ∃ c, r = Ok c ∧ inert_child c = true.

Lemma good_T s : good (T s).
Proof. by exists (CStr s). Qed.

Lemma good_no_child : good no_child.
Proof. by exists CNull. Qed.

Lemma good_mapR cs : Forall good cs → ∃ l, mapR id cs = Ok l ∧ forallb inert_child l = true.
Proof.
  induction 1 as [|r cs (c & -> & Hc) _ (l & Hl & Hin)]; [by exists []|].
  exists (c :: l). simpl. rewrite Hl. simpl. by rewrite Hc.
Qed.

Lemma static_attr_ok a : static_attr a = true → attr_ok a = true.
Proof.
  destruct a as [k [v|f]]; [|done]. unfold static_attr, attr_ok.
  intros (((_ & ->)%andb_true_iff & Hon%negb_true_iff)%andb_true_iff & Hu%negb_true_iff)%andb_true_iff.
  simpl in Hu. apply orb_false_iff in Hu as [-> [-> Hu]%orb_false_iff].
  rewrite Hon. simpl existsb. rewrite Hu. by destruct v.
Qed.

Lemma good_E tag attrs cs :
  static_tag tag = true → forallb static_attr attrs = true → Forall good cs → good (E tag attrs cs).
Proof.
  intros Ht Ha (l & Hl & Hin)%good_mapR. unfold E. rewrite Hl. simpl.
  destruct (el tag attrs l) as [n|e] eqn:Hel; [|by rewrite el_static in Hel].
  exists (CNode n). split; [done|]. simpl. eapply el_inert; [done| |done|done].
  clear -Ha. induction attrs as [|a attrs IH]; [done|]. simpl in *.
  apply andb_true_iff in Ha as [Ha1 Ha2]. by rewrite static_attr_ok, IH.
Qed.

Lemma good_skeleton lines className : good (skeleton lines className).
Proof.
  unfold skeleton. assert (∃ row, skeleton_row className = Ok row ∧ inert row = true) as (row & Hrow & Hin).
  { unfold skeleton_row. rewrite el_static by done. eexists. split; [reflexivity|]. by destruct (negb _). }
  revert Hrow. generalize (skeleton_row className) as r. intros r ->.
  assert (∃ rows, mapR (λ _ : nat, Ok row) (seq 0 lines) = Ok rows
                  ∧ forallb inert_child (map CNode rows) = true) as (rows & -> & Hrows).
  { generalize 0%nat as k. induction lines as [|m IH]; intros k; [by exists []|].
    destruct (IH (S k)) as (rows & Hr & Hf). exists (row :: rows). cbn [seq mapR]. simpl. rewrite Hr.
    simpl. by rewrite Hin. }
  set (ats := [cls "skeleton"; att "role" "status"; att "aria-label" "Loading"]).
  change (good (n ← el "div" ats (map CNode rows); Ok (CNode n))).
  destruct (el "div" ats (map CNode rows)) as [n|] eqn:Hel; [|by rewrite el_static in Hel].
  exists (CNode n). split; [done|]. by eapply (el_inert "div" ats).
Qed.

Lemma good_txStatus s t :
  s ∈ ["pending"; "confirmed"; "timeout"] → good (txStatus s t).
Proof.
  intros Hs. unfold txStatus.
  assert (∃ label, assoc s TX_STATUS_LABELS = Some label) as [label ->].
  { rewrite !elem_of_cons in Hs. destruct Hs as [->|[->|[->|Hs]]]; [by eexists..|]. by apply not_elem_of_nil in Hs. }
  repeat (apply good_E || constructor || apply good_T || reflexivity).
Qed.

Lemma good_staleNotice v : good (staleNotice v).
Proof. repeat (apply good_E || constructor || apply good_T || reflexivity). Qed.

(** *** Text *)

Definition child_text (c : @child_arg H) : string :=
  match c with CStr s => s | CNode n => textContent n | CNull => EmptyString end.

Lemma el_attr_children n a n' : el_attr n a = Ok n' → children n' = children n.
Proof.
  assert (∀ k v, setAttribute n k v = Ok n' → children n' = children n) as Hset.
  { intros k v. destruct n; simpl; [done|]. intros Hs. by simp_res. }
  destruct a as [k [v|f]]; unfold el_attr; intros Hel.
  - apply bind_Ok in Hel as (_ & _ & (_ & _ & Hel)%bind_Ok). case_in Hel; simp_res; eauto.
  - case_in Hel; simp_res; eauto. by destruct n.
Qed.

Lemma el_children tag attrs cs n :
  el tag attrs cs = Ok n → ∃ t h a l, n = Element t h a l (mjoin (map child_node cs)).
Proof.
  intros Hel. apply bind_Ok in Hel as (m & Hm & (m' & Hm' & <-%Ok_inj)%bind_Ok).
  assert (∃ t h a l, m' = Element t h a l []) as (t & h & a & l & ->).
  { assert (∃ t h a l, m = Element t h a l []) as Hm0 by (unfold createElement in Hm; simp_res; by repeat eexists).
    clear Hm. revert m Hm0 Hm'. induction attrs as [|x attrs IH]; intros m Hm0 Hf; simpl in Hf; [by simp_res|].
    apply bind_Ok in Hf as (m1 & Hm1 & Hf). apply (IH m1); [|done].
    pose proof (el_attr_children _ _ _ Hm1) as Hc. destruct Hm0 as (t & h & a & l & ->).
    destruct m1 as [s|]; simpl in Hc; [|subst; by repeat eexists].
    destruct x as [k [v|f]]; unfold el_attr in Hm1.
    - apply bind_Ok in Hm1 as (_ & _ & (_ & _ & Hm1)%bind_Ok). case_in Hm1; simpl in Hm1; by simp_res.
    - case_in Hm1; simpl in Hm1; by simp_res. }
  exists t, h, a, l. by rewrite fold_el_child.
Qed.

Lemma textContent_app l l' :
  foldr (λ c acc, textContent c +:+ acc) EmptyString (l ++ l')
  = foldr (λ c acc, textContent c +:+ acc) EmptyString l +:+ foldr (λ c acc, @textContent H c +:+ acc) EmptyString l'.
Proof. induction l as [|c l IH]; [done|]. simpl. rewrite IH. apply chars_inj. by rewrite !chars_app, app_assoc. Qed.

(** The text of an element is the text of its children, in order and as it was
    given: nothing is parsed, escaped or dropped. *)
Lemma el_text tag attrs cs n :
  el tag attrs cs = Ok n → textContent n = foldr (λ c acc, child_text c +:+ acc) EmptyString cs.
Proof.
  intros (t & h & a & l & ->)%el_children. simpl.
  induction cs as [|c cs IH]; [done|]. simpl. rewrite textContent_app, IH. f_equal.
  destruct c as [s|m|]; simpl; apply chars_inj; by rewrite ?chars_app, ?app_nil_r.
Qed.

(** *** The texts of a part, in document order *)

Fixpoint texts (n : node H) : list string :=
  match n with TextNode s => [s] | Element _ _ _ _ cs => mjoin (map texts cs) end.
Definition part_texts (r : res (@child_arg H)) : list string :=
  match r with Ok (CStr s) => [s] | Ok (CNode n) => texts n | _ => [] end.

Lemma texts_children cs l :
  mapR id cs = Ok l → mjoin (map texts (mjoin (map child_node l))) = mjoin (map part_texts cs).
Proof.
  revert l. induction cs as [|r cs IH]; intros l Hl; simpl in Hl; [by simp_res|].
  apply bind_Ok in Hl as (c & Hc & (l' & Hl'%IH & <-%Ok_inj)%bind_Ok). unfold id in Hc. subst r.
  simpl. rewrite map_app, mjoin_app, Hl'. f_equal. destruct c; simpl; by rewrite ?app_nil_r.
Qed.

Lemma part_texts_E tag attrs cs :
  static_tag tag = true → forallb static_attr attrs = true → Forall good cs →
  part_texts (E tag attrs cs) = mjoin (map part_texts cs).
Proof.
  intros Ht Ha (l & Hl & _)%good_mapR. unfold E. rewrite Hl. simpl.
  destruct (el tag attrs l) as [n|e] eqn:Hel; [|by rewrite el_static in Hel]. simpl.
  apply el_children in Hel as (t & h & a & ls & ->). simpl. by apply texts_children.
Qed.

(** *** Filling a held element, clearing *)

Lemma fill_inert f n :
  (∀ cs, forallb inert cs = true → forallb inert (f cs) = true) → inert n = true → inert (fill f n) = true.
Proof.
  intros Hf. induction n as [s|tag h ats ls cs IH] using node_rect'; [done|]. simpl.
  intros [Ht Hc]%andb_true_iff. destruct h; simpl; rewrite Ht; simpl; [auto|].
  induction IH as [|c cs Hc1 _ IHcs]; [done|]. simpl in *. apply andb_true_iff in Hc as [Hc Hcs].
  by rewrite Hc1, IHcs.
Qed.

Lemma hold_inert n : inert (hold n) = inert n.
Proof. by destruct n. Qed.

Lemma clear_loop_nil k (cs : list (node H)) : (length cs ≤ k)%nat → clear_loop k cs = [].
Proof.
  revert cs. induction k as [|k IH]; intros [|c cs] Hl; simpl in *; try done; [lia|].
  apply IH. rewrite length_take. simpl. lia.
Qed.

(** [clear] leaves no child behind, so a screen rendered twice is there once. *)
Lemma clear_empty n : children (clear n) = [].
Proof.
  unfold clear. rewrite clear_loop_nil by done. by destruct n.
Qed.

(** C33 An element built by [el] with lower-case attribute names outside the
    kinds [el] does not look at, string values wherever it checks strings, and
    URLs free of control characters, carries nothing the browser would run: no
    inline handler and no script URL, in it or below it, whatever the strings;
    and its text is exactly the text it was given. *)
Theorem el_safe tag attrs cs n :
  static_tag tag = true → forallb attr_ok attrs = true → forallb inert_child cs = true →
  el tag attrs cs = Ok n →
  inert n = true ∧ textContent n = foldr (λ c acc, child_text c +:+ acc) EmptyString cs.
Proof. intros Ht Ha Hc Hel. split; [by eapply el_inert|by eapply el_text]. Qed.
End facts.

(** *** A property of every element of a tree *)

Section all.
Context {H : Type} `{!Page H} (P : bool → string → list (string * string) → list (string * H) → bool).

Fixpoint node_all (n : node H) : bool :=
  match n with
  | TextNode _ => true
  | Element tag h attrs ls cs => P h tag attrs ls && forallb node_all cs
  end.

Definition part_all (r : res (@child_arg H)) : Prop := ∀ n, r = Ok (CNode n) → node_all n = true.

Lemma part_all_T s : part_all (T s).
Proof. done. Qed.

Lemma part_all_no_child : part_all no_child.
Proof. done. Qed.

Lemma part_all_throw e : part_all (Throw e).
Proof. done. Qed.

Lemma part_all_bind {A} (m : res A) f : (∀ a, m = Ok a → part_all (f a)) → part_all (m ≫= f).
Proof. intros Hf n (a & Hm & Ha)%bind_Ok. by eapply Hf. Qed.

Lemma part_all_children cs l :
  Forall part_all cs → mapR id cs = Ok l → forallb node_all (mjoin (map child_node l)) = true.
Proof.
  intros Hcs. revert l. induction Hcs as [|r cs Hr _ IH]; intros l Hl; simpl in Hl; [by simp_res|].
  apply bind_Ok in Hl as (c & Hc & (l' & Hl' & <-%Ok_inj)%bind_Ok). simpl. rewrite forallb_app, (IH l' Hl').
  unfold id in Hc. subst r. destruct c as [s|n|]; simpl; [done| |done]. by rewrite (Hr n).
Qed.

Lemma part_all_E tag attrs cs :
  static_tag tag = true → forallb static_attr attrs = true →
  P false (ascii_lowercase tag) (fold_left plain_attr attrs []) (mjoin (map listener attrs)) = true →
  Forall part_all cs → part_all (E tag attrs cs).
Proof.
  intros Ht Ha HP Hcs n (l & Hl & (m & Hm & Heq)%bind_Ok)%bind_Ok. injection Heq as <-.
  rewrite el_static in Hm by done. injection Hm as <-. simpl. rewrite HP. simpl. by eapply part_all_children.
Qed.

Lemma part_all_skeleton lines className :
  (∀ s, P false "div" [("class", s); ("aria-hidden", "true")] [] = true) →
  P false "div" [("class", "skeleton"); ("role", "status"); ("aria-label", "Loading")] [] = true →
  part_all (skeleton lines className).
Proof.
  intros Hrow Hbox n (rows & Hrows & (m & Hm & Heq)%bind_Ok)%bind_Ok. injection Heq as <-.
  rewrite el_static in Hm by done. injection Hm as <-. cbn [node_all]. apply andb_true_iff. split; [exact Hbox|].
  apply mapR_Ok in Hrows. induction Hrows as [|k row ks rows Hk _ IH]; [done|]. simpl. rewrite IH, andb_true_r.
  unfold skeleton_row in Hk. rewrite el_static in Hk by done. injection Hk as <-. cbn [node_all forallb map mjoin].
  apply andb_true_iff. split; [apply Hrow|done].
Qed.

Lemma fill_all f n :
  (∀ cs, forallb node_all (f cs) = true) → node_all n = true → node_all (fill f n) = true.
Proof.
  intros Hf. induction n as [s|tag h ats ls cs IH] using node_rect'; [done|]. simpl.
  intros [HP Hc]%andb_true_iff. destruct h; simpl; rewrite HP; simpl; [auto|].
  induction IH as [|c cs Hc1 _ IHcs]; [done|]. simpl in *. apply andb_true_iff in Hc as [Hc Hcs].
  by rewrite Hc1, IHcs.
Qed.

(** What holds of every element makes the tree inert if it makes the element
    inert. *)
Lemma node_all_inert n :
  (∀ h tag attrs ls, P h tag attrs ls = true → inert_elem tag attrs = true) → node_all n = true → inert n = true.
Proof.
  intros HP. induction n as [s|tag h ats ls cs IH] using node_rect'; [done|]. simpl.
  intros [Hn%HP Hc]%andb_true_iff. rewrite Hn. simpl.
  induction IH as [|c cs Hc1 _ IHcs]; [done|]. simpl in *. apply andb_true_iff in Hc as [Hc Hcs]. by rewrite Hc1, IHcs.
Qed.

Lemma hold_all n : (∀ tag attrs ls, P true tag attrs ls = P false tag attrs ls) → node_all (hold n) = node_all n.
Proof. intros HP. destruct n as [|tag [] attrs ls cs]; simpl; by rewrite ?HP. Qed.

(** Where nothing is held there is nothing to fill. *)
Lemma fill_unheld f n :
  (∀ tag attrs ls, P true tag attrs ls = false) → node_all n = true → fill f n = n.
Proof.
  intros HP. induction n as [s|tag h ats ls cs IH] using node_rect'; [done|]. simpl.
  destruct h; [by rewrite HP|]. intros [_ Hc]%andb_true_iff. f_equal.
  induction IH as [|c cs Hc1 _ IHcs]; [done|]. simpl in *. apply andb_true_iff in Hc as [Hc Hcs]. by rewrite Hc1, IHcs.
Qed.
End all.

#[local] Instance numbered_page : Page nat :=
  {| glyph := λ _, "?"; fn_source := λ _, "function"; toLocaleString := λ _, "0" |}.

Lemma el_safe_witness :
  ∃ n, el "a" [("href", AVal (Str "/orders")); on "onClick" 3%nat] [CStr "<img onerror=alert(1)>"] = Ok n
       ∧ inert n = true ∧ textContent n = "<img onerror=alert(1)>".
Proof.
  eexists. split; [reflexivity|].
  apply (el_safe "a" [("href", AVal (Str "/orders")); on "onClick" 3%nat] [CStr "<img onerror=alert(1)>"]);
    vm_compute; reflexivity.
Defined.

(** ** What the checks of [el] let through *)

(** The name of the attribute is compared before the document lowers its case. *)
Example el_case_hole :
  match el "button" [("ONCLICK", AVal (Str "alert(1)"))] [] : res (node nat),
        el "a" [("HREF", AVal (Str "javascript:alert(1)"))] [] : res (node nat) with
  | Ok n, Ok m =>
      n = Element "button" false [("onclick", "alert(1)")] [] []
      ∧ m = Element "a" false [("href", "javascript:alert(1)")] [] [] ∧ inert n = false ∧ inert m = false
  | _, _ => False
  end.
Proof. by vm_compute. Qed.

(** The URL parser skips leading control characters that are not white space. *)
Example el_control_hole :
  match el "a" [("href", AVal (Str (str_of (chr 1 :: chars "javascript:alert(1)"))))] [] : res (node nat) with
  | Ok n => inert n = false
  | Throw _ => False
  end.
Proof. by vm_compute. Qed.

(** Only strings are checked; other values are turned into strings afterwards. *)
Example el_value_hole :
  match el "a" [("href", AVal (Arr [Str "javascript:alert(1)"]))] [] : res (node nat) with
  | Ok n => inert n = false
  | Throw _ => False
  end.
Proof. by vm_compute. Qed.

(** A second [on] is taken off the event's name. *)
Example el_event_hole : event_name "onOnline" = "line" ∧ event_name "onClick" = "click".
Proof. by vm_compute. Qed.
