(* ===== verification/Qrscan.v ===== *)
(** * Qrscan: [contrib/uap-web/qrscan.js], and [runAddressScan] of [app.js]

    Reading an address off a QR code.  [parseScannedAddress] is the function of
    the source.  [scanAddressFromCamera] is an executable machine: a phase for
    each [await] of the code, and an input for each way the awaited promise can
    settle, the user's Cancel ([abort]) included; [finish] is the [finally]
    block.

    The theorems: what an accepted address is, and that every way a wallet may
    print an address is read back; that the camera is off whenever the scan has
    settled, however it ended; that a cancelled scan settles with the next thing
    that happens. *)

From stdpp Require Import base tactics option list numbers strings.
From Stdlib Require Import ZArith Lia Ascii.
From S2P Require Import Prelude JsInt JsStr JsNum JsVal Radix Addr Mnemonic.

(** ** The scanned text *)

Definition knownVersionBytes (network : option string) : list Z :=
  match network with
  | Some n =>
      if str_eqb n EmptyString then map (λ v, PUBKEY_ADDRESS v.2) VERSIONS
      else match assoc n VERSIONS with
           | None => []
           | Some v => [PUBKEY_ADDRESS v]
           end
  | None => map (λ v, PUBKEY_ADDRESS v.2) VERSIONS
  end.

(** The match of [/^whippet:/i]: what follows the prefix. *)
Definition strip_uri_prefix (s : string) : option string :=
  let l := chars s in
  if bool_decide (map lower (take 8 l) = chars "whippet:") then Some (str_of (drop 8 l)) else None.

Definition candidate_of (raw : string) : string :=
  let candidate := trim raw in
  match strip_uri_prefix candidate with
  | Some candidate =>
      let queryIdx := indexOf candidate "?"%char in
      let candidate := if negb (queryIdx =? -1) then str_of (take (Z.to_nat queryIdx) (chars candidate)) else candidate in
      trim candidate
  | None => candidate
  end.

(** [inl address] for [{ok: true, address}], [inr error] for [{ok: false, error}]. *)
Definition parseScannedAddress (raw : jsval) (network : option string) : string + string :=
  match raw with
  | Str raw =>
      let candidate := candidate_of raw in
      if str_eqb candidate EmptyString then inr "No address found in scanned code"
      else
        match base58checkDecode candidate with
        | Throw _ => inr "Scanned code is not a valid Whippet address"
        | Ok decoded =>
            let allowed := knownVersionBytes network in
            if negb (existsb (Z.eqb (version decoded)) allowed) then
              let isScriptAddress := existsb (λ v, SCRIPT_ADDRESS v.2 =? version decoded) VERSIONS in
              if isScriptAddress then
                inr "P2SH addresses are not supported by this wallet; ask for a regular (pay-to-pubkey-hash) address"
              else inr (match network with
                        | Some n => if str_eqb n EmptyString then "Scanned address has an unrecognized version byte"
                                    else "Scanned address is not a valid " +:+ n +:+ " address"
                        | None => "Scanned address has an unrecognized version byte"
                        end)
            else inl candidate
        end
  | _ => inr "Scanned code did not contain text"
  end.

(** ** The scan *)

Record js_error := JsError { err_name : string; err_message : string }.
Definition makeAbortError : js_error := JsError "AbortError" "Scan cancelled".
Definition js_err (msg : string) : js_error := JsError "Error" msg.

(** The arguments of [scanAddressFromCamera] that decide its course. *)
Record scan_opts := ScanOpts {
  has_video : bool;
  has_play : bool;  (** [typeof video.play === 'function'] *)
  detectorImpl : bool;  (** [typeof detectorImpl === 'function'] *)
  getUserMediaImpl : bool;
  detector_throws : option js_error;  (** what [new detectorImpl({formats})] throws *)
  scan_network : option string
}.

Definition isScanSupported (detectorImpl getUserMediaImpl : bool) : bool := detectorImpl && getUserMediaImpl.

(** A media stream: whether it has [getTracks], and which of its tracks are live. *)
Record stream := Stream { getTracks : bool; tracks : list bool }.

Inductive outcome := Resolved (address : string) | Rejected (e : js_error).
Inductive phase := AwaitCamera | AwaitPlay | AwaitDetect | AwaitTimer | Settled (o : outcome).

Record scan := Scan {
  at_phase : phase;
  aborted : bool;  (** [signal.aborted] *)
  camera : option stream;  (** the variable [stream] *)
  srcObject : bool  (** the video shows the stream *)
}.

Inductive scan_event :=
| Granted (s : stream) | Denied (e : js_error)
| Played | PlayFailed (e : js_error)
| Detected (codes : jsval) | DetectFailed (e : js_error)
| TimerFired | Abort.

Definition stop_tracks (s : stream) : stream :=
  if getTracks s then Stream (getTracks s) (map (λ _, false) (tracks s)) else s.

(** The [finally] block. *)
Definition finish (o : outcome) (s : scan) : scan :=
  Scan (Settled o) (aborted s) (stop_tracks <$> camera s) false.

Definition enter (p : phase) (s : scan) : scan := Scan p (aborted s) (camera s) (srcObject s).

(** [wait(ms, signal)]: refused if the signal has fired, and otherwise until the timer or the signal does
    ([TimerFired] and [Abort] of [scan_step]). *)
Definition wait (s : scan) : scan :=
  if aborted s then finish (Rejected makeAbortError) s else enter AwaitTimer s.

Section machine.
Context (opts : scan_opts).

(** The head of the loop. *)
Definition loop_head (s : scan) : scan :=
  if aborted s then finish (Rejected makeAbortError) s else enter AwaitDetect s.

(** The code after [play()]. *)
Definition start_detector (s : scan) : scan :=
  match detector_throws opts with
  | Some e => finish (Rejected e) s
  | None => loop_head s
  end.

(** The code after [detect()]: [codes && codes.length > 0]. *)
Definition handle_codes (codes : jsval) (s : scan) : scan :=
  match codes with
  | Arr (c :: _) =>
      match get c "rawValue" with
      | Throw e => finish (Rejected (JsError "TypeError" e)) s
      | Ok raw =>
          match parseScannedAddress raw (scan_network opts) with
          | inr e => finish (Rejected (js_err e)) s
          | inl a => finish (Resolved a) s
          end
      end
  | _ => wait s
  end.

Definition scan_step (e : scan_event) (s : scan) : scan :=
  match at_phase s, e with
  | AwaitCamera, Granted st =>
      let s := Scan AwaitCamera (aborted s) (Some st) (srcObject s) in
      if aborted s then finish (Rejected makeAbortError) s
      else
        let s := Scan AwaitPlay (aborted s) (Some st) true in
        if has_play opts then s else start_detector s
  | AwaitCamera, Denied e => finish (Rejected e) s
  | AwaitPlay, Played => start_detector s
  | AwaitPlay, PlayFailed e => finish (Rejected e) s
  | AwaitDetect, Detected codes => handle_codes codes s
  | AwaitDetect, DetectFailed e => finish (Rejected e) s
  | AwaitTimer, TimerFired => loop_head s
  | AwaitTimer, Abort => finish (Rejected makeAbortError) (Scan AwaitTimer true (camera s) (srcObject s))
  | p, Abort => Scan p true (camera s) (srcObject s)
  | _, _ => s
  end.

(** The synchronous part of the call: checks before the [try]. *)
Definition scanAddressFromCamera (signal_aborted : bool) : scan :=
  let refuse e := Scan (Settled (Rejected e)) signal_aborted None false in
  if negb (has_video opts) then refuse (js_err "scanAddressFromCamera requires a video element")
  else if negb (isScanSupported (detectorImpl opts) (getUserMediaImpl opts)) then
    refuse (js_err "QR scanning is not supported in this environment")
  else if signal_aborted then refuse makeAbortError
  else Scan AwaitCamera signal_aborted None false.

Definition scan_run (s : scan) (es : list scan_event) : scan := fold_left (λ s e, scan_step e s) es s.
End machine.

(** [runAddressScan]: [ScanOk], [ScanCancelled] or [ScanError], once settled. *)
Inductive scan_result := ScanOk (address : string) | ScanCancelled | ScanError (error : string).

Definition runAddressScan (o : outcome) : scan_result :=
  match o with
  | Resolved address => ScanOk address
  | Rejected e =>
      if str_eqb (err_name e) "AbortError" then ScanCancelled
      else ScanError (if str_eqb (err_message e) EmptyString then err_name e else err_message e)
  end.

(** ** The text of an address *)

Definition plain_char (c : ascii) : bool :=
  negb (is_space c) && negb (Ascii.eqb c "?"%char) && negb (Ascii.eqb (lower c) ":"%char).

Lemma base58_char_plain d : is_digit 58 d → plain_char (base58_char d) = true.
Proof.
  intros Hd.
  assert (forallb (λ d, plain_char (base58_char d)) (seqZ 0 58) = true) as H by (vm_compute; reflexivity).
  rewrite forallb_forall in H. apply H, list_elem_of_In, elem_of_seqZ. unfold is_digit in Hd. lia.
Qed.

Lemma address_plain h v :
  is_byte v → is_bytes h → Forall (λ c, plain_char c = true) (chars (base58checkEncode h v)).
Proof.
  intros Hv Hh.
  assert (base58checkDecode (base58checkEncode h v) = Ok (Decoded v h)) as Hd by by apply base58checkDecode_spec.
  revert Hd. generalize (base58checkEncode h v) as s. intros s (d & Hd & _)%bind_Ok.
  apply bind_Ok in Hd as (n & (ds & Hds & Hdig & _)%decode_digits_inv & _).
  destruct (count_leading_spec "1"%char (chars s)) as [-> _]. apply Forall_app. split.
  - apply Forall_replicate. vm_compute; reflexivity.
  - rewrite Hds. apply Forall_map. eapply Forall_impl; [done|]. apply base58_char_plain.
Qed.

Lemma plain_solid l : Forall (λ c, plain_char c = true) l → starts_solid l.
Proof. intros [|c k Hc _]; simpl; [done|]. unfold plain_char in Hc. by simp_res. Qed.

Lemma plain_ends l : Forall (λ c, plain_char c = true) l → ends_solid l.
Proof. intros Hl. apply plain_solid, Forall_reverse, Hl. Qed.

Lemma trim_start_app sp l : Forall (λ c, is_space c = true) sp → trim_start (sp ++ l) = trim_start l.
Proof. induction 1 as [|c sp Hc _ IH]; [done|]. simpl. by rewrite Hc. Qed.

(** [trim] takes white space off both ends of anything solid. *)
Lemma trim_pad sp l sp' :
  Forall (λ c, is_space c = true) sp → Forall (λ c, is_space c = true) sp' →
  l ≠ [] → starts_solid l → ends_solid l → trim (str_of (sp ++ l ++ sp')) = str_of l.
Proof.
  intros Hsp Hsp' Hne Hs He. unfold trim. rewrite chars_str_of, trim_start_app by done.
  rewrite (trim_start_solid (l ++ sp')) by (by destruct l).
  rewrite reverse_app, trim_start_app by (by apply Forall_reverse).
  rewrite (trim_start_solid (reverse l)) by done. by rewrite reverse_involutive.
Qed.

Lemma index_from_app c l r i :
  Forall (λ d, Ascii.eqb c d = false) l → index_from i c (l ++ c :: r) = i + zlen l.
Proof.
  intros Hl. revert i. induction Hl as [|d l Hd Hl IH]; intros i; simpl.
  - rewrite Ascii.eqb_refl. lia.
  - rewrite Hd, IH. lia.
Qed.

Lemma index_from_absent c l i : Forall (λ d, Ascii.eqb c d = false) l → index_from i c l = -1.
Proof. intros Hl. revert i. induction Hl as [|d l Hd Hl IH]; intros i; simpl; [done|]. by rewrite Hd. Qed.

(** No plain text has the prefix of a URI. *)
Lemma plain_no_prefix l : Forall (λ c, plain_char c = true) l → strip_uri_prefix (str_of l) = None.
Proof.
  intros Hl. unfold strip_uri_prefix. rewrite chars_str_of. rewrite bool_decide_eq_false_2; [done|].
  intros Heq. assert (map lower (take 8 l) !! 7%nat = Some ":"%char) as H7 by by rewrite Heq.
  rewrite list_lookup_fmap in H7. destruct (take 8 l !! 7%nat) as [c|] eqn:Hc; simplify_eq/=.
  apply (Forall_take _ 8), Forall_lookup_1 with (i := 7%nat) (x := c) in Hl; [|done].
  unfold plain_char in Hl. rewrite H7 in Hl. by rewrite andb_false_r in Hl.
Qed.

Lemma candidate_plain sp l sp' :
  Forall (λ c, is_space c = true) sp → Forall (λ c, is_space c = true) sp' →
  l ≠ [] → Forall (λ c, plain_char c = true) l → candidate_of (str_of (sp ++ l ++ sp')) = str_of l.
Proof.
  intros Hsp Hsp' Hne Hl. unfold candidate_of.
  rewrite trim_pad by auto using plain_solid, plain_ends. by rewrite plain_no_prefix.
Qed.

Lemma trim_start_mid l c k : is_space c = false → ∃ l', trim_start (l ++ c :: k) = l' ++ c :: k.
Proof.
  intros Hc. induction l as [|d l [l' IH]]; simpl.
  - rewrite Hc. by exists [].
  - destruct (is_space d); [by exists l'|]. by exists (d :: l).
Qed.

(** What [trim] leaves of a text with a solid character in it. *)
Lemma trim_mid sp l c r :
  Forall (λ c, is_space c = true) sp → starts_solid (l ++ [c]) → is_space c = false →
  ∃ r', trim (str_of (sp ++ l ++ c :: r)) = str_of (l ++ c :: r').
Proof.
  intros Hsp Hs Hc. unfold trim. rewrite chars_str_of, trim_start_app by done.
  rewrite (trim_start_solid (l ++ c :: r)) by (by destruct l).
  rewrite reverse_app, reverse_cons, <- app_assoc. simpl.
  destruct (trim_start_mid (reverse r) c (reverse l) Hc) as [r' ->].
  exists (reverse r'). by rewrite reverse_app, reverse_cons, reverse_involutive, <- app_assoc.
Qed.

Lemma prefix_head_solid c : negb (Ascii.eqb (lower c) "w"%char) || negb (is_space c) = true.
Proof. destruct c as [[] [] [] [] [] [] [] []]; vm_compute; reflexivity. Qed.

Lemma prefix_solid p l : map lower p = chars "whippet:" → starts_solid (p ++ l).
Proof.
  destruct p as [|c p]; [done|]. simpl. intros [= Hc _]. pose proof (prefix_head_solid c) as H.
  rewrite Hc in H. simpl in H. by apply negb_true_iff.
Qed.

Lemma strip_prefix_uri p l :
  map lower p = chars "whippet:" → strip_uri_prefix (str_of (p ++ l)) = Some (str_of l).
Proof.
  intros Hp. assert (length p = 8%nat) as Hlen by by rewrite <- (length_map lower), Hp.
  unfold strip_uri_prefix. rewrite chars_str_of, take_app_length' by done.
  rewrite bool_decide_eq_true_2 by done. by rewrite drop_app_length'.
Qed.

Lemma no_query sp l sp' :
  Forall (λ c, is_space c = true) sp → Forall (λ c, plain_char c = true) l →
  Forall (λ c, is_space c = true) sp' → Forall (λ d, Ascii.eqb "?"%char d = false) (sp ++ l ++ sp').
Proof.
  assert (∀ k, Forall (λ c, is_space c = true) k → Forall (λ d, Ascii.eqb "?"%char d = false) k) as Hspace.
  { intros k Hk. eapply Forall_impl; [done|]. intros c Hc. apply Ascii.eqb_neq. by intros <-. }
  intros Hsp Hl Hsp'. rewrite !Forall_app. split_and!; [auto| |auto].
  eapply Forall_impl; [done|]. intros c Hc. unfold plain_char in Hc. simp_res. by rewrite Ascii.eqb_sym.
Qed.

(** A [whippet:] URI in any case, blanks around the address, then nothing or a
    query. *)
Lemma candidate_uri sp p sp1 l sp2 q :
  Forall (λ c, is_space c = true) sp → Forall (λ c, is_space c = true) sp1 → Forall (λ c, is_space c = true) sp2 →
  map lower p = chars "whippet:" → l ≠ [] → Forall (λ c, plain_char c = true) l →
  q = [] ∨ (∃ q', q = "?"%char :: q') →
  candidate_of (str_of (sp ++ p ++ sp1 ++ l ++ sp2 ++ q)) = str_of l.
Proof.
  intros Hsp Hsp1 Hsp2 Hp Hne Hl [->|[q' ->]]; unfold candidate_of.
  - rewrite app_nil_r. replace (sp ++ p ++ sp1 ++ l ++ sp2) with (sp ++ (p ++ sp1 ++ l) ++ sp2) by by rewrite <- !app_assoc.
    rewrite trim_pad; [|done..|by destruct p|by apply prefix_solid|].
    2: { unfold ends_solid. rewrite !reverse_app, <- app_assoc. apply plain_ends in Hl. unfold ends_solid in Hl.
         destruct (reverse l) eqn:E; [by apply (f_equal reverse) in E; rewrite reverse_involutive in E|done]. }
    rewrite strip_prefix_uri by done. unfold indexOf. rewrite chars_str_of.
    pose proof (no_query sp1 l [] Hsp1 Hl ltac:(constructor)) as Hq. rewrite app_nil_r in Hq.
    rewrite index_from_absent by done. simpl. rewrite <- (app_nil_r l) at 1.
    by apply trim_pad; auto using plain_solid, plain_ends.
  - replace (sp ++ p ++ sp1 ++ l ++ sp2 ++ "?"%char :: q')
      with (sp ++ (p ++ sp1 ++ l ++ sp2) ++ "?"%char :: q') by by rewrite <- !app_assoc.
    destruct (trim_mid sp (p ++ sp1 ++ l ++ sp2) "?"%char q') as [r' ->]; [done| |done|].
    { rewrite <- app_assoc. by apply prefix_solid. }
    rewrite <- app_assoc, strip_prefix_uri by done. unfold indexOf. rewrite chars_str_of.
    rewrite index_from_app by by apply no_query. rewrite (proj2 (Z.eqb_neq _ _)) by lia. simpl.
    rewrite Z.add_0_l, Nat2Z.id, take_app_length. by apply trim_pad; auto using plain_solid, plain_ends.
Qed.

(** ** What is accepted *)

Lemma parse_inl raw net a :
  parseScannedAddress (Str raw) net = inl a
  ↔ candidate_of raw = a ∧ ∃ v h, is_byte v ∧ is_bytes h ∧ base58checkEncode h v = a ∧ v ∈ knownVersionBytes net.
Proof.
  unfold parseScannedAddress. generalize (candidate_of raw) as cand. intros cand.
  destruct (str_eqb cand EmptyString) eqn:Hne.
  - apply str_eqb_eq in Hne as ->. split; [done|]. intros (<- & v & h & Hv & Hh & Heq & _).
    assert (base58checkDecode EmptyString = Ok (Decoded v h)) as Hd by by apply base58checkDecode_spec.
    by vm_compute in Hd.
  - destruct (base58checkDecode cand) as [[v h]|e] eqn:Hd.
    + apply base58checkDecode_spec in Hd as (Hv & Hh & Heq). cbn [version].
      destruct (existsb (Z.eqb v) (knownVersionBytes net)) eqn:He; simpl.
      * apply existsb_exists in He as (x & Hx%list_elem_of_In & ->%Z.eqb_eq). split; [|naive_solver].
        intros [= <-]. split; [done|]. by exists x, h.
      * split; [by case_match|]. intros (<- & v' & h' & Hv' & Hh' & Heq' & Hin). exfalso.
        assert (base58checkDecode cand = Ok (Decoded v h)) as H1 by by apply base58checkDecode_spec.
        assert (base58checkDecode cand = Ok (Decoded v' h')) as H2 by by apply base58checkDecode_spec.
        rewrite H1 in H2. simplify_eq. apply not_true_iff_false in He. apply He, existsb_exists.
        exists v'. split; [by apply list_elem_of_In|apply Z.eqb_refl].
    + split; [done|]. intros (<- & v & h & Hv & Hh & Heq & _).
      assert (base58checkDecode cand = Ok (Decoded v h)) as H1 by by apply base58checkDecode_spec.
      congruence.
Qed.

Lemma known_versions n v : assoc n VERSIONS = Some v → n ≠ EmptyString → knownVersionBytes (Some n) = [PUBKEY_ADDRESS v].
Proof.
  intros Hn Hne. unfold knownVersionBytes. rewrite Hn. destruct (str_eqb n EmptyString) eqn:E; [|done].
  by apply str_eqb_eq in E.
Qed.

Lemma versions_bytes n v : assoc n VERSIONS = Some v → is_byte (PUBKEY_ADDRESS v) ∧ n ≠ EmptyString.
Proof.
  unfold VERSIONS. cbn [assoc]. intros H.
  repeat case_match; simplify_eq; try (split; [unfold is_byte; cbn; lia|]); intros ->; discriminate.
Qed.

(** A text whose candidate is an address of the network is accepted. *)
Lemma parse_candidate raw n v h :
  assoc n VERSIONS = Some v → is_bytes h → candidate_of raw = base58checkEncode h (PUBKEY_ADDRESS v) →
  parseScannedAddress (Str raw) (Some n) = inl (base58checkEncode h (PUBKEY_ADDRESS v)).
Proof.
  intros Hn Hh Hc. destruct (versions_bytes n v Hn) as [Hv Hne].
  rewrite parse_inl, (known_versions n v) by done. split; [done|].
  exists (PUBKEY_ADDRESS v), h. by rewrite list_elem_of_singleton.
Qed.

Lemma address_nonempty h v : is_byte v → is_bytes h → chars (base58checkEncode h v) ≠ [].
Proof.
  intros Hv Hh E%(f_equal str_of). rewrite str_of_chars in E.
  assert (base58checkDecode (base58checkEncode h v) = Ok (Decoded v h)) as Hd by by apply base58checkDecode_spec.
  rewrite E in Hd. by vm_compute in Hd.
Qed.

(** An address by itself is its own candidate. *)
Lemma candidate_address h v : is_byte v → is_bytes h → candidate_of (base58checkEncode h v) = base58checkEncode h v.
Proof.
  intros Hv Hh. rewrite <- (str_of_chars (base58checkEncode h v)) at 1 2.
  rewrite <- (app_nil_r (chars _)) at 1. apply (candidate_plain [] _ []); auto using address_nonempty, address_plain.
Qed.

(** A scanned text is accepted for a network exactly when what is left of it,
    after trimming and after taking off a [whippet:] prefix and a query, is the
    Base58Check text of some payload under the network's pay-to-pubkey-hash
    version; that text is the address returned.  A script address of any network
    is never accepted. *)
Theorem parseScannedAddress_iff raw n v a :
  assoc n VERSIONS = Some v →
  (parseScannedAddress (Str raw) (Some n) = inl a
   ↔ candidate_of raw = a ∧ ∃ h, is_bytes h ∧ base58checkEncode h (PUBKEY_ADDRESS v) = a)
  ∧ (parseScannedAddress (Str raw) (Some n) = inl a →
     ∀ m w h, assoc m VERSIONS = Some w → is_bytes h → base58checkEncode h (SCRIPT_ADDRESS w) ≠ a).
Proof.
  intros Hn. destruct (versions_bytes n v Hn) as [Hv Hne]. rewrite parse_inl, (known_versions n v) by done.
  split.
  - setoid_rewrite list_elem_of_singleton. split; [|naive_solver].
    intros (Ha & v' & h & _ & Hh & Heq & ->). eauto.
  - intros (_ & v' & h & Hv' & Hh & Heq & ->%list_elem_of_singleton) m w h' Hm Hh' Heq'.
    assert (is_byte (SCRIPT_ADDRESS w) ∧ SCRIPT_ADDRESS w ≠ PUBKEY_ADDRESS v) as [Hw Hdiff].
    { clear -Hn Hm. unfold VERSIONS in *. cbn [assoc] in *.
      repeat case_match; simplify_eq; (split; [unfold is_byte; cbn; lia|done]). }
    assert (base58checkDecode a = Ok (Decoded (SCRIPT_ADDRESS w) h')) as H1 by by apply base58checkDecode_spec.
    assert (base58checkDecode a = Ok (Decoded (PUBKEY_ADDRESS v) h)) as H2 by by apply base58checkDecode_spec.
    rewrite H1 in H2. by simplify_eq.
Qed.

(** Every way a wallet prints an address is read back: alone or as a
    [whippet:] URI with the prefix in any case, blanks at the ends and around
    the address, and any query after it. *)
Theorem scanned_address_read_back n v h sp p sp1 sp2 q :
  assoc n VERSIONS = Some v → is_bytes h →
  Forall (λ c, is_space c = true) sp → Forall (λ c, is_space c = true) sp1 → Forall (λ c, is_space c = true) sp2 →
  map lower p = chars "whippet:" → q = [] ∨ (∃ q', q = "?"%char :: q') →
  let a := base58checkEncode h (PUBKEY_ADDRESS v) in
  parseScannedAddress (Str (str_of (sp ++ chars a ++ sp2))) (Some n) = inl a
  ∧ parseScannedAddress (Str (str_of (sp ++ p ++ sp1 ++ chars a ++ sp2 ++ q))) (Some n) = inl a.
Proof.
  intros Hn Hh Hsp Hsp1 Hsp2 Hp Hq a. destruct (versions_bytes n v Hn) as [Hv _].
  pose proof (address_plain h _ Hv Hh). pose proof (address_nonempty h _ Hv Hh).
  split; apply parse_candidate; try done.
  - rewrite candidate_plain by done. apply str_of_chars.
  - rewrite candidate_uri by done. apply str_of_chars.
Qed.

(** ** The camera *)

Definition is_settled (s : scan) : bool := match at_phase s with Settled _ => true | _ => false end.
(** A track of the acquired stream is running. *)
Definition camera_on (s : scan) : bool :=
  match camera s with Some st => existsb id (tracks st) | None => false end.

(** Streams are media streams: they have [getTracks]. *)
Definition media_event (e : scan_event) : bool := match e with Granted st => getTracks st | _ => true end.

Definition scan_inv (s : scan) : Prop :=
  (∀ st, camera s = Some st → getTracks st = true) ∧
  (is_settled s = true → camera_on s = false ∧ srcObject s = false).

Lemma finish_inv o s : (∀ st, camera s = Some st → getTracks st = true) → scan_inv (finish o s).
Proof.
  intros Hs. split.
  - intros st. simpl. destruct (camera s) as [st'|] eqn:E; [|done]. intros [= <-].
    unfold stop_tracks. by rewrite (Hs st').
  - intros _. split; [|done]. unfold camera_on. simpl. destruct (camera s) as [st'|] eqn:E; [|done]. simpl.
    unfold stop_tracks. rewrite (Hs st') by done. simpl. clear. by induction (tracks st').
Qed.

Lemma scan_step_inv opts e s : media_event e = true → scan_inv s → scan_inv (scan_step opts e s).
Proof.
  intros He [Hc Hoff]. unfold scan_step, start_detector, loop_head, handle_codes, wait.
  destruct s as [p ab cam src]. cbn [at_phase aborted camera srcObject enter] in *.
  repeat case_match; simplify_eq/=; try (apply finish_inv; naive_solver); split; simpl; naive_solver.
Qed.

Lemma scan_run_inv opts s es : forallb media_event es = true → scan_inv s → scan_inv (scan_run opts s es).
Proof.
  revert s. induction es as [|e es IH]; intros s; simpl; [done|].
  intros [He Hes]%andb_true_iff Hs. apply IH; [done|]. by apply scan_step_inv.
Qed.

Lemma start_inv opts ab : scan_inv (scanAddressFromCamera opts ab).
Proof. unfold scanAddressFromCamera. repeat case_match; by split. Qed.

(** C34 Whatever the camera, the detector, the timer and the user do and in
    whatever order, once the scan has settled, with an address, an error or a
    cancellation, every track it acquired is stopped and the video shows
    nothing. *)
Theorem scan_releases_camera opts ab es :
  forallb media_event es = true →
  let s := scan_run opts (scanAddressFromCamera opts ab) es in
  is_settled s = true → camera_on s = false ∧ srcObject s = false.
Proof. intros He s. apply (scan_run_inv opts _ es He). apply start_inv. Qed.

(** The scan resolves only with what [parseScannedAddress] accepted. *)
Lemma scan_step_resolved opts e s a :
  at_phase (scan_step opts e s) = Settled (Resolved a) →
  at_phase s = Settled (Resolved a) ∨ ∃ raw, parseScannedAddress raw (scan_network opts) = inl a.
Proof.
  unfold scan_step, start_detector, loop_head, handle_codes, wait. destruct s as [p ab cam src].
  cbn [at_phase aborted camera srcObject]. repeat case_match; simpl; intros; simplify_eq/=; eauto.
Qed.

Lemma scan_run_resolved opts es s a :
  at_phase (scan_run opts s es) = Settled (Resolved a) →
  at_phase s = Settled (Resolved a) ∨ ∃ raw, parseScannedAddress raw (scan_network opts) = inl a.
Proof.
  revert s. induction es as [|e es IH]; intros s Hr; [auto|].
  apply IH in Hr as [Hr|Hr]; [|auto]. by apply scan_step_resolved in Hr.
Qed.


(** An input that settles the promise awaited in a phase. *)
Definition completes (p : phase) (e : scan_event) : bool :=
  match p, e with
  | AwaitCamera, (Granted _ | Denied _) | AwaitPlay, (Played | PlayFailed _)
  | AwaitDetect, (Detected _ | DetectFailed _) | AwaitTimer, TimerFired => true
  | _, _ => false
  end.

(** A cancelled scan never polls again: Cancel during the pause between two
    polls settles it at once as cancelled, and Cancel at any other point settles
    it as soon as the pending camera operation completes, whatever its result;
    after it has settled, nothing changes its outcome. *)
Theorem scan_cancel_settles opts s :
  let c := scan_step opts Abort s in
  (at_phase s = AwaitTimer → at_phase c = Settled (Rejected makeAbortError))
  ∧ (∀ e, completes (at_phase c) e = true → is_settled (scan_step opts e c) = true)
  ∧ (is_settled s = true → ∀ e, at_phase (scan_step opts e s) = at_phase s).
Proof.
  destruct s as [p ab cam src]. cbn. split_and!.
  - by intros ->.
  - intros e. destruct p, e; cbn; unfold start_detector, loop_head, handle_codes, wait; cbn;
      repeat case_match; done.
  - intros Hs e. by destruct p, e.
Qed.

(** ** Witnesses and what the scan lets through *)

Definition phone : scan_opts := ScanOpts true true true true None (Some "mainnet").
Definition one_code (text : string) : jsval := Arr [Obj [("rawValue", Str text)]].

Definition zero_hash : bytes := replicate 20 0.
Lemma zero_hash_bytes : is_bytes zero_hash.
Proof. apply (is_bytes_zeros 20). Qed.
Definition zero_address : string := base58checkEncode zero_hash (PUBKEY_ADDRESS mainnet).

Lemma zero_address_parsed : parseScannedAddress (Str zero_address) (Some "mainnet") = inl zero_address.
Proof.
  apply parse_candidate; [done|apply zero_hash_bytes|]. apply candidate_address; [by split|apply zero_hash_bytes].
Qed.

#[local] Opaque base58checkEncode parseScannedAddress.

Lemma phone_scans es :
  es ∈ [[]; [Abort]] →
  at_phase (scan_run phone (scanAddressFromCamera phone false)
              ([Granted (Stream true [true]); Played] ++ es ++ [Detected (one_code zero_address)]))
  = Settled (Resolved zero_address).
Proof.
  assert (∀ s, at_phase (handle_codes phone (one_code zero_address) s) = Settled (Resolved zero_address)) as Hc.
  { intros s. unfold handle_codes, one_code. cbn [get field assoc default].
    change (at_phase (match parseScannedAddress (Str zero_address) (Some "mainnet") with
                      | inr e => finish (Rejected (js_err e)) s | inl a => finish (Resolved a) s end)
            = Settled (Resolved zero_address)).
    by rewrite zero_address_parsed. }
  rewrite !elem_of_cons. intros [->|[->|He]]; [..|by apply not_elem_of_nil in He]; apply Hc.
Qed.

Lemma parseScannedAddress_iff_witness :
  parseScannedAddress (Str zero_address) (Some "mainnet") = inl zero_address
  ∧ candidate_of zero_address = zero_address
  ∧ base58checkEncode zero_hash (SCRIPT_ADDRESS regtest) ≠ zero_address.
Proof.
  destruct (parseScannedAddress_iff zero_address "mainnet" mainnet zero_address eq_refl) as [Hiff Hscript].
  split; [exact zero_address_parsed|]. split; [exact (proj1 (proj1 Hiff zero_address_parsed))|].
  exact (Hscript zero_address_parsed "regtest" regtest zero_hash eq_refl zero_hash_bytes).
Defined.

Lemma scanned_address_read_back_witness :
  parseScannedAddress (Str (str_of ([] ++ chars zero_address ++ [" "%char]))) (Some "mainnet") = inl zero_address
  ∧ parseScannedAddress (Str (str_of ([] ++ chars "WHIPPET:" ++ [] ++ chars zero_address ++ [" "%char]
                                      ++ chars "?amount=5"))) (Some "mainnet") = inl zero_address.
Proof.
  apply (scanned_address_read_back "mainnet" mainnet zero_hash [] (chars "WHIPPET:") [] [" "%char] (chars "?amount=5")).
  - reflexivity.
  - exact zero_hash_bytes.
  - constructor.
  - constructor.
  - repeat constructor.
  - reflexivity.
  - right. by eexists.
Defined.

Lemma scan_releases_camera_witness :
  let s := scan_run phone (scanAddressFromCamera phone false)
             [Granted (Stream true [true; true]); Played; Abort; Detected (Arr [])] in
  camera_on s = false ∧ srcObject s = false.
Proof.
  apply (scan_releases_camera phone false [Granted (Stream true [true; true]); Played; Abort; Detected (Arr [])]);
    reflexivity.
Defined.


(** A Cancel pressed while [detect()] is at work is overtaken by its result: the
    scan still resolves. *)
Lemma cancel_overtaken :
  let s := scan_run phone (scanAddressFromCamera phone false)
             [Granted (Stream true [true]); Played; Abort; Detected (one_code zero_address)] in
  aborted s = true ∧ at_phase s = Settled (Resolved zero_address).
Proof.
  split; [|apply (phone_scans [Abort]); by right; left].
  cbn [scan_run fold_left]. set (s := scan_step phone Abort _). assert (aborted s = true) as Hs by reflexivity.
  unfold scan_step. destruct (at_phase s) eqn:E; try discriminate E. unfold handle_codes. by repeat case_match.
Qed.

#[local] Transparent base58checkEncode parseScannedAddress.

(** The length of the payload is not looked at: a text the scan accepts need not
    be an address that can be paid. *)
Lemma scan_accepts_unpayable h :
  is_bytes h → length h ≠ 20%nat →
  let a := base58checkEncode h (PUBKEY_ADDRESS mainnet) in
  parseScannedAddress (Str a) (Some "mainnet") = inl a ∧ ¬ ∃ script, addressToScript a = Ok script.
Proof.
  intros Hh Hl a. split.
  - apply parse_candidate; [done..|]. by apply candidate_address; [split|].
  - intros [script (v & h' & Hv & Hh' & Hl' & Heq & _)%addressToScript_spec].
    assert (base58checkDecode a = Ok (Decoded (PUBKEY_ADDRESS mainnet) h)) as H1
      by (apply base58checkDecode_spec; by repeat split).
    assert (base58checkDecode a = Ok (Decoded v h')) as H2.
    { apply base58checkDecode_spec. split_and!; [|done..].
      assert (Forall is_byte p2pkhVersions) as Hall by (apply (bool_decide_unpack (is_bytes _)); by vm_compute).
      by eapply Forall_forall in Hall. }
    rewrite H1 in H2. by simplify_eq.
Qed.

(** Main and regression networks share their version: a scan for one accepts the
    addresses of the other. *)
Lemma scan_regtest_on_mainnet raw a :
  parseScannedAddress (Str raw) (Some "regtest") = inl a → parseScannedAddress (Str raw) (Some "mainnet") = inl a.
Proof. by rewrite !parse_inl. Qed.
