(* ===== verification/Views.v ===== *)
(** * Views: what [contrib/uap-web/app.js] puts on the page

    The state of each flow, and every function of the application that builds a
    part of the page from it: the cards, which take their handlers as arguments,
    and the screens, which give them the application's own.  A handler is the
    function of the source it names, with the values it closes over.

    The theorems: every screen, for any state and any data from the network, is
    inert; the send review shows what the plan will send, and warns exactly when
    the outputs do not add up to the position; the mint review's figures are the
    plan's. *)

From stdpp Require Import base tactics option list numbers strings pretty.
From Stdlib Require Import ZArith Lia Ascii.
From S2P Require Import Prelude JsInt JsStr JsNum JsVal Effects Words Sha256 Addr Script Tx Payments Orders.
From S2P Require Import Transfer Market Mint Sell Cancel Api App Mnemonic Bip32 Wallet Dom Qrscan.

(** ** The state of the flows *)

Record sell_state := SellState {
  se_positions : option (list jsval);
  se_loadError : option string;
  se_selectedKey : option string;
  se_priceSats : string;
  se_plan : option sell_plan;
  se_error : option string
}.
Definition freshSellState : sell_state := SellState None None None EmptyString None None.

Record my_orders_state := MyOrdersState {
  mo_orders : option (list jsval);
  mo_loadError : option string;
  mo_selectedOrder : option jsval;
  mo_cancelError : option string;
  mo_cancelling : bool
}.
Definition freshMyOrdersState : my_orders_state := MyOrdersState None None None None false.

(** An entry of [mintState.planErrors]: an object of [planMint], or the string
    [planMintTx] puts there when the network fails. *)
Inductive mint_error := FieldError (e : plan_error) | TextError (s : string).

Record mint_state := MintState {
  mt_ticker : string;
  mt_multiplier : Number;
  mt_amountSats : Number;
  mt_plan : option mint_plan;
  mt_planErrors : option (list mint_error);
  mt_error : option string
}.
Definition freshMintState : mint_state := MintState EmptyString (Int 100) (Int (1000 * COIN)) None None None.

Record send_state := SendState {
  sd_positions : option (list jsval);
  sd_fundingUtxos : list jsval;
  sd_feeRate : jsval;
  sd_loadError : option string;
  sd_selectedKey : option string;
  sd_toPubKey : string;
  sd_toAddress : string;
  sd_amountCoins : string;
  sd_plan : option transfer_plan;
  sd_planErrors : option (list plan_error);
  sd_error : option string;
  sd_scanNotice : option string;
  sd_scanError : option string;
  sd_scanning : bool
}.
Definition freshSendState : send_state :=
  SendState None [] Null None None EmptyString EmptyString EmptyString None None None None None false.

Record market_state := MarketState {
  mk_selectedOrder : option jsval;
  mk_fillPlan : option fill_plan;
  mk_fillError : option string
}.
Definition freshMarketState : market_state := MarketState None None None.

(** [{ notice, error }]. *)
Record copy_status := CopyStatus { cp_notice : option string; cp_error : option string }.

Definition copyAddressResult (ok : bool) : copy_status :=
  if ok then CopyStatus (Some "Address copied to clipboard") None
  else CopyStatus None (Some "Failed to copy address. Select the address and copy it manually.").

Definition positionKey (position : jsval) : string :=
  js_String (field position "txid") +:+ ":" +:+ js_String (field position "vout").

(** ** Values on the page *)

(** [v.slice(0, n)] and [v.toString()]. *)
Definition js_slice (v : jsval) (n : Z) : res string :=
  match v with
  | Str s => Ok (take_str n s)
  | Arr l => Ok (js_String (Arr (take (Z.to_nat n) l)))
  | U8 b => Ok (js_String (U8 (take (Z.to_nat n) b)))
  | Undef => Throw "Cannot read properties of undefined (reading 'slice')"
  | Null => Throw "Cannot read properties of null (reading 'slice')"
  | _ => Throw "slice is not a function"
  end.

Definition js_toString (v : jsval) : res string :=
  match v with
  | Undef => Throw "Cannot read properties of undefined (reading 'toString')"
  | Null => Throw "Cannot read properties of null (reading 'toString')"
  | _ => Ok (js_String v)
  end.

(** [(sats / uap.COIN).toFixed(8)]. *)
Definition fixed_coins (sats : Number) : string := toFixed (sats / Int COIN)%num 8.

(** A multiplication sign between spaces. *)
Definition times_sign : string := str_of [chr 32; chr 215; chr 32].

Section cards.
Context {H : Type} `{!Page H}.

Definition button (class : string) (f : H) (label : string) : res (@child_arg H) :=
  E "button" [cls class; on "onClick" f] [T label].

(** A text that may fail to be computed. *)
Definition TR (r : res string) : res (@child_arg H) := s ← r; T s.

Definition review_row (label : string) (value : res string) : res (@child_arg H) :=
  E "div" [cls "review-row"] [E "span" [] [T label]; E "code" [] [TR value]].

(** [s ? el(...) : null] for a string. *)
Definition if_text (s : option string) (build : string → res (@child_arg H)) : list (res (@child_arg H)) :=
  if str_truthy s then [build (default EmptyString s)] else [].

Definition error_text (prefix : string) (e : string) : res (@child_arg H) := E "p" [cls "error"] [T (prefix +:+ e)].

Definition field_error (f m : string) : res (@child_arg H) :=
  E "div" [cls "error-field"] [E "strong" [] [T (f +:+ ":")]; T (" " +:+ m)].

Definition cross_mark : string := glyph CrossMark +:+ " ".

(** ** The cards *)

(** [mintState.multiplier.toString()] and the other figures of the review. *)
Definition buildMintReviewCard (st : mint_state) (plan : mint_plan) (error : option string) (onConfirm onEdit : H) :
    res (@child_arg H) :=
  let coins := (mt_amountSats st / Int COIN)%num in
  let feeCoins := (mp_fee plan / Int COIN)%num in
  let changeCoins := (mp_change plan / Int COIN)%num in
  let virtualBalance := (coins * mt_multiplier st)%num in
  E "div" [cls "card"]
    ([E "h2" [] [T "Review Mint Transaction"];
      E "div" [cls "review-section"]
        [E "h3" [] [T "Token Details"];
         review_row "Ticker:" (Ok (mt_ticker st));
         review_row "Multiplier:" (Ok (num_str (mt_multiplier st)));
         review_row "Virtual Balance:" (Ok (toLocaleString virtualBalance))];
      E "div" [cls "review-section"]
        [E "h3" [] [T "Transaction Details"];
         review_row "Amount Locked:" (Ok (toLocaleString coins +:+ " coins"));
         review_row "Estimated Fee:" (Ok (toFixed feeCoins 8 +:+ " coins"));
         review_row "Change:"
           (Ok (if (changeCoins >? Int 0)%num then toFixed changeCoins 8 +:+ " coins" else "(none)"))]]
     ++ if_text error (error_text EmptyString)
     ++ [E "div" [cls "button-group"]
           [button "btn btn-primary" onConfirm "Confirm & Broadcast"; button "btn btn-secondary" onEdit "Edit"]]).

(** A row of the position picker. *)
Definition send_position_row (selectedKey : option string) (onSelect : jsval → H) (position : jsval) :
    res (@child_arg H) :=
  let selected := bool_decide (Some (positionKey position) = selectedKey) in
  E "div" [cls (if selected then "position-row position-row--selected" else "position-row")]
    [E "span" [cls "txid"] [TR (s ← js_slice (field position "txid") 16; Ok (s +:+ "..."))];
     E "span" [cls "amount"]
       [T (fixed_coins (js_Number (field position "value")) +:+ " coins" +:+ times_sign
           +:+ js_String (field position "multiplier"))];
     E "button" [cls (if selected then "btn btn-sm btn-primary" else "btn btn-sm");
                 att "aria-pressed" (if selected then "true" else "false");
                 on "onClick" (onSelect position)]
       [T (if selected then "Selected" else "Select")]].

Definition send_positions (positions : option (list jsval)) (selectedKey : option string) (onSelect : jsval → H) :
    res (@child_arg H) :=
  E "div" [cls "section"]
    [E "h3" [] [T "Token to send"];
     match positions with
     | None => skeleton 3 EmptyString
     | Some [] => E "p" [cls "placeholder"] [T "You hold no token positions to send."]
     | Some l => E "div" [cls "positions-list"] (map (send_position_row selectedKey onSelect) l)
     end].

Definition buildSendCard (st : send_state) (network : string) (scanSupported : bool)
    (onReview onBack onScan : H) (onSelectPosition : jsval → H) : res (@child_arg H) :=
  E "div" [cls "card"]
    ([E "h2" [] [T "Send Tokens"]]
     ++ if_text (sd_loadError st) (error_text (cross_mark +:+ "Failed to load your tokens: "))
     ++ match sd_planErrors st with
        | Some (e :: l) => [E "div" [cls "error-list"] (map (λ e, field_error (e_field e) (e_message e)) (e :: l))]
        | _ => []
        end
     ++ [send_positions (sd_positions st) (sd_selectedKey st) onSelectPosition;
         E "div" [cls "form-group"]
           [E "label" [att "for" "send-amount"] [T "Amount to send (coins):"];
            E "input" [att "id" "send-amount"; att "type" "number"; att "step" "any";
                       att "placeholder" "0.00000000"; att "value" (sd_amountCoins st)] []];
         E "div" [cls "form-group"]
           [E "label" [att "for" "send-pubkey"] [T "Recipient public key (hex):"];
            E "input" [att "id" "send-pubkey"; att "type" "text"; att "placeholder" "02...";
                       att "value" (sd_toPubKey st)] [];
            E "p" [cls "hint"]
              [T "A token covenant is addressed to a public key, not to an address, so the recipient must give you theirs."]];
         E "div" [cls "form-group"]
           ([E "label" [att "for" "send-address"] [T "Recipient address (optional):"];
             E "div" [cls "input-with-action"]
               ([E "input" [att "id" "send-address"; att "type" "text";
                            att "placeholder" "Recipient address (optional check)"; att "value" (sd_toAddress st)] []]
                ++ if scanSupported
                   then [E "button" [cls "btn btn-secondary btn-scan"; att "type" "button"; on "onClick" onScan]
                           [T (if sd_scanning st then "Scanning" +:+ glyph Ellipsis else "Scan")]]
                   else []);
             E "p" [cls "hint"]
               [T ("If given, it is checked against the public key above (" +:+ network
                   +:+ " addresses only). A mismatch blocks the send.")]]
            ++ if_text (sd_scanNotice st) (λ s, E "p" [cls "hint scan-notice"; att "role" "status"] [T s])
            ++ if_text (sd_scanError st) (λ s, E "p" [cls "error scan-error"; att "role" "alert"] [T s]));
         E "div" [cls "button-group"]
           [button "btn btn-primary" onReview "Review"; button "btn btn-secondary" onBack "Back"]]).

(** [coins] of the send review. *)
Definition coins_text (sats : Number) : string := fixed_coins sats +:+ " coins".

Definition output_of (kind : output_kind) (plan : transfer_plan) : option plan_output :=
  List.find (λ o, bool_decide (po_kind o = kind)) (tp_outputs plan).

(** [plan.outputs.filter(...).reduce((sum, o) => sum + o.value, 0)]. *)
Definition tokenSatsOut (plan : transfer_plan) : Number :=
  fold_left (λ sum o, sum + po_value o)%num (List.filter is_token (tp_outputs plan)) (Int 0).

Definition impossible_text : string :=
  "That should be impossible; it indicates a bug. Do not broadcast it " +:+ glyph EmDash +:+ " report it instead.".

Definition conservation_warning (plan : transfer_plan) : list (res (@child_arg H)) :=
  if negb (tokenSatsOut plan =? tp_tokenValueIn plan)%num then
    let delta := (tp_tokenValueIn plan - tokenSatsOut plan)%num in
    [E "p" [cls "warning warning-bug"]
       [T (if (delta >? Int 0)%num
           then glyph WarningSign +:+ " This transfer's outputs carry " +:+ num_str delta
                +:+ " satoshis less than the position holds, so that much token balance would be destroyed. "
                +:+ impossible_text
           else glyph WarningSign +:+ " This transfer's outputs carry " +:+ num_str (num_neg delta)
                +:+ " satoshis more than the position holds, so the network will reject it. " +:+ impossible_text)]]
  else [].

(** The review of a transfer; [toAddressChecked] is what the screen adds to the
    plan.  A plan without an output for the recipient throws. *)
Definition buildSendReviewCard (plan : transfer_plan) (toAddressChecked : string) (error : option string)
    (onConfirm onEdit : H) : res (@child_arg H) :=
  let recipient := output_of OUTPUT_TOKEN_RECIPIENT plan in
  let tokenChange := output_of OUTPUT_TOKEN_CHANGE plan in
  let whipChange := output_of OUTPUT_WHIP_CHANGE plan in
  E "div" [cls "card"]
    ([E "h2" [] [T "Review Transfer"];
      E "div" [cls "review-section"]
        [E "h3" [] [T "Recipient"];
         review_row "Public key:" (Ok (Script.bytesToHex (tp_toPubKey plan)));
         review_row "Address checked:" (Ok (str_or (Some toAddressChecked) "(not provided)"));
         review_row "Sending:"
           match recipient with
           | Some o => Ok (coins_text (po_value o) +:+ times_sign +:+ num_str (tp_multiplier plan))
           | None => Throw "Cannot read properties of undefined (reading 'value')"
           end];
      E "div" [cls "review-section"]
        [E "h3" [] [T "Transaction"];
         review_row "Kept in your position:"
           (Ok match tokenChange with
               | Some o => coins_text (po_value o)
               | None => "(none " +:+ glyph EmDash +:+ " sending the whole position)"
               end);
         review_row "Fee (paid in WHIP, not tokens):" (Ok (coins_text (tp_fee plan)));
         review_row "WHIP change:" (Ok match whipChange with Some o => coins_text (po_value o) | None => "(none)" end);
         review_row "Token value in / out:"
           (Ok (coins_text (tp_tokenValueIn plan) +:+ " / " +:+ coins_text (tokenSatsOut plan)))]]
     ++ conservation_warning plan
     ++ map (λ w, E "p" [cls "warning warning-advisory"] [T (w_message w)]) (tp_warnings plan)
     ++ if_text error (error_text EmptyString)
     ++ [E "div" [cls "button-group"]
           [button "btn btn-primary" onConfirm "Confirm & Broadcast"; button "btn btn-secondary" onEdit "Edit"]]).

Definition buildScanOverlay (onCancel : H) : res (@child_arg H) :=
  E "div" [cls "scan-overlay"; att "role" "dialog"; att "aria-label" "Scan a recipient address"]
    [E "div" [cls "scan-frame"]
       [E "video" [cls "scan-video"; att "playsinline" "true"; att "muted" "true"] [];
        E "p" [cls "scan-hint"] [T "Point the camera at the recipient's address QR code."];
        button "btn btn-secondary scan-cancel" onCancel "Cancel"]].

Definition sell_position_row (selectedKey : option string) (onSelect : jsval → H) (p : jsval) : res (@child_arg H) :=
  let selected := bool_decide (Some (positionKey p) = selectedKey) in
  let dash := " " +:+ glyph EmDash +:+ " " in
  E "div" [cls (if selected then "position-row position-row--selected" else "position-row")]
    [E "div" [cls "position-desc"]
       [TR (s ← js_slice (field p "txid") 12;
            Ok ("x" +:+ js_String (field p "multiplier") +:+ dash +:+ js_String (field p "value") +:+ " sat" +:+ dash
                +:+ s +:+ glyph Ellipsis +:+ ":" +:+ js_String (field p "vout")))];
     E "button" [cls (if selected then "btn btn-sm btn-primary" else "btn btn-sm");
                 att "aria-pressed" (if selected then "true" else "false");
                 on "onClick" (onSelect p)]
       [T (if selected then "Selected" else "Select")]].

(** [selectedPosition] after the loop: the last match. *)
Definition last_selected (selectedKey : option string) (l : list jsval) : option jsval :=
  List.find (λ p, bool_decide (Some (positionKey p) = selectedKey)) (reverse l).

Definition buildSellCard (st : sell_state) (onReview onBack : H) (onSelectPosition : jsval → H) : res (@child_arg H) :=
  let back := E "div" [cls "button-group"] [button "btn btn-secondary" onBack "Back"] in
  let head :=
    [E "h2" [] [T "Sell a position"]]
    ++ if_text (se_loadError st) (error_text (cross_mark +:+ "Could not load your positions: ")) in
  match se_positions st with
  | None => E "div" [cls "card"] (head ++ [skeleton 3 EmptyString; back])
  | Some [] => E "div" [cls "card"] (head ++ [E "p" [cls "placeholder"] [T "You have no positions to sell."]; back])
  | Some l =>
      E "div" [cls "card"]
        (head
         ++ [E "div" [cls "positions-list"] (map (sell_position_row (se_selectedKey st) onSelectPosition) l)]
         ++ match last_selected (se_selectedKey st) l with
            | Some p =>
                [E "p" [cls "hint"]
                   [TR (s ← js_slice (field p "txid") 12;
                        Ok ("Selected " +:+ s +:+ glyph Ellipsis +:+ ":" +:+ js_String (field p "vout")))]]
            | None => []
            end
         ++ [E "div" [cls "form-group"]
               [E "label" [att "for" "sell-price"] [T "Asking price (satoshis)"];
                E "input" [att "id" "sell-price"; att "type" "number"; att "min" "1"; att "step" "1";
                           cls "form-control"; att "placeholder" "Asking price in satoshis";
                           att "value" (se_priceSats st)] []]]
         ++ if_text (se_error st) (error_text EmptyString)
         ++ [E "div" [cls "button-group"]
               [button "btn btn-primary" onReview "Review"; button "btn btn-secondary" onBack "Back"]])
  end.

(** A term and its description. *)
Definition term (label : string) (value : res string) : list (res (@child_arg H)) :=
  [E "dt" [] [T label]; E "dd" [] [TR value]].

(** [plan.summary] of a plan without one is null, and reading it throws. *)
Definition buildSellReviewCard (plan : sell_plan) (error : option string) (onConfirm onEdit : H) :
    res (@child_arg H) :=
  match sl_summary plan with
  | None => Throw "Cannot read properties of null (reading 'txid')"
  | Some s =>
      E "div" [cls "card"]
        ([E "h2" [] [T "Review this sale"];
          E "dl" [cls "review-list"]
            (term "Position" (t ← js_slice (ss_txid s) 16; Ok (t +:+ glyph Ellipsis +:+ ":" +:+ js_String (ss_vout s)))
             ++ term "Multiplier" (Ok ("x" +:+ js_String (ss_multiplier s)))
             ++ term "Token value" (Ok (js_String (ss_tokenValue s) +:+ " sat"))
             ++ term "Asking price" (Ok (js_String (ss_priceSats s) +:+ " sat"))
             ++ term "Paid to" (Ok (ss_payTo s)));
          E "p" [cls "warning"]
            [T ("Publishing this signs an offer that ANYONE may take: whoever pays "
                +:+ js_String (ss_priceSats s) +:+ " satoshis to your address gets this position. You are not "
                +:+ "choosing who buys it. The offer stands until you cancel it or the position is spent.")]]
         ++ if_text error (error_text EmptyString)
         ++ [E "div" [cls "button-group"]
               [button "btn btn-primary" onConfirm "Publish offer"; button "btn btn-secondary" onEdit "Edit"]])
  end.
End cards.

(** ** Screens and handlers *)

(** The values of [currentScreen]. *)
Inductive screen :=
| Sinit | Screate | Srestore | Sunlock | Swallet | Smint | Smint_review | Smarket | Smarket_fill
| Ssend | Ssend_review | Ssell | Ssell_review | Smy_orders | Smy_orders_cancel | Smigrate.
#[export] Instance screen_eq_dec : EqDecision screen.
Proof. solve_decision. Defined.

(** The functions of the application a button runs, with what they close over.
    [HmigrateCreate] is the arrow function of the migration screen. *)
Inductive handler :=
| HcreateNewWallet | HrestoreWallet | HfinishWalletSetup | HdoRestore | HdoUnlock | HgoToInit | HlockWallet
| HcopyAddress | HgoTo (s : screen) | HmigrateCreate
| HgoToMint | HplanMintTx | HconfirmMint
| HgoToSend | HplanSendTx | HselectSendPosition (p : jsval) | HstartAddressScan | HabortScan (n : nat) | HconfirmSend
| HgoToMarket | HselectOrderToFill (order : jsval)
| HconfirmFill (order position : jsval) (takerUtxos : list jsval) (feeRate : Number)
| HstartSell | HplanSellFlow | HselectSellPosition (p : jsval) | HconfirmSell
| HgoToMyOrders | HselectOrderToCancel (order : jsval) | HconfirmCancel.

Section screens.
Context `{!Page handler}.
Abbreviation part := (res (@child_arg handler)).

Definition goTo (s : screen) : handler := HgoTo s.
Definition backButton (s : screen) : part := button "btn btn-secondary" (goTo s) "Back".
Definition screen_div (class : string) (card : part) : part := E "div" [cls ("screen " +:+ class)] [card].

(** An element the code keeps, to fill it when a fetch settles. *)
Definition held (r : part) : part :=
  c ← r;
  Ok match c with CNode n => CNode (hold n) | c => c end.

Definition renderInit : part :=
  screen_div "screen-init"
    (E "div" [cls "card"]
       [E "h1" [] [T "Whippet Wallet"];
        E "p" [] [T "Self-custody wallet for the Whippet marketplace"];
        E "div" [cls "button-group"]
          [button "btn btn-primary" HcreateNewWallet "Create Wallet";
           button "btn btn-secondary" HrestoreWallet "Restore from Mnemonic"]]).

(** [renderCreate] after its [await]; [wallet.mnemonic] of a wallet that has none
    is no child. *)
Definition renderCreate (w : wallet) : part :=
  screen_div "screen-create"
    (E "div" [cls "card"]
       [E "h2" [] [T "Your Backup Phrase"];
        E "p" [cls "warning"]
          [T (glyph WarningSign +:+ " Save this phrase in a safe place. Anyone with it can access your funds.")];
        E "div" [cls "mnemonic-display"]
          [E "code" [] [match _mnemonic w with Some m => T m | None => no_child end]];
        E "p" [cls "hint"]
          [T ("This is a 12-word BIP39 mnemonic. Together with your passphrase it derives your private key at "
              +:+ WHIPPET_KEY_PATH +:+ ". Write the words down: any BIP39 wallet that can derive that path will "
              +:+ "recover this key.")];
        E "div" [cls "form-group"]
          [E "label" [] [T "Set a passphrase (optional but recommended):"];
           E "input" [att "type" "password"; att "id" "passphrase"; att "placeholder" "Leave blank for no passphrase"] []];
        E "div" [att "id" "create-error"; cls "error hidden"] [];
        E "div" [cls "button-group"]
          [button "btn btn-primary" HfinishWalletSetup "I've Saved the Phrase";
           button "btn btn-secondary" HgoToInit "Cancel"]]).

Definition renderRestore : part :=
  screen_div "screen-restore"
    (E "div" [cls "card"]
       [E "h2" [] [T "Restore from Mnemonic"];
        E "div" [cls "form-group"]
          [E "label" [] [T "Enter your 12 or 24-word mnemonic:"];
           E "textarea" [att "id" "mnemonic-input"; att "placeholder" "word1 word2 word3 ..."; att "rows" "4"] []];
        E "div" [cls "form-group"]
          [E "label" [] [T "Passphrase (if you used one):"];
           E "input" [att "type" "password"; att "id" "restore-passphrase"; att "placeholder" "Leave blank if none"] []];
        E "div" [cls "button-group"]
          [button "btn btn-primary" HdoRestore "Restore Wallet"; button "btn btn-secondary" HgoToInit "Cancel"];
        E "div" [att "id" "restore-error"; cls "error hidden"] []]).

Definition renderUnlock : part :=
  screen_div "screen-unlock"
    (E "div" [cls "card"]
       [E "h2" [] [T "Unlock Wallet"];
        E "p" [] [T "Your wallet is encrypted. Enter your passphrase to unlock it."];
        E "div" [cls "form-group"]
          [E "label" [] [T "Passphrase:"];
           E "input" [att "type" "password"; att "id" "unlock-passphrase"; att "placeholder" "Enter passphrase"] []];
        E "div" [cls "button-group"]
          [button "btn btn-primary" HdoUnlock "Unlock"; button "btn btn-secondary" HgoToInit "Cancel"];
        E "div" [att "id" "unlock-error"; cls "error hidden"] []]).

(** [wallet.x] where [wallet] is null throws. *)
Definition of_wallet {A} (w : option wallet) (member : string) (f : wallet → A) : res A :=
  match w with Some w => Ok (f w) | None => Throw (null_wallet member) end.

(** A string or null as a child. *)
Definition optional_text (s : option string) : part := match s with Some s => T s | None => no_child end.

Definition badge_name (b : badge_state) : string :=
  match b with Pending => "pending" | BadgeConfirmed => "confirmed" | BadgeTimeout => "timeout" end.

(** The wallet screen as it is first painted. *)
Definition renderWallet (w : option wallet) (broadcastStatus : badge) (copyStatus : option copy_status) : part :=
  address ← of_wallet w "address" _address;
  legacy ← of_wallet w "usesLegacyDerivation" usesLegacyDerivation;
  screen_div "screen-wallet"
    (E "div" [cls "card"]
       ([E "h2" [] [T "Wallet"]]
        ++ match broadcastStatus with Some (txid, st) => [txStatus (badge_name st) txid] | None => [] end
        ++ (if legacy : bool
            then [E "div" [cls "warning banner"]
                    [E "span" [] [T "Your recovery words cannot restore this wallet in other software. "];
                     button "btn btn-sm" (goTo Smigrate) "What this means"]]
            else [])
        ++ [E "div" [cls "wallet-info"]
              ([E "div" [cls "info-row"]
                  [E "label" [] [T "Address:"]; E "code" [cls "address"] [optional_text address];
                   button "btn-copy" HcopyAddress "Copy"]]
               ++ if_text (copyStatus ≫= cp_notice) (λ s, E "p" [cls "hint copy-notice"; att "role" "status"] [T s])
               ++ if_text (copyStatus ≫= cp_error) (λ s, E "p" [cls "error copy-error"; att "role" "alert"] [T s]));
            held (E "div" [cls "section"] [E "h3" [] [T "Balance"]; skeleton 3 EmptyString]);
            E "div" [cls "section"]
              [E "h3" [] [T "Actions"];
               E "div" [cls "button-group"]
                 [button "btn btn-primary" HgoToMint "Mint Token"; button "btn btn-primary" HgoToSend "Send Tokens";
                  button "btn btn-primary" HgoToMarket "Order Book"; button "btn btn-primary" HstartSell "Sell a Position";
                  button "btn btn-primary" HgoToMyOrders "My Orders"; button "btn btn-secondary" HlockWallet "Lock Wallet";
                  button "btn btn-danger" HgoToInit "Sign Out"]]])).

(** What a fetch leaves in a held element: the parts, or the parts the [catch]
    puts in their place. *)
Definition fill_with (body : res (list part)) (failed : string → list part) : res (list (@child_arg handler)) :=
  match (l ← body; mapR id l) with
  | Ok l => Ok l
  | Throw e => mapR id (failed e)
  end.

Definition stale_part (t : tagged) : list part :=
  let '(stale, cachedAt) := staleInfo t in
  if stale then [staleNotice match cachedAt with Some s => Str s | None => Null end] else [].

Definition utxo_row (utxo : jsval) : part :=
  E "div" [cls "utxo-row"]
    [E "span" [cls "txid"] [TR (s ← js_slice (field utxo "txid") 16; Ok (s +:+ "..."))];
     E "span" [cls "amount"] [TR (js_toString (field utxo "value"))]].

(** [loadBalanceSection] once [getUtxos] has settled. *)
Definition loadBalanceSection (r : res tagged) : res (list (@child_arg handler)) :=
  let head := E "h3" [] [T "Balance"] in
  fill_with
    (utxos ← r;
     let l := elements (tg_data utxos) in
     Ok ([head] ++ stale_part utxos
         ++ [E "p" [] [T ("Total: " +:+ num_str (fold_left (λ t u, t + as_num (field u "value"))%num l (Int 0)))]]
         ++ map utxo_row l))
    (λ e, [head; E "p" [cls "placeholder"] [T (cross_mark +:+ "Failed to load balance: "); T e]]).

Definition mint_error_part (e : mint_error) : part :=
  match e with
  | FieldError e => field_error (e_field e) (e_message e)
  | TextError _ => field_error "undefined" "undefined"  (** a string has neither property *)
  end.

Definition renderMint (st : mint_state) : part :=
  screen_div "screen-mint"
    (E "div" [cls "card"]
       ([E "h2" [] [T "Mint New Token"]]
        ++ match mt_planErrors st with
           | Some (e :: l) => [E "div" [cls "error-list"] (map mint_error_part (e :: l))]
           | _ => []
           end
        ++ [E "div" [cls "form-group"]
              [E "label" [] [T "Ticker (1-8 characters, A-Z and 0-9):"];
               E "input" [att "id" "mint-ticker"; att "type" "text"; att "placeholder" "e.g., DOGE";
                          att "value" (mt_ticker st)] []];
            E "div" [cls "form-group"]
              [E "label" [] [T "Multiplier (0-2147483647):"];
               E "input" [att "id" "mint-multiplier"; att "type" "number"; att "placeholder" "100";
                          att "value" (num_str (mt_multiplier st))] []];
            E "div" [cls "form-group"]
              [E "label" [] [T "Amount to Lock (coins):"];
               E "input" [att "id" "mint-amount"; att "type" "number"; att "placeholder" "1000";
                          att "value" (num_str (mt_amountSats st / Int COIN)%num)] []];
            E "div" [cls "button-group"] [button "btn btn-primary" HplanMintTx "Review"; backButton Swallet]])).

Definition renderMintReview (st : mint_state) (plan : mint_plan) : part :=
  screen_div "screen-mint-review" (buildMintReviewCard st plan (mt_error st) HconfirmMint (goTo Smint)).

Definition renderSend (st : send_state) (w : option wallet) (scanSupported : bool) : part :=
  screen_div "screen-send"
    (buildSendCard st match w with Some w => network w | None => "mainnet" end scanSupported
       HplanSendTx (goTo Swallet) HstartAddressScan HselectSendPosition).

Definition renderSendReview (st : send_state) (plan : transfer_plan) : part :=
  screen_div "screen-send-review" (buildSendReviewCard plan (sd_toAddress st) (sd_error st) HconfirmSend (goTo Ssend)).

(** [renderMarket]: the card with its skeleton, and what it holds once the
    orders are there. *)
Definition renderMarket : part :=
  screen_div "screen-market" (held (E "div" [cls "card"] [E "h2" [] [T "Order Book"]; skeleton 4 EmptyString])).

Definition market_row (order : jsval) : part :=
  E "div" [cls "order-row"]
    [E "div" [cls "order-desc"] [T (describeOrder order)];
     button "btn btn-sm" (HselectOrderToFill order) "Fill"].

Definition back_group (s : screen) : part := E "div" [cls "button-group"] [backButton s].

Definition market_content (r : res tagged) : res (list (@child_arg handler)) :=
  let head := E "h2" [] [T "Order Book"] in
  fill_with
    (orders ← r;
     Ok ([head] ++ stale_part orders
         ++ match elements (tg_data orders) with
            | [] => [E "p" [cls "placeholder"] [T "No orders available"]]
            | l => [E "div" [cls "orders-list"] (map market_row l)]
            end
         ++ [back_group Swallet]))
    (λ e, [head; error_text (cross_mark +:+ "Failed to load orders: ") e; back_group Swallet]).

(** [renderMarketFill]: the order's details and a skeleton, then the review of
    the fill, the reasons it cannot be filled, or the error. *)
Definition renderMarketFill (order : jsval) : part :=
  screen_div "screen-market-fill"
    (held (E "div" [cls "card"]
       [E "h2" [] [T "Fill Order"];
        E "div" [cls "review-section"]
          [E "h3" [] [T "Order Details"];
           review_row "Description:" (Ok (describeOrder order));
           review_row "Multiplier:" (js_toString (field order "multiplier"));
           review_row "Payment Required:" (Ok (fixed_coins (js_Number (field order "payment_value")) +:+ " coins"))];
        E "div" [cls "section"] [E "h3" [] [T "Transaction"]; skeleton 3 EmptyString]])).

Definition fill_refused (errors : list string) (fillError : option string) : list part :=
  [E "h2" [] [T "Cannot Fill Order"];
   E "div" [cls "error-list"] (map (λ e, E "div" [cls "error-field"] [T e]) errors)]
  ++ if_text fillError (error_text EmptyString)
  ++ [back_group Smarket].

Definition fill_review (order position : jsval) (takerUtxos : list jsval) (feeRate : Number) (plan : fill_plan)
    (fillError : option string) : list part :=
  [E "h2" [] [T "Review Fill Transaction"];
   E "div" [cls "review-section"] [E "h3" [] [T "Order"]; review_row "Description:" (Ok (describeOrder order))];
   E "div" [cls "review-section"]
     [E "h3" [] [T "Transaction"];
      review_row "Your Payment:" (Ok (fixed_coins (js_Number (field order "payment_value")) +:+ " coins"));
      review_row "Token Received:" (Ok (fixed_coins (js_Number (field position "value")) +:+ " coins"));
      review_row "Estimated Fee:" (Ok (fixed_coins (fp_fee plan) +:+ " coins"));
      review_row "Change:" (Ok (if (fp_change plan >? Int 0)%num then fixed_coins (fp_change plan) +:+ " coins" else "(none)"))]]
  ++ if_text fillError (error_text EmptyString)
  ++ [E "div" [cls "button-group"]
        [button "btn btn-primary" (HconfirmFill order position takerUtxos feeRate) "Confirm & Broadcast";
         backButton Smarket]].

Definition fill_failed (e : string) : list part :=
  [E "h2" [] [T "Error"]; error_text "Failed to prepare fill: " e; back_group Smarket].

Definition renderSell (st : sell_state) : part :=
  screen_div "screen-sell" (buildSellCard st HplanSellFlow (goTo Swallet) HselectSellPosition).

Definition renderSellReview (st : sell_state) (plan : sell_plan) : part :=
  screen_div "screen-sell-review" (buildSellReviewCard plan (se_error st) HconfirmSell (goTo Ssell)).

Definition renderMyOrders : part :=
  screen_div "screen-my-orders" (held (E "div" [cls "card"] [E "h2" [] [T "My Orders"]; skeleton 3 EmptyString])).

Definition my_order_row (order : jsval) : part :=
  E "div" [cls "order-row"]
    [E "div" [cls "order-desc"] [T (describeOrder order)];
     E "div" [cls "order-desc"] [T (fixed_coins (js_Number (field order "payment_value")) +:+ " coins asked")];
     button "btn btn-sm btn-danger" (HselectOrderToCancel order) "Cancel"].

Definition my_orders_failed (e : string) : list part :=
  [E "h2" [] [T "My Orders"]; error_text (cross_mark +:+ "Could not load your orders: ") e; back_group Swallet].

Definition my_orders_content (mine : list jsval) : list part :=
  [E "h2" [] [T "My Orders"]]
  ++ match mine with
     | [] => [E "p" [cls "placeholder"] [T "You have no open orders."]]
     | l => [E "div" [cls "orders-list"] (map my_order_row l)]
     end
  ++ [back_group Swallet].

Definition renderMyOrdersCancel (st : my_orders_state) (order : jsval) : part :=
  let '(ok, errors) := planCancel order in
  let errorEl :=
    E "p" [cls (if str_truthy (mo_cancelError st) then "error" else "error hidden")]
      [T (str_or (mo_cancelError st) EmptyString)] in
  if negb ok then
    screen_div "screen-my-orders-cancel"
      (E "div" [cls "card"]
         [E "h2" [] [T "Cannot cancel this order"];
          E "div" [cls "error-list"] (map (λ e, E "div" [cls "error-field"] [T e]) errors);
          back_group Smy_orders])
  else
    let confirmBtn :=
      E "button" [cls "btn btn-danger"; on "onClick" HconfirmCancel;
                  ("disabled", AVal (if mo_cancelling st then Str "disabled" else Undef))]
        [T (if mo_cancelling st then "Cancelling" +:+ glyph Ellipsis else "Confirm Cancel")] in
    screen_div "screen-my-orders-cancel"
      (E "div" [cls "card"]
         [E "h2" [] [T "Cancel this order?"];
          E "dl" [cls "review-list"]
            (term "Position" (s ← js_slice (field order "txid") 16;
                              Ok (s +:+ glyph Ellipsis +:+ ":" +:+ js_String (field order "vout")))
             ++ term "Multiplier" (Ok ("x" +:+ js_String (field order "multiplier")))
             ++ term "Asking price" (Ok (js_String (field order "payment_value") +:+ " sat"))
             ++ term "Description" (Ok (describeOrder order)));
          E "p" [cls "warning"]
            [T ("This withdraws the order from this relay. Peers that already copied "
                +:+ "it may keep offering it until it is spent or expires on their side.")];
          errorEl;
          E "div" [cls "button-group"] [confirmBtn; backButton Smy_orders]]).

Definition renderMigrate : part :=
  screen_div "screen-migrate"
    (E "div" [cls "card"]
       [E "h2" [] [T "This wallet uses the old key derivation"];
        E "p" []
          [T ("This wallet was created before a bug was fixed in how its private key "
              +:+ "was derived from your recovery words. Your funds are safe and this "
              +:+ "wallet keeps working exactly as before.")];
        E "p" []
          [T ("What does not work is the promise those words made. They were labelled "
              +:+ "a BIP39 mnemonic, but the key was not derived the way BIP39 and BIP32 "
              +:+ "specify, so typing them into another wallet would show you an empty "
              +:+ "account rather than your coins. New wallets now derive at " +:+ WHIPPET_KEY_PATH
              +:+ " and can be recovered anywhere.")];
        E "p" [cls "warning"]
          [T ("To get that guarantee you need a new wallet and a transfer of your "
              +:+ "funds to it. That is a real transaction: it costs a fee, it is public, "
              +:+ "and your old recovery words will not restore the new wallet. Write the "
              +:+ "new words down before moving anything.")];
        E "div" [cls "button-group"]
          [button "btn btn-primary" HmigrateCreate "Create a new wallet";
           button "btn btn-secondary" (HgoTo Swallet) "Keep using this one"]]).
End screens.

(** ** What each screen offers *)

(** The functions the buttons of a screen run. *)
Definition offers (c : screen) (h : handler) : bool :=
  match c, h with
  | Sinit, (HcreateNewWallet | HrestoreWallet)
  | Screate, (HfinishWalletSetup | HgoToInit)
  | Srestore, (HdoRestore | HgoToInit)
  | Sunlock, (HdoUnlock | HgoToInit)
  | Swallet, (HcopyAddress | HgoTo Smigrate | HgoToMint | HgoToSend | HgoToMarket | HstartSell | HgoToMyOrders
              | HlockWallet | HgoToInit)
  | Smint, (HplanMintTx | HgoTo Swallet)
  | Smint_review, (HconfirmMint | HgoTo Smint)
  | Smarket, (HselectOrderToFill _ | HgoTo Swallet)
  | Smarket_fill, (HconfirmFill _ _ _ _ | HgoTo Smarket)
  | Ssend, (HplanSendTx | HgoTo Swallet | HstartAddressScan | HselectSendPosition _)
  | Ssend_review, (HconfirmSend | HgoTo Ssend)
  | Ssell, (HplanSellFlow | HgoTo Swallet | HselectSellPosition _)
  | Ssell_review, (HconfirmSell | HgoTo Ssell)
  | Smy_orders, (HselectOrderToCancel _ | HgoTo Swallet)
  | Smy_orders_cancel, (HconfirmCancel | HgoTo Smy_orders)
  | Smigrate, (HmigrateCreate | HgoTo Swallet) => true
  | _, _ => false
  end.

(** What may stand below a screen: the backup phrase of a wallet that was being
    made when the screen changed, and the camera's Cancel. *)
Definition offers_extra (h : handler) : bool :=
  match h with HfinishWalletSetup | HgoToInit | HabortScan _ => true | _ => false end.

(** The reviews have no fields, and no element that code looks for. *)
Definition has_ids (c : screen) : bool :=
  match c with Smint_review | Ssend_review | Ssell_review => false | _ => true end.

(** An element of a screen: inert, with the screen's own buttons. *)
Definition shown (c : screen) (held : bool) (tag : string) (attrs : list (string * string)) (ls : list (string * handler)) : bool :=
  inert_elem tag attrs && forallb (λ l, offers c l.2) ls && (bool_decide (assoc "id" attrs = None) || has_ids c).
Definition shown_extra (held : bool) (tag : string) (attrs : list (string * string)) (ls : list (string * handler)) : bool :=
  negb held && inert_elem tag attrs && forallb (λ l, offers_extra l.2) ls.

Section shown.
Context `{!Page handler} (P : bool → string → list (string * string) → list (string * handler) → bool).
Abbreviation part := (res (@child_arg handler)).

Lemma all_TR r : part_all P (TR r).
Proof. by apply part_all_bind. Qed.

Lemma all_map {A} (f : A → part) l : (∀ x, part_all P (f x)) → Forall (part_all P) (map f l).
Proof. intros Hf. induction l; constructor; auto. Qed.

Lemma all_if_text t (f : string → part) : (∀ x, part_all P (f x)) → Forall (part_all P) (if_text t f).
Proof. intros Hf. unfold if_text. case_match; repeat constructor; auto. Qed.

Lemma all_held r :
  (∀ tag attrs ls, P true tag attrs ls = P false tag attrs ls) → part_all P r → part_all P (held r).
Proof.
  intros HP Hr n (c & Hc & Heq)%bind_Ok. destruct c as [|m|]; simplify_eq. rewrite hold_all by done. by apply Hr.
Qed.

Lemma all_children cs l :
  Forall (part_all P) cs → mapR id cs = Ok l → forallb (node_all P) (mjoin (map child_node l)) = true.
Proof. apply part_all_children. Qed.
End shown.

Ltac all_parts :=
  repeat lazymatch goal with
  | |- Forall _ [] => apply Forall_nil_2
  | |- Forall _ (_ :: _) => apply Forall_cons_2
  | |- Forall _ (_ ++ _) => apply Forall_app; split
  | |- Forall _ (map _ _) => apply all_map; intros ?
  | |- Forall _ (if_text _ _) => apply all_if_text; intros ?
  | |- Forall _ (match ?x with _ => _ end) => destruct x
  | |- part_all _ (T _) => apply part_all_T
  | |- part_all _ (TR _) => apply all_TR
  | |- part_all _ no_child => apply part_all_no_child
  | |- part_all _ (Throw _) => apply part_all_throw
  | |- part_all _ (skeleton _ _) => apply part_all_skeleton; [intros ?|]; reflexivity
  | |- part_all _ (held _) => apply all_held; [reflexivity|]
  | |- part_all _ (E _ _ _) => apply part_all_E; [reflexivity|reflexivity|reflexivity|]
  | |- part_all _ (mbind _ _) => apply part_all_bind; intros ? _
  | |- part_all _ (match ?x with _ => _ end) => destruct x
  end.

Section shown_screens.
Context `{!Page handler}.

Lemma shown_init : part_all (shown Sinit) renderInit.
Proof. unfold renderInit, screen_div, button. all_parts. Qed.
Lemma shown_create w : part_all (shown Screate) (renderCreate w).
Proof. unfold renderCreate, screen_div, button. all_parts. Qed.
Lemma extra_create w : part_all shown_extra (renderCreate w).
Proof. unfold renderCreate, screen_div, button. all_parts. Qed.
Lemma extra_overlay n : part_all shown_extra (buildScanOverlay (HabortScan n)).
Proof. unfold buildScanOverlay, button. all_parts. Qed.
Lemma shown_restore : part_all (shown Srestore) renderRestore.
Proof. unfold renderRestore, screen_div, button. all_parts. Qed.
Lemma shown_unlock : part_all (shown Sunlock) renderUnlock.
Proof. unfold renderUnlock, screen_div, button. all_parts. Qed.
Lemma shown_wallet w b c : part_all (shown Swallet) (renderWallet w b c).
Proof. unfold renderWallet, screen_div, button, optional_text, txStatus. all_parts. Qed.
Lemma shown_mint st : part_all (shown Smint) (renderMint st).
Proof. unfold renderMint, screen_div, backButton, button, mint_error_part, field_error. all_parts. Qed.
Lemma shown_mint_review st p : part_all (shown Smint_review) (renderMintReview st p).
Proof. unfold renderMintReview, screen_div, buildMintReviewCard, review_row, button, error_text. all_parts. Qed.
Lemma shown_send st w b : part_all (shown Ssend) (renderSend st w b).
Proof.
  unfold renderSend, screen_div, buildSendCard, send_positions, send_position_row, field_error, button, error_text.
  all_parts.
Qed.
Lemma shown_send_review st p : part_all (shown Ssend_review) (renderSendReview st p).
Proof.
  unfold renderSendReview, screen_div, buildSendReviewCard, conservation_warning, review_row, button, error_text.
  all_parts.
Qed.
Lemma shown_market : part_all (shown Smarket) renderMarket.
Proof. unfold renderMarket, screen_div. all_parts. Qed.
Lemma shown_market_fill o : part_all (shown Smarket_fill) (renderMarketFill o).
Proof. unfold renderMarketFill, screen_div, review_row. all_parts. Qed.
Lemma shown_sell st : part_all (shown Ssell) (renderSell st).
Proof. unfold renderSell, screen_div, buildSellCard, sell_position_row, button, error_text. all_parts. Qed.
Lemma shown_sell_review st p : part_all (shown Ssell_review) (renderSellReview st p).
Proof. unfold renderSellReview, screen_div, buildSellReviewCard, term, button, error_text. all_parts. Qed.
Lemma shown_my_orders : part_all (shown Smy_orders) renderMyOrders.
Proof. unfold renderMyOrders, screen_div. all_parts. Qed.
Lemma shown_my_orders_cancel st o : part_all (shown Smy_orders_cancel) (renderMyOrdersCancel st o).
Proof.
  unfold renderMyOrdersCancel, screen_div, back_group, backButton, term, button.
  destruct (planCancel o) as [ok errors], (negb ok), (mo_cancelling st); all_parts.
Qed.
Lemma shown_migrate : part_all (shown Smigrate) renderMigrate.
Proof. unfold renderMigrate, screen_div, button. all_parts. Qed.

(** What a settled fetch puts into a held element. *)
Lemma all_fill_with P body failed l :
  (∀ b, body = Ok b → Forall (part_all P) b) → (∀ e, Forall (part_all P) (failed e)) →
  fill_with body failed = Ok l → forallb (node_all P) (mjoin (map child_node l)) = true.
Proof.
  intros Hb Hf. unfold fill_with. destruct (b ← body; mapR id b) as [l'|e] eqn:Hbody.
  - intros [= <-]. apply bind_Ok in Hbody as (b & Hb' & Hl). eapply all_children; [|done]. auto.
  - apply all_children. apply Hf.
Qed.

Lemma shown_balance r l :
  loadBalanceSection r = Ok l → forallb (node_all (shown Swallet)) (mjoin (map child_node l)) = true.
Proof.
  apply all_fill_with.
  - intros b (u & _ & <-%Ok_inj)%bind_Ok. unfold stale_part, utxo_row, staleNotice. all_parts.
  - intros e. all_parts.
Qed.
Lemma shown_market_content r l :
  market_content r = Ok l → forallb (node_all (shown Smarket)) (mjoin (map child_node l)) = true.
Proof.
  apply all_fill_with.
  - intros b (u & _ & <-%Ok_inj)%bind_Ok.
    unfold stale_part, staleNotice, market_row, back_group, backButton, button. all_parts.
  - intros e. unfold error_text, back_group, backButton, button. all_parts.
Qed.
Lemma shown_fill_refused es e : Forall (part_all (shown Smarket_fill)) (fill_refused es e).
Proof. unfold fill_refused, error_text, back_group, backButton, button. all_parts. Qed.
Lemma shown_fill_review o p us f plan e : Forall (part_all (shown Smarket_fill)) (fill_review o p us f plan e).
Proof. unfold fill_review, review_row, error_text, backButton, button. all_parts. Qed.
Lemma shown_fill_failed e : Forall (part_all (shown Smarket_fill)) (fill_failed e).
Proof. unfold fill_failed, error_text, back_group, backButton, button. all_parts. Qed.
Lemma shown_my_orders_failed e : Forall (part_all (shown Smy_orders)) (my_orders_failed e).
Proof. unfold my_orders_failed, error_text, back_group, backButton, button. all_parts. Qed.
Lemma shown_my_orders_content l : Forall (part_all (shown Smy_orders)) (my_orders_content l).
Proof. unfold my_orders_content, my_order_row, back_group, backButton, button. all_parts. Qed.
End shown_screens.

(** What a review depends on, besides its plan. *)
Lemma renderSendReview_ext `{!Page handler} d d' plan :
  sd_toAddress d = sd_toAddress d' → sd_error d = sd_error d' → renderSendReview d plan = renderSendReview d' plan.
Proof. unfold renderSendReview. by intros -> ->. Qed.

Lemma renderSellReview_ext `{!Page handler} d d' plan :
  se_error d = se_error d' → renderSellReview d plan = renderSellReview d' plan.
Proof. unfold renderSellReview. by intros ->. Qed.

(** ** What a review says *)

Section review_texts.
Context `{!Page handler}.
Abbreviation part := (res (@child_arg handler)).

Lemma good_TR s : good (TR (H:=handler) (Ok s)).
Proof. by exists (CStr s). Qed.

Lemma good_map {A} (f : A → part) l : (∀ x, good (f x)) → Forall good (map f l).
Proof. intros Hf. induction l; constructor; auto. Qed.

Lemma good_if_text t (f : string → part) : (∀ x, good (f x)) → Forall good (if_text t f).
Proof. intros Hf. unfold if_text. case_match; repeat constructor; auto. Qed.
End review_texts.

Ltac good_parts :=
  repeat lazymatch goal with
  | |- Forall _ [] => apply Forall_nil_2
  | |- Forall _ (_ :: _) => apply Forall_cons_2
  | |- Forall _ (_ ++ _) => apply Forall_app; split
  | |- Forall _ (map _ _) => apply good_map; intros ?
  | |- Forall _ (if_text _ _) => apply good_if_text; intros ?
  | |- Forall _ (match ?x with _ => _ end) => destruct x
  | |- good (T _) => apply good_T
  | |- good (TR (Ok _)) => apply good_TR
  | |- good no_child => apply good_no_child
  | |- good (E _ _ _) => apply good_E; [reflexivity|reflexivity|]
  | |- good (match ?x with _ => _ end) => destruct x
  | |- good (review_row _ _) => unfold review_row
  | |- good (button _ _ _) => unfold button
  | |- good (error_text _ _) => unfold error_text
  end.

(** The texts of a part, level by level. *)
Ltac read_texts :=
  repeat first
    [ progress (cbn [map mjoin list_join app part_texts T TR mbind res_bind])
    | rewrite part_texts_E by (reflexivity || good_parts) ].

Section reviews.
Context `{!Page handler}.

Lemma texts_review_row label s : part_texts (review_row (H:=handler) label (Ok s)) = [label; s].
Proof. unfold review_row. read_texts. reflexivity. Qed.

Lemma texts_button class f label : part_texts (button (H:=handler) class f label) = [label].
Proof. unfold button. read_texts. reflexivity. Qed.

Lemma texts_if_text t (f : string → res (@child_arg handler)) :
  (∀ x, part_texts (f x) = [x]) →
  mjoin (map part_texts (if_text t f)) = if str_truthy t then [default EmptyString t] else [].
Proof. intros Hf. unfold if_text. case_match; [|done]. cbn. by rewrite Hf. Qed.

Lemma texts_map {A} (f : A → res (@child_arg handler)) (t : A → string) l :
  (∀ x, part_texts (f x) = [t x]) → mjoin (map part_texts (map f l)) = map t l.
Proof. intros Hf. induction l as [|x l IH]; [done|]. cbn [map]. rewrite mjoin_cons, Hf, IH. done. Qed.

Lemma texts_error e : part_texts (error_text (H:=handler) EmptyString e) = [e].
Proof. unfold error_text. read_texts. reflexivity. Qed.

Lemma texts_tail (error : option string) (confirm edit : string) (f h : handler) :
  mjoin (map part_texts (if_text error (error_text EmptyString)
    ++ [E "div" [cls "button-group"] [button "btn btn-primary" f confirm; button "btn btn-secondary" h edit]]))
  = (if str_truthy error then [default EmptyString error] else []) ++ [confirm; edit].
Proof.
  rewrite map_app, mjoin_app, texts_if_text by apply texts_error. reflexivity.
Qed.

(** The lines of the send review for any plan with an output for the recipient. *)
Definition send_review_lines (plan : transfer_plan) (recipient : plan_output) (toAddressChecked : string) : list string :=
  ["Review Transfer"; "Recipient"; "Public key:"; Script.bytesToHex (tp_toPubKey plan);
   "Address checked:"; str_or (Some toAddressChecked) "(not provided)";
   "Sending:"; coins_text (po_value recipient) +:+ times_sign +:+ num_str (tp_multiplier plan);
   "Transaction";
   "Kept in your position:";
   match output_of OUTPUT_TOKEN_CHANGE plan with
   | Some o => coins_text (po_value o)
   | None => "(none " +:+ glyph EmDash +:+ " sending the whole position)"
   end;
   "Fee (paid in WHIP, not tokens):"; coins_text (tp_fee plan);
   "WHIP change:"; match output_of OUTPUT_WHIP_CHANGE plan with Some o => coins_text (po_value o) | None => "(none)" end;
   "Token value in / out:"; coins_text (tp_tokenValueIn plan) +:+ " / " +:+ coins_text (tokenSatsOut plan)].

Lemma texts_send_review plan recipient addr error f h :
  output_of OUTPUT_TOKEN_RECIPIENT plan = Some recipient →
  part_texts (buildSendReviewCard plan addr error f h)
  = send_review_lines plan recipient addr ++ mjoin (map part_texts (conservation_warning plan))
    ++ map w_message (tp_warnings plan)
    ++ (if str_truthy error then [default EmptyString error] else []) ++ ["Confirm & Broadcast"; "Edit"].
Proof.
  intros Hr. unfold buildSendReviewCard. rewrite Hr. cbv zeta.
  rewrite part_texts_E by (reflexivity || (unfold conservation_warning; good_parts)).
  rewrite !map_app, !mjoin_app. rewrite (texts_map _ w_message) by (intros; read_texts; reflexivity).
  rewrite <- (mjoin_app (map part_texts (if_text _ _))), <- map_app, texts_tail. reflexivity.
Qed.

(** The plans of [planTransfer]: their covenant outputs add up to the position. *)
Lemma plan_token_sum i p :
  planTransfer i = Ok (inl p) →
  tokenSatsOut p = tp_tokenValueIn p
  ∧ output_of OUTPUT_TOKEN_RECIPIENT p
    = Some (PlanOutput OUTPUT_TOKEN_RECIPIENT (tp_amountSats p) (tp_toPubKey p) (Some (tp_multiplier p)))
  ∧ output_of OUTPUT_TOKEN_CHANGE p
    = (if (tp_remainderSats p >? Int 0)%num
       then Some (PlanOutput OUTPUT_TOKEN_CHANGE (tp_remainderSats p) (tp_ownPubKey p) (Some (tp_multiplier p))) else None)
  ∧ output_of OUTPUT_WHIP_CHANGE p
    = (if (tp_change p >? Int 0)%num then Some (PlanOutput OUTPUT_WHIP_CHANGE (tp_change p) (tp_ownPubKey p) None) else None).
Proof.
  intros (v & z & own & to & a & sel & Hg & _ & ->)%planTransfer_inv.
  destruct Hg as [[_ _ _ Hv _ _ _ _ _ _] _ _ _ Ea [Hd Hr] _].
  unfold MAX_SAFE_SATS, MAX_SAFE_INTEGER in Hv. change HARD_DUST_LIMIT with 100000 in *.
  unfold tokenSatsOut, output_of, make_plan, plan_outputs. rewrite Ea.
  cbn [as_num tp_outputs tp_tokenValueIn tp_amountSats tp_toPubKey tp_multiplier tp_remainderSats tp_ownPubKey tp_change].
  rewrite int_ltb. split_and!; [|done|by destruct (0 <? v - a), (fd_change sel >? Int 0)%num..].
  destruct (Z.ltb_spec 0 (v - a)), (fd_change sel >? Int 0)%num; cbn [app List.filter]; rewrite !is_token_kind;
    cbn [po_kind fold_left po_value]; repeat (rewrite int_add by lia); f_equal; lia.
Qed.

(** The warning is there exactly when the outputs do not add up. *)
Lemma conservation_warning_nil plan :
  conservation_warning (H:=handler) plan = [] ↔ (tokenSatsOut plan =? tp_tokenValueIn plan)%num = true.
Proof. unfold conservation_warning. by destruct (_ =? _)%num. Qed.

(** C27 The send review of a plan of [planTransfer] says, line by line, what the
    transaction will do: the key it pays, the amount that was asked for and the
    multiplier, what stays in the position, the fee and the change, and the
    position's value both as the value going in and as the sum of the covenant
    outputs.  The warning of a bug is never among the lines; every warning of the
    plan is. *)
Theorem send_review_faithful i p addr error f h :
  planTransfer i = Ok (inl p) →
  ∃ v z a, field (ti_position i) "value" = Num (Int v) ∧ field (ti_position i) "multiplier" = Num (Int z)
    ∧ ti_amountSats i = Num (Int a)
    ∧ part_texts (buildSendReviewCard p addr error f h)
      = ["Review Transfer"; "Recipient"; "Public key:"; Script.bytesToHex (tp_toPubKey p);
         "Address checked:"; str_or (Some addr) "(not provided)";
         "Sending:"; coins_text (Int a) +:+ times_sign +:+ num_str (Int z);
         "Transaction"; "Kept in your position:";
         (if 0 <? v - a then coins_text (Int (v - a)) else "(none " +:+ glyph EmDash +:+ " sending the whole position)");
         "Fee (paid in WHIP, not tokens):"; coins_text (tp_fee p);
         "WHIP change:"; (if (tp_change p >? Int 0)%num then coins_text (tp_change p) else "(none)");
         "Token value in / out:"; coins_text (Int v) +:+ " / " +:+ coins_text (Int v)]
        ++ map w_message (tp_warnings p)
        ++ (if str_truthy error then [default EmptyString error] else []) ++ ["Confirm & Broadcast"; "Edit"].
Proof.
  intros Hp. destruct (plan_token_sum i p Hp) as (Hsum & Hr & Hc & Hw).
  apply planTransfer_inv in Hp as (v & z & own & to & a & sel & Hg & _ & ->).
  exists v, z, a. split_and!; [apply Hg..|]. rewrite (texts_send_review _ _ _ _ _ _ Hr).
  rewrite (proj2 (conservation_warning_nil _)) by (rewrite Hsum; by apply num_eqb_refl).
  unfold send_review_lines. rewrite Hsum, Hc, Hw. unfold make_plan. rewrite (gr_amount _ _ _ _ _ _ Hg).
  cbn [as_num tp_tokenValueIn tp_amountSats tp_toPubKey tp_multiplier tp_remainderSats tp_change po_value map mjoin].
  rewrite int_ltb. by destruct (0 <? v - a), (fd_change sel >? Int 0)%num.
Qed.

(** The lines of the mint review, from the form's values and the plan. *)
Definition mint_review_lines (ticker : string) (multiplier amountSats fee change : Number) : list string :=
  let coins := (amountSats / Int COIN)%num in
  ["Review Mint Transaction"; "Token Details"; "Ticker:"; ticker; "Multiplier:"; num_str multiplier;
   "Virtual Balance:"; toLocaleString (coins * multiplier)%num;
   "Transaction Details"; "Amount Locked:"; toLocaleString coins +:+ " coins";
   "Estimated Fee:"; toFixed (fee / Int COIN)%num 8 +:+ " coins";
   "Change:"; (if (change / Int COIN >? Int 0)%num then toFixed (change / Int COIN)%num 8 +:+ " coins" else "(none)")].

Lemma texts_mint_review st plan error f h :
  part_texts (buildMintReviewCard st plan error f h)
  = mint_review_lines (mt_ticker st) (mt_multiplier st) (mt_amountSats st) (mp_fee plan) (mp_change plan)
    ++ (if str_truthy error then [default EmptyString error] else []) ++ ["Confirm & Broadcast"; "Edit"].
Proof.
  unfold buildMintReviewCard. cbv zeta. rewrite part_texts_E by (reflexivity || good_parts).
  rewrite map_app, mjoin_app, texts_tail. reflexivity.
Qed.

(** The lines of the sell review. *)
Definition sell_review_lines (s : sell_summary) (txid : string) : list string :=
  ["Review this sale"; "Position"; take_str 16 txid +:+ glyph Ellipsis +:+ ":" +:+ js_String (ss_vout s);
   "Multiplier"; "x" +:+ js_String (ss_multiplier s); "Token value"; js_String (ss_tokenValue s) +:+ " sat";
   "Asking price"; js_String (ss_priceSats s) +:+ " sat"; "Paid to"; ss_payTo s;
   "Publishing this signs an offer that ANYONE may take: whoever pays "
   +:+ js_String (ss_priceSats s) +:+ " satoshis to your address gets this position. You are not "
   +:+ "choosing who buys it. The offer stands until you cancel it or the position is spent."].

Lemma texts_sell_review plan s txid error f h :
  sl_summary plan = Some s → ss_txid s = Str txid →
  part_texts (buildSellReviewCard plan error f h)
  = sell_review_lines s txid
    ++ (if str_truthy error then [default EmptyString error] else []) ++ ["Publish offer"; "Edit"].
Proof.
  intros Hs Ht. unfold buildSellReviewCard, term. rewrite Hs, Ht. cbn [js_slice mbind res_bind].
  rewrite part_texts_E by (reflexivity || good_parts).
  rewrite map_app, mjoin_app, texts_tail. reflexivity.
Qed.
End reviews.

(** A plan and the page that shows it. *)
Definition sample_page : Page handler :=
  {| glyph := λ _, "?"; fn_source := λ _, "function"; toLocaleString := num_str |}.
#[local] Existing Instance sample_page.

Lemma send_review_faithful_witness :
  ∃ p a, planTransfer sample_request = Ok (inl p)
    ∧ part_texts (buildSendReviewCard p EmptyString None HconfirmSend (HgoTo Ssend)) !! 7%nat
      = Some (coins_text (Int a) +:+ times_sign +:+ num_str (Int 1000)).
Proof.
  pose proof sample_plan_ok as Hok.
  destruct (planTransfer sample_request) as [[p|]|] eqn:Hp; [|destruct Hok|destruct Hok].
  destruct (send_review_faithful sample_request p EmptyString None HconfirmSend (HgoTo Ssend) Hp)
    as (v & z & a & _ & Hz & _ & Htexts).
  exists p, a. split; [reflexivity|]. rewrite Htexts. injection Hz as <-. reflexivity.
Defined.
