(* ===== verification/Flow.v ===== *)
(** * Flow: [contrib/uap-web/app.js], the running application

    The whole page as a machine.  Its state is the module's variables, the wallet
    objects, the page with what is typed into it, the camera scans and the
    asynchronous work that is pending; its inputs are a click on a button that is
    on the page, a keystroke, the completion of a pending task, and what the
    camera and the clipboard report.  A handler runs to its first [await] and
    leaves a task; a task, when it completes, runs its call on the world and then
    the code that follows the [await], which reads the module's variables as they
    are by then.  Tasks complete in any order.

    The theorems are in the files that follow.  [FlowProps]: what every reachable
    page is and what a review screen lets the user sign.  [FlowLock]: what a locked
    wallet can do.  [FlowRefine]: that the badge and the sign-in handlers implement
    the models of [App] and [Wallet].  [FlowLoad]: that what a screen waits for is
    on its way.  [FlowRuns] has the runs that show where two
    tasks in flight get into each other's way. *)

From stdpp Require Import base tactics option list numbers strings pretty relations.
From Stdlib Require Import ZArith Lia Ascii.
From S2P Require Import Prelude JsInt JsStr JsNum JsVal Effects Words Sha256 Addr Script Tx Payments Orders.
From S2P Require Import Transfer Market Mint Sell Cancel Api App Mnemonic Bip32 Wallet Dom Qrscan Views.

#[export] Instance sell_state_rebuild : Rebuild sell_state := λ s,
  SellState (se_positions s) (se_loadError s) (se_selectedKey s) (se_priceSats s) (se_plan s) (se_error s).
#[export] Instance my_orders_state_rebuild : Rebuild my_orders_state := λ s,
  MyOrdersState (mo_orders s) (mo_loadError s) (mo_selectedOrder s) (mo_cancelError s) (mo_cancelling s).
#[export] Instance mint_state_rebuild : Rebuild mint_state := λ s,
  MintState (mt_ticker s) (mt_multiplier s) (mt_amountSats s) (mt_plan s) (mt_planErrors s) (mt_error s).
#[export] Instance send_state_rebuild : Rebuild send_state := λ s,
  SendState (sd_positions s) (sd_fundingUtxos s) (sd_feeRate s) (sd_loadError s) (sd_selectedKey s) (sd_toPubKey s)
    (sd_toAddress s) (sd_amountCoins s) (sd_plan s) (sd_planErrors s) (sd_error s) (sd_scanNotice s) (sd_scanError s)
    (sd_scanning s).
#[export] Instance market_state_rebuild : Rebuild market_state := λ s,
  MarketState (mk_selectedOrder s) (mk_fillPlan s) (mk_fillError s).

(** ** Pending work

    Where the code stands in an [await]: the call in flight, with the arguments
    it was made with, and what the code after it has in its local variables.
    [view] is the page a reference to an element belongs to. *)
Inductive task :=
| Tcreate (r : res wallet)
| TrenderCreate (r : res wallet)
| Tlock (w : nat) (encrypted : encrypted_key) (view : nat) (errorId : string)
| Trestore (r : res wallet) (passphrase : string) (view : nat)
| Tunlock (w : nat) (passphrase : string) (stored : option stored_wallet) (view : nat)
| Tcopy
| Tbalance (view : nat) (address : string)
| TplanMint (address : string)
| TmintUtxos (address : string)
| Tmint (plan : option mint_plan) (key : option bytes) (address : string) (utxos : list jsval)
| Tpoll (address txid : string)
| TsendPositions (pubKeyHex : string)
| TsendUtxos (positions : list jsval) (address : string)
| TsendFee (positions utxos : list jsval)
| Tsend (plan : transfer_plan) (key : option bytes)
| Tmarket (view : nat)
| TfillPosition (view : nat) (order : jsval)
| TfillUtxos (view : nat) (order position : jsval) (address : string)
| TfillFee (view : nat) (order position : jsval) (takerUtxos : list jsval)
| Tfill (plan : fill_plan) (key : option bytes) (order position : jsval) (takerUtxos : list jsval)
| TsellPositions (pubKeyHex : string)
| Tsell (plan : option sell_plan) (key : option bytes) (address : string)
| TmyOrders (view : nat) (pubKeyHex : string)
| Tcancel (order : jsval) (sig : string).

Record appl {W : Type} := App {
  heap : list wallet;  (** the wallet objects, by the order of their creation *)
  wallet_ref : option nat;  (** the variable [wallet] *)
  cur : screen;  (** [currentScreen] *)
  stg : option stored_wallet;  (** [storage] *)
  drawn : nat;  (** random draws so far *)
  broadcastStatus : badge;
  copyStatus : option copy_status;
  mintState : mint_state;
  sendState : send_state;
  marketState : market_state;
  sellState : sell_state;
  myOrdersState : my_orders_state;
  page : list (node handler);  (** the children of [#app] *)
  page_id : nat;  (** how often the page was drawn *)
  typed : list (string * string);  (** what the user typed into the page's fields *)
  scans : list (scan_opts * scan);
  tasks : list task;
  world : W
}.
Arguments appl : clear implicits.
Arguments App {W}.

#[export] Instance appl_rebuild W : Rebuild (appl W) := λ s,
  App (heap s) (wallet_ref s) (cur s) (stg s) (drawn s) (broadcastStatus s) (copyStatus s) (mintState s) (sendState s)
    (marketState s) (sellState s) (myOrdersState s) (page s) (page_id s) (typed s) (scans s) (tasks s) (world s).

(** ** The page *)

Fixpoint find_node (p : node handler → bool) (n : node handler) : option (node handler) :=
  if p n then Some n
  else match n with
       | TextNode _ => None
       | Element _ _ _ _ cs =>
           foldr (λ c acc, match find_node p c with Some m => Some m | None => acc end) None cs
       end.

Definition find_page (p : node handler → bool) (l : list (node handler)) : option (node handler) :=
  foldr (λ c acc, match find_node p c with Some m => Some m | None => acc end) None l.

Fixpoint edit_node (p : node handler → bool) (f : node handler → node handler) (n : node handler) :
    option (node handler) :=
  if p n then Some (f n)
  else match n with
       | TextNode _ => None
       | Element tag h attrs ls cs =>
           (λ cs, Element tag h attrs ls cs) <$>
           (fix go cs :=
              match cs with
              | [] => None
              | c :: cs =>
                  match edit_node p f c with
                  | Some c => Some (c :: cs)
                  | None => cons c <$> go cs
                  end
              end) cs
       end.

Fixpoint edit_page (p : node handler → bool) (f : node handler → node handler) (l : list (node handler)) :
    list (node handler) :=
  match l with
  | [] => []
  | c :: l => match edit_node p f c with Some c => c :: l | None => c :: edit_page p f l end
  end.

Definition attribute (k : string) (n : node handler) : option string :=
  match n with TextNode _ => None | Element _ _ attrs _ _ => assoc k attrs end.

Definition has_id (id : string) (n : node handler) : bool := bool_decide (attribute "id" n = Some id).

(** A number field drops a default that is no floating-point literal. *)
Definition float_literal (s : string) : bool :=
  match chars s with
  | "+"%char :: _ => false
  | l => match take_decimal l with
         | Some (v, []) => isFinite v && negb (bool_decide (last l = Some "."%char))
         | _ => false
         end
  end.

Definition default_value (n : node handler) : string :=
  let v := default EmptyString (attribute "value" n) in
  if bool_decide (attribute "type" n = Some "number") && negb (float_literal v) then EmptyString else v.

(** The handlers of buttons that are not disabled. *)
Fixpoint clickable (n : node handler) : list handler :=
  match n with
  | TextNode _ => []
  | Element _ _ attrs ls cs =>
      (if bool_decide (assoc "disabled" attrs = None)
       then omap (λ l, if str_eqb (fst l) "click" then Some (snd l) else None) ls else [])
      ++ mjoin (map clickable cs)
  end.

(** [errorEl.textContent = message; errorEl.setAttribute('class', 'error')]. *)
Definition show_message (message : string) (n : node handler) : node handler :=
  match n with
  | TextNode s => TextNode s
  | Element tag h attrs ls _ =>
      Element tag h (set_pair "class" "error" attrs) ls (if str_eqb message EmptyString then [] else [TextNode message])
  end.

(** ** Numbers typed by the user *)

(** [parseInt(s)]. *)
Fixpoint int_prefix (base acc : Z) (any : bool) (l : list ascii) : option Z :=
  match l with
  | c :: l' =>
      match hexval c with
      | Some d => if d <? base then int_prefix base (base * acc + d) true l' else if any then Some acc else None
      | None => if any then Some acc else None
      end
  | [] => if any then Some acc else None
  end.

Definition js_parseInt (s : string) : Number :=
  let '(neg, l) := take_sign (trim_start (chars s)) in
  let r := match l with
           | "0"%char :: "x"%char :: t | "0"%char :: "X"%char :: t => int_prefix 16 0 false t
           | _ => int_prefix 10 0 false l
           end in
  match r with
  | Some n => if neg then num_neg (of_bigint n) else of_bigint n
  | None => NaN
  end.

(** [Math.round(x)]: the nearest integer, a tie going up. *)
Definition js_round (x : Number) : Number :=
  match x with Fin m k => Int ((2 * m + 2 ^ k) / (2 * 2 ^ k)) | x => x end.

(** [parseFloat(sendState.amountCoins)] in satoshis. *)
Definition sats_of_coins (s : string) : Number :=
  let coins := js_parseFloat s in
  if isFinite coins then js_round (coins * Int COIN)%num else NaN.

(** ** The application *)

(** What the application is given: the base URL, [fetch], the timer and the
    clock; the curve module and what [configureSecp] makes of it; WebCrypto, its
    random bytes and [TextDecoder]; and the browser's camera: [BarcodeDetector],
    [getUserMedia], [video.play], and what the detector's constructor throws. *)
Class Env (W : Type) := {
  baseUrl : string;
  fetchImpl : request → io W response;
  sleep : Z → io W unit;
  now : W → Z;
  curve : secp;
  configured : res secp;
  webcrypto : option subtle;
  random : nat → nat → bytes;
  decode : bytes → string;
  has_detector : bool;
  has_camera : bool;
  can_play : bool;
  detector_error : option js_error
}.

Section flow.
Context `{!Page handler} {W : Type} `{!Env W}.
Abbreviation st := (appl W).
Implicit Types s : st.

Definition the_wallet s : option wallet := wallet_ref s ≫= λ r, heap s !! r.

(** [wallet.privKey] and [wallet.address] as arguments. *)
Definition wallet_key s : res (option bytes) := of_wallet (the_wallet s) "privKey" _privKey.
Definition wallet_address s : res string := of_wallet (the_wallet s) "address" (λ w, default "null" (_address w)).

(** A key that is null is not bytes to the curve module. *)
Definition no_key : string := "Uint8Array expected".
Definition getPublicKey_ (k : option bytes) : res bytes :=
  match k with Some k => Tx.getPublicKey curve k true | None => Throw no_key end.

Definition own_pubkey_hex s : res string :=
  k ← wallet_key s;
  pk ← getPublicKey_ k;
  Ok (Script.bytesToHex pk).

Definition add_task (t : task) s : st := s <| tasks ::= λ l, l ++ [t] |>.

(** ** [render] *)

(** A review or a confirmation that has nothing to show sends the user back. *)
Definition redirect s : screen :=
  match cur s with
  | Smint_review => match mt_plan (mintState s) with None => Smint | Some _ => Smint_review end
  | Ssend_review => match sd_plan (sendState s) with None => Ssend | Some _ => Ssend_review end
  | Smarket_fill => match mk_selectedOrder (marketState s) with None => Smarket | Some _ => Smarket_fill end
  | Ssell_review => match se_plan (sellState s) with None => Ssell | Some _ => Ssell_review end
  | Smy_orders_cancel => match mo_selectedOrder (myOrdersState s) with None => Smy_orders | Some _ => Smy_orders_cancel end
  | c => c
  end.

Definition scanSupported : bool := isScanSupported has_detector has_camera.

(** What each screen paints; [None] where nothing is painted yet. *)
Definition screen_part s : option (res (@child_arg handler)) :=
  match cur s with
  | Sinit => Some renderInit
  | Screate => renderCreate <$> the_wallet s
  | Srestore => Some renderRestore
  | Sunlock => Some renderUnlock
  | Swallet => Some (renderWallet (the_wallet s) (broadcastStatus s) (copyStatus s))
  | Smint => Some (renderMint (mintState s))
  | Smint_review => renderMintReview (mintState s) <$> mt_plan (mintState s)
  | Smarket => Some renderMarket
  | Smarket_fill => renderMarketFill <$> mk_selectedOrder (marketState s)
  | Ssend => Some (renderSend (sendState s) (the_wallet s) scanSupported)
  | Ssend_review => renderSendReview (sendState s) <$> sd_plan (sendState s)
  | Ssell => Some (renderSell (sellState s))
  | Ssell_review => renderSellReview (sellState s) <$> se_plan (sellState s)
  | Smy_orders => Some renderMyOrders
  | Smy_orders_cancel => renderMyOrdersCancel (myOrdersState s) <$> mo_selectedOrder (myOrdersState s)
  | Smigrate => Some renderMigrate
  end.

(** [app.appendChild]; a part that throws is a rejected promise, and leaves the
    page as it is. *)
Definition append_part (r : res (@child_arg handler)) s : st :=
  match r with
  | Ok (CNode n) => s <| page ::= λ l, l ++ [n] |>
  | _ => s
  end.

Definition painted (r : res (@child_arg handler)) : bool := match r with Ok _ => true | Throw _ => false end.

(** What a fetch has for an element of the page [view]: nothing happens on the
    screen if the page has been drawn again since. *)
Definition fill_view (view : nat) (r : res (list (@child_arg handler))) s : st :=
  match r with
  | Ok l => if (view =? page_id s)%nat then s <| page ::= map (fill (λ _, mjoin (map child_node l))) |> else s
  | Throw _ => s
  end.

(** [Wallet.create(...)] up to its first [await]: the random draw is made. *)
Definition start_create (opts : options) s : res wallet * st :=
  match create curve webcrypto random opts (stg s) (drawn s) with
  | Ok (w, n) => (Ok w, s <| drawn := n |>)
  | Throw e => (Throw e, s)
  end.

(** The work a screen starts once it is painted. *)
Definition screen_tasks s : st :=
  match cur s with
  | Screate =>
      match the_wallet s with
      | Some _ => s
      | None => let '(r, s) := start_create default_options s in add_task (TrenderCreate r) s
      end
  | Swallet =>
      match wallet_address s with Ok a => add_task (Tbalance (page_id s) a) s | Throw _ => s end
  | Smarket => add_task (Tmarket (page_id s)) s
  | Smarket_fill =>
      match mk_selectedOrder (marketState s) with
      | Some order => if painted (renderMarketFill order) then add_task (TfillPosition (page_id s) order) s else s
      | None => s
      end
  | Smy_orders =>
      match own_pubkey_hex s with
      | Ok hex => add_task (TmyOrders (page_id s) hex) s
      | Throw e =>
          fill_view (page_id s) (mapR id (my_orders_failed e)) (s <| myOrdersState ::= λ m, m <| mo_loadError := Some e |> |>)
      end
  | _ => s
  end.

(** [dom.clear(app)] and the copy notice, then the screen, then its work. *)
Definition blank s : st :=
  let s := s <| cur := redirect s |> <| page := [] |> <| page_id ::= S |> <| typed := [] |> in
  if bool_decide (cur s = Swallet) then s else s <| copyStatus := None |>.

Definition paint s : st := match screen_part s with Some r => append_part r s | None => s end.

Definition render s : st := screen_tasks (paint (blank s)).

Definition go (c : screen) s : st := render (s <| cur := c |>).

(** ** Fields of the page *)

(** [document.getElementById(id).value]; [None] if there is no such element. *)
Definition value_of (id : string) s : option string :=
  n ← find_page (has_id id) (page s);
  Some (default (default_value n) (assoc id (typed s))).

(** [errorEl.textContent = message] on an element of the page [view]. *)
Definition show_error_in (view : nat) (id message : string) s : st :=
  if (view =? page_id s)%nat then s <| page ::= edit_page (has_id id) (show_message message) |> else s.

Definition captureSendInputs s : st :=
  let keep id old := default old (value_of id s) in
  s <| sendState ::= λ d,
         d <| sd_amountCoins := keep "send-amount" (sd_amountCoins d) |>
           <| sd_toPubKey := keep "send-pubkey" (sd_toPubKey d) |>
           <| sd_toAddress := keep "send-address" (sd_toAddress d) |> |>.

Definition captureSellPriceInput s : st :=
  s <| sellState ::= λ d, d <| se_priceSats := default (se_priceSats d) (value_of "sell-price" s) |> |>.

(** ** Sign-in *)

(** [wallet.lock(passphrase)] up to its [await], and after it. *)
Definition lock_start (w : wallet) (passphrase : string) (draws : nat) : res (encrypted_key * nat) :=
  _ ← throw_if (negb (str_truthy (_mnemonic w))) "No mnemonic available to lock";
  _ ← throw_if (negb (str_truthy (Some passphrase))) "A passphrase is required to lock the wallet";
  Ok (encryptPrivateKey (cryptoSubtle w) (random draws 16) (random (S draws) GCM_NONCE_LENGTH) (utf8 (phrase w)) passphrase,
      S (S draws)).

Definition lock_finish (encrypted : encrypted_key) (w : wallet) : wallet * stored_wallet :=
  (set_locked (set_mnemonic (set_privKey w None) None) true,
   Stored 2 (Some encrypted) PBKDF2_ITERATIONS (_address w) (Some (network w))).

Definition set_wallet (r : nat) (w : wallet) s : st := s <| heap ::= <[r := w]> |>.
(** [wallet = w] for a new object. *)
Definition new_wallet (w : wallet) s : st :=
  s <| wallet_ref := Some (length (heap s)) |> <| heap ::= λ l, l ++ [w] |>.

(** [await wallet.lock(passphrase)] in a [try]. *)
Definition start_lock (passphrase : string) (view : nat) (errorId : string) s : st :=
  match wallet_ref s, the_wallet s with
  | Some r, Some w =>
      match lock_start w passphrase (drawn s) with
      | Ok (encrypted, n) => add_task (Tlock r encrypted view errorId) (s <| drawn := n |>)
      | Throw e => show_error_in view errorId e s
      end
  | _, _ => show_error_in view errorId (null_wallet "lock") s
  end.

Definition createNewWallet s : st :=
  let '(r, s) := start_create default_options s in add_task (Tcreate r) s.

Definition restoreWallet s : st := go Srestore s.

Definition goToInit s : st := go Sinit (s <| wallet_ref := None |> <| broadcastStatus := None |>).

Definition finishWalletSetup s : st :=
  match value_of "passphrase" s with
  | Some passphrase => start_lock passphrase (page_id s) "create-error" s
  | None => s
  end.

Definition doRestore s : st :=
  match value_of "mnemonic-input" s, value_of "restore-passphrase" s with
  | Some mnemonic, Some passphrase =>
      let '(r, s) := start_create (Options false (Some (trim mnemonic)) "mainnet" 12 None) s in
      add_task (Trestore r passphrase (page_id s)) s
  | _, _ => s
  end.

(** The wallet to unlock: the one in hand, or a new object for what is stored. *)
Definition ensure_wallet s : res st :=
  match wallet_ref s with
  | Some _ => Ok s
  | None =>
      match stg s with
      | None => Throw "No wallet in storage"
      | Some _ =>
          '(w, _) ← Wallet_new webcrypto random (Options true None "mainnet" 12 None) (stg s) (drawn s);
          Ok (new_wallet w s)
      end
  end.

Definition doUnlock s : st :=
  match value_of "unlock-passphrase" s with
  | None => s
  | Some passphrase =>
      match ensure_wallet s with
      | Throw e => show_error_in (page_id s) "unlock-error" e s
      | Ok s =>
          match wallet_ref s with
          | Some r => add_task (Tunlock r passphrase (stg s) (page_id s)) s
          | None => s
          end
      end
  end.

Definition lockWallet s : st :=
  match wallet_ref s, the_wallet s with
  | Some r, Some w => go Sunlock (set_wallet r (set_locked (set_privKey w None) true) s)
  | _, _ => s
  end.

Definition copyAddress s : st :=
  match the_wallet s with Some _ => add_task Tcopy s | None => s end.

Definition migrateCreate s : st := go Screate (s <| wallet_ref := None |>).

(** ** Broadcasts *)

(** After a broadcast: the badge, the wallet screen, and a poll. *)
Definition broadcast_done (txid : string) s : st :=
  let s := go Swallet (s <| broadcastStatus := badge_step (broadcastStatus s) (Accepted txid) |>) in
  match wallet_address s with
  | Ok a => add_task (Tpoll a txid) s
  | Throw _ => s
  end.

Definition poll_done (txid : string) (r : confirmation) s : st :=
  match broadcastStatus s with
  | Some (current, _) =>
      if negb (str_eqb current txid) then s
      else
        let s := s <| broadcastStatus := badge_step (broadcastStatus s) (PollResolved txid r) |> in
        if bool_decide (cur s = Swallet) then render s else s
  | None => s
  end.

(** ** Mint *)

Definition goToMint s : st := go Smint (s <| mintState := freshMintState |>).

Definition planMintTx s : st :=
  match value_of "mint-ticker" s, value_of "mint-multiplier" s, value_of "mint-amount" s with
  | Some ticker, Some multiplier, Some amount =>
      let m := js_parseInt multiplier in
      let s := s <| mintState ::= λ d,
                 d <| mt_ticker := ticker |>
                   <| mt_multiplier := if num_truthy m then m else Int 0 |>
                   <| mt_amountSats := (js_parseFloat amount * Int COIN)%num |> |> in
      match wallet_address s with Ok a => add_task (TplanMint a) s | Throw _ => s end
  | _, _, _ => s
  end.

(** [planMintTx] after [resolveMintInputs]. *)
Definition mint_planned (r : list jsval * Number + string) s : st :=
  match r with
  | inr e => render (s <| mintState ::= λ d, d <| mt_planErrors := Some [TextError e] |> |>)
  | inl (utxos, feeRate) =>
      match wallet_address s with
      | Throw _ => s
      | Ok _ =>
          let d := mintState s in
          match planMint (Some (mt_ticker d)) (Num (mt_multiplier d)) (mt_amountSats d) (Some utxos) feeRate with
          | inr errors => render (s <| mintState ::= λ d, d <| mt_planErrors := Some (map FieldError errors) |> |>)
          | inl plan =>
              go Smint_review
                (s <| mintState ::= λ d, d <| mt_plan := Some plan |> <| mt_ticker := mp_ticker plan |>
                                           <| mt_planErrors := None |> |>)
          end
      end
  end.

Definition mint_failed (e : string) s : st := render (s <| mintState ::= λ d, d <| mt_error := Some e |> |>).

Definition confirmMint s : st :=
  match mt_plan (mintState s) with
  | None => go Smint s
  | Some _ =>
      match wallet_address s with
      | Ok a => add_task (TmintUtxos a) s
      | Throw e => mint_failed ("Could not load your coins: " +:+ e) s
      end
  end.

(** [confirmMint] after [getUtxos]: it reads the plan and the key again. *)
Definition mint_utxos_loaded (r : res tagged) s : st :=
  match r with
  | Throw e => mint_failed ("Could not load your coins: " +:+ e) s
  | Ok utxos =>
      match wallet_key s, wallet_address s with
      | Ok key, Ok a => add_task (Tmint (mt_plan (mintState s)) key a (elements (tg_data utxos))) s
      | _, _ => s
      end
  end.

(** [publishMint] of a plan and a key that may be null. *)
Definition publish_mint (plan : option mint_plan) (key : option bytes) (address : string) (utxos : list jsval) :
    io W (string + string) :=
  match plan, key with
  | Some plan, Some key => publishMint baseUrl fetchImpl configured plan key address utxos
  | _, None => App.settle (_ ← lift configured; lift (Throw no_key))
  | None, Some key =>
      App.settle (secp ← lift configured; _ ← lift (Tx.getPublicKey secp key true);
                  lift (Throw "Cannot read properties of null (reading 'multiplier')"))
  end.

Definition mint_published (r : string + string) s : st :=
  match r with
  | inr e => mint_failed e s
  | inl txid => broadcast_done txid (s <| mintState := freshMintState |>)
  end.

(** ** Send *)

Definition set_send (f : send_state → send_state) s : st := s <| sendState ::= f |>.
Definition set_market (f : market_state → market_state) s : st := s <| marketState ::= f |>.
Definition set_sell (f : sell_state → sell_state) s : st := s <| sellState ::= f |>.
Definition set_my (f : my_orders_state → my_orders_state) s : st := s <| myOrdersState ::= f |>.

Definition render_if (c : screen) s : st := if bool_decide (cur s = c) then render s else s.

(** The [catch] of [loadSendData], and its end. *)
Definition send_load_failed (e : string) s : st :=
  render_if Ssend (set_send (λ d, d <| sd_positions := Some [] |> <| sd_loadError := Some e |>) s).

Definition loadSendData s : st :=
  match own_pubkey_hex s with
  | Ok hex => add_task (TsendPositions hex) s
  | Throw e => send_load_failed e s
  end.

Definition goToSend s : st := loadSendData (go Ssend (s <| sendState := freshSendState |>)).

Definition first_key (positions : list jsval) (selected : option string) : option string :=
  if str_truthy selected then selected
  else match positions with p :: _ => Some (positionKey p) | [] => selected end.

Definition send_loaded (positions utxos : list jsval) (feeRate : jsval) s : st :=
  render_if Ssend
    (set_send (λ d, d <| sd_positions := Some positions |> <| sd_fundingUtxos := utxos |> <| sd_feeRate := feeRate |>
                      <| sd_loadError := None |> <| sd_selectedKey := first_key positions (sd_selectedKey d) |>) s).

Definition selectedPosition s : jsval :=
  match sd_positions (sendState s) with
  | None => Null
  | Some l => default Null (List.find (λ p, bool_decide (Some (positionKey p) = sd_selectedKey (sendState s))) l)
  end.

Definition selectSendPosition (p : jsval) s : st :=
  render (captureSendInputs (set_send (λ d, d <| sd_selectedKey := Some (positionKey p) |>) s)).

Definition planSendTx s : st :=
  let s := captureSendInputs s in
  let d := sendState s in
  let plan :=
    key ← wallet_key s;
    ownPubKey ← getPublicKey_ key;
    network ← of_wallet (the_wallet s) "network" network;
    planTransfer (TransferInput (selectedPosition s) (U8 ownPubKey) (Str (sd_toPubKey d)) (Str (sd_toAddress d))
                    (Some network) (Num (sats_of_coins (sd_amountCoins d))) (Arr (sd_fundingUtxos d)) (sd_feeRate d)) in
  match plan with
  | Throw _ => s
  | Ok (inr errors) => render (set_send (λ d, d <| sd_plan := None |> <| sd_planErrors := Some errors |>) s)
  | Ok (inl plan) =>
      go Ssend_review (set_send (λ d, d <| sd_plan := Some plan |> <| sd_planErrors := None |>) s)
  end.

Definition confirmSend s : st :=
  match sd_plan (sendState s) with
  | None => go Ssend s
  | Some plan => match wallet_key s with Ok key => add_task (Tsend plan key) s | Throw _ => s end
  end.

Definition send_published (r : string + string) s : st :=
  match r with
  | inr e => render (set_send (λ d, d <| sd_error := Some e |>) s)
  | inl txid => broadcast_done txid (s <| sendState := freshSendState |>)
  end.

(** *** The scan *)

Definition opts_of s : scan_opts :=
  ScanOpts true can_play has_detector has_camera detector_error
    (Some match the_wallet s with Some w => network w | None => "mainnet" end).

Definition startAddressScan s : st :=
  let s := captureSendInputs s in
  if negb scanSupported then
    render (set_send (λ d, d <| sd_scanError := Some ("QR scanning is not available in this browser. "
                                  +:+ "Type or paste the address instead.") |>) s)
  else
    let n := length (scans s) in
    let s := render (set_send (λ d, d <| sd_scanning := true |> <| sd_scanError := None |> <| sd_scanNotice := None |>) s) in
    let s := append_part (buildScanOverlay (HabortScan n)) s in
    s <| scans ::= λ l, l ++ [(opts_of s, scanAddressFromCamera (opts_of s) false)] |>.

(** [startAddressScan] after [runAddressScan]. *)
Definition scan_done (o : outcome) s : st :=
  render (set_send (λ d,
    let d := d <| sd_scanning := false |> in
    match runAddressScan o with
    | ScanOk address => d <| sd_toAddress := address |> <| sd_scanNotice := Some "Address scanned." |>
    | ScanCancelled => d <| sd_scanNotice := Some "Scan cancelled." |>
    | ScanError e => d <| sd_scanError := Some e |>
    end) s).

(** An input of scan [n]. *)
Definition scan_input (n : nat) (e : scan_event) s : st :=
  match scans s !! n with
  | None => s
  | Some (opts, c) =>
      let c' := scan_step opts e c in
      let s := s <| scans ::= <[n := (opts, c')]> |> in
      match at_phase c, at_phase c' with
      | Settled _, _ => s
      | _, Settled o => scan_done o s
      | _, _ => s
      end
  end.

(** ** Market *)

Definition goToMarket s : st := go Smarket (s <| marketState := freshMarketState |>).

Definition selectOrderToFill (order : jsval) s : st :=
  go Smarket_fill (set_market (λ d, d <| mk_selectedOrder := Some order |>) s).

Definition fill_prepare_failed (view : nat) (e : string) s : st := fill_view view (mapR id (fill_failed e)) s.

(** [renderMarketFill] after each of its fetches. *)
Definition fill_position_loaded (view : nat) (order : jsval) (r : res tagged) s : st :=
  match (p ← r; a ← wallet_address s; Ok (tg_data p, a)) with
  | Ok (position, a) => add_task (TfillUtxos view order position a) s
  | Throw e => fill_prepare_failed view e s
  end.

Definition fill_utxos_loaded (view : nat) (order position : jsval) (r : res tagged) s : st :=
  match r with
  | Ok utxos => add_task (TfillFee view order position (elements (tg_data utxos))) s
  | Throw e => fill_prepare_failed view e s
  end.

Definition fill_fee_loaded (view : nat) (order position : jsval) (takerUtxos : list jsval) (r : res tagged) s : st :=
  match (resp ← r; key ← wallet_key s; pk ← getPublicKey_ key; Ok (as_num (field (tg_data resp) "sat_per_kb"), pk)) with
  | Throw e => fill_prepare_failed view e s
  | Ok (feeRate, pk) =>
      match planFill order position (Some takerUtxos) (Some pk) feeRate with
      | inr errors => fill_view view (mapR id (fill_refused errors (mk_fillError (marketState s)))) s
      | inl plan =>
          let s := set_market (λ d, d <| mk_fillPlan := Some plan |>) s in
          fill_view view (mapR id (fill_review order position takerUtxos feeRate plan (mk_fillError (marketState s)))) s
      end
  end.

Definition confirmFill (order position : jsval) (takerUtxos : list jsval) s : st :=
  match mk_fillPlan (marketState s) with
  | None => go Smarket s
  | Some plan =>
      match wallet_key s with Ok key => add_task (Tfill plan key order position takerUtxos) s | Throw _ => s end
  end.

(** [publishFill] with a key that may be null. *)
Definition publish_fill (plan : fill_plan) (key : option bytes) (order position : jsval) (takerUtxos : list jsval) :
    io W (string + string) :=
  match key with
  | Some key => publishFill baseUrl fetchImpl configured plan key order position takerUtxos
  | None =>
      App.settle (_ ← verifyPosition (getRawTx baseUrl fetchImpl) order position; _ ← lift configured;
                  lift (Throw no_key))
  end.

Definition fill_published (r : string + string) s : st :=
  match r with
  | inr e => render (set_market (λ d, d <| mk_fillError := Some e |>) s)
  | inl txid => broadcast_done txid s
  end.

(** ** Sell *)

Definition sell_load_failed (e : string) s : st :=
  render_if Ssell (set_sell (λ d, d <| se_positions := Some [] |> <| se_loadError := Some e |>) s).

Definition startSell s : st :=
  let s := go Ssell (s <| sellState := freshSellState |>) in
  match own_pubkey_hex s with
  | Ok hex => add_task (TsellPositions hex) s
  | Throw e => sell_load_failed e s
  end.

Definition sell_loaded (positions : list jsval) s : st :=
  render_if Ssell
    (set_sell (λ d, d <| se_positions := Some positions |> <| se_loadError := None |>
                      <| se_selectedKey := first_key positions (se_selectedKey d) |>) s).

Definition selectedSellPosition s : jsval :=
  match se_positions (sellState s) with
  | None => Null
  | Some l => default Null (List.find (λ p, bool_decide (Some (positionKey p) = se_selectedKey (sellState s))) l)
  end.

Definition selectSellPosition (p : jsval) s : st :=
  render (set_sell (λ d, d <| se_error := None |>)
            (captureSellPriceInput (set_sell (λ d, d <| se_selectedKey := Some (positionKey p) |>) s))).

Definition planSellFlow s : st :=
  let s := captureSellPriceInput s in
  let text := se_priceSats (sellState s) in
  let price := string_to_number text in
  let priceSats := if isInteger price then price else if str_eqb text EmptyString then NaN else price in
  match wallet_address s with
  | Throw _ => s
  | Ok a =>
      let plan := planSell (selectedSellPosition s) (Num priceSats) a in
      if negb (sl_ok plan) then render (set_sell (λ d, d <| se_error := Some (join " " (sl_errors plan)) |>) s)
      else go Ssell_review (set_sell (λ d, d <| se_error := None |> <| se_plan := Some plan |>) s)
  end.

Definition confirmSell s : st :=
  match wallet_key s, wallet_address s with
  | Ok key, Ok a => add_task (Tsell (se_plan (sellState s)) key a) s
  | _, _ => s
  end.

(** [publishSellOrder] of a plan and a key that may be null. *)
Definition publish_sell (time : Z) (plan : option sell_plan) (key : option bytes) (address : string) : io W (unit + string) :=
  match plan, key with
  | Some plan, Some key => publishSellOrder baseUrl fetchImpl configured time plan key address
  | None, _ => App.settle (_ ← lift configured; lift (Throw "Cannot read properties of null (reading 'summary')"))
  | Some _, None => App.settle (_ ← lift configured; lift (Throw no_key))
  end.

Definition sell_published (r : unit + string) s : st :=
  match r with
  | inl _ => go Smarket (set_sell (λ d, d <| se_error := None |>) s)
  | inr e => render (set_sell (λ d, d <| se_error := Some e |>) s)
  end.

(** ** My orders *)

Definition goToMyOrders s : st := go Smy_orders (s <| myOrdersState := freshMyOrdersState |>).

(** [renderMyOrders] after [listOrders]. *)
Definition my_orders_loaded (view : nat) (hex : string) (r : res tagged) s : st :=
  match r with
  | Ok orders =>
      let mine := myOrders (tg_data orders) (Str hex) in
      fill_view view (mapR id (my_orders_content mine))
        (set_my (λ d, d <| mo_orders := Some mine |> <| mo_loadError := None |>) s)
  | Throw e => fill_view view (mapR id (my_orders_failed e)) (set_my (λ d, d <| mo_loadError := Some e |>) s)
  end.

Definition selectOrderToCancel (order : jsval) s : st :=
  go Smy_orders_cancel
    (set_my (λ d, d <| mo_selectedOrder := Some order |> <| mo_cancelError := None |> <| mo_cancelling := false |>) s).

Definition cancel_failed (e : string) s : st :=
  render (set_my (λ d, d <| mo_cancelling := false |> <| mo_cancelError := Some (describeCancelFailure (Str e)) |>) s).

(** [uap.signCancelOrder] with a key that may be null. *)
Definition sign_cancel (order : jsval) (key : option bytes) : res string :=
  match key with
  | Some key => signCancelOrder curve (cancelSignInput order key)
  | None => _ ← signCancelOrder curve (cancelSignInput order []); Throw no_key
  end.

Definition confirmCancel s : st :=
  match mo_selectedOrder (myOrdersState s) with
  | None => s
  | Some order =>
      if negb (planCancel order).1 then s
      else
        let s := render (set_my (λ d, d <| mo_cancelling := true |> <| mo_cancelError := None |>) s) in
        match (key ← wallet_key s; sign_cancel order key) with
        | Ok sig => add_task (Tcancel order sig) s
        | Throw e => cancel_failed e s
        end
  end.

Definition cancel_done (r : res unit) s : st :=
  match r with
  | Ok _ => go Smy_orders (set_my (λ d, d <| mo_selectedOrder := None |> <| mo_cancelling := false |>) s)
  | Throw e => cancel_failed e s
  end.

(** ** Running *)

Definition run_handler (h : handler) s : st :=
  match h with
  | HcreateNewWallet => createNewWallet s
  | HrestoreWallet => restoreWallet s
  | HfinishWalletSetup => finishWalletSetup s
  | HdoRestore => doRestore s
  | HdoUnlock => doUnlock s
  | HgoToInit => goToInit s
  | HlockWallet => lockWallet s
  | HcopyAddress => copyAddress s
  | HgoTo c => go c s
  | HmigrateCreate => migrateCreate s
  | HgoToMint => goToMint s
  | HplanMintTx => planMintTx s
  | HconfirmMint => confirmMint s
  | HgoToSend => goToSend s
  | HplanSendTx => planSendTx s
  | HselectSendPosition p => selectSendPosition p s
  | HstartAddressScan => startAddressScan s
  | HabortScan n => scan_input n Abort s
  | HconfirmSend => confirmSend s
  | HgoToMarket => goToMarket s
  | HselectOrderToFill order => selectOrderToFill order s
  | HconfirmFill order position takerUtxos _ => confirmFill order position takerUtxos s
  | HstartSell => startSell s
  | HplanSellFlow => planSellFlow s
  | HselectSellPosition p => selectSellPosition p s
  | HconfirmSell => confirmSell s
  | HgoToMyOrders => goToMyOrders s
  | HselectOrderToCancel order => selectOrderToCancel order s
  | HconfirmCancel => confirmCancel s
  end.

(** A call on the world, and the code after it. *)
Definition await {A} (m : io W A) (k : res A → st → st) s : st :=
  let '(w, r) := m (world s) in k r (s <| world := w |>).

(** For a call that resolves to a value or an error to show. *)
Definition await_settled {A} (m : io W (A + string)) (k : A + string → st → st) s : st :=
  await m (λ r s, match r with Ok a => k a s | Throw _ => s end) s.

Definition resume (t : task) s : st :=
  match t with
  | Tcreate r => match r with Ok w => go Screate (new_wallet w s) | Throw _ => s end
  | TrenderCreate r =>
      match r with Ok w => let s := new_wallet w s in append_part (renderCreate w) s | Throw _ => s end
  | Tlock r encrypted view errorId =>
      match heap s !! r with
      | Some w =>
          let '(w, stored) := lock_finish encrypted w in
          go Sunlock (set_wallet r w s <| stg := Some stored |>)
      | None => s
      end
  | Trestore r passphrase view =>
      match r with
      | Ok w => start_lock passphrase view "restore-error" (new_wallet w s)
      | Throw e => show_error_in view "restore-error" e s
      end
  | Tunlock r passphrase stored view =>
      match heap s !! r with
      | Some w =>
          let '(x, res) := unlock curve webcrypto decode passphrase (State w stored (drawn s)) in
          let s := set_wallet r (this x) s in
          match res with
          | Ok true => go Swallet s
          | Ok false => show_error_in view "unlock-error" "Wrong passphrase" s
          | Throw e => show_error_in view "unlock-error" e s
          end
      | None => s
      end
  | Tcopy => s
  | Tbalance view a => await (getUtxos baseUrl fetchImpl a) (λ r, fill_view view (loadBalanceSection r)) s
  | TplanMint a => await_settled (resolveMintInputs baseUrl fetchImpl a) mint_planned s
  | TmintUtxos a => await (getUtxos baseUrl fetchImpl a) mint_utxos_loaded s
  | Tmint plan key a utxos => await_settled (publish_mint plan key a utxos) mint_published s
  | Tpoll a txid =>
      await (pollForConfirmation (getUtxos baseUrl fetchImpl) sleep (λ _, mret tt) a txid 6000 15)
        (λ r s, match r with Ok c => poll_done txid c s | Throw _ => s end) s
  | TsendPositions hex =>
      await (getPositions baseUrl fetchImpl hex true)
        (λ r s, match (p ← r; a ← wallet_address s; Ok (elements (tg_data p), a)) with
                | Ok (positions, a) => add_task (TsendUtxos positions a) s
                | Throw e => send_load_failed e s
                end) s
  | TsendUtxos positions a =>
      await (getUtxos baseUrl fetchImpl a)
        (λ r s, match r with
                | Ok u => add_task (TsendFee positions (elements (tg_data u))) s
                | Throw e => send_load_failed e s
                end) s
  | TsendFee positions utxos =>
      await (getFeeRate baseUrl fetchImpl)
        (λ r s, match r with
                | Ok f => send_loaded positions utxos (field (tg_data f) "sat_per_kb") s
                | Throw e => send_load_failed e s
                end) s
  | Tsend plan key => await_settled (publishTransfer baseUrl fetchImpl configured plan key) send_published s
  | Tmarket view => await (listOrders baseUrl fetchImpl None) (λ r, fill_view view (market_content r)) s
  | TfillPosition view order =>
      await (getPosition baseUrl fetchImpl (as_str (field order "txid")) (as_num (field order "vout")))
        (fill_position_loaded view order) s
  | TfillUtxos view order position a => await (getUtxos baseUrl fetchImpl a) (fill_utxos_loaded view order position) s
  | TfillFee view order position takerUtxos =>
      await (getFeeRate baseUrl fetchImpl) (fill_fee_loaded view order position takerUtxos) s
  | Tfill plan key order position takerUtxos =>
      await_settled (publish_fill plan key order position takerUtxos) fill_published s
  | TsellPositions hex =>
      await (getPositions baseUrl fetchImpl hex true)
        (λ r s, match r with Ok p => sell_loaded (elements (tg_data p)) s | Throw e => sell_load_failed e s end) s
  | Tsell plan key a => await_settled (publish_sell (now (world s)) plan key a) sell_published s
  | TmyOrders view hex => await (listOrders baseUrl fetchImpl None) (my_orders_loaded view hex) s
  | Tcancel order sig =>
      await (cancelOrder baseUrl fetchImpl (as_str (field order "txid")) (as_num (field order "vout")) sig) cancel_done s
  end.

(** The inputs: a click on the [k]th button of the page, text in a field, the completion of the [i]th pending
    task, the clipboard's answer to it, and the camera's to a scan. *)
Inductive event :=
| Click (k : nat)
| Enter (id value : string)
| Complete (i : nat)
| Copied (i : nat) (ok : bool)
| Camera (n : nat) (e : scan_event).

Definition remove_task (i : nat) s : st := s <| tasks ::= λ l, take i l ++ drop (S i) l |>.

(** The handlers of the buttons on the page, in document order. *)
Definition buttons s : list handler := mjoin (map clickable (page s)).

(** One input; one that is not possible changes nothing. *)
Definition step (e : event) s : st :=
  match e with
  | Click k => match buttons s !! k with Some h => run_handler h s | None => s end
  | Enter id value =>
      match find_page (has_id id) (page s) with
      | Some _ => s <| typed := (id, value) :: typed s |>
      | None => s
      end
  | Complete i =>
      match tasks s !! i with
      | Some Tcopy | None => s
      | Some t => resume t (remove_task i s)
      end
  | Copied i ok =>
      match tasks s !! i with
      | Some Tcopy => render (remove_task i s <| copyStatus := Some (copyAddressResult ok) |>)
      | _ => s
      end
  | Camera n Abort => s
  | Camera n e => scan_input n e s
  end.

(** The page as it is loaded: the module's initial state, rendered. *)
Definition loaded (w : W) : st :=
  render (App [] None Sinit None 0 None None freshMintState freshSendState freshMarketState freshSellState
            freshMyOrdersState [] 0 [] [] [] w).

Definition run (s : st) (es : list event) : st := fold_left (λ s e, step e s) es s.
Definition reachable s : Prop := ∃ w es, s = run (loaded w) es.
End flow.
