(* ===== verification/FlowProps.v ===== *)
(** * FlowProps: what holds of the running application

    The invariant of the machine of [Flow], and the theorems about every state it
    can reach.  The invariant says of a pending fetch that it belongs to this page
    or to an earlier one, and of the page that it is the current screen with its
    own buttons, followed at most by a backup phrase or the camera; a review on it
    shows the plan its button will publish. *)

From stdpp Require Import base tactics option list numbers strings pretty relations.
From Stdlib Require Import ZArith Lia Ascii.
From S2P Require Import Prelude JsInt JsStr JsNum JsVal Effects Words Sha256 Addr Script Tx Payments Orders.
From S2P Require Import Transfer Market Mint Sell Cancel Api App Mnemonic Bip32 Wallet Dom Qrscan Views Flow.

(** ** Editing a page *)

Section edit.
Context (P : bool → string → list (string * string) → list (string * handler) → bool).
Context (p : node handler → bool) (f : node handler → node handler).

Lemma edit_all n n' :
  (∀ m, p m = true → node_all P m = true → node_all P (f m) = true) →
  node_all P n = true → edit_node p f n = Some n' → node_all P n' = true.
Proof.
  intros Hf. revert n'. induction n as [t|tag h ats ls cs IH] using node_rect'; intros n' Hn He; simpl in He.
  - destruct (p _) eqn:Hp; simplify_eq. by apply Hf.
  - destruct (p _) eqn:Hp; simplify_eq; [by apply Hf|].
    apply fmap_Some in He as (cs' & Hcs & ->). simpl in Hn. apply andb_true_iff in Hn as [HP Hn]. simpl. rewrite HP. simpl.
    clear Hp HP. revert cs' Hcs. induction IH as [|c cs Hc _ IHcs]; intros cs' Hcs; [done|].
    simpl in Hn. apply andb_true_iff in Hn as [Hn1 Hn2].
    destruct (edit_node p f c) as [c'|] eqn:Hec.
    + injection Hcs as <-. simpl. by rewrite (Hc c'), Hn2.
    + apply fmap_Some in Hcs as (cs'' & Hcs & ->). simpl. rewrite Hn1. by apply IHcs.
Qed.

Lemma edit_none n :
  (∀ t, p (TextNode t) = false) →
  (∀ h tag ats ls cs, P h tag ats ls = true → p (Element tag h ats ls cs) = false) →
  node_all P n = true → edit_node p f n = None.
Proof.
  intros Ht He. induction n as [t|tag h ats ls cs IH] using node_rect'; intros Hn; simpl; [by rewrite Ht|].
  simpl in Hn. apply andb_true_iff in Hn as [HP Hn]. rewrite He by done.
  assert ((fix go cs := match cs with
             | [] => None
             | c :: cs => match edit_node p f c with Some c => Some (c :: cs) | None => cons c <$> go cs end
             end) cs = None) as ->; [|done].
  induction IH as [|c cs Hc _ IHcs]; [done|]. simpl in Hn. apply andb_true_iff in Hn as [Hn1 Hn2].
  by rewrite Hc, IHcs.
Qed.

Lemma edit_page_all l :
  (∀ m, p m = true → node_all P m = true → node_all P (f m) = true) →
  Forall (λ n, node_all P n = true) l → Forall (λ n, node_all P n = true) (edit_page p f l).
Proof.
  intros Hf. induction 1 as [|n l Hn Hl IH]; simpl; [constructor|].
  destruct (edit_node p f n) as [n'|] eqn:He; constructor; auto. by eapply edit_all.
Qed.
End edit.

Lemma assoc_set_pair k k' v l : k' ≠ k → assoc k (set_pair k' v l) = assoc k l.
Proof.
  intros Hk. assert (str_eqb k' k = false) as Hkk by (apply not_true_iff_false; by intros ->%str_eqb_eq).
  induction l as [|[k1 v1] l IH]; simpl; [by rewrite Hkk|].
  destruct (str_eqb k1 k') eqn:E; simpl; [|by rewrite IH].
  apply str_eqb_eq in E as ->. by rewrite Hkk.
Qed.

Lemma inert_class tag attrs v : inert_elem tag attrs = true → inert_elem tag (set_pair "class" v attrs) = true.
Proof. unfold inert_elem. intros [-> Ha]%andb_true_iff. by rewrite set_pair_forallb. Qed.

(** A message in an error element leaves the screen what it is. *)
Lemma show_message_shown c t m : node_all (shown c) m = true → node_all (shown c) (show_message t m) = true.
Proof.
  destruct m as [|tag h attrs ls cs]; [done|]. simpl. unfold shown.
  intros [((Hi%(inert_class _ _ "error") & ->)%andb_true_iff & Hid)%andb_true_iff _]%andb_true_iff.
  rewrite Hi, (assoc_set_pair "id") by done. rewrite Hid. by destruct (str_eqb t EmptyString).
Qed.

Lemma show_message_extra t m : node_all shown_extra m = true → node_all shown_extra (show_message t m) = true.
Proof.
  destruct m as [|tag h attrs ls cs]; [done|]. simpl. unfold shown_extra.
  intros [((-> & Hi%(inert_class _ _ "error"))%andb_true_iff & ->)%andb_true_iff _]%andb_true_iff.
  rewrite Hi. by destruct (str_eqb t EmptyString).
Qed.

(** ** Which page a task belongs to *)

(** The page a fetch fills, and its screen. *)
Definition task_view (t : task) : option (nat * screen) :=
  match t with
  | Tbalance v _ => Some (v, Swallet)
  | Tmarket v => Some (v, Smarket)
  | TfillPosition v _ | TfillUtxos v _ _ _ | TfillFee v _ _ _ => Some (v, Smarket_fill)
  | TmyOrders v _ => Some (v, Smy_orders)
  | _ => None
  end.

#[local] Opaque renderInit renderCreate renderRestore renderUnlock renderWallet renderMint renderMintReview renderMarket
  renderMarketFill renderSend renderSendReview renderSell renderSellReview renderMyOrders renderMyOrdersCancel
  renderMigrate buildScanOverlay loadBalanceSection market_content fill_refused fill_review fill_failed
  my_orders_failed my_orders_content create unlock.

Section invariant.
Context `{!Page handler} {W : Type} `{!Env W}.
Abbreviation st := (appl W).
Implicit Types s : st.

(** A fetch is for this page or for an earlier one; if for this one, the page
    still shows its screen. *)
Definition view_ok s (v : nat) (c : screen) : Prop := (v ≤ page_id s)%nat ∧ (v = page_id s → cur s = c).
Definition task_ok s (t : task) : Prop := ∀ v c, task_view t = Some (v, c) → view_ok s v c.
Definition views_le s : Prop := Forall (λ t, ∀ v c, task_view t = Some (v, c) → (v ≤ page_id s)%nat) (tasks s).

(** The plan under review is a plan for what the form holds. *)
Definition mint_agrees (d : mint_state) (plan : mint_plan) : Prop :=
  mp_ticker plan = mt_ticker d ∧ mp_multiplier plan = mt_multiplier d ∧ mp_amountSats plan = mt_amountSats d.
Definition mint_inv s : Prop :=
  cur s = Smint_review → ∀ plan, mt_plan (mintState s) = Some plan → mint_agrees (mintState s) plan.

(** A review on the page shows the plan that its button will publish. *)
Definition review_ok s (n : node handler) : Prop :=
  match cur s with
  | Ssend_review => ∃ plan, sd_plan (sendState s) = Some plan ∧ renderSendReview (sendState s) plan = Ok (CNode n)
  | Smint_review => ∃ plan, mt_plan (mintState s) = Some plan ∧ renderMintReview (mintState s) plan = Ok (CNode n)
  | Ssell_review => ∃ plan, se_plan (sellState s) = Some plan ∧ renderSellReview (sellState s) plan = Ok (CNode n)
  | _ => True
  end.

Definition base_ok s (base : list (node handler)) : Prop :=
  base = [] ∨ ∃ n, base = [n] ∧ node_all (shown (cur s)) n = true ∧ review_ok s n.

Definition page_ok s : Prop :=
  ∃ base extras, page s = base ++ extras ∧ base_ok s base ∧ Forall (λ n, node_all shown_extra n = true) extras.

Record inv s : Prop := {
  inv_tasks : Forall (task_ok s) (tasks s);
  inv_page : page_ok s;
  inv_mint : mint_inv s
}.

Lemma inv_views s : inv s → views_le s.
Proof. intros [Ht _ _]. eapply Forall_impl; [exact Ht|]. intros t H v c Hv. by apply H in Hv as [? _]. Qed.

(** *** Painting *)

Lemma screen_part_shown s r : screen_part s = Some r → part_all (shown (cur s)) r.
Proof.
  unfold screen_part. destruct (cur s); intros Hr.
  - apply (inj Some) in Hr as <-. apply shown_init.
  - apply fmap_Some in Hr as (x & _ & ->). apply shown_create.
  - apply (inj Some) in Hr as <-. apply shown_restore.
  - apply (inj Some) in Hr as <-. apply shown_unlock.
  - apply (inj Some) in Hr as <-. apply shown_wallet.
  - apply (inj Some) in Hr as <-. apply shown_mint.
  - apply fmap_Some in Hr as (x & _ & ->). apply shown_mint_review.
  - apply (inj Some) in Hr as <-. apply shown_market.
  - apply fmap_Some in Hr as (x & _ & ->). apply shown_market_fill.
  - apply (inj Some) in Hr as <-. apply shown_send.
  - apply fmap_Some in Hr as (x & _ & ->). apply shown_send_review.
  - apply (inj Some) in Hr as <-. apply shown_sell.
  - apply fmap_Some in Hr as (x & _ & ->). apply shown_sell_review.
  - apply (inj Some) in Hr as <-. apply shown_my_orders.
  - apply fmap_Some in Hr as (x & _ & ->). apply shown_my_orders_cancel.
  - apply (inj Some) in Hr as <-. apply shown_migrate.
Qed.

Lemma screen_part_review s n : screen_part s = Some (Ok (CNode n)) → review_ok s n.
Proof.
  unfold screen_part, review_ok. destruct (cur s); intros Hr; try exact I;
    apply fmap_Some in Hr as (plan & Hplan & Heq); exists plan; by split.
Qed.

(** The page after a screen is painted on an empty one. *)
Lemma append_part_ok s r : page s = [] → screen_part s = Some r → page_ok (append_part r s).
Proof.
  intros Hp Hr. pose proof (screen_part_shown s r Hr) as Hs. unfold append_part.
  destruct r as [[t|n|]|e].
  2: { exists [n], []. cbn. rewrite Hp. split_and!; [done| |constructor].
       right. exists n. split_and!; [done|by apply Hs|by apply screen_part_review]. }
  all: exists [], []; rewrite Hp; split_and!; [done|by left|constructor].
Qed.

Lemma append_part_state r s :
  cur (append_part r s) = cur s ∧ page_id (append_part r s) = page_id s ∧ tasks (append_part r s) = tasks s
  ∧ mintState (append_part r s) = mintState s ∧ sendState (append_part r s) = sendState s
  ∧ sellState (append_part r s) = sellState s.
Proof. unfold append_part. by repeat case_match. Qed.

(** *** Steps that do not paint *)

Lemma inv_add_task t s : inv s → task_ok s t → inv (add_task t s).
Proof.
  intros [Ht Hp Hm] Hok. split; [|exact Hp|exact Hm]. cbn. apply Forall_app. split; [exact Ht|]. by constructor.
Qed.

Lemma inv_remove_task i s : inv s → inv (remove_task i s).
Proof.
  intros [Ht Hp Hm]. split; [|exact Hp|exact Hm]. cbn. apply Forall_app. split; [by apply Forall_take|by apply Forall_drop].
Qed.

Lemma no_view_ok s t : task_view t = None → task_ok s t.
Proof. intros Ht v c Hv. by rewrite Ht in Hv. Qed.

(** A held element is filled with parts of the screen it is on. *)
Lemma inv_fill s v c r :
  inv s → view_ok s v c → has_ids c = true →
  (∀ l, r = Ok l → forallb (node_all (shown c)) (mjoin (map child_node l)) = true) →
  inv (fill_view v r s).
Proof.
  intros Hinv [_ Hv] Hc Hr. unfold fill_view. destruct r as [l|]; [|done].
  destruct (Nat.eqb_spec v (page_id s)) as [E|]; [|done]. specialize (Hv E). specialize (Hr l eq_refl).
  destruct Hinv as [Ht (base & extras & Hp & Hb & He) Hm]. split; [exact Ht| |exact Hm].
  exists (map (fill (λ _, mjoin (map child_node l))) base), extras. split_and!; [| |done].
  - cbn. rewrite Hp, map_app. f_equal. clear Hp. induction He as [|n extras Hn _ IH]; [done|]. simpl. rewrite IH.
    f_equal. by apply (fill_unheld shown_extra).
  - destruct Hb as [->|(n & -> & Hn & _)]; [by left|]. right. eexists. split_and!; [done| |].
    + change (cur (update page _ s)) with (cur s). by apply fill_all; [rewrite Hv|].
    + unfold review_ok. change (cur (update page _ s)) with (cur s). rewrite Hv. by destruct c.
Qed.

Lemma inv_show_error v id t s : inv s → inv (show_error_in v id t s).
Proof.
  intros Hinv. unfold show_error_in. destruct (v =? page_id s)%nat; [|done].
  destruct Hinv as [Ht (base & extras & Hp & Hb & He) Hm].
  assert (Forall (λ n, node_all shown_extra n = true) (edit_page (has_id id) (show_message t) extras)) as He'.
  { apply edit_page_all; [|done]. intros m _. apply show_message_extra. }
  split; [exact Ht| |exact Hm]. unfold page_ok. change (page (update page ?f s)) with (f (page s)). rewrite Hp.
  destruct Hb as [->|(n & -> & Hn & Hr)].
  - exists [], (edit_page (has_id id) (show_message t) extras). split_and!; [done|by left|done].
  - simpl. destruct (edit_node _ _ n) as [n'|] eqn:Hed.
    + exists [n'], extras. split_and!; [done| |done]. right. exists n'. split_and!; [done| |].
      * eapply edit_all; [|exact Hn|exact Hed]. intros m _. apply show_message_shown.
      * destruct (has_ids (cur s)) eqn:Hids.
        { unfold review_ok. change (cur (update page _ s)) with (cur s). by destruct (cur s). }
        rewrite (edit_none (shown (cur s))) in Hed; [done|done| |done].
        intros h tag ats ls cs [_ Hid]%andb_true_iff. rewrite Hids, orb_false_r in Hid.
        apply bool_decide_eq_true in Hid. unfold has_id. apply bool_decide_eq_false. simpl. by rewrite Hid.
    + exists [n], (edit_page (has_id id) (show_message t) extras). split_and!; [done| |done]. right. exists n. done.
Qed.

(** *** Rendering *)

Lemma blank_state s :
  cur (blank s) = redirect s ∧ page (blank s) = [] ∧ page_id (blank s) = S (page_id s) ∧ tasks (blank s) = tasks s
  ∧ mintState (blank s) = mintState s.
Proof. unfold blank. by case_match. Qed.

Lemma paint_state s :
  cur (paint s) = cur s ∧ page_id (paint s) = page_id s ∧ tasks (paint s) = tasks s ∧ mintState (paint s) = mintState s.
Proof. unfold paint. case_match; [|done]. by destruct (append_part_state r s) as (? & ? & ? & ? & _). Qed.

Lemma paint_page s : page s = [] → page_ok (paint s).
Proof.
  intros Hp. unfold paint. destruct (screen_part s) eqn:Hs; [by apply append_part_ok|].
  exists [], []. split_and!; [done|by left|constructor].
Qed.

Lemma view_now s c : cur s = c → view_ok s (page_id s) c.
Proof. by split. Qed.

Lemma inv_my f s : inv s → inv (set_my f s).
Proof. intros [Ht Hp Hm]. by split. Qed.

Lemma start_create_inv opts s r s' : inv s → start_create opts s = (r, s') → inv s'.
Proof. unfold start_create. intros [Ht Hp Hm]. case_match; [case_match|]; intros [= <- <-]; by split. Qed.

Lemma screen_tasks_inv s : inv s → inv (screen_tasks s).
Proof.
  intros Hinv. unfold screen_tasks. destruct (cur s) eqn:Hc; try done.
  - destruct (the_wallet s); [done|]. destruct (start_create _ s) as [r s'] eqn:Hs.
    apply inv_add_task; [by eapply start_create_inv|by apply no_view_ok].
  - destruct (wallet_address s); [|done]. apply inv_add_task; [done|]. intros v c [= <- <-]. by apply view_now.
  - apply inv_add_task; [done|]. intros v c [= <- <-]. by apply view_now.
  - destruct (mk_selectedOrder _); [|done]. destruct (painted _); [|done].
    apply inv_add_task; [done|]. intros v c [= <- <-]. by apply view_now.
  - destruct (own_pubkey_hex s) as [hex|e].
    + apply inv_add_task; [done|]. intros v c [= <- <-]. by apply view_now.
    + apply (inv_fill _ _ Smy_orders); [by apply inv_my|exact (view_now s _ Hc)|done|].
      intros l. apply all_children, shown_my_orders_failed.
Qed.

(** Whatever the state, a page that is drawn anew is in order. *)
Lemma render_inv s : views_le s → mint_inv s → inv (render s).
Proof.
  intros Hv Hm. apply screen_tasks_inv.
  destruct (blank_state s) as (Hc & Hp & Hid & Ht & Hms). destruct (paint_state (blank s)) as (Hc' & Hid' & Ht' & Hms').
  split.
  - rewrite Ht', Ht. eapply Forall_impl; [exact Hv|]. intros t Hle v c Hvc. apply Hle in Hvc.
    unfold view_ok. rewrite Hid', Hid. lia.
  - by apply paint_page.
  - unfold mint_inv. rewrite Hc', Hc, Hms', Hms. unfold redirect. intros Hr plan Hplan. apply Hm; [|done].
    destruct (cur s); try done; by case_match.
Qed.

Ltac paints Hinv := apply render_inv; [exact (inv_views _ Hinv)|exact (inv_mint _ Hinv)].

Lemma go_inv c s : views_le s → c ≠ Smint_review → inv (go c s).
Proof. intros Hv Hc. apply render_inv; [exact Hv|]. intros Heq. by destruct Hc. Qed.

#[local] Opaque render.

(** *** Buttons *)

Lemma clickable_all P (Q : handler → bool) n h :
  (∀ hl tag attrs ls, P hl tag attrs ls = true → forallb (λ l, Q l.2) ls = true) →
  node_all P n = true → h ∈ clickable n → Q h = true.
Proof.
  intros HQ. induction n as [t|tag hl attrs ls cs IH] using node_rect'; simpl; [by intros _ ?%not_elem_of_nil|].
  intros [HP%HQ Hcs]%andb_true_iff [Hh|Hh]%elem_of_app.
  - destruct (bool_decide _); [|by apply not_elem_of_nil in Hh].
    apply list_elem_of_omap in Hh as ([k f] & Hin & Hf). simpl in Hf. destruct (str_eqb k "click"); simplify_eq.
    rewrite forallb_forall in HP. apply (HP (k, h)). by apply list_elem_of_In.
  - induction IH as [|c cs Hc _ IHcs]; simpl in *; [by apply not_elem_of_nil in Hh|].
    apply andb_true_iff in Hcs as [Hc1 Hcs]. apply elem_of_app in Hh as [Hh|Hh]; auto.
Qed.

(** The page has the buttons of its screen, and at most those of a backup phrase
    or of the camera besides. *)
Lemma buttons_offered s h : inv s → h ∈ buttons s → offers (cur s) h = true ∨ offers_extra h = true.
Proof.
  intros [_ (base & extras & Hp & Hb & He) _]. unfold buttons. rewrite Hp, map_app, mjoin_app, elem_of_app.
  intros [Hh|Hh].
  - left. destruct Hb as [->|(n & -> & Hn & _)]; [by apply not_elem_of_nil in Hh|].
    simpl in Hh. rewrite app_nil_r in Hh. eapply (clickable_all (shown (cur s)) (offers (cur s))); [|exact Hn|exact Hh].
    by intros hl tag attrs ls [[_ H]%andb_true_iff _]%andb_true_iff.
  - right. clear Hp. induction He as [|n extras Hn _ IH]; simpl in Hh; [by apply not_elem_of_nil in Hh|].
    apply elem_of_app in Hh as [Hh|Hh]; [|by apply IH].
    eapply (clickable_all shown_extra offers_extra); [|exact Hn|exact Hh]. by intros hl tag attrs ls [_ H]%andb_true_iff.
Qed.

(** *** Changes the page does not depend on *)

Lemma inv_ext s s' :
  cur s' = cur s → page s' = page s → page_id s' = page_id s → tasks s' = tasks s → mintState s' = mintState s →
  sendState s' = sendState s → sellState s' = sellState s → inv s → inv s'.
Proof.
  intros Hc Hp Hi Ht Hm Hs Hl [H1 H2 H3]. split.
  - rewrite Ht. eapply Forall_impl; [exact H1|]. intros t Hok v c Hv. unfold view_ok. rewrite Hi, Hc. by apply Hok.
  - destruct H2 as (base & extras & Hpage & Hb & He). exists base, extras. split_and!; [by rewrite Hp| |done].
    destruct Hb as [->|(n & -> & Hn & Hr)]; [by left|]. right. exists n. rewrite Hc. split_and!; [done..|].
    unfold review_ok in *. by rewrite Hc, Hm, Hs, Hl.
  - unfold mint_inv. by rewrite Hc, Hm.
Qed.

Lemma inv_send f s :
  (cur s = Ssend_review → ∀ d, sd_plan (f d) = sd_plan d ∧ sd_toAddress (f d) = sd_toAddress d ∧ sd_error (f d) = sd_error d) →
  inv s → inv (set_send f s).
Proof.
  intros Hf [H1 (base & extras & Hpage & Hb & He) H3]. split; [exact H1| |exact H3]. exists base, extras.
  split_and!; [exact Hpage| |done]. destruct Hb as [->|(n & -> & Hn & Hr)]; [by left|]. right. exists n.
  split_and!; [done..|]. unfold review_ok in *. change (cur (set_send f s)) with (cur s).
  change (mintState (set_send f s)) with (mintState s). change (sellState (set_send f s)) with (sellState s).
  change (sendState (set_send f s)) with (f (sendState s)).
  destruct (cur s); try done. destruct (Hf eq_refl (sendState s)) as (Hp & Ha & Herr). destruct Hr as (plan & Hplan & Hren).
  exists plan. split; [by rewrite Hp|]. rewrite <- Hren. by apply renderSendReview_ext.
Qed.

Lemma inv_sell f s :
  (cur s = Ssell_review → ∀ d, se_plan (f d) = se_plan d ∧ se_error (f d) = se_error d) →
  inv s → inv (set_sell f s).
Proof.
  intros Hf [H1 (base & extras & Hpage & Hb & He) H3]. split; [exact H1| |exact H3]. exists base, extras.
  split_and!; [exact Hpage| |done]. destruct Hb as [->|(n & -> & Hn & Hr)]; [by left|]. right. exists n.
  split_and!; [done..|]. unfold review_ok in *. change (cur (set_sell f s)) with (cur s).
  change (mintState (set_sell f s)) with (mintState s). change (sendState (set_sell f s)) with (sendState s).
  change (sellState (set_sell f s)) with (f (sellState s)).
  destruct (cur s); try done. destruct (Hf eq_refl (sellState s)) as (Hp & Herr). destruct Hr as (plan & Hplan & Hren).
  exists plan. split; [by rewrite Hp|]. rewrite <- Hren. by apply renderSellReview_ext.
Qed.

Lemma inv_mint_form f s : cur s ≠ Smint_review → inv s → inv (s <| mintState ::= f |>).
Proof.
  intros Hc [H1 (base & extras & Hpage & Hb & He) H3]. split; [exact H1| |by intros ?]. exists base, extras.
  split_and!; [exact Hpage| |done]. destruct Hb as [->|(n & -> & Hn & Hr)]; [by left|]. right. exists n.
  split_and!; [done..|]. unfold review_ok in *. change (cur (update mintState f s)) with (cur s).
  by destruct (cur s).
Qed.

(** *** The handlers *)

Lemma inv_new_wallet w s : inv s → inv (new_wallet w s).
Proof. by apply inv_ext. Qed.

Lemma inv_set_wallet r w s : inv s → inv (set_wallet r w s).
Proof. by apply inv_ext. Qed.

Lemma start_lock_inv p v e s : inv s → inv (start_lock p v e s).
Proof.
  intros Hinv. unfold start_lock. destruct (wallet_ref s), (the_wallet s); try by apply inv_show_error.
  destruct (lock_start _ _ _) as [[enc n']|]; [|by apply inv_show_error].
  apply inv_add_task; [|by apply no_view_ok]. by apply (inv_ext s).
Qed.

Lemma broadcast_done_inv txid s : views_le s → inv (broadcast_done txid s).
Proof.
  intros Hv. unfold broadcast_done. cbv zeta.
  match goal with |- context [go Swallet ?x] => assert (inv (go Swallet x)) as Hinv by by apply go_inv end.
  case_match; [|done]. apply inv_add_task; [done|by apply no_view_ok].
Qed.

Lemma render_if_inv c s : inv s → inv (render_if c s).
Proof. intros Hinv. unfold render_if. case_match; [paints Hinv|done]. Qed.

Lemma send_load_failed_inv e s : inv s → inv (send_load_failed e s).
Proof. intros Hinv. apply render_if_inv, inv_send; [|done]. by intros _ d. Qed.

Lemma sell_load_failed_inv e s : inv s → inv (sell_load_failed e s).
Proof. intros Hinv. apply render_if_inv, inv_sell; [|done]. by intros _ d. Qed.

Lemma scan_input_inv n e s : inv s → inv (scan_input n e s).
Proof.
  intros Hinv. unfold scan_input. destruct (scans s !! n) as [[opts c]|]; [|done].
  assert (∀ x, inv (s <| scans := x |>)) as Hx by (intros x; by apply (inv_ext s)).
  repeat case_match; try apply Hx; paints Hinv.
Qed.

Lemma capture_send_inv s : cur s ≠ Ssend_review → inv s → inv (captureSendInputs s).
Proof. intros Hc Hinv. apply inv_send; [|done]. by intros ?. Qed.

Lemma capture_sell_inv s : cur s ≠ Ssell_review → inv s → inv (captureSellPriceInput s).
Proof. intros Hc Hinv. apply inv_sell; [|done]. by intros ?. Qed.

Lemma append_extra_inv r s : part_all shown_extra r → inv s → inv (append_part r s).
Proof.
  intros Hr [H1 (base & extras & Hpage & Hb & He) H3]. unfold append_part.
  destruct r as [[t|n|]|e]; try by split; [|exists base, extras|].
  split; [exact H1| |exact H3]. exists base, (extras ++ [n]). split_and!; [|exact Hb|].
  - change (page (update page ?f s)) with (f (page s)). by rewrite Hpage, app_assoc.
  - apply Forall_app. split; [done|]. constructor; [|constructor]. by apply Hr.
Qed.

Lemma loadSendData_inv s : inv s → inv (loadSendData s).
Proof.
  intros Hinv. unfold loadSendData. destruct (own_pubkey_hex s); [|by apply send_load_failed_inv].
  apply inv_add_task; [done|by apply no_view_ok].
Qed.

Lemma mint_failed_inv e s : inv s → inv (mint_failed e s).
Proof. intros Hinv. unfold mint_failed. paints Hinv. Qed.

Lemma cancel_failed_inv e s : inv s → inv (cancel_failed e s).
Proof. intros Hinv. unfold cancel_failed. paints Hinv. Qed.

(** A button that only one screen has. *)
Lemma offered_on s h c :
  offers (cur s) h = true ∨ offers_extra h = true → offers_extra h = false → (∀ d, offers d h = true → d = c) → cur s = c.
Proof. intros [Ho|Ho] He Hc; [by apply Hc|congruence]. Qed.

Ltac on_screen Ho c :=
  let Hc := fresh "Hc" in
  assert (cur _ = c) as Hc by (eapply offered_on; [exact Ho|reflexivity|intros []; cbn; congruence]).

Lemma planMintTx_inv s : cur s = Smint → inv s → inv (planMintTx s).
Proof.
  intros Hc Hinv. unfold planMintTx.
  destruct (value_of "mint-ticker" s), (value_of "mint-multiplier" s), (value_of "mint-amount" s); try done. cbv zeta.
  match goal with |- context [wallet_address ?x] => assert (inv x) as Hx end.
  { apply inv_mint_form; [by rewrite Hc|done]. }
  destruct (wallet_address _); [|done]. apply inv_add_task; [done|by apply no_view_ok].
Qed.

Lemma planSendTx_inv s : cur s = Ssend → inv s → inv (planSendTx s).
Proof.
  intros Hc Hinv. unfold planSendTx. cbv zeta.
  assert (inv (captureSendInputs s)) as Hx by (apply capture_send_inv; [by rewrite Hc|done]).
  match goal with |- inv (match ?r with _ => _ end) => destruct r as [[plan|errors]|e] end; [|paints Hinv|exact Hx].
  by apply go_inv; [exact (inv_views _ Hinv)|].
Qed.

Lemma planSellFlow_inv s : cur s = Ssell → inv s → inv (planSellFlow s).
Proof.
  intros Hc Hinv. unfold planSellFlow. cbv zeta.
  assert (inv (captureSellPriceInput s)) as Hx by (apply capture_sell_inv; [by rewrite Hc|done]).
  destruct (wallet_address _); [|exact Hx]. destruct (negb _); [paints Hinv|].
  by apply go_inv; [exact (inv_views _ Hinv)|].
Qed.

Lemma startAddressScan_inv s : inv s → inv (startAddressScan s).
Proof.
  intros Hinv. unfold startAddressScan. cbv zeta. case_match; [paints Hinv|].
  match goal with |- context [append_part ?r ?x] =>
    assert (inv (append_part r x)) as Hx; [|revert Hx; generalize (append_part r x)] end.
  - apply append_extra_inv; [apply extra_overlay|paints Hinv].
  - intros y Hy. by apply (inv_ext y).
Qed.

Lemma sign_in_handlers_inv s :
  inv s → inv (createNewWallet s) ∧ inv (finishWalletSetup s) ∧ inv (doRestore s) ∧ inv (doUnlock s) ∧ inv (lockWallet s).
Proof.
  intros Hinv. split_and!.
  - unfold createNewWallet. destruct (start_create _ s) eqn:Hs.
    apply inv_add_task; [by eapply start_create_inv|by apply no_view_ok].
  - unfold finishWalletSetup. case_match; [|done]. by apply start_lock_inv.
  - unfold doRestore. repeat (case_match; [|done]). destruct (start_create _ s) eqn:Hs.
    apply inv_add_task; [by eapply start_create_inv|by apply no_view_ok].
  - unfold doUnlock. case_match; [|done]. destruct (ensure_wallet s) as [s'|e] eqn:He; [|by apply inv_show_error].
    assert (inv s') as Hs'.
    { unfold ensure_wallet in He. repeat case_match; simp_res; [done|]. by apply inv_new_wallet. }
    case_match; [|done]. apply inv_add_task; [done|by apply no_view_ok].
  - unfold lockWallet. repeat (case_match; try assumption). by apply go_inv; [exact (inv_views _ Hinv)|].
Qed.

Lemma run_handler_inv h s :
  inv s → offers (cur s) h = true ∨ offers_extra h = true → inv (run_handler h s).
Proof.
  intros Hinv Ho. destruct (sign_in_handlers_inv s Hinv) as (? & ? & ? & ? & ?).
  pose proof (inv_views s Hinv) as Hv. destruct h; cbn [run_handler]; try assumption;
    try (apply go_inv; [exact Hv|discriminate]).
  - unfold copyAddress. case_match; [|done]. apply inv_add_task; [done|by apply no_view_ok].
  - apply go_inv; [exact Hv|]. intros ->. destruct Ho as [Ho|Ho]; [|done]. by destruct (cur s).
  - apply planMintTx_inv; [|done]. by on_screen Ho Smint.
  - unfold confirmMint. case_match; [|by apply go_inv]. case_match; [|by apply mint_failed_inv].
    apply inv_add_task; [done|by apply no_view_ok].
  - apply loadSendData_inv. by apply go_inv; [exact Hv|].
  - apply planSendTx_inv; [|done]. by on_screen Ho Ssend.
  - unfold selectSendPosition. paints Hinv.
  - by apply startAddressScan_inv.
  - by apply scan_input_inv.
  - unfold confirmSend. case_match; [|by apply go_inv]. case_match; [|done]. apply inv_add_task; [done|by apply no_view_ok].
  - unfold confirmFill. case_match; [|by apply go_inv]. case_match; [|done]. apply inv_add_task; [done|by apply no_view_ok].
  - unfold startSell. cbv zeta. case_match; [|apply sell_load_failed_inv; by apply go_inv; [exact Hv|]].
    apply inv_add_task; [|by apply no_view_ok]. by apply go_inv; [exact Hv|].
  - apply planSellFlow_inv; [|done]. by on_screen Ho Ssell.
  - unfold selectSellPosition. paints Hinv.
  - unfold confirmSell. repeat (case_match; try assumption). apply inv_add_task; [done|by apply no_view_ok].
  - unfold confirmCancel. repeat (case_match; try assumption).
    + apply inv_add_task; [|by apply no_view_ok]. paints Hinv.
    + apply cancel_failed_inv. paints Hinv.
Qed.

(** *** The tasks *)

Lemma inv_world w s : inv s → inv (s <| world := w |>).
Proof. by apply inv_ext. Qed.

Lemma view_world w s v c : view_ok s v c → view_ok (s <| world := w |>) v c.
Proof. done. Qed.

Lemma planMint_agrees d us rate plan :
  planMint (Some (mt_ticker d)) (Num (mt_multiplier d)) (mt_amountSats d) us rate = inl plan →
  mp_multiplier plan = mt_multiplier d ∧ mp_amountSats plan = mt_amountSats d.
Proof.
  unfold planMint. destruct (match normalizeTicker _ with Ok t => _ | Throw e => _ end) as [es t].
  destruct (es ++ _); [|done]. intros [= <-]. done.
Qed.

Lemma mint_planned_inv r s : inv s → inv (mint_planned r s).
Proof.
  intros Hinv. unfold mint_planned. destruct r as [[us rate]|e]; [|paints Hinv].
  destruct (wallet_address s); [|assumption].
  destruct (planMint _ _ _ _ _) as [plan|es] eqn:Hp; [|paints Hinv].
  apply render_inv; [exact (inv_views _ Hinv)|]. intros _ plan' [= <-].
  apply planMint_agrees in Hp as [Hm Ha]. by split_and!.
Qed.

Lemma mint_utxos_inv r s : inv s → inv (mint_utxos_loaded r s).
Proof.
  intros Hinv. unfold mint_utxos_loaded. destruct r; [|by apply mint_failed_inv].
  destruct (wallet_key s), (wallet_address s); try assumption. apply inv_add_task; [done|by apply no_view_ok].
Qed.

Lemma mint_published_inv r s : inv s → inv (mint_published r s).
Proof.
  intros Hinv. destruct r; [|by apply mint_failed_inv]. apply broadcast_done_inv. exact (inv_views _ Hinv).
Qed.

Lemma send_published_inv r s : inv s → inv (send_published r s).
Proof.
  intros Hinv. destruct r; [|cbn [send_published]; paints Hinv]. apply broadcast_done_inv. exact (inv_views _ Hinv).
Qed.

Lemma fill_published_inv r s : inv s → inv (fill_published r s).
Proof.
  intros Hinv. destruct r; [|cbn [fill_published]; paints Hinv]. apply broadcast_done_inv. exact (inv_views _ Hinv).
Qed.

Lemma sell_published_inv r s : inv s → inv (sell_published r s).
Proof.
  intros Hinv. destruct r; cbn [sell_published]; [|paints Hinv]. by apply go_inv; [exact (inv_views _ Hinv)|].
Qed.

Lemma cancel_done_inv r s : inv s → inv (cancel_done r s).
Proof.
  intros Hinv. destruct r; cbn [cancel_done]; [|by apply cancel_failed_inv]. by apply go_inv; [exact (inv_views _ Hinv)|].
Qed.

Lemma poll_done_inv t r s : inv s → inv (poll_done t r s).
Proof.
  intros Hinv. unfold poll_done. destruct (broadcastStatus s) as [[current b]|]; [|assumption].
  destruct (negb _); [assumption|]. cbv zeta. destruct (bool_decide _); [paints Hinv|]. by apply (inv_ext s).
Qed.

Lemma inv_market f s : inv s → inv (set_market f s).
Proof. by apply inv_ext. Qed.

Lemma fill_loads_inv s v order position us r :
  inv s → view_ok s v Smarket_fill →
  inv (fill_position_loaded v order r s) ∧ inv (fill_utxos_loaded v order position r s)
  ∧ inv (fill_fee_loaded v order position us r s).
Proof.
  intros Hinv Hv.
  assert (∀ e, inv (fill_prepare_failed v e s)) as Hfail.
  { intros e. apply (inv_fill _ _ Smarket_fill); [assumption..|reflexivity|]. intros l. apply all_children, shown_fill_failed. }
  split_and!.
  - unfold fill_position_loaded. destruct (p ← r; _) as [[position' a]|]; [|apply Hfail].
    apply inv_add_task; [assumption|]. by intros v' c [= <- <-].
  - unfold fill_utxos_loaded. destruct r; [|apply Hfail]. apply inv_add_task; [assumption|]. by intros v' c [= <- <-].
  - unfold fill_fee_loaded. destruct (resp ← r; _) as [[rate pk]|]; [|apply Hfail].
    destruct (planFill _ _ _ _ _) as [plan|es].
    + apply (inv_fill _ _ Smarket_fill); [by apply inv_market|exact Hv|reflexivity|].
      intros l. apply all_children, shown_fill_review.
    + apply (inv_fill _ _ Smarket_fill); [assumption..|reflexivity|]. intros l. apply all_children, shown_fill_refused.
Qed.

Lemma my_orders_loaded_inv s v hex r : inv s → view_ok s v Smy_orders → inv (my_orders_loaded v hex r s).
Proof.
  intros Hinv Hv. unfold my_orders_loaded.
  destruct r; (apply (inv_fill _ _ Smy_orders); [by apply inv_my|exact Hv|reflexivity|]); intros l; apply all_children;
    [apply shown_my_orders_content|apply shown_my_orders_failed].
Qed.

Lemma send_loaded_inv ps us rate s : inv s → inv (send_loaded ps us rate s).
Proof. intros Hinv. apply render_if_inv, inv_send; [|assumption]. by intros _ d. Qed.

Lemma sell_loaded_inv ps s : inv s → inv (sell_loaded ps s).
Proof. intros Hinv. apply render_if_inv, inv_sell; [|assumption]. by intros _ d. Qed.

(** A call, and what follows it. *)
Lemma await_inv {A} (m : io W A) k s : inv s → (∀ w r, inv (k r (s <| world := w |>))) → inv (await m k s).
Proof. intros Hinv Hk. unfold await. destruct (m (world s)). apply Hk. Qed.

Lemma await_settled_inv {A} (m : io W (A + string)) k s :
  inv s → (∀ w r, inv (k r (s <| world := w |>))) → inv (await_settled m k s).
Proof. intros Hinv Hk. apply await_inv; [assumption|]. intros w [r|e]; [apply Hk|by apply inv_world]. Qed.

Lemma resume_sign_in t s :
  inv s → match t with Tcreate _ | TrenderCreate _ | Tlock _ _ _ _ | Trestore _ _ _ | Tunlock _ _ _ _ => True | _ => False end →
  inv (resume t s).
Proof.
  intros Hinv Ht. pose proof (inv_views s Hinv) as Hv. destruct t; try done; cbn [resume].
  - destruct r; [|assumption]. by apply go_inv; [exact Hv|].
  - destruct r; [|assumption]. apply append_extra_inv; [apply extra_create|by apply inv_new_wallet].
  - destruct (heap s !! w); [|assumption]. by apply go_inv; [exact Hv|].
  - destruct r; [by apply start_lock_inv, inv_new_wallet|by apply inv_show_error].
  - destruct (heap s !! w); [|assumption]. destruct (unlock _ _ _ _ _) as [x [[]|e]].
    + by apply go_inv; [exact Hv|].
    + by apply inv_show_error, inv_set_wallet.
    + by apply inv_show_error, inv_set_wallet.
Qed.

Lemma resume_inv t s : inv s → task_ok s t → inv (resume t s).
Proof.
  intros Hinv Ht. destruct t; try (by apply resume_sign_in); cbn [resume];
    try assumption;
    lazymatch goal with
    | |- inv (await_settled _ _ _) => apply await_settled_inv
    | |- inv (await _ _ _) => apply await_inv
    end; try assumption; intros w r;
    pose proof (inv_world w s Hinv) as Hw; try specialize (Ht _ _ eq_refl).
  - apply (inv_fill _ _ Swallet); [assumption|exact Ht|reflexivity|]. intros l. apply shown_balance.
  - by apply mint_planned_inv.
  - by apply mint_utxos_inv.
  - by apply mint_published_inv.
  - destruct r; [by apply poll_done_inv|assumption].
  - match goal with |- inv (match ?x with _ => _ end) => destruct x as [[]|] end; [|by apply send_load_failed_inv].
    apply inv_add_task; [assumption|by apply no_view_ok].
  - destruct r; [|by apply send_load_failed_inv]. apply inv_add_task; [assumption|by apply no_view_ok].
  - destruct r; [by apply send_loaded_inv|by apply send_load_failed_inv].
  - by apply send_published_inv.
  - apply (inv_fill _ _ Smarket); [assumption|exact Ht|reflexivity|]. intros l. apply shown_market_content.
  - by apply (fill_loads_inv _ _ _ Null []).
  - by apply (fill_loads_inv _ _ _ _ []).
  - by apply fill_loads_inv.
  - by apply fill_published_inv.
  - destruct r; [by apply sell_loaded_inv|by apply sell_load_failed_inv].
  - by apply sell_published_inv.
  - by apply my_orders_loaded_inv.
  - by apply cancel_done_inv.
Qed.

Lemma step_inv e s : inv s → inv (step e s).
Proof.
  intros Hinv. destruct e as [k|id v|i|i ok|n e]; cbn [step].
  - destruct (buttons s !! k) as [h|] eqn:Hb; [|assumption]. apply run_handler_inv; [assumption|].
    eapply buttons_offered; [assumption|]. by eapply list_elem_of_lookup_2.
  - destruct (find_page _ _); [by apply (inv_ext s)|assumption].
  - destruct (tasks s !! i) as [t|] eqn:Ht; [|assumption].
    assert (task_ok s t) as Hok by (by eapply Forall_lookup_1; [apply Hinv|]).
    destruct t; try assumption; (apply resume_inv; [by apply inv_remove_task|exact Hok]).
  - destruct (tasks s !! i) as [[]|]; try assumption.
    pose proof (inv_remove_task i s Hinv) as Hr. paints Hr.
  - destruct e; try assumption; by apply scan_input_inv.
Qed.

Lemma loaded_inv w : inv (loaded w).
Proof. apply render_inv; [constructor|done]. Qed.

Lemma reachable_inv s : reachable s → inv s.
Proof.
  intros (w & es & ->). unfold run. pose proof (loaded_inv w) as Hinv. revert Hinv. generalize (loaded w).
  induction es as [|e es IH]; intros s Hs; [done|]. simpl. by apply IH, step_inv.
Qed.

(** ** What is on the page *)

Lemma inv_inert s : inv s → forallb inert (page s) = true.
Proof.
  intros [_ (base & extras & Hp & Hb & He) _]. rewrite Hp, forallb_app. apply andb_true_iff. split.
  - destruct Hb as [->|(n & -> & Hn & _)]; [done|]. simpl. rewrite andb_true_r. eapply node_all_inert; [|exact Hn].
    intros h tag attrs ls. unfold shown. intros H. by simp_res.
  - clear Hp. induction He as [|n extras Hn _ IH]; [done|]. simpl. rewrite IH, andb_true_r.
    eapply node_all_inert; [|exact Hn]. by intros h tag attrs ls [[_ H]%andb_true_iff _]%andb_true_iff.
Qed.


(** The review behind a button that only a review has. *)
Lemma review_of s h c :
  inv s → h ∈ buttons s → offers_extra h = false → (∀ d, offers d h = true → d = c) →
  cur s = c ∧ ∃ n rest, page s = n :: rest ∧ review_ok s n.
Proof.
  intros Hinv Hh Hx Hc. pose proof (buttons_offered s h Hinv Hh) as Ho. split; [by eapply offered_on|].
  destruct Hinv as [_ (base & extras & Hp & Hb & He) _].
  destruct Hb as [->|(n & -> & _ & Hr)]; [|by exists n, extras].
  exfalso. unfold buttons in Hh. rewrite Hp in Hh. simpl in Hh. clear Hp.
  induction He as [|n extras Hn _ IH]; simpl in Hh; [by apply not_elem_of_nil in Hh|].
  apply elem_of_app in Hh as [Hh|Hh]; [|by apply IH].
  assert (offers_extra h = true); [|congruence].
  eapply (clickable_all shown_extra offers_extra); [|exact Hn|exact Hh]. by intros hl tag attrs ls [_ H]%andb_true_iff.
Qed.

End invariant.

(** ** What drawing the page leaves alone *)

(** The work a screen starts. *)
Definition paint_task (t : task) : bool :=
  match t with Tbalance _ _ | Tmarket _ | TfillPosition _ _ | TmyOrders _ _ => true | _ => false end.

#[local] Transparent render.

Section frame.
Context `{!Page handler} {W : Type} `{!Env W}.
Abbreviation st := (appl W).
Implicit Types s : st.

Record frame s s' : Prop := {
  fr_heap : heap s' = heap s;
  fr_ref : wallet_ref s' = wallet_ref s;
  fr_badge : broadcastStatus s' = broadcastStatus s;
  fr_send : sendState s' = sendState s;
  fr_sell : sellState s' = sellState s;
  fr_world : world s' = world s;
  fr_stg : stg s' = stg s;
  fr_drawn : cur s' ≠ Screate ∨ the_wallet s ≠ None → drawn s' = drawn s;
  fr_tasks : ∃ new, tasks s' = tasks s ++ new
               ∧ Forall (λ t, paint_task t = true ∨ (cur s' = Screate ∧ the_wallet s = None)) new
}.

Lemma frame_the_wallet s s' : frame s s' → the_wallet s' = the_wallet s.
Proof. intros [Hh Hr _ _ _ _ _ _ _]. unfold the_wallet. by rewrite Hh, Hr. Qed.

Lemma fill_view_state v r s :
  cur (fill_view v r s) = cur s ∧ heap (fill_view v r s) = heap s ∧ wallet_ref (fill_view v r s) = wallet_ref s
  ∧ broadcastStatus (fill_view v r s) = broadcastStatus s ∧ sendState (fill_view v r s) = sendState s
  ∧ sellState (fill_view v r s) = sellState s ∧ tasks (fill_view v r s) = tasks s ∧ world (fill_view v r s) = world s
  ∧ stg (fill_view v r s) = stg s ∧ drawn (fill_view v r s) = drawn s.
Proof. unfold fill_view. destruct r; [|done]. by destruct (v =? page_id s)%nat. Qed.

Lemma frame_refl s : frame s s.
Proof. split; try done. exists []. by rewrite app_nil_r. Qed.

Lemma frame_add_task t s : paint_task t = true → frame s (add_task t s).
Proof. intros Ht. split; try done. exists [t]. split; [done|]. constructor; [by left|constructor]. Qed.

Lemma screen_tasks_cur s : cur (screen_tasks s) = cur s.
Proof.
  unfold screen_tasks. destruct (cur s) eqn:Hc; try exact Hc.
  - destruct (the_wallet s); [exact Hc|]. unfold start_create. by destruct (create _ _ _ _ _ _) as [[w n]|e].
  - by destruct (wallet_address s).
  - destruct (mk_selectedOrder _); [|exact Hc]. by destruct (painted _).
  - destruct (own_pubkey_hex s); [exact Hc|].
    match goal with |- cur (fill_view ?v ?r ?x) = _ => by destruct (fill_view_state v r x) as (-> & _) end.
Qed.

Lemma screen_tasks_frame s : frame s (screen_tasks s).
Proof.
  pose proof (screen_tasks_cur s) as Hcur. revert Hcur.
  unfold screen_tasks. destruct (cur s) eqn:Hc; intros Hcur; try exact (frame_refl s).
  - destruct (the_wallet s) eqn:Hw; [exact (frame_refl s)|]. unfold start_create.
    destruct (create _ _ _ _ _ _) as [[w n]|e];
      (split; try done; try (intros [H|H]; destruct H; assumption); eexists [_]; split; [done|]; constructor; [by right|constructor]).
  - destruct (wallet_address s); [by apply frame_add_task|exact (frame_refl s)].
  - by apply frame_add_task.
  - destruct (mk_selectedOrder _); [|exact (frame_refl s)].
    destruct (painted _); [by apply frame_add_task|exact (frame_refl s)].
  - destruct (own_pubkey_hex s); [by apply frame_add_task|].
    match goal with |- frame s (fill_view ?v ?r ?x) => destruct (fill_view_state v r x) as (H1 & H2 & H3 & H4 & H5 & H6 & H7 & H8 & H9 & H10) end.
    split; [by rewrite H2|by rewrite H3|by rewrite H4|by rewrite H5|by rewrite H6|by rewrite H8|by rewrite H9|by rewrite H10|].
    exists []. rewrite H7. by rewrite app_nil_r.
Qed.

Lemma render_frame s : cur (render s) = redirect s ∧ frame s (render s).
Proof.
  unfold render. destruct (screen_tasks_frame (paint (blank s))) as [Hh Hr Hb Hs Hl Hw Hst Hd (new & Ht & Hnew)].
  pose proof (screen_tasks_cur (paint (blank s))) as Hc.
  assert (cur (paint (blank s)) = redirect s ∧ heap (paint (blank s)) = heap s ∧ wallet_ref (paint (blank s)) = wallet_ref s
    ∧ broadcastStatus (paint (blank s)) = broadcastStatus s ∧ sendState (paint (blank s)) = sendState s
    ∧ sellState (paint (blank s)) = sellState s ∧ tasks (paint (blank s)) = tasks s
    ∧ world (paint (blank s)) = world s ∧ stg (paint (blank s)) = stg s ∧ drawn (paint (blank s)) = drawn s)
    as (E1 & E2 & E3 & E4 & E5 & E6 & E7 & E8 & E9 & E10).
  { unfold paint, append_part, blank. by repeat case_match. }
  assert (the_wallet (paint (blank s)) = the_wallet s) as Ew by (unfold the_wallet; by rewrite E2, E3). rewrite Ew in *.
  split; [by rewrite Hc|]. split; [congruence..| |].
  - intros H. by rewrite <- E10, Hd.
  - exists new. split; [by rewrite Ht, E7|exact Hnew].
Qed.
End frame.
