(* ===== verification/FlowLock.v ===== *)
(** * FlowLock: a wallet that is locked signs nothing

    From a state of the machine of [Flow] whose wallet has no key, and in which
    nothing pending holds one, as long as nobody creates, restores or unlocks a
    wallet: no key comes back, and of the network only [GET] requests are made. *)

From stdpp Require Import base tactics option list numbers strings pretty relations.
From Stdlib Require Import ZArith Lia Ascii.
From S2P Require Import Prelude JsInt JsStr JsNum JsVal Effects Words Sha256 Addr Script Tx Payments Orders.
From S2P Require Import Transfer Market Mint Sell Cancel Api App Mnemonic Bip32 Wallet Dom Qrscan Views Flow FlowProps.

#[local] Opaque render.

(** ** A wallet without its key *)

(** Work that holds a key or a signature, and work that can bring one in. *)
Definition keyed (t : task) : bool :=
  match t with
  | Tmint _ (Some _) _ _ | Tsend _ (Some _) | Tfill _ (Some _) _ _ _ | Tsell _ (Some _) _ | Tcancel _ _ => true
  | _ => false
  end.
Definition signs_in (t : task) : bool :=
  match t with Tcreate _ | TrenderCreate _ | Trestore _ _ _ | Tunlock _ _ _ _ => true | _ => false end.
Definition harmless (t : task) : bool := negb (keyed t) && negb (signs_in t).

(** The buttons that make, restore or unlock a wallet. *)
Definition sign_in_button (h : handler) : bool :=
  match h with HcreateNewWallet | HdoRestore | HdoUnlock | HmigrateCreate => true | _ => false end.

Section locked.
Context `{!Page handler} {W : Type} `{!Env W}.
Abbreviation st := (appl W).
Implicit Types s : st.

(** The wallet has no key, and nothing in flight has one or brings one. *)
Record keyless s : Prop := {
  lk_key : ∀ w, the_wallet s = Some w → _privKey w = None;
  lk_tasks : Forall (λ t, harmless t = true) (tasks s);
  lk_cur : cur s ≠ Screate
}.

(** What reading from the network, and waiting, does to the world. *)
Context (R : relation W) `{!PreOrder R}.
Hypothesis gets : ∀ q, rq_method q = "GET" → keeps R (fetchImpl q).
Hypothesis waits : ∀ ms, keeps R (sleep ms).
Context (w0 : W).

Record locked s : Prop := {
  lk_keyless :> keyless s;
  lk_world : R w0 (world s)
}.

Lemma locked_ext s s' :
  heap s' = heap s → wallet_ref s' = wallet_ref s → tasks s' = tasks s → cur s' = cur s → world s' = world s →
  locked s → locked s'.
Proof. intros Hh Hr Ht Hc Hw [[H1 H2 H3] H4]. split; [split; unfold the_wallet in *|]; by rewrite ?Hh, ?Hr, ?Ht, ?Hc, ?Hw. Qed.

Lemma locked_render s : locked s → locked (render s).
Proof.
  intros [[H1 H2 H3] H4]. destruct (render_frame s) as [Hc Hf]. pose proof (frame_the_wallet _ _ Hf) as Hw.
  assert (redirect s ≠ Screate) as Hr. { unfold redirect. destruct (cur s); try done; by case_match. }
  destruct Hf as [_ _ _ _ _ Hwd _ _ (new & Ht & Hnew)]. split; [|by rewrite Hwd]. split; [by rewrite Hw| |by rewrite Hc].
  rewrite Ht. apply Forall_app. split; [done|]. eapply Forall_impl; [exact Hnew|].
  intros t [Hp|[Hcr _]]; [by destruct t|by rewrite Hc in Hcr].
Qed.

Lemma locked_go c s : c ≠ Screate → locked s → locked (go c s).
Proof. intros Hc [[H1 H2 H3] H4]. apply locked_render. split; [|exact H4]. by split. Qed.

Lemma locked_add t s : harmless t = true → locked s → locked (add_task t s).
Proof.
  intros Ht [[H1 H2 H3] H4]. split; [|exact H4]. split; [exact H1| |exact H3]. cbn. apply Forall_app.
  split; [exact H2|]. by constructor.
Qed.

Lemma locked_wallet_key s k : locked s → wallet_key s = Ok k → k = None.
Proof.
  intros [[H1 _ _] _]. unfold wallet_key, of_wallet. destruct (the_wallet s) as [w|]; [|done]. intros [= <-]. by apply H1.
Qed.

Lemma locked_no_pubkey s hex : locked s → own_pubkey_hex s ≠ Ok hex.
Proof.
  intros Hl. unfold own_pubkey_hex. destruct (wallet_key s) as [k|] eqn:Hk; [|done].
  by rewrite (locked_wallet_key s k Hl Hk).
Qed.

Lemma locked_set_wallet r w s : _privKey w = None → locked s → locked (set_wallet r w s).
Proof.
  intros Hw [[H1 H2 H3] H4]. split; [|exact H4]. split; [|exact H2|exact H3]. intros w'. unfold the_wallet in *. cbn.
  destruct (wallet_ref s) as [r'|]; [|done]. cbn. intros [(-> & <- & _)|[_ Hin]]%list_lookup_insert_Some; [done|by apply H1].
Qed.

Lemma locked_fill v r s : locked s → locked (fill_view v r s).
Proof. destruct (fill_view_state v r s) as (? & ? & ? & _ & _ & _ & ? & ? & _). by apply locked_ext. Qed.

Lemma locked_show_error v id t s : locked s → locked (show_error_in v id t s).
Proof. unfold show_error_in. case_match; [by apply locked_ext|done]. Qed.

Lemma locked_append r s : locked s → locked (append_part r s).
Proof. unfold append_part. repeat case_match; try done. by apply locked_ext. Qed.

Lemma locked_render_if c s : locked s → locked (render_if c s).
Proof. unfold render_if. case_match; [apply locked_render|done]. Qed.

Lemma locked_broadcast_done t s : locked s → locked (broadcast_done t s).
Proof.
  intros Hl. unfold broadcast_done. cbv zeta.
  match goal with |- context [go Swallet ?x] => assert (locked (go Swallet x)) as Hg end.
  { apply locked_go; [done|]. by apply (locked_ext s). }
  destruct (wallet_address _); [by apply locked_add|exact Hg].
Qed.

Lemma locked_scan n e s : locked s → locked (scan_input n e s).
Proof.
  intros Hl. unfold scan_input. destruct (scans s !! n) as [[opts c]|]; [|done].
  assert (∀ x, locked (s <| scans := x |>)) as Hx by (intros x; by apply (locked_ext s)).
  repeat case_match; try apply Hx; apply locked_render; by apply (locked_ext s).
Qed.

(** A state that differs from a locked one in what the lock does not touch. *)
Ltac same_lock Hl :=
  match type of Hl with locked ?s0 => apply (locked_ext s0); [reflexivity|reflexivity|reflexivity|reflexivity|reflexivity|exact Hl] end.
Ltac lock_paints Hl := first [apply locked_go; [discriminate|]; same_lock Hl | apply locked_render; same_lock Hl].

Lemma locked_send_failed e s : locked s → locked (send_load_failed e s).
Proof. intros Hl. apply locked_render_if. same_lock Hl. Qed.
Lemma locked_sell_failed e s : locked s → locked (sell_load_failed e s).
Proof. intros Hl. apply locked_render_if. same_lock Hl. Qed.
Lemma locked_mint_failed e s : locked s → locked (mint_failed e s).
Proof. intros Hl. unfold mint_failed. lock_paints Hl. Qed.
Lemma locked_cancel_failed e s : locked s → locked (cancel_failed e s).
Proof. intros Hl. unfold cancel_failed. lock_paints Hl. Qed.

Lemma locked_start_lock p v e s : locked s → locked (start_lock p v e s).
Proof.
  intros Hl. unfold start_lock. destruct (wallet_ref s), (the_wallet s); try by apply locked_show_error.
  destruct (lock_start _ _ _) as [[enc n']|]; [|by apply locked_show_error].
  apply locked_add; [done|]. same_lock Hl.
Qed.

Lemma locked_forms s :
  locked s → locked (planMintTx s) ∧ locked (planSendTx s) ∧ locked (planSellFlow s) ∧ locked (confirmCancel s)
             ∧ locked (startAddressScan s).
Proof.
  intros Hl. split_and!.
  - unfold planMintTx.
    destruct (value_of "mint-ticker" s), (value_of "mint-multiplier" s), (value_of "mint-amount" s); try exact Hl. cbv zeta.
    destruct (wallet_address _); [apply locked_add; [done|]|]; same_lock Hl.
  - unfold planSendTx. cbv zeta.
    match goal with |- locked (match ?r with _ => _ end) => destruct r as [[plan|errors]|e] end;
      [lock_paints Hl|lock_paints Hl|same_lock Hl].
  - unfold planSellFlow. cbv zeta. destruct (wallet_address _); [|same_lock Hl]. destruct (negb _); lock_paints Hl.
  - unfold confirmCancel. destruct (mo_selectedOrder _) as [order|]; [|exact Hl]. destruct (negb _); [exact Hl|]. cbv zeta.
    match goal with |- context [render ?x] => assert (locked (render x)) as Hr by lock_paints Hl; revert Hr; generalize (render x) end.
    intros y Hy. destruct (wallet_key y) as [k|] eqn:Hk; [|by apply locked_cancel_failed].
    rewrite (locked_wallet_key y k Hy Hk). cbn [mbind res_bind sign_cancel].
    destruct (signCancelOrder _ _); by apply locked_cancel_failed.
  - unfold startAddressScan. cbv zeta. destruct (negb _); [lock_paints Hl|].
    match goal with |- context [append_part ?r ?x] =>
      assert (locked (append_part r x)) as Hx; [|revert Hx; generalize (append_part r x)] end.
    + apply locked_append. lock_paints Hl.
    + intros y Hy. same_lock Hy.
Qed.

Lemma locked_handler h s :
  inv s → offers (cur s) h = true ∨ offers_extra h = true → sign_in_button h = false →
  locked s → locked (run_handler h s).
Proof.
  intros Hinv Ho Hs Hl. destruct (locked_forms s Hl) as (? & ? & ? & ? & ?).
  destruct h; try discriminate Hs; cbn [run_handler]; try assumption; try (lock_paints Hl).
  - unfold finishWalletSetup. destruct (value_of _ s); [by apply locked_start_lock|exact Hl].
  - apply locked_go; [discriminate|]. split; [|exact (lk_world _ Hl)]. split; [done|exact (lk_tasks _ Hl)|exact (lk_cur _ Hl)].
  - unfold lockWallet. destruct (wallet_ref s), (the_wallet s); try exact Hl.
    apply locked_go; [discriminate|]. by apply locked_set_wallet.
  - unfold copyAddress. destruct (the_wallet s); [by apply locked_add|exact Hl].
  - apply locked_go; [|exact Hl]. intros ->. destruct Ho as [Ho|Ho]; [|done]. by destruct (cur s).
  - unfold confirmMint. destruct (mt_plan _); [|lock_paints Hl].
    destruct (wallet_address s); [by apply locked_add|by apply locked_mint_failed].
  - unfold goToSend, loadSendData. match goal with |- context [go Ssend ?x] => assert (locked (go Ssend x)) as Hg by lock_paints Hl end.
    destruct (own_pubkey_hex _) eqn:Hk; [by apply locked_no_pubkey in Hk|by apply locked_send_failed].
  - by apply locked_scan.
  - unfold confirmSend. destruct (sd_plan _); [|lock_paints Hl]. destruct (wallet_key s) as [k|] eqn:Hk; [|exact Hl].
    rewrite (locked_wallet_key s k Hl Hk). by apply locked_add.
  - unfold confirmFill. destruct (mk_fillPlan _); [|lock_paints Hl]. destruct (wallet_key s) as [k|] eqn:Hk; [|exact Hl].
    rewrite (locked_wallet_key s k Hl Hk). by apply locked_add.
  - unfold startSell. cbv zeta. match goal with |- context [go Ssell ?x] => assert (locked (go Ssell x)) as Hg by lock_paints Hl end.
    destruct (own_pubkey_hex _) eqn:Hk; [by apply locked_no_pubkey in Hk|by apply locked_sell_failed].
  - unfold confirmSell. destruct (wallet_key s) as [k|] eqn:Hk; [|exact Hl]. destruct (wallet_address s); [|exact Hl].
    rewrite (locked_wallet_key s k Hl Hk). by apply locked_add.
Qed.

Lemma locked_await {A} (m : io W A) k s :
  keeps R m → locked s → (∀ w r, locked (s <| world := w |>) → locked (k r (s <| world := w |>))) → locked (await m k s).
Proof.
  intros Hm [Hl Hw] Hk. unfold await. specialize (Hm (world s)). destruct (m (world s)) as [w r]. apply Hk.
  split; [by destruct Hl|]. cbn. by etrans.
Qed.

Lemma locked_await_settled {A} (m : io W (A + string)) k s :
  keeps R m → locked s → (∀ w r, locked (s <| world := w |>) → locked (k r (s <| world := w |>))) →
  locked (await_settled m k s).
Proof. intros Hm Hl Hk. apply locked_await; [exact Hm|exact Hl|]. intros w [r|e] Hw; [by apply Hk|exact Hw]. Qed.

Lemma settle_reads {A} (m : io W A) : keeps R m → keeps R (App.settle m).
Proof. intros Hm. unfold App.settle. eauto 30 with reads. Qed.

Lemma resolveMintInputs_reads a : keeps R (resolveMintInputs baseUrl fetchImpl a).
Proof.
  apply keeps_bind; [done|by apply settle_reads, getUtxos_reads|]. intros [us|e]; [|apply keeps_ret; done].
  apply keeps_bind; [done|by apply settle_reads, getFeeRate_reads|]. intros [f|e]; by apply keeps_ret.
Qed.

(** Publishing without a key fails before anything is sent; only the order's
    transaction is read, to verify it. *)
Lemma keyless_publish_reads :
  (∀ plan a us, keeps R (publish_mint plan None a us))
  ∧ (∀ plan, keeps R (publishTransfer baseUrl fetchImpl configured plan None))
  ∧ (∀ time plan a, keeps R (publish_sell time plan None a))
  ∧ (∀ plan order position us, keeps R (publish_fill plan None order position us)).
Proof.
  split_and!.
  - intros [] a us; apply settle_reads; eauto 30 with reads.
  - intros plan. apply settle_reads. apply keeps_bind; [done|by apply keeps_lift|]. intros secp w.
    unfold Transfer.buildTransferTx. cbn. by destruct (throw_if _ _).
  - intros time [] a; apply settle_reads; eauto 30 with reads.
  - intros plan order position us. apply settle_reads. apply keeps_bind; [done| |eauto 30 with reads].
    unfold verifyPosition. eauto 30 with reads.
Qed.

Lemma locked_resume t s : harmless t = true → locked s → locked (resume t s).
Proof.
  intros Ht Hl. destruct keyless_publish_reads as (Kmint & Ksend & Ksell & Kfill).
  destruct t; try discriminate Ht; cbn [resume]; try assumption;
    try match goal with k : option bytes |- _ => destruct k; [discriminate Ht|] end;
    try lazymatch goal with
    | |- locked (await_settled _ _ _) => apply locked_await_settled; [|exact Hl|intros wd r Hw]
    | |- locked (await _ _ _) => apply locked_await; [|exact Hl|intros wd r Hw]
    end; try solve [eauto 30 using resolveMintInputs_reads with reads].
  - destruct (heap s !! w) as [x|]; [|exact Hl]. apply locked_go; [discriminate|]. cbn.
    assert (locked (set_wallet w (set_locked (set_mnemonic (set_privKey x None) None) true) s)) as Hx
      by by apply locked_set_wallet.
    same_lock Hx.
  - by apply locked_fill.
  - unfold mint_planned. destruct r as [[us rate]|e]; [|lock_paints Hw]. destruct (wallet_address _); [|exact Hw].
    destruct (planMint _ _ _ _ _); lock_paints Hw.
  - unfold mint_utxos_loaded. destruct r; [|by apply locked_mint_failed].
    destruct (wallet_key _) as [k|] eqn:Hk; [|exact Hw]. destruct (wallet_address _); [|exact Hw].
    rewrite (locked_wallet_key _ k Hw Hk). by apply locked_add; [|exact Hw].
  - unfold mint_published. destruct r; [|by apply locked_mint_failed]. apply locked_broadcast_done. same_lock Hw.
  - destruct r; [|exact Hw]. unfold poll_done. destruct (broadcastStatus _) as [[current b]|]; [|exact Hw].
    destruct (negb _); [exact Hw|]. cbv zeta. destruct (bool_decide _); [lock_paints Hw|same_lock Hw].
  - match goal with |- locked (match ?x with _ => _ end) => destruct x as [[]|] end; [by apply locked_add|by apply locked_send_failed].
  - destruct r; [by apply locked_add|by apply locked_send_failed].
  - destruct r; [apply locked_render_if; same_lock Hw|by apply locked_send_failed].
  - unfold send_published. destruct r; [|lock_paints Hw]. apply locked_broadcast_done. same_lock Hw.
  - by apply locked_fill.
  - unfold fill_position_loaded. destruct (p ← r; _) as [[]|]; [by apply locked_add|by apply locked_fill].
  - unfold fill_utxos_loaded. destruct r; [by apply locked_add|by apply locked_fill].
  - unfold fill_fee_loaded. destruct (resp ← r; _) as [[]|]; [|by apply locked_fill].
    destruct (planFill _ _ _ _ _); [apply locked_fill; same_lock Hw|by apply locked_fill].
  - unfold fill_published. destruct r; [by apply locked_broadcast_done|lock_paints Hw].
  - destruct r; [apply locked_render_if; same_lock Hw|by apply locked_sell_failed].
  - unfold sell_published. destruct r; lock_paints Hw.
  - unfold my_orders_loaded. destruct r; apply locked_fill; same_lock Hw.
Qed.

Lemma locked_step e s :
  inv s → (∀ k h, e = Click k → buttons s !! k = Some h → sign_in_button h = false) → locked s → locked (step e s).
Proof.
  intros Hinv He Hl. destruct e as [k|id v|i|i ok|n e]; cbn [step].
  - destruct (buttons s !! k) as [h|] eqn:Hb; [|exact Hl]. apply locked_handler; [exact Hinv| |by eapply He|exact Hl].
    eapply buttons_offered; [exact Hinv|]. by eapply list_elem_of_lookup_2.
  - destruct (find_page _ _); [same_lock Hl|exact Hl].
  - assert (locked (remove_task i s)) as Hr.
    { destruct Hl as [[H1 H2 H3] H4]. split; [|exact H4]. split; [exact H1| |exact H3]. cbn.
      apply Forall_app. split; [by apply Forall_take|by apply Forall_drop]. }
    destruct (tasks s !! i) as [t|] eqn:Ht; [|exact Hl].
    assert (harmless t = true) as Hok by (by eapply (Forall_lookup_1 _ _ _ _ (lk_tasks _ Hl))).
    destruct t; try exact Hl; by apply locked_resume.
  - destruct (tasks s !! i) as [[]|] eqn:Ht; try exact Hl. apply locked_render.
    destruct Hl as [[H1 H2 H3] H4]. split; [|exact H4]. split; [exact H1| |exact H3]. cbn.
    apply Forall_app. split; [by apply Forall_take|by apply Forall_drop].
  - destruct e; try exact Hl; by apply locked_scan.
Qed.

(** A run in which nobody signs in. *)
Inductive quiet_run : st → st → Prop :=
| quiet_refl s : quiet_run s s
| quiet_step s e s' :
    (∀ k h, e = Click k → buttons s !! k = Some h → sign_in_button h = false) → quiet_run (step e s) s' → quiet_run s s'.

Lemma reachable_step e s : reachable s → reachable (step e s).
Proof. intros (w & es & ->). exists w, (es ++ [e]). unfold run. by rewrite fold_left_app. Qed.

Lemma quiet_run_locked s s' : quiet_run s s' → reachable s → locked s → locked s' ∧ reachable s'.
Proof.
  induction 1 as [s|s e s' He _ IH]; intros Hr Hl; [done|]. apply IH; [by apply reachable_step|].
  apply locked_step; [by apply reachable_inv|exact He|exact Hl].
Qed.

End locked.

Section never_signs.
Context `{!Page handler} {W : Type} `{!Env W}.
Implicit Types s : appl W.

(** The Lock button, with no signed work in flight. *)
Lemma lock_keyless s w :
  the_wallet s = Some w → Forall (λ t, harmless t = true) (tasks s) → keyless (lockWallet s).
Proof.
  intros Hw Ht. unfold the_wallet in Hw. destruct (wallet_ref s) as [r|] eqn:Hr; [|done]. simpl in Hw.
  unfold lockWallet, the_wallet. rewrite Hr. simpl. rewrite Hw.
  apply (locked_render (λ _ _, True) (world s)). split; [|done]. split; [|exact Ht|done].
  intros w'. unfold the_wallet. cbn. rewrite Hr. cbn. rewrite list_lookup_insert_eq; [by intros [= <-]|].
  by eapply lookup_lt_Some.
Qed.

(** C4 A locked wallet signs nothing.  Take any reachable state whose wallet has
    no key and in which nothing pending holds a key, a signature or a wallet about
    to be opened (after the Lock button, [lock_keyless]).  Whatever is then typed,
    clicked, scanned or answered by the network, in any order, as long as no button
    that creates, restores or unlocks a wallet is pressed: the wallet stays without
    a key, and the application sends only [GET] requests.  The second part is put
    with any preorder [R] on the world that reading and waiting respect: where the
    run ends is then [R]-related to where it began. *)
Theorem locked_never_signs (R : relation W) `{!PreOrder R} s s' :
  (∀ q, rq_method q = "GET" → keeps R (fetchImpl q)) → (∀ ms, keeps R (sleep ms)) →
  reachable s → keyless s → quiet_run s s' →
  keyless s' ∧ R (world s) (world s').
Proof.
  intros Hg Hw Hr Hk Hq. destruct (quiet_run_locked R Hg Hw (world s) s s' Hq Hr) as [[Hk' Hw'] _]; [|done].
  by split.
Qed.
End never_signs.
