(* ===== verification/FlowRefine.v ===== *)
(** * FlowRefine: the machine implements the small models

    [App] models the badge of a broadcast by the events it sees, and [Wallet] the
    sign-in screens as a session in which every handler runs to its end.  Here the
    machine of [Flow] is shown to do to its badge what the events of its inputs
    say, in every interleaving; and its sign-in handlers, each followed by the
    completion of the work it started, to be those of the session. *)

From stdpp Require Import base tactics option list numbers strings pretty relations.
From Stdlib Require Import ZArith Lia Ascii.
From S2P Require Import Prelude JsInt JsStr JsNum JsVal Effects Words Sha256 Addr Script Tx Payments Orders.
From S2P Require Import Transfer Market Mint Sell Cancel Api App Mnemonic Bip32 Wallet Dom Qrscan Views Flow FlowProps.

#[local] Opaque render.

(** ** The badge *)

Section badge.
Context `{!Page handler} {W : Type} `{!Env W}.
Abbreviation st := (appl W).
Implicit Types s : st.

Lemma render_badge s : broadcastStatus (render s) = broadcastStatus s.
Proof. destruct (render_frame s) as [_ []]. done. Qed.
Lemma go_badge c s : broadcastStatus (go c s) = broadcastStatus s.
Proof. unfold go. by rewrite render_badge. Qed.
Lemma fill_badge v r s : broadcastStatus (fill_view v r s) = broadcastStatus s.
Proof. by destruct (fill_view_state v r s) as (_ & _ & _ & ? & _). Qed.
Lemma show_error_badge v i t s : broadcastStatus (show_error_in v i t s) = broadcastStatus s.
Proof. unfold show_error_in. by destruct (_ =? _)%nat. Qed.
Lemma append_badge r s : broadcastStatus (append_part r s) = broadcastStatus s.
Proof. unfold append_part. by destruct r as [[]|]. Qed.
Lemma render_if_badge c s : broadcastStatus (render_if c s) = broadcastStatus s.
Proof. unfold render_if. case_match; [by rewrite render_badge|done]. Qed.
Lemma add_task_badge t s : broadcastStatus (add_task t s) = broadcastStatus s.
Proof. done. Qed.
End badge.

Ltac same_badge :=
  repeat first [ progress rewrite ?add_task_badge, ?render_badge, ?go_badge, ?fill_badge, ?show_error_badge, ?append_badge,
                   ?render_if_badge | reflexivity | case_match ].

Section badge_steps.
Context `{!Page handler} {W : Type} `{!Env W}.
Abbreviation st := (appl W).
Implicit Types s : st.

Lemma start_lock_badge p v i s : broadcastStatus (start_lock p v i s) = broadcastStatus s.
Proof. unfold start_lock. same_badge. Qed.

Lemma scan_badge n e s : broadcastStatus (scan_input n e s) = broadcastStatus s.
Proof. unfold scan_input, scan_done. same_badge. Qed.

Lemma broadcast_done_badge t s : broadcastStatus (broadcast_done t s) = badge_step (broadcastStatus s) (Accepted t).
Proof. unfold broadcast_done. cbv zeta. destruct (wallet_address _); same_badge. Qed.

Lemma poll_done_badge t r s : broadcastStatus (poll_done t r s) = badge_step (broadcastStatus s) (PollResolved t r).
Proof.
  unfold poll_done. destruct (broadcastStatus s) as [[current b]|] eqn:Hb; [|exact Hb]. cbv zeta.
  destruct (negb (str_eqb current t)) eqn:E; [cbn; by rewrite Hb, E|].
  destruct (bool_decide _); [rewrite render_badge|]; cbn; by rewrite E.
Qed.

Lemma sign_in_badge s :
  broadcastStatus (createNewWallet s) = broadcastStatus s ∧ broadcastStatus (finishWalletSetup s) = broadcastStatus s
  ∧ broadcastStatus (doRestore s) = broadcastStatus s ∧ broadcastStatus (doUnlock s) = broadcastStatus s
  ∧ broadcastStatus (lockWallet s) = broadcastStatus s.
Proof.
  split_and!.
  - unfold createNewWallet, start_create. by destruct (create _ _ _ _ _ _) as [[w n]|e].
  - unfold finishWalletSetup. destruct (value_of _ s); [apply start_lock_badge|done].
  - unfold doRestore, start_create. destruct (value_of "mnemonic-input" s), (value_of "restore-passphrase" s); try done.
    by destruct (create _ _ _ _ _ _) as [[w n]|e].
  - unfold doUnlock, ensure_wallet. destruct (value_of _ s); [|done].
    destruct (wallet_ref s) eqn:Hr; [by rewrite Hr|]. destruct (stg s); [|apply show_error_badge].
    destruct (Wallet_new _ _ _ _ _) as [[w n]|e]; [done|apply show_error_badge].
  - unfold lockWallet. destruct (wallet_ref s), (the_wallet s); [by rewrite go_badge|done..].
Qed.

(** The equation, behind a constructor: comparing two states by their badges must not evaluate them. *)
Inductive badge_is (b : badge) s : Prop := BadgeIs (H : broadcastStatus s = b).
Lemma badge_is_inv b s : badge_is b s → broadcastStatus s = b.
Proof. by intros []. Qed.

Lemma load_send_badge s : broadcastStatus (loadSendData s) = broadcastStatus s.
Proof. unfold loadSendData, send_load_failed. destruct (own_pubkey_hex s); [done|by rewrite render_if_badge]. Qed.

Lemma start_sell_badge s : broadcastStatus (startSell s) = broadcastStatus s.
Proof.
  apply badge_is_inv. unfold startSell. cbv zeta. match goal with |- context [go Ssell ?x] =>
    assert (broadcastStatus (go Ssell x) = broadcastStatus s) as Hx by (by rewrite go_badge); revert Hx; generalize (go Ssell x) end.
  intros y Hy. unfold sell_load_failed. destruct (own_pubkey_hex y); split; [exact Hy|by rewrite render_if_badge].
Qed.

Lemma start_scan_badge s : broadcastStatus (startAddressScan s) = broadcastStatus s.
Proof.
  apply badge_is_inv. unfold startAddressScan. cbv zeta. destruct (negb _); [split; by rewrite render_badge|].
  match goal with |- context [append_part ?r ?x] =>
    assert (broadcastStatus (append_part r x) = broadcastStatus s) as Hx by (by rewrite append_badge, render_badge);
    revert Hx; generalize (append_part r x) end.
  intros y Hy. split. exact Hy.
Qed.

Lemma confirmCancel_badge s : broadcastStatus (confirmCancel s) = broadcastStatus s.
Proof.
  apply badge_is_inv. unfold confirmCancel, cancel_failed. cbv zeta.
  destruct (mo_selectedOrder _); [|done]. destruct (negb _); [done|].
  match goal with |- context [render ?x] =>
    assert (broadcastStatus (render x) = broadcastStatus s) as Hx by (by rewrite render_badge); revert Hx; generalize (render x) end.
  intros y Hy. destruct (key ← wallet_key y; _) as [sig|e]; split; [exact Hy|by rewrite render_badge].
Qed.

Lemma plan_badge s :
  broadcastStatus (planMintTx s) = broadcastStatus s ∧ broadcastStatus (planSendTx s) = broadcastStatus s
  ∧ broadcastStatus (planSellFlow s) = broadcastStatus s.
Proof.
  split_and!.
  - unfold planMintTx.
    destruct (value_of "mint-ticker" s), (value_of "mint-multiplier" s), (value_of "mint-amount" s); try done. cbv zeta.
    by destruct (wallet_address _).
  - unfold planSendTx. cbv zeta.
    match goal with |- broadcastStatus (match ?r with _ => _ end) = _ => destruct r as [[plan|errors]|e] end;
      [by rewrite go_badge|by rewrite render_badge|done].
  - unfold planSellFlow. cbv zeta. destruct (wallet_address _); [|done].
    destruct (negb _); [by rewrite render_badge|by rewrite go_badge].
Qed.

Lemma confirm_badge s :
  broadcastStatus (confirmMint s) = broadcastStatus s ∧ broadcastStatus (confirmSend s) = broadcastStatus s
  ∧ (∀ o p us, broadcastStatus (confirmFill o p us s) = broadcastStatus s)
  ∧ broadcastStatus (confirmSell s) = broadcastStatus s.
Proof.
  split_and!; [| |intros o p us|].
  - unfold confirmMint, mint_failed. destruct (mt_plan _); [|by rewrite go_badge].
    destruct (wallet_address s); [done|by rewrite render_badge].
  - unfold confirmSend. destruct (sd_plan _); [|by rewrite go_badge]. by destruct (wallet_key s).
  - unfold confirmFill. destruct (mk_fillPlan _); [|by rewrite go_badge]. by destruct (wallet_key s).
  - unfold confirmSell. destruct (wallet_key s); [|done]. by destruct (wallet_address s).
Qed.

Lemma handler_badge h s :
  broadcastStatus (run_handler h s) = match h with HgoToInit => None | _ => broadcastStatus s end.
Proof.
  destruct (sign_in_badge s) as (? & ? & ? & ? & ?), (plan_badge s) as (? & ? & ?), (confirm_badge s) as (? & ? & ? & ?).
  destruct h; cbn [run_handler]; auto using start_sell_badge, start_scan_badge, confirmCancel_badge, scan_badge;
    unfold copyAddress, restoreWallet, goToInit, migrateCreate, goToMint, goToSend, selectSendPosition, goToMarket,
      selectOrderToFill, selectSellPosition, goToMyOrders, selectOrderToCancel;
    try (rewrite ?load_send_badge, ?go_badge, ?render_badge; reflexivity).
  by destruct (the_wallet s).
Qed.

(** What the completion of a task has to say to the badge. *)
Definition accepted (r : res (string + string)) : option badge_event :=
  match r with Ok (inl txid) => Some (Accepted txid) | _ => None end.

Definition task_news (t : task) (w : W) : option badge_event :=
  match t with
  | Tmint plan key a us => accepted (publish_mint plan key a us w).2
  | Tsend plan key => accepted (publishTransfer baseUrl fetchImpl configured plan key w).2
  | Tfill plan key order position us => accepted (publish_fill plan key order position us w).2
  | Tpoll a txid =>
      match (pollForConfirmation (getUtxos baseUrl fetchImpl) sleep (λ _, mret tt) a txid 6000 15 w).2 with
      | Ok c => Some (PollResolved txid c)
      | Throw _ => None
      end
  | _ => None
  end.

Definition tell (b : badge) (ev : option badge_event) : badge := match ev with Some ev => badge_step b ev | None => b end.

Lemma await_badge {A} (m : io W A) k s b :
  (∀ w r, m (world s) = (w, r) → broadcastStatus (k r (s <| world := w |>)) = b) → broadcastStatus (await m k s) = b.
Proof. intros H. unfold await. destruct (m (world s)) as [w r]. by apply H. Qed.

Lemma await_published_badge (m : io W (string + string)) k s :
  (∀ w r, broadcastStatus (k r (s <| world := w |>)) = tell (broadcastStatus s) (accepted (Ok r))) →
  broadcastStatus (await_settled m k s) = tell (broadcastStatus s) (accepted (m (world s)).2).
Proof. intros H. apply await_badge. intros w [r|e] ->; [apply H|done]. Qed.

Lemma await_settled_badge {A} (m : io W (A + string)) k s :
  (∀ w r, broadcastStatus (k r (s <| world := w |>)) = broadcastStatus s) →
  broadcastStatus (await_settled m k s) = broadcastStatus s.
Proof. intros H. apply await_badge. intros w [r|e] _; [apply H|done]. Qed.

Lemma send_failed_badge e s : broadcastStatus (send_load_failed e s) = broadcastStatus s.
Proof. unfold send_load_failed. by rewrite render_if_badge. Qed.
Lemma sell_failed_badge e s : broadcastStatus (sell_load_failed e s) = broadcastStatus s.
Proof. unfold sell_load_failed. by rewrite render_if_badge. Qed.
Lemma cancel_failed_badge e s : broadcastStatus (cancel_failed e s) = broadcastStatus s.
Proof. unfold cancel_failed. by rewrite render_badge. Qed.

Lemma mint_planned_badge r s : broadcastStatus (mint_planned r s) = broadcastStatus s.
Proof.
  unfold mint_planned. destruct r as [[us rate]|e]; [|by rewrite render_badge]. destruct (wallet_address _); [|done].
  destruct (planMint _ _ _ _ _); [by rewrite go_badge|by rewrite render_badge].
Qed.

Lemma mint_utxos_badge r s : broadcastStatus (mint_utxos_loaded r s) = broadcastStatus s.
Proof.
  unfold mint_utxos_loaded, mint_failed. destruct r; [|by rewrite render_badge].
  destruct (wallet_key _); [|done]. by destruct (wallet_address _).
Qed.

Lemma fill_fee_badge v o p us r s : broadcastStatus (fill_fee_loaded v o p us r s) = broadcastStatus s.
Proof.
  unfold fill_fee_loaded, fill_prepare_failed. destruct (resp ← r; _) as [[]|]; [|by rewrite fill_badge].
  destruct (planFill _ _ _ _ _); by rewrite fill_badge.
Qed.

Lemma resume_badge t s : broadcastStatus (resume t s) = tell (broadcastStatus s) (task_news t (world s)).
Proof.
  destruct t; cbn [resume task_news tell];
    lazymatch goal with
    | |- broadcastStatus (await_settled _ _ _) = tell _ _ => apply await_published_badge; intros wd r
    | |- broadcastStatus (await_settled _ _ _) = _ => apply await_settled_badge; intros wd r
    | |- broadcastStatus (await _ _ _) = _ => apply await_badge; intros wd r Hr
    | _ => idtac
    end.
  - destruct r; [by rewrite go_badge|done].
  - destruct r; [by rewrite append_badge|done].
  - destruct (heap s !! w); [|done]. cbn [lock_finish]. by rewrite go_badge.
  - destruct r; [by rewrite start_lock_badge|by rewrite show_error_badge].
  - destruct (heap s !! w) as [x|]; [|done]. destruct (unlock _ _ _ _ _) as [y [[]|e]];
      [by rewrite go_badge|by rewrite show_error_badge|by rewrite show_error_badge].
  - done.
  - by rewrite fill_badge.
  - by rewrite mint_planned_badge.
  - by rewrite mint_utxos_badge.
  - unfold mint_published, mint_failed. destruct r; [by rewrite broadcast_done_badge|by rewrite render_badge].
  - rewrite Hr. cbn [snd]. destruct r; [by rewrite poll_done_badge|done].
  - destruct (p ← r; _) as [[]|]; [done|by rewrite send_failed_badge].
  - destruct r; [done|by rewrite send_failed_badge].
  - destruct r; [unfold send_loaded; by rewrite render_if_badge|by rewrite send_failed_badge].
  - unfold send_published. destruct r; [by rewrite broadcast_done_badge|by rewrite render_badge].
  - by rewrite fill_badge.
  - unfold fill_position_loaded, fill_prepare_failed. destruct (p ← r; _) as [[]|]; [done|by rewrite fill_badge].
  - unfold fill_utxos_loaded, fill_prepare_failed. destruct r; [done|by rewrite fill_badge].
  - by rewrite fill_fee_badge.
  - unfold fill_published. destruct r; [by rewrite broadcast_done_badge|by rewrite render_badge].
  - destruct r; [unfold sell_loaded; by rewrite render_if_badge|by rewrite sell_failed_badge].
  - unfold sell_published. destruct r; [by rewrite go_badge|by rewrite render_badge].
  - unfold my_orders_loaded. destruct r; by rewrite fill_badge.
  - unfold cancel_done. destruct r; [by rewrite go_badge|by rewrite cancel_failed_badge].
Qed.

Definition signs_out (e : event) s : bool :=
  match e with Click k => match buttons s !! k with Some HgoToInit => true | _ => false end | _ => false end.
Definition news (e : event) s : option badge_event :=
  match e with Complete i => t ← tasks s !! i; task_news t (world s) | _ => None end.

Lemma step_badge e s :
  broadcastStatus (step e s) = if signs_out e s then None else tell (broadcastStatus s) (news e s).
Proof.
  destruct e as [k|id v|i|i ok|n e]; cbn [step signs_out news].
  - destruct (buttons s !! k) as [h|]; [|done]. rewrite handler_badge. by destruct h.
  - by destruct (find_page _ _).
  - destruct (tasks s !! i) as [t|] eqn:Ht; [|done]. cbn.
    pose proof (resume_badge t (remove_task i s)) as Hr. change (world (remove_task i s)) with (world s) in Hr.
    change (broadcastStatus (remove_task i s)) with (broadcastStatus s) in Hr. destruct t; exact Hr.
  - destruct (tasks s !! i) as [[]|]; try done. by rewrite render_badge.
  - by destruct e; rewrite ?scan_badge.
Qed.

(** What the badge has been told since the last sign-out. *)
Fixpoint history (told : list badge_event) s (es : list event) : list badge_event :=
  match es with
  | [] => told
  | e :: es => history (if signs_out e s then [] else told ++ option_list (news e s)) (step e s) es
  end.

Lemma badge_run_snoc evs ev : badge_run (evs ++ [ev]) = badge_step (badge_run evs) ev.
Proof. unfold badge_run. by rewrite fold_left_app. Qed.

Lemma run_cons s e es : run s (e :: es) = run (step e s) es.
Proof. done. Qed.

Lemma run_badge told s es :
  broadcastStatus s = badge_run told → broadcastStatus (run s es) = badge_run (history told s es).
Proof.
  revert told s. induction es as [|e es IH]; intros told s Hs; [done|]. cbn [history].
  rewrite run_cons. apply IH. rewrite step_badge. destruct (signs_out e s); [done|].
  destruct (news e s); simpl; [by rewrite badge_run_snoc, Hs|by rewrite app_nil_r].
Qed.

Lemma badge_run_told evs t b :
  badge_run evs = Some (t, b) →
  Accepted t ∈ evs ∧ (b = BadgeConfirmed → ∃ u, PollResolved t (Confirmed u) ∈ evs)
  ∧ (b = BadgeTimeout → PollResolved t TimedOut ∈ evs).
Proof.
  revert b. induction evs as [|ev evs IH] using rev_ind; intros b; [done|]. rewrite badge_run_snoc.
  setoid_rewrite elem_of_app. destruct ev as [t'|t' r]; cbn [badge_step].
  - intros [= -> <-]. split; [right; by constructor|done].
  - destruct (badge_run evs) as [[c b']|]; [|done]. destruct (negb (str_eqb c t')) eqn:E.
    + intros [= -> ->]. destruct (IH b eq_refl) as (Ha & Hc & Ht).
      split_and!; [by left| |]; intros Hb; [destruct (Hc Hb) as [u Hu]; exists u|]; left; auto.
    + apply negb_false_iff, str_eqb_eq in E as ->. intros [= -> <-]. destruct (IH b' eq_refl) as (? & _).
      destruct r; split_and!; try done; try (by left); intros _; [eexists|]; right; by constructor.
Qed.

(** C16 The badge of the running application is the one of the abstract history,
    whatever the interleaving: at every moment it is what the broadcasts the node
    accepted and the polls that ended since the last sign-out make of an empty
    badge, in the order their completions came.  So it shows a transaction only if
    the node accepted it in this session, and shows it confirmed only if a poll
    for it found its output. *)
Theorem badge_refines_history w es t b :
  broadcastStatus (run (loaded w) es) = badge_run (history [] (loaded w) es)
  ∧ (broadcastStatus (run (loaded w) es) = Some (t, b) →
     Accepted t ∈ history [] (loaded w) es
     ∧ (b = BadgeConfirmed → ∃ u, PollResolved t (Confirmed u) ∈ history [] (loaded w) es)
     ∧ (b = BadgeTimeout → PollResolved t TimedOut ∈ history [] (loaded w) es)).
Proof.
  assert (broadcastStatus (run (loaded w) es) = badge_run (history [] (loaded w) es)) as H.
  { apply run_badge. unfold loaded. by rewrite render_badge. }
  split; [exact H|]. rewrite H. apply badge_run_told.
Qed.
End badge_steps.

(** ** Signing in *)

(** The screens of a session. *)
Definition session_screen (c : screen) : option Wallet.screen :=
  match c with
  | Sinit => Some S_init | Screate => Some S_create | Srestore => Some S_restore
  | Sunlock => Some S_unlock | Swallet => Some S_wallet
  | _ => None
  end.

(** Unlocking reads the storage and draws nothing. *)
Definition same_storage (st st' : Wallet.state) : Prop := storage st' = storage st ∧ draws st' = draws st.

#[local] Instance same_storage_preorder : PreOrder same_storage.
Proof. split; [done|]. intros a b c [H1 H2] [H3 H4]. split; congruence. Qed.

Lemma modify_storage f : keeps same_storage (modify f).
Proof. done. Qed.
Lemma get_storage : keeps same_storage Wallet.get.
Proof. done. Qed.

#[local] Hint Resolve same_storage_preorder modify_storage get_storage : reads.

Lemma unlock_storage secp g decode p : keeps same_storage (unlock secp g decode p).
Proof.
  unfold unlock. apply (keeps_bind same_storage); [done|]. intros [stored|]; [|eauto 30 with reads].
  destruct (s_encrypted stored); [|eauto 30 with reads].
  unfold unlock_with, check_stored_address, deriveFromMnemonic, deriveLegacyFromMnemonic.
  repeat first [ progress intros | apply (keeps_bind same_storage) | apply (keeps_lift same_storage)
               | apply (keeps_ret same_storage) | apply modify_storage | apply get_storage | case_match ].
Qed.

(** [lock], cut at its [await]. *)
Lemma lock_split `{!Env W} w p stored n :
  lock random p (State w stored n)
  = match lock_start w p n with
    | Ok (enc, n') => let '(w', stored') := lock_finish enc w in (State w' (Some stored') n', Ok tt)
    | Throw e => (State w stored n, Throw e)
    end.
Proof.
  unfold lock, lock_start, mbind, io_bind, Wallet.get, lift. cbn [this].
  destruct (throw_if (negb (str_truthy (_mnemonic w))) _); [|done]. cbn [res_bind].
  by destruct (throw_if (negb (str_truthy (Some p))) _).
Qed.

Section sign_in.
Context `{!Page handler} {W : Type} `{!Env W}.
Implicit Types s : appl W.

(** The machine is where the session is. *)
Record agrees s (sess : session) : Prop := {
  ag_wallet : the_wallet s = app_wallet sess;
  ag_ref : wallet_ref s = None ∨ the_wallet s ≠ None;
  ag_screen : session_screen (cur s) = Some (currentScreen sess);
  ag_stg : stg s = app_storage sess;
  ag_drawn : drawn s = app_draws sess
}.

Lemma agrees_ext s s' sess :
  heap s' = heap s → wallet_ref s' = wallet_ref s → cur s' = cur s → stg s' = stg s → drawn s' = drawn s →
  agrees s sess → agrees s' sess.
Proof.
  intros Hh Hr Hc Hs Hd [H1 H2 H3 H4 H5]. assert (the_wallet s' = the_wallet s) as Hw by (unfold the_wallet; by rewrite Hh, Hr).
  split; rewrite ?Hw, ?Hr, ?Hc, ?Hs, ?Hd; assumption.
Qed.

Lemma agrees_error v i e s sess : agrees s sess → agrees (show_error_in v i e s) sess.
Proof. unfold show_error_in. destruct (_ =? _)%nat; [by apply agrees_ext|done]. Qed.

(** Going to a screen of the session. *)
Lemma go_agrees c sc s sess :
  session_screen c = Some sc → c ≠ Screate ∨ the_wallet s ≠ None →
  the_wallet s = app_wallet sess → wallet_ref s = None ∨ the_wallet s ≠ None →
  stg s = app_storage sess → drawn s = app_draws sess → currentScreen sess = sc →
  agrees (go c s) sess.
Proof.
  intros Hc Hcr Hw Hr Hs Hd Hsc. unfold go. destruct (render_frame (s <| cur := c |>)) as [Hcur Hf].
  assert (redirect (s <| cur := c |>) = c) as Hre by (unfold redirect; cbn; by destruct c).
  pose proof (frame_the_wallet _ _ Hf) as Hfw. change (the_wallet (s <| cur := c |>)) with (the_wallet s) in Hfw.
  destruct Hf as [_ Hfr _ _ _ _ Hfs Hfd _]. rewrite Hcur, Hre in Hfd. split.
  - by rewrite Hfw.
  - rewrite Hfr, Hfw. exact Hr.
  - by rewrite Hcur, Hre, Hsc.
  - by rewrite Hfs.
  - rewrite Hfd; [exact Hd|exact Hcr].
Qed.

Lemma complete_last n t s : n = length (tasks s) → t ≠ Tcopy → step (Complete n) (add_task t s) = resume t s.
Proof.
  intros -> Ht. cbn [step]. change (tasks (add_task t s)) with (tasks s ++ [t]).
  rewrite list_lookup_middle by done.
  assert (remove_task (length (tasks s)) (add_task t s) = s) as ->.
  { transitivity (s <| tasks := take (length (tasks s)) (tasks s ++ [t]) ++ drop (S (length (tasks s))) (tasks s ++ [t]) |>);
      [done|]. rewrite take_app_length, drop_ge, app_nil_r by (rewrite length_app; simpl; lia). by destruct s. }
  by destruct t.
Qed.

Lemma no_task n s : (length (tasks s) ≤ n)%nat → step (Complete n) s = s.
Proof. intros Hn. cbn [step]. by rewrite lookup_ge_None_2. Qed.

Lemma show_error_tasks v i e s : tasks (show_error_in v i e s) = tasks s.
Proof. unfold show_error_in. by destruct (_ =? _)%nat. Qed.

Lemma the_wallet_set r w s : is_Some (heap s !! r) → wallet_ref s = Some r → the_wallet (set_wallet r w s) = Some w.
Proof.
  intros Hh Hr. unfold the_wallet. cbn. rewrite Hr. cbn. apply list_lookup_insert_eq. by apply lookup_lt_is_Some.
Qed.

Lemma the_wallet_new w s : the_wallet (new_wallet w s) = Some w.
Proof. unfold the_wallet, new_wallet. cbn. by apply list_lookup_middle. Qed.

Lemma wallet_at s w : the_wallet s = Some w → ∃ r, wallet_ref s = Some r ∧ heap s !! r = Some w.
Proof. unfold the_wallet. destruct (wallet_ref s) as [r|]; [|done]. intros H. by exists r. Qed.

Lemma ref_of s w : the_wallet s = Some w → wallet_ref s = None ∨ the_wallet s ≠ None.
Proof. intros Hw. right. by rewrite Hw. Qed.

(** [await wallet.lock(passphrase)] and what follows it. *)
Lemma start_lock_agrees n p v e s sess w :
  n = length (tasks s) → the_wallet s = Some w → agrees s sess →
  agrees (step (Complete n) (start_lock p v e s))
    (after_call sess (lock random p (State w (app_storage sess) (app_draws sess))) (λ _, (S_unlock, None))).
Proof.
  intros -> Hw [H1 H2 H3 H4 H5]. destruct (wallet_at s w Hw) as (r & Hr & Hh).
  rewrite lock_split, <- H5. unfold start_lock. rewrite Hr, Hw.
  destruct (lock_start w p (drawn s)) as [[enc n]|err].
  - rewrite complete_last by done. cbn [resume].
    change (heap (s <| drawn := n |>)) with (heap s). rewrite Hh. cbn [lock_finish after_call].
    apply (go_agrees _ S_unlock); [done|by left|..|done|done|done].
    + by apply (the_wallet_set r _ (s <| drawn := n |>)).
    + eapply ref_of. by apply (the_wallet_set r _ (s <| drawn := n |>)).
  - rewrite no_task by (by rewrite show_error_tasks). apply agrees_error. by split; try done.
Qed.

Lemma after_call_screen {A} sess sess' r (next : A → Wallet.screen * option string) :
  currentScreen sess' = currentScreen sess → after_call sess r next = after_call sess' r next.
Proof. intros H. unfold after_call. by rewrite H. Qed.

Lemma create_agrees s sess :
  agrees s sess →
  agrees (step (Complete (length (tasks s))) (createNewWallet s)) (Wallet.createNewWallet curve webcrypto random sess).
Proof.
  intros Ha. pose proof Ha as [H1 H2 H3 H4 H5]. unfold createNewWallet, start_create, Wallet.createNewWallet.
  rewrite <- H4, <- H5. destruct (create _ _ _ _ _ _) as [[w n]|e]; rewrite complete_last by done; cbn [resume]; [|exact Ha].
  apply (go_agrees _ S_create); [done| | | |done|done|done].
  - right. by rewrite (the_wallet_new w (s <| drawn := n |>)).
  - apply (the_wallet_new w (s <| drawn := n |>)).
  - eapply ref_of, (the_wallet_new w (s <| drawn := n |>)).
Qed.

Lemma restore_agrees m p s sess :
  agrees s sess → value_of "mnemonic-input" s = Some m → value_of "restore-passphrase" s = Some p →
  agrees (step (Complete (length (tasks s))) (step (Complete (length (tasks s))) (doRestore s)))
    (Wallet.doRestore curve webcrypto random m p sess).
Proof.
  intros Ha Hm Hp. pose proof Ha as [H1 H2 H3 H4 H5]. unfold doRestore, start_create, Wallet.doRestore.
  rewrite Hm, Hp, <- H4, <- H5. cbv zeta.
  destruct (create _ _ _ _ _ _) as [[w n]|e]; rewrite complete_last by done; cbn [resume].
  - rewrite (after_call_screen sess (Session (Some w) (currentScreen sess) (stg s) n (app_error sess))) by done.
    match goal with |- agrees _ (after_call ?x _ _) =>
      apply (start_lock_agrees _ p (page_id s) "restore-error" (new_wallet w (s <| drawn := n |>)) x w) end;
      [done|apply the_wallet_new|]. split; [apply the_wallet_new| |exact H3|done|done]. eapply ref_of, the_wallet_new.
  - rewrite no_task by (by rewrite show_error_tasks). by apply agrees_error.
Qed.

(** [await wallet.unlock(passphrase)] and what follows it. *)
Lemma unlock_task_agrees n p r w s sess :
  n = length (tasks s) → wallet_ref s = Some r → heap s !! r = Some w →
  session_screen (cur s) = Some (currentScreen sess) → stg s = app_storage sess → drawn s = app_draws sess →
  agrees (step (Complete n) (add_task (Tunlock r p (stg s) (page_id s)) s))
    (after_call sess (unlock curve webcrypto decode p (State w (app_storage sess) (app_draws sess)))
       (λ ok, if ok then (S_wallet, None) else (currentScreen sess, Some "Wrong passphrase"))).
Proof.
  intros Hn Hr Hh H3 H4 H5. rewrite complete_last by done. cbn [resume]. rewrite Hh, H4, H5.
  destruct (unlock_storage curve webcrypto decode p (State w (app_storage sess) (app_draws sess))) as [Hs Hd].
  destruct (unlock _ _ _ _ _) as [y res]. cbn [fst storage draws] in Hs, Hd.
  assert (the_wallet (set_wallet r (this y) s) = Some (this y)) as Hy by (by apply the_wallet_set).
  destruct res as [[]|e]; cbn [after_call]; rewrite Hs, Hd.
  - apply (go_agrees _ S_wallet); [done|by left|exact Hy|by eapply ref_of|exact H4|exact H5|done].
  - apply agrees_error. split; [exact Hy|by eapply ref_of|exact H3|exact H4|exact H5].
  - apply agrees_error. split; [exact Hy|by eapply ref_of|exact H3|exact H4|exact H5].
Qed.

Lemma unlock_agrees p s sess :
  agrees s sess → value_of "unlock-passphrase" s = Some p →
  agrees (step (Complete (length (tasks s))) (doUnlock s)) (Wallet.doUnlock curve webcrypto random decode p sess).
Proof.
  intros Ha Hp. pose proof Ha as [H1 H2 H3 H4 H5]. unfold doUnlock, ensure_wallet, Wallet.doUnlock, wallet_to_unlock.
  rewrite Hp, <- H1. destruct (wallet_ref s) as [r|] eqn:Hr.
  - destruct H2 as [H2|H2]; [done|]. destruct (the_wallet s) as [w|] eqn:Hw; [|done]. rewrite Hr.
    apply unlock_task_agrees; try done. destruct (wallet_at s w Hw) as (r' & Hr' & Hh). congruence.
  - assert (the_wallet s = None) as Hw by (unfold the_wallet; by rewrite Hr). rewrite Hw, <- H4, <- H5.
    assert (∀ e, agrees s (Wallet.show_error sess e)) as Hsh by (intros e; destruct Ha; split; assumption).
    destruct (stg s) as [stored|] eqn:Hs; [|rewrite no_task by (by rewrite show_error_tasks); by apply agrees_error].
    destruct (Wallet_new _ _ _ _ _) as [[w n]|e]; cbn [mbind res_bind];
      [|rewrite no_task by (by rewrite show_error_tasks); by apply agrees_error].
    change (wallet_ref (new_wallet w s)) with (Some (length (heap s))). rewrite H5, H4.
    apply (unlock_task_agrees _ p (length (heap s)) w (new_wallet w s)); try done; [by apply list_lookup_middle|by rewrite <- H4].
Qed.

End sign_in.
