(* ===== verification/FlowLoad.v ===== *)
(** * FlowLoad: no screen is left on its skeleton

    A screen that waits for the network shows a skeleton.  Here: wherever the page
    of the machine of [Flow] shows one, a fetch that will replace it is pending,
    and at most three completions, answered or failed, take it away. *)

From stdpp Require Import base tactics option list numbers strings pretty.
From Stdlib Require Import ZArith Lia Ascii.
From S2P Require Import Prelude JsInt JsStr JsNum JsVal Effects Words Sha256 Addr Script Tx Payments Orders.
From S2P Require Import Transfer Market Mint Sell Cancel Api App Mnemonic Bip32 Wallet Dom Qrscan Views Flow FlowProps.

(** ** Skeletons *)

(** An element that is not a skeleton. *)
Definition solid (held : bool) (tag : string) (attrs : list (string * string)) (ls : list (string * handler)) : bool :=
  negb (match assoc "class" attrs with Some c => str_eqb c "skeleton" | None => false end).

(** No skeleton but in an element that a fetch will fill. *)
Fixpoint outside (n : node handler) : bool :=
  match n with
  | TextNode _ => true
  | Element tag true attrs ls cs => solid true tag attrs ls
  | Element tag false attrs ls cs => solid false tag attrs ls && forallb outside cs
  end.

Lemma solid_outside n : node_all solid n = true → outside n = true.
Proof.
  induction n as [t|tag h ats ls cs IH] using node_rect'; [done|]. simpl. intros [Hn Hc]%andb_true_iff.
  destruct h; [done|]. rewrite Hn. simpl. rewrite forallb_forall in Hc |- *. rewrite Forall_forall in IH.
  intros c Hin. apply IH; [by apply list_elem_of_In|auto].
Qed.

(** Filling with what is no skeleton leaves none. *)
Lemma fill_solid f n :
  (∀ cs, forallb (node_all solid) (f cs) = true) → outside n = true → node_all solid (fill f n) = true.
Proof.
  intros Hf. induction n as [t|tag h ats ls cs IH] using node_rect'; [done|]. destruct h; simpl.
  - intros Hn. change (solid true tag ats ls && forallb (node_all solid) (f cs) = true). by rewrite Hn, Hf.
  - intros [Hn Hc]%andb_true_iff. rewrite Hn. simpl. rewrite forallb_forall in Hc |- *. rewrite Forall_forall in IH.
    intros c (c0 & <- & Hin)%in_map_iff. apply IH; [by apply list_elem_of_In|auto].
Qed.

Lemma show_message_solid t m : node_all solid (show_message t m) = true.
Proof.
  destruct m as [|tag h ats ls cs]; [done|]. cbn [show_message node_all]. apply andb_true_iff. split.
  - unfold solid. assert (assoc "class" (set_pair "class" "error" ats) = Some "error") as ->; [|done].
    induction ats as [|[k v] ats IH]; [done|]. simpl. destruct (str_eqb k "class") eqn:E; simpl; [done|by rewrite E].
  - by destruct (str_eqb t EmptyString).
Qed.

Lemma edit_outside p t n n' :
  outside n = true → edit_node p (show_message t) n = Some n' → outside n' = true.
Proof.
  revert n'. induction n as [u|tag h ats ls cs IH] using node_rect'; intros n' Hn He; cbn [edit_node] in He;
    destruct (p _); simplify_eq; try by apply solid_outside, show_message_solid.
  apply fmap_Some in He as (cs' & Hcs & ->). destruct h; [done|]. simpl in Hn |- *.
  apply andb_true_iff in Hn as [-> Hn]. simpl. revert cs' Hcs. induction IH as [|c cs Hc _ IHcs]; intros cs' Hcs; [done|].
  simpl in Hn. apply andb_true_iff in Hn as [Hn1 Hn2]. destruct (edit_node p _ c) as [c'|] eqn:Hec.
  - injection Hcs as <-. simpl. by rewrite (Hc c'), Hn2.
  - apply fmap_Some in Hcs as (cs'' & Hcs & ->). simpl. rewrite Hn1. by apply IHcs.
Qed.

Lemma edit_page_outside p t l :
  forallb outside l = true → forallb outside (edit_page p (show_message t) l) = true.
Proof.
  induction l as [|n l IH]; [done|]. simpl. intros [Hn Hl]%andb_true_iff.
  destruct (edit_node _ _ n) eqn:He; simpl; [rewrite Hl, (edit_outside _ _ _ _ Hn He)|rewrite Hn, IH]; done.
Qed.

Lemma edit_page_solid p t l :
  forallb (node_all solid) l = true → forallb (node_all solid) (edit_page p (show_message t) l) = true.
Proof.
  induction l as [|n l IH]; [done|]. simpl. intros [Hn Hl]%andb_true_iff.
  destruct (edit_node _ _ n) eqn:He; simpl; [rewrite Hl, andb_true_r|by rewrite Hn, IH].
  eapply (edit_all solid); [|exact Hn|exact He]. intros m _ _. apply show_message_solid.
Qed.

(** ** The parts of the page *)

Section parts.
Context `{!Page handler}.
Abbreviation part := (res (@child_arg handler)).

Definition part_outside (r : part) : Prop := ∀ n, r = Ok (CNode n) → outside n = true.

Lemma part_outside_solid r : part_all solid r → part_outside r.
Proof. intros Hr n Hn. by apply solid_outside, Hr. Qed.

Lemma part_outside_E tag attrs cs :
  static_tag tag = true → forallb static_attr attrs = true →
  solid false (ascii_lowercase tag) (fold_left plain_attr attrs []) (mjoin (map listener attrs)) = true →
  Forall part_outside cs → part_outside (E tag attrs cs).
Proof.
  intros Ht Ha HP Hcs n (l & Hl & (m & Hm & Heq)%bind_Ok)%bind_Ok. injection Heq as <-.
  rewrite el_static in Hm by done. injection Hm as <-. simpl. rewrite HP. simpl.
  revert l Hl. induction Hcs as [|r cs Hr _ IH]; intros l Hl; simpl in Hl; [by simp_res|].
  apply bind_Ok in Hl as (c & Hc & (l' & Hl' & <-%Ok_inj)%bind_Ok). simpl. rewrite forallb_app, (IH l' Hl').
  unfold id in Hc. subst r. destruct c as [s|n|]; simpl; [done| |done]. by rewrite (Hr n).
Qed.

(** The element that is filled may hold anything until then. *)
Lemma part_outside_held tag attrs cs :
  static_tag tag = true → forallb static_attr attrs = true →
  solid true (ascii_lowercase tag) (fold_left plain_attr attrs []) (mjoin (map listener attrs)) = true →
  part_outside (held (E tag attrs cs)).
Proof.
  intros Ht Ha HP n (c & (l & Hl & (m & Hm & Heq)%bind_Ok)%bind_Ok & Hn)%bind_Ok. injection Heq as <-.
  injection Hn as <-. rewrite el_static in Hm by done. injection Hm as <-. exact HP.
Qed.
End parts.

Ltac solid_parts :=
  all_parts;
  try (lazymatch goal with
       | |- part_all _ (E _ _ _) => apply part_all_E; [reflexivity|reflexivity|by repeat case_match|]
       end; solid_parts).

(** A position that can be listed: its [txid] is a string. *)
Definition drawable (p : jsval) : bool := match field p "txid" with Str _ => true | _ => false end.

(** Down to the element that is held; beside it there is no skeleton. *)
Ltac outside_parts :=
  repeat lazymatch goal with
  | |- Forall part_outside [] => apply Forall_nil_2
  | |- Forall part_outside (_ :: _) => apply Forall_cons_2
  | |- Forall part_outside (_ ++ _) => apply Forall_app; split
  | |- Forall part_outside (match ?x with _ => _ end) => destruct x
  | |- part_outside (held (E _ _ _)) => apply part_outside_held; reflexivity
  | |- part_outside (E _ [cls ?c] _) =>
      tryif (let c' := eval vm_compute in (bool_decide (c = "card") || String.prefix "screen" c) in constr_eq c' true)
      then apply part_outside_E; [reflexivity|reflexivity|reflexivity|]
      else apply part_outside_solid
  | |- part_outside _ => apply part_outside_solid
  end.

Section solid_screens.
Context `{!Page handler}.

Lemma solid_init : part_all solid renderInit.
Proof. unfold renderInit, screen_div, button. solid_parts. Qed.
Lemma solid_create w : part_all solid (renderCreate w).
Proof. unfold renderCreate, screen_div, button. solid_parts. Qed.
Lemma solid_overlay n : part_all solid (buildScanOverlay (HabortScan n)).
Proof. unfold buildScanOverlay, button. solid_parts. Qed.
Lemma solid_restore : part_all solid renderRestore.
Proof. unfold renderRestore, screen_div, button. solid_parts. Qed.
Lemma solid_unlock : part_all solid renderUnlock.
Proof. unfold renderUnlock, screen_div, button. solid_parts. Qed.
Lemma solid_mint st : part_all solid (renderMint st).
Proof. unfold renderMint, screen_div, backButton, button, mint_error_part, field_error. solid_parts. Qed.
Lemma solid_mint_review st p : part_all solid (renderMintReview st p).
Proof. unfold renderMintReview, screen_div, buildMintReviewCard, review_row, button, error_text. solid_parts. Qed.
Lemma solid_send st w b : sd_positions st ≠ None → part_all solid (renderSend st w b).
Proof.
  intros Hp. unfold renderSend, screen_div, buildSendCard, send_positions, field_error, button, error_text.
  destruct (sd_positions st) as [l|]; [|done]. unfold send_position_row. solid_parts.
Qed.
Lemma solid_send_review st p : part_all solid (renderSendReview st p).
Proof.
  unfold renderSendReview, screen_div, buildSendReviewCard, conservation_warning, review_row, button, error_text.
  solid_parts.
Qed.
Lemma solid_sell st : se_positions st ≠ None → part_all solid (renderSell st).
Proof.
  intros Hp. unfold renderSell, screen_div, buildSellCard, button, error_text.
  destruct (se_positions st) as [l|]; [|done]. unfold sell_position_row. solid_parts.
Qed.
Lemma solid_sell_review st p : part_all solid (renderSellReview st p).
Proof. unfold renderSellReview, screen_div, buildSellReviewCard, term, button, error_text. solid_parts. Qed.
Lemma solid_my_orders_cancel st o : part_all solid (renderMyOrdersCancel st o).
Proof.
  unfold renderMyOrdersCancel, screen_div, back_group, backButton, term, button.
  destruct (planCancel o) as [ok errors], (negb ok), (mo_cancelling st); solid_parts.
Qed.
Lemma solid_migrate : part_all solid renderMigrate.
Proof. unfold renderMigrate, screen_div, button. solid_parts. Qed.

(** The screens with an element that a fetch fills. *)
Lemma outside_wallet w b c : part_outside (renderWallet w b c).
Proof.
  unfold renderWallet, screen_div. destruct (of_wallet w "address" _address) as [a|]; [|done].
  destruct (of_wallet w _ _) as [legacy|]; [|done]. cbn [mbind res_bind]. outside_parts.
  all: unfold button, optional_text, txStatus; solid_parts.
Qed.
Lemma outside_market : part_outside renderMarket.
Proof. unfold renderMarket, screen_div. outside_parts. Qed.
Lemma outside_market_fill o : part_outside (renderMarketFill o).
Proof. unfold renderMarketFill, screen_div. outside_parts. Qed.
Lemma outside_my_orders : part_outside renderMyOrders.
Proof. unfold renderMyOrders, screen_div. outside_parts. Qed.

(** What a settled fetch puts there is always something, and no skeleton. *)
Definition fills (r : res (list (@child_arg handler))) : Prop :=
  ∃ l, r = Ok l ∧ forallb (node_all solid) (mjoin (map child_node l)) = true.

Lemma fills_parts cs : Forall good cs → Forall (part_all solid) cs → fills (mapR id cs).
Proof. intros (l & Hl & _)%good_mapR Hs. exists l. split; [exact Hl|]. by eapply all_children. Qed.

Lemma fills_with body failed :
  (∀ b, body = Ok b → Forall (part_all solid) b) → (∀ e, Forall good (failed e) ∧ Forall (part_all solid) (failed e)) →
  fills (fill_with body failed).
Proof.
  intros Hb Hf. unfold fills. destruct (fill_with body failed) as [l|e] eqn:Hl.
  - exists l. split; [done|]. eapply all_fill_with; [exact Hb| |exact Hl]. intros e. apply Hf.
  - unfold fill_with in Hl. destruct (b ← body; _) as [|e']; [done|]. destruct (Hf e') as [(l & Hl' & _)%good_mapR _].
    by rewrite Hl' in Hl.
Qed.

Lemma fills_balance r : fills (loadBalanceSection r).
Proof.
  apply fills_with.
  - intros b (u & _ & <-%Ok_inj)%bind_Ok. unfold stale_part, utxo_row, staleNotice. solid_parts.
  - intros e. split; [good_parts|solid_parts].
Qed.
Lemma fills_market r : fills (market_content r).
Proof.
  apply fills_with.
  - intros b (u & _ & <-%Ok_inj)%bind_Ok.
    unfold stale_part, staleNotice, market_row, back_group, backButton, button. solid_parts.
  - intros e. unfold error_text, back_group, backButton, button. split; [good_parts|solid_parts].
Qed.
Lemma fills_refused es e : fills (mapR id (fill_refused es e)).
Proof.
  unfold fill_refused, error_text, back_group, backButton, button. apply fills_parts; [good_parts|solid_parts].
Qed.
Lemma fills_review o p us f plan e : fills (mapR id (fill_review o p us f plan e)).
Proof.
  unfold fill_review, review_row, error_text, backButton, button. apply fills_parts; [good_parts|solid_parts].
Qed.
Lemma fills_failed e : fills (mapR id (fill_failed e)).
Proof.
  unfold fill_failed, error_text, back_group, backButton, button. apply fills_parts; [good_parts|solid_parts].
Qed.
Lemma fills_my_orders_failed e : fills (mapR id (my_orders_failed e)).
Proof.
  unfold my_orders_failed, error_text, back_group, backButton, button. apply fills_parts; [good_parts|solid_parts].
Qed.
Lemma fills_my_orders l : fills (mapR id (my_orders_content l)).
Proof.
  unfold my_orders_content, my_order_row, back_group, backButton, button. apply fills_parts; [good_parts|solid_parts].
Qed.

(** Positions as the indexer's client hands them out can be drawn. *)
Lemma good_slice p n f : drawable p = true → good (TR (H:=handler) (s ← js_slice (field p "txid") n; Ok (f s))).
Proof. unfold drawable. intros Hp. destruct (field p "txid") as [| | | |t| | |]; try done. apply good_TR. Qed.

Lemma good_rows (f : jsval → res (@child_arg handler)) l :
  (∀ p, drawable p = true → good (f p)) → forallb drawable l = true → Forall good (map f l).
Proof. intros Hf. induction l as [|p l IH]; [constructor|]. simpl. intros [Hp Hl]%andb_true_iff. constructor; auto. Qed.

Lemma good_node tag attrs cs : good (E (H:=handler) tag attrs cs) → ∃ n, E tag attrs cs = Ok (CNode n).
Proof. intros (c & Hc & _). pose proof Hc as (l & _ & (n & _ & Hn)%bind_Ok)%bind_Ok. injection Hn as <-. by exists n. Qed.

Lemma drawn_send st w b l :
  sd_positions st = Some l → forallb drawable l = true → ∃ n, renderSend st w b = Ok (CNode n).
Proof.
  intros Hp Hl. apply good_node. unfold buildSendCard, send_positions. rewrite Hp. unfold field_error.
  assert (Forall good (map (send_position_row (sd_selectedKey st) HselectSendPosition) l)) as Hrows.
  { apply good_rows; [|done]. intros p Hd. unfold send_position_row. good_parts. by apply good_slice. }
  destruct l as [|p l]; [|revert Hrows; generalize (map (send_position_row (sd_selectedKey st) HselectSendPosition) (p :: l));
                          intros rows Hrows]; good_parts; done.
Qed.

Lemma drawn_sell st l :
  se_positions st = Some l → forallb drawable l = true → ∃ n, renderSell st = Ok (CNode n).
Proof.
  intros Hp Hl. apply good_node. unfold buildSellCard. rewrite Hp.
  assert (Forall good (map (sell_position_row (se_selectedKey st) HselectSellPosition) l)) as Hrows.
  { apply good_rows; [|done]. intros p Hd. unfold sell_position_row. good_parts. by apply good_slice. }
  assert (∀ p, last_selected (se_selectedKey st) l = Some p → drawable p = true) as Hsel.
  { intros p [Hin _]%find_some. rewrite forallb_forall in Hl. apply Hl, list_elem_of_In, elem_of_reverse.
    by apply list_elem_of_In. }
  destruct l as [|p l]; [good_parts|]. revert Hrows Hsel. generalize (last_selected (se_selectedKey st) (p :: l)).
  generalize (map (sell_position_row (se_selectedKey st) HselectSellPosition) (p :: l)).
  intros rows [q|] Hrows Hsel; good_parts; try done. by apply good_slice, Hsel.
Qed.
End solid_screens.

#[local] Opaque renderInit renderCreate renderRestore renderUnlock renderWallet renderMint renderMintReview renderMarket
  renderMarketFill renderSend renderSendReview renderSell renderSellReview renderMyOrders renderMyOrdersCancel
  renderMigrate buildScanOverlay loadBalanceSection market_content fill_refused fill_review fill_failed
  my_orders_failed my_orders_content create unlock.

(** ** Who waits for what *)

(** The screens with a part that is filled in place. *)
Definition views (c : screen) : bool :=
  match c with Swallet | Smarket | Smarket_fill | Smy_orders => true | _ => false end.
(** The screens of the two flows that load positions first. *)
Definition sends (c : screen) : bool := match c with Ssend | Ssend_review => true | _ => false end.
Definition sells (c : screen) : bool := match c with Ssell | Ssell_review => true | _ => false end.

Definition view_load (v : nat) (t : task) : bool :=
  match task_view t with Some (v', _) => (v =? v')%nat | None => false end.
(** With positions that can be drawn once they are loaded. *)
Definition send_load (t : task) : bool :=
  match t with TsendPositions _ => true | TsendUtxos ps _ | TsendFee ps _ => forallb drawable ps | _ => false end.
Definition sell_load (t : task) : bool := match t with TsellPositions _ => true | _ => false end.

Definition send_task (t : task) : bool :=
  match t with TsendPositions _ | TsendUtxos _ _ | TsendFee _ _ => true | _ => false end.
(** Work that nobody waits for with a skeleton. *)
Definition other_work (t : task) : bool :=
  negb (send_task t) && negb (sell_load t) && bool_decide (task_view t = None).

Lemma other_work_no_load t v :
  other_work t = true → send_load t = false ∧ sell_load t = false ∧ view_load v t = false.
Proof. by destruct t. Qed.

Section loads.
Context `{!Page handler} {W : Type} `{!Env W}.
Abbreviation st := (appl W).
Implicit Types s : st.

(** No skeleton is on the page. *)
Definition settled s : bool := forallb (node_all solid) (page s).

(** Positions that are not there yet are being fetched.  [ts] are tasks to count
    with the pending ones. *)
Record fed (ts : list task) s : Prop := {
  fed_send : sends (cur s) = true → sd_positions (sendState s) = None → existsb send_load (ts ++ tasks s) = true;
  fed_sell : sells (cur s) = true → se_positions (sellState s) = None → existsb sell_load (ts ++ tasks s) = true
}.

(** A skeleton on the page is one that positions, or a pending fetch for this
    page, will replace. *)
Definition backed (ts : list task) s : Prop :=
  settled s = false →
  match cur s with
  | Ssend => sd_positions (sendState s) = None
  | Ssell => se_positions (sellState s) = None
  | c => views c = true ∧ existsb (view_load (page_id s)) (ts ++ tasks s) = true
  end.

Record loading (ts : list task) s : Prop := {
  ld_fed : fed ts s;
  ld_backed : backed ts s;
  ld_outside : views (cur s) = true → forallb outside (page s) = true
}.

(** *** Drawing the page *)

Lemma screen_part_outside s r : views (cur s) = true → screen_part s = Some r → part_outside r.
Proof.
  unfold screen_part. intros Hv. destruct (cur s); try discriminate Hv; intros Hr.
  - apply (inj Some) in Hr as <-. apply outside_wallet.
  - apply (inj Some) in Hr as <-. apply outside_market.
  - apply fmap_Some in Hr as (x & _ & ->). apply outside_market_fill.
  - apply (inj Some) in Hr as <-. apply outside_my_orders.
Qed.

Lemma screen_part_solid s r :
  views (cur s) = false → screen_part s = Some r →
  (cur s = Ssend → sd_positions (sendState s) ≠ None) → (cur s = Ssell → se_positions (sellState s) ≠ None) →
  part_all solid r.
Proof.
  unfold screen_part. intros Hv. destruct (cur s); try discriminate Hv; intros Hr Hsd Hse;
    try apply (inj Some) in Hr as <-; try (apply fmap_Some in Hr as (x & _ & ->));
    eauto using solid_init, solid_create, solid_restore, solid_unlock, solid_mint, solid_mint_review, solid_send,
      solid_send_review, solid_sell, solid_sell_review, solid_my_orders_cancel, solid_migrate.
Qed.

(** What [paint] leaves on an empty page. *)
Lemma paint_page_is s :
  page s = [] →
  page (paint s) = [] ∨ ∃ n, page (paint s) = [n] ∧ screen_part s = Some (Ok (CNode n)).
Proof.
  intros Hp. unfold paint, append_part. destruct (screen_part s) as [[[t|n|]|e]|]; try by left.
  right. exists n. cbn. by rewrite Hp.
Qed.

Lemma fill_view_settled v r s :
  fills r → v = page_id s → forallb outside (page s) = true → settled (fill_view v r s) = true.
Proof.
  intros (l & -> & Hl) -> Ho. unfold fill_view, settled. rewrite Nat.eqb_refl. cbn.
  rewrite forallb_forall in Ho |- *. intros n (m & <- & Hm)%in_map_iff. by apply fill_solid; [|apply Ho].
Qed.

Lemma settled_outside s : settled s = true → forallb outside (page s) = true.
Proof. unfold settled. rewrite !forallb_forall. intros H n Hn. by apply solid_outside, H. Qed.

Lemma fill_view_page v r s : page_id (fill_view v r s) = page_id s.
Proof. unfold fill_view. destruct r; [|done]. by destruct (v =? page_id s)%nat. Qed.

Lemma start_create_page opts s r s' : start_create opts s = (r, s') → page s' = page s ∧ page_id s' = page_id s.
Proof. unfold start_create. case_match; [case_match|]; by intros [= <- <-]. Qed.

Lemma screen_tasks_page s :
  page_id (screen_tasks s) = page_id s
  ∧ (page (screen_tasks s) = page s ∨ cur s = Smy_orders ∧ ∃ r, fills r ∧ page (screen_tasks s) = page (fill_view (page_id s) r s)).
Proof.
  unfold screen_tasks. destruct (cur s); try (split; [done|by left]).
  - destruct (the_wallet s); [split; [done|by left]|]. destruct (start_create _ s) as [r s'] eqn:Hs.
    apply start_create_page in Hs as [H1 H2]. split; [exact H2|by left].
  - destruct (wallet_address s); (split; [done|by left]).
  - destruct (mk_selectedOrder _); [destruct (painted _)|]; (split; [done|by left]).
  - destruct (own_pubkey_hex s) as [hex|e]; [split; [done|by left]|]. split; [by rewrite fill_view_page|]. right.
    split; [done|]. exists (mapR id (my_orders_failed e)). split; [apply fills_my_orders_failed|].
    unfold fill_view. destruct (mapR id _); [|done]. cbn. by rewrite Nat.eqb_refl.
Qed.

(** A screen that waits has started its fetch. *)
Lemma screen_tasks_load s n :
  views (cur s) = true → screen_part s = Some (Ok (CNode n)) → forallb outside (page s) = true →
  settled (screen_tasks s) = true ∨ existsb (view_load (page_id s)) (tasks (screen_tasks s)) = true.
Proof.
  assert (∀ t, view_load (page_id s) t = true → existsb (view_load (page_id s)) (tasks (add_task t s)) = true) as Hadd.
  { intros t Ht. cbn. rewrite existsb_app. simpl. by rewrite Ht, orb_true_r. }
  unfold screen_part, screen_tasks. intros Hv Hs Ho. destruct (cur s); try discriminate Hv.
  - right. unfold wallet_address. destruct (the_wallet s); [|by apply (inj Some) in Hs]. apply Hadd, Nat.eqb_refl.
  - right. apply Hadd, Nat.eqb_refl.
  - right. apply fmap_Some in Hs as (o & -> & Heq). rewrite <- Heq. apply Hadd, Nat.eqb_refl.
  - destruct (own_pubkey_hex s); [right; apply Hadd, Nat.eqb_refl|]. left.
    by apply fill_view_settled; [apply fills_my_orders_failed| |].
Qed.

(** Of the other screens only those of positions can have a skeleton. *)
Lemma screen_part_waits s n :
  views (cur s) = false → screen_part s = Some (Ok (CNode n)) → node_all solid n = false →
  cur s = Ssend ∧ sd_positions (sendState s) = None ∨ cur s = Ssell ∧ se_positions (sellState s) = None.
Proof.
  intros Hv Hn Hbad. destruct (cur s) eqn:Hc.
  10: destruct (sd_positions (sendState s)) eqn:E; [|by left].
  12: destruct (se_positions (sellState s)) eqn:E; [|by right].
  all: try discriminate Hv; assert (part_all solid (Ok (CNode n))) as Hs
    by (apply (screen_part_solid s); [by rewrite Hc|exact Hn|congruence|congruence]); by rewrite (Hs n) in Hbad.
Qed.

Lemma paint_part s : screen_part (paint s) = screen_part s ∧ sendState (paint s) = sendState s ∧ sellState (paint s) = sellState s.
Proof. unfold paint. destruct (screen_part s) as [r|] eqn:Hs; [|done]. unfold append_part. by repeat case_match. Qed.

Lemma paint_outside s : page s = [] → views (cur s) = true → forallb outside (page (paint s)) = true.
Proof.
  intros Hp Hv. destruct (paint_page_is s Hp) as [->|(n & -> & Hn)]; [done|]. simpl.
  by rewrite (screen_part_outside s _ Hv Hn n).
Qed.

(** A page drawn on an empty one. *)
Lemma drawn_outside s :
  page s = [] → views (cur s) = true → forallb outside (page (screen_tasks (paint s))) = true.
Proof.
  intros Hp Hv. pose proof (paint_outside s Hp Hv) as Ho.
  destruct (screen_tasks_page (paint s)) as [_ [->|(_ & r & Hr & Hpg)]]; [exact Ho|]. rewrite Hpg.
  apply settled_outside, fill_view_settled; done.
Qed.

Lemma drawn_backed s : page s = [] → backed [] (screen_tasks (paint s)).
Proof.
  intros Hp Hf. destruct (screen_tasks_frame (paint s)) as [_ _ _ Hsd Hse _ _ _ _].
  destruct (screen_tasks_page (paint s)) as [Hid Hpg]. destruct (paint_part s) as (Hpart & Hsd' & Hse').
  destruct (paint_state s) as (Hc' & _). rewrite (screen_tasks_cur (paint s)), Hc', Hsd, Hsd', Hse, Hse', Hid.
  destruct (paint_page_is s Hp) as [Hnil|(n & Hpn & Hn)].
  { exfalso. revert Hf. unfold settled. destruct Hpg as [->|(_ & r & _ & ->)]; [by rewrite Hnil|].
    unfold fill_view. destruct r; [|by rewrite Hnil]. rewrite Nat.eqb_refl. cbn. by rewrite Hnil. }
  destruct (views (cur s)) eqn:Hv.
  - enough (existsb (view_load (page_id (paint s))) (tasks (screen_tasks (paint s))) = true)
      by (destruct (cur s); try discriminate Hv; by split).
    destruct (screen_tasks_load (paint s) n) as [H|H]; [by rewrite Hc'|by rewrite Hpart|by apply paint_outside|congruence|exact H].
  - destruct Hpg as [Hpg|[Hmy _]]; [|by rewrite Hc' in Hmy; rewrite Hmy in Hv].
    revert Hf. unfold settled. rewrite Hpg, Hpn. simpl. rewrite andb_true_r. intros Hf.
    by destruct (screen_part_waits s n Hv Hn Hf) as [[-> ?]|[-> ?]].
Qed.

Lemma render_draws s :
  backed [] (render s) ∧ (views (cur (render s)) = true → forallb outside (page (render s)) = true).
Proof.
  unfold render. destruct (blank_state s) as (_ & Hp & _). split; [by apply drawn_backed|].
  intros Hv. apply drawn_outside; [exact Hp|]. destruct (paint_state (blank s)) as (<- & _).
  by rewrite <- screen_tasks_cur.
Qed.

Lemma render_page s n :
  redirect s ≠ Smy_orders → screen_part (blank s) = Some (Ok (CNode n)) → page (render s) = [n].
Proof.
  intros Hc Hn. unfold render. destruct (blank_state s) as (Hcb & Hp & _). destruct (paint_state (blank s)) as (Hcp & _).
  destruct (screen_tasks_page (paint (blank s))) as [_ [->|[Hmy _]]]; [|congruence].
  unfold paint. rewrite Hn. cbn. by rewrite Hp.
Qed.

Lemma blank_positions s : sendState (blank s) = sendState s ∧ sellState (blank s) = sellState s.
Proof. unfold blank. by case_match. Qed.

#[local] Opaque render blank.

(** *** What the steps do to it *)

Lemma fed_ext ts s s' new :
  cur s' = cur s → sd_positions (sendState s') = sd_positions (sendState s) →
  se_positions (sellState s') = se_positions (sellState s) → tasks s' = tasks s ++ new → fed ts s → fed ts s'.
Proof.
  intros Hc Hsd Hse Ht [H1 H2].
  split; rewrite Hc, ?Hsd, ?Hse, Ht, app_assoc, existsb_app; intros Hs Hp; [by rewrite H1|by rewrite H2].
Qed.

Lemma fed_elsewhere ts s : sends (cur s) = false → sells (cur s) = false → fed ts s.
Proof. intros H1 H2. by split; rewrite ?H1, ?H2. Qed.

Lemma loading_ext ts s s' new :
  cur s' = cur s → sd_positions (sendState s') = sd_positions (sendState s) →
  se_positions (sellState s') = se_positions (sellState s) → page s' = page s → page_id s' = page_id s →
  tasks s' = tasks s ++ new → loading ts s → loading ts s'.
Proof.
  intros Hc Hsd Hse Hp Hid Ht [Hf Hb Ho]. split; [by eapply fed_ext| |by rewrite Hc, Hp].
  unfold backed, settled in *. rewrite Hc, Hsd, Hse, Hp, Hid, Ht, app_assoc, existsb_app. intros Hs. specialize (Hb Hs).
  destruct (cur s); try exact Hb; destruct Hb as [? ->]; done.
Qed.

Lemma loading_add ts t s : loading ts s → loading ts (add_task t s).
Proof. by apply (loading_ext ts s _ [t]). Qed.

Lemma fed_render s : fed [] s → fed [] (render s).
Proof.
  intros [H1 H2]. cbn [app] in H1, H2. destruct (render_frame s) as [Hc [_ _ _ Hsd Hse _ _ _ (new & Ht & _)]].
  assert (sends (redirect s) = sends (cur s) ∧ sells (redirect s) = sells (cur s)) as [E1 E2].
  { unfold redirect. destruct (cur s); try done; by case_match. }
  split; rewrite Hc, ?Hsd, ?Hse, ?E1, ?E2, Ht; cbn [app]; rewrite existsb_app; intros Hs Hp; [by rewrite H1|by rewrite H2].
Qed.

Lemma loading_render s : fed [] s → loading [] (render s).
Proof. intros Hf%fed_render. by destruct (render_draws s). Qed.

Lemma loading_go c s : sends c = false → sells c = false → loading [] (go c s).
Proof. intros H1 H2. apply loading_render. by apply fed_elsewhere. Qed.

Lemma loading_render_if c s : loading [] s → loading [] (render_if c s).
Proof. intros Hl. unfold render_if. case_match; [apply loading_render, Hl|exact Hl]. Qed.

(** A task that completes was not the one that was waited for. *)
Lemma backed_drop t s : view_load (page_id s) t = false → backed [t] s → backed [] s.
Proof. intros Ht Hb. unfold backed in *. cbn [app existsb] in Hb. by rewrite Ht in Hb. Qed.

Lemma no_view_load v t : task_view t = None → view_load v t = false.
Proof. unfold view_load. by intros ->. Qed.

Lemma loading_drop t s :
  send_load t = false → sell_load t = false → view_load (page_id s) t = false → loading [t] s → loading [] s.
Proof.
  intros H1 H2 H3 [[Hsd Hse] Hb Ho]. simpl in Hsd, Hse. rewrite H1 in Hsd. rewrite H2 in Hse. split; [by split|by apply (backed_drop t)|exact Ho].
Qed.

Lemma view_not_positions t v c : task_view t = Some (v, c) → send_load t = false ∧ sell_load t = false.
Proof. by destruct t. Qed.

Lemma loading_fill t v c r s :
  task_view t = Some (v, c) → view_ok s v c → views c = true → fills r → loading [t] s → loading [] (fill_view v r s).
Proof.
  intros Ht [_ Hv] Hc Hr Hl. destruct (view_not_positions t v c Ht) as [H1 H2].
  destruct (Nat.eqb_spec (page_id s) v) as [E|E].
  - rewrite E in Hv. specialize (Hv eq_refl). rewrite <- Hv in Hc. destruct Hl as [[Hsd Hse] _ Ho].
    destruct (fill_view_state v r s) as (E1 & _ & _ & _ & E5 & E6 & E7 & _).
    assert (settled (fill_view v r s) = true) as Hset by (apply fill_view_settled; auto).
    split; [|intros Hf; congruence|intros _; by apply settled_outside].
    apply fed_elsewhere; rewrite E1; by destruct (cur s).
  - assert (fill_view v r s = s) as ->.
    { unfold fill_view. destruct r; [|done]. by rewrite (proj2 (Nat.eqb_neq v _)). }
    apply (loading_drop t); [done|done| |done]. unfold view_load. rewrite Ht. by apply Nat.eqb_neq.
Qed.

(** The next fetch for the same thing takes over. *)
Lemma loading_next t t' s :
  (send_load t = true → send_load t' = true) → (sell_load t = true → sell_load t' = true) →
  (∀ v, view_load v t = true → view_load v t' = true) → loading [t] s → loading [] (add_task t' s).
Proof.
  intros H1 H2 H3 [[Hsd Hse] Hb Ho].
  assert (∀ p : task → bool, (p t = true → p t' = true) → existsb p ([t] ++ tasks s) = true →
            existsb p ([] ++ tasks (add_task t' s)) = true) as Hp.
  { intros p Hp. cbn. rewrite existsb_app. simpl. rewrite orb_false_r, !orb_true_iff. intros [?|?]; auto. }
  split; [split|intros Hs; specialize (Hb Hs)|exact Ho]; [intros Hc Hn; apply Hp; auto..|].
  change (cur (add_task t' s)) with (cur s). destruct (cur s); try exact Hb; (split; [apply Hb|apply Hp; [auto|apply Hb]]).
Qed.

Lemma loading_show_error ts v id t s : loading ts s → loading ts (show_error_in v id t s).
Proof.
  intros Hl. unfold show_error_in. destruct (v =? page_id s)%nat; [|exact Hl]. destruct Hl as [[H1 H2] Hb Ho].
  split; [by split| |intros Hv; apply edit_page_outside; by apply Ho].
  intros Hf. apply Hb. apply not_true_iff_false. intros Hs. apply not_true_iff_false in Hf. apply Hf.
  by apply edit_page_solid.
Qed.

Lemma loading_append ts r s : part_all solid r → loading ts s → loading ts (append_part r s).
Proof.
  intros Hr Hl. unfold append_part. destruct r as [[t|n|]|e]; try exact Hl. specialize (Hr n eq_refl).
  destruct Hl as [[H1 H2] Hb Ho]. split; [by split| |].
  - intros Hf. apply Hb. unfold settled in *. cbn in Hf. rewrite forallb_app in Hf. simpl in Hf.
    by rewrite Hr, !andb_true_r in Hf.
  - intros Hv. cbn. rewrite forallb_app. simpl. rewrite (solid_outside n Hr), Ho by done. done.
Qed.

(** A state that differs in what nobody waits for. *)
Ltac same_load Hl :=
  match type of Hl with loading ?ts ?s0 =>
    apply (loading_ext ts s0 _ []);
      [reflexivity|reflexivity|reflexivity|reflexivity|reflexivity|symmetry; apply app_nil_r|exact Hl] end.
Ltac same_fed Hl :=
  match type of Hl with loading ?ts ?s0 =>
    apply (fed_ext ts s0 _ []);
      [reflexivity|reflexivity|reflexivity|symmetry; apply app_nil_r|exact (ld_fed _ _ Hl)] end.
Ltac load_paints Hl := first [apply loading_go; reflexivity | apply loading_render; same_fed Hl].

Lemma loading_broadcast_done t s : loading [] (broadcast_done t s).
Proof.
  unfold broadcast_done. cbv zeta.
  match goal with |- context [go Swallet ?x] => assert (loading [] (go Swallet x)) as Hg by (apply loading_go; reflexivity) end.
  destruct (wallet_address _); [by apply loading_add|exact Hg].
Qed.

Lemma loading_scan n e s : loading [] s → loading [] (scan_input n e s).
Proof.
  intros Hl. unfold scan_input. destruct (scans s !! n) as [[opts c]|]; [|done].
  assert (∀ x, loading [] (s <| scans := x |>)) as Hx by (intros x; same_load Hl).
  repeat case_match; try apply Hx; unfold scan_done; destruct (runAddressScan _); load_paints Hl.
Qed.

Lemma loading_start_lock p v e s : loading [] s → loading [] (start_lock p v e s).
Proof.
  intros Hl. unfold start_lock. destruct (wallet_ref s), (the_wallet s); try by apply loading_show_error.
  destruct (lock_start _ _ _) as [[enc n']|]; [|by apply loading_show_error]. apply loading_add. same_load Hl.
Qed.

Lemma loading_mint_failed e s : loading [] s → loading [] (mint_failed e s).
Proof. intros Hl. unfold mint_failed. load_paints Hl. Qed.
Lemma loading_cancel_failed e s : loading [] s → loading [] (cancel_failed e s).
Proof. intros Hl. unfold cancel_failed. load_paints Hl. Qed.

(** The ends of the two loads: whatever else is waited for is as before. *)
Lemma loading_send_end t f s :
  sell_load t = false → task_view t = None → (∀ d, sd_positions (f d) ≠ None) →
  loading [t] s → loading [] (render_if Ssend (set_send f s)).
Proof.
  intros Ht Hv Hf [[_ Hse] Hb Ho]. simpl in Hse. rewrite Ht in Hse.
  assert (fed [] (set_send f s)) as Hfed by (split; [intros _ Hn; by apply Hf in Hn|exact Hse]).
  unfold render_if. change (cur (set_send f s)) with (cur s). destruct (bool_decide (cur s = Ssend)) eqn:Hc.
  - by apply loading_render.
  - apply bool_decide_eq_false in Hc. split; [exact Hfed| |exact Ho].
    apply backed_drop in Hb; [|by apply no_view_load]. intros Hs. specialize (Hb Hs). revert Hb Hc.
    change (cur (set_send f s)) with (cur s). by destruct (cur s).
Qed.

Lemma loading_sell_end t f s :
  send_load t = false → task_view t = None → (∀ d, se_positions (f d) ≠ None) →
  loading [t] s → loading [] (render_if Ssell (set_sell f s)).
Proof.
  intros Ht Hv Hf [[Hsd _] Hb Ho]. simpl in Hsd. rewrite Ht in Hsd.
  assert (fed [] (set_sell f s)) as Hfed by (split; [exact Hsd|intros _ Hn; by apply Hf in Hn]).
  unfold render_if. change (cur (set_sell f s)) with (cur s). destruct (bool_decide (cur s = Ssell)) eqn:Hc.
  - by apply loading_render.
  - apply bool_decide_eq_false in Hc. split; [exact Hfed| |exact Ho].
    apply backed_drop in Hb; [|by apply no_view_load]. intros Hs. specialize (Hb Hs). revert Hb Hc.
    change (cur (set_sell f s)) with (cur s). by destruct (cur s).
Qed.

(** Entering a flow: its load is what it waits for. *)
Lemma loading_enter c t s :
  sends c && send_load t || sells c && sell_load t = true → redirect (s <| cur := c |>) = c → loading [t] (go c s).
Proof.
  intros Ht Hr. destruct (render_draws (s <| cur := c |>)) as [Hb Ho]. split; [| |exact Ho].
  - destruct (render_frame (s <| cur := c |>)) as [Hc _]. rewrite Hr in Hc.
    split; unfold go; rewrite Hc; intros Hcc _; cbn [app existsb]; apply orb_true_iff; left;
      destruct c; try discriminate Hcc; simpl in Ht; by rewrite ?orb_false_r in Ht.
  - intros Hs. specialize (Hb Hs). unfold go in *. destruct (cur (render _)); try exact Hb; cbn [app existsb] in *;
      destruct Hb as [? ->]; by rewrite orb_true_r.
Qed.

Lemma loading_goToSend s : loading [] (goToSend s).
Proof.
  unfold goToSend, loadSendData. match goal with |- context [go Ssend ?x] => generalize (loading_enter Ssend (TsendPositions EmptyString) x eq_refl eq_refl); generalize (go Ssend x) end.
  intros y Hy. destruct (own_pubkey_hex y).
  - by eapply loading_next; [..|exact Hy].
  - by eapply loading_send_end; [..|exact Hy].
Qed.

Lemma loading_startSell s : loading [] (startSell s).
Proof.
  unfold startSell. cbv zeta. match goal with |- context [go Ssell ?x] => generalize (loading_enter Ssell (TsellPositions EmptyString) x eq_refl eq_refl); generalize (go Ssell x) end.
  intros y Hy. destruct (own_pubkey_hex y).
  - by eapply loading_next; [..|exact Hy].
  - by eapply loading_sell_end; [..|exact Hy].
Qed.

(** Between the form and the review of a flow. *)
Lemma loading_within c s :
  sends c = sends (cur s) → sells c = sells (cur s) → fed [] s → loading [] (go c s).
Proof. intros H1 H2 [Hf1 Hf2]. apply loading_render. split; cbn; rewrite ?H1, ?H2; [exact Hf1|exact Hf2]. Qed.

Lemma loading_forms s :
  loading [] s →
  loading [] (planMintTx s) ∧ (cur s = Ssend → loading [] (planSendTx s)) ∧ (cur s = Ssell → loading [] (planSellFlow s))
  ∧ loading [] (confirmCancel s) ∧ loading [] (startAddressScan s).
Proof.
  intros Hl. split_and!.
  - unfold planMintTx.
    destruct (value_of "mint-ticker" s), (value_of "mint-multiplier" s), (value_of "mint-amount" s); try exact Hl. cbv zeta.
    destruct (wallet_address _); [apply loading_add|]; same_load Hl.
  - intros Hc. unfold planSendTx. cbv zeta.
    match goal with |- loading [] (match ?r with _ => _ end) => destruct r as [[plan|errors]|e] end;
      [|load_paints Hl|same_load Hl].
    apply loading_within; [cbn; by rewrite Hc..|same_fed Hl].
  - intros Hc. unfold planSellFlow. cbv zeta. destruct (wallet_address _); [|same_load Hl].
    destruct (negb _); [load_paints Hl|]. apply loading_within; [cbn; by rewrite Hc..|same_fed Hl].
  - unfold confirmCancel. destruct (mo_selectedOrder _) as [order|]; [|exact Hl]. destruct (negb _); [exact Hl|]. cbv zeta.
    match goal with |- context [render ?x] => assert (loading [] (render x)) as Hr by load_paints Hl; revert Hr; generalize (render x) end.
    intros y Hy. destruct (key ← wallet_key y; _); [by apply loading_add|by apply loading_cancel_failed].
  - unfold startAddressScan. cbv zeta. destruct (negb _); [load_paints Hl|].
    match goal with |- context [append_part ?r ?x] =>
      assert (loading [] (append_part r x)) as Hx; [|revert Hx; generalize (append_part r x)] end.
    + apply loading_append; [apply solid_overlay|]. load_paints Hl.
    + intros y Hy. same_load Hy.
Qed.

Lemma loading_handler h s :
  offers (cur s) h = true ∨ offers_extra h = true → loading [] s → loading [] (run_handler h s).
Proof.
  intros Ho Hl. destruct (loading_forms s Hl) as (? & Hsend & Hsell & ? & ?).
  assert (∀ c, (∀ d, offers d h = true → d = c) → offers_extra h = false → cur s = c) as Hon.
  { intros c Hc Hx. destruct Ho as [Ho|Ho]; [by apply Hc|congruence]. }
  destruct h; cbn [run_handler]; try assumption; try (load_paints Hl).
  - unfold createNewWallet, start_create. destruct (create _ _ _ _ _ _) as [[w n]|]; apply loading_add; same_load Hl.
  - unfold finishWalletSetup. destruct (value_of _ s); [by apply loading_start_lock|exact Hl].
  - unfold doRestore, start_create. destruct (value_of "mnemonic-input" s), (value_of "restore-passphrase" s); try exact Hl.
    destruct (create _ _ _ _ _ _) as [[w n]|]; apply loading_add; same_load Hl.
  - unfold doUnlock, ensure_wallet. destruct (value_of _ s); [|exact Hl].
    destruct (wallet_ref s) as [r|] eqn:Hr; [rewrite Hr; by apply loading_add|].
    destruct (stg s); [|by apply loading_show_error].
    destruct (Wallet_new _ _ _ _ _) as [[w n]|]; [|by apply loading_show_error].
    cbn [mbind res_bind]. apply loading_add. same_load Hl.
  - unfold lockWallet. destruct (wallet_ref s), (the_wallet s); try exact Hl. load_paints Hl.
  - unfold copyAddress. destruct (the_wallet s); [by apply loading_add|exact Hl].
  - destruct Ho as [Ho|[=]]. pose proof (ld_fed _ _ Hl) as Hf.
    destruct (cur s) eqn:Hc, s0; try discriminate Ho;
      first [apply loading_go; reflexivity|apply loading_within; [by rewrite Hc..|exact Hf]].
  - unfold confirmMint. destruct (mt_plan _); [|load_paints Hl].
    destruct (wallet_address s); [by apply loading_add|by apply loading_mint_failed].
  - apply loading_goToSend.
  - apply Hsend, Hon; [by intros []|done].
  - by apply loading_scan.
  - unfold confirmSend. destruct (sd_plan _); [destruct (wallet_key s); [by apply loading_add|exact Hl]|].
    apply loading_within; [rewrite (Hon Ssend_review); [done|by intros []|done]..|exact (ld_fed _ _ Hl)].
  - unfold confirmFill. destruct (mk_fillPlan _); [destruct (wallet_key s); [by apply loading_add|exact Hl]|load_paints Hl].
  - apply loading_startSell.
  - apply Hsell, Hon; [by intros []|done].
  - unfold confirmSell. destruct (wallet_key s), (wallet_address s); try exact Hl. by apply loading_add.
Qed.

(** *** Completions *)

Lemma loading_await {A} ts (m : io W A) k s :
  loading ts s → (∀ w r, m (world s) = (w, r) → loading ts (s <| world := w |>) → loading [] (k r (s <| world := w |>))) →
  loading [] (await m k s).
Proof. intros Hl Hk. unfold await. destruct (m (world s)) as [w r]. apply Hk; [done|]. same_load Hl. Qed.

Lemma loading_await_settled {A} (m : io W (A + string)) k s :
  loading [] s → (∀ w r, loading [] (s <| world := w |>) → loading [] (k r (s <| world := w |>))) →
  loading [] (await_settled m k s).
Proof. intros Hl Hk. apply (loading_await []); [exact Hl|]. intros w [r|e] _ Hw; [by apply Hk|exact Hw]. Qed.

Lemma loading_resume_other t s : other_work t = true → loading [] s → loading [] (resume t s).
Proof.
  intros Ht Hl.
  destruct t; try discriminate Ht; cbn [resume]; try assumption;
    try lazymatch goal with
    | |- loading [] (await_settled _ _ _) => apply loading_await_settled; [exact Hl|intros wd r' Hw]
    | |- loading [] (await _ _ _) => apply (loading_await []); [exact Hl|intros wd r' _ Hw]
    end.
  - destruct r; [load_paints Hl|exact Hl].
  - destruct r; [|exact Hl]. cbv zeta. apply loading_append; [apply solid_create|same_load Hl].
  - destruct (heap s !! w); [|exact Hl]. cbn. load_paints Hl.
  - destruct r; [apply loading_start_lock; same_load Hl|by apply loading_show_error].
  - destruct (heap s !! w); [|exact Hl]. destruct (unlock _ _ _ _ _) as [x [[]|e]];
      [load_paints Hl|apply loading_show_error; same_load Hl..].
  - unfold mint_planned. destruct r' as [[us rate]|e]; [|load_paints Hw]. destruct (wallet_address _); [|exact Hw].
    destruct (planMint _ _ _ _ _); load_paints Hw.
  - unfold mint_utxos_loaded. destruct r'; [|by apply loading_mint_failed].
    destruct (wallet_key _); [|exact Hw]. destruct (wallet_address _); [by apply loading_add|exact Hw].
  - unfold mint_published. destruct r'; [apply loading_broadcast_done|by apply loading_mint_failed].
  - destruct r'; [|exact Hw]. unfold poll_done. destruct (broadcastStatus _) as [[current b]|]; [|exact Hw].
    destruct (negb _); [exact Hw|]. cbv zeta. destruct (bool_decide _); [load_paints Hw|same_load Hw].
  - unfold send_published. destruct r'; [apply loading_broadcast_done|load_paints Hw].
  - unfold fill_published. destruct r'; [apply loading_broadcast_done|load_paints Hw].
  - unfold sell_published. destruct r'; load_paints Hw.
  - unfold cancel_done. destruct r'; [load_paints Hw|by apply loading_cancel_failed].
Qed.

Ltac fill_ends Hv Hl lem :=
  match type of Hl with loading [?t] _ =>
    eapply (loading_fill t); [reflexivity|exact (Hv _ _ eq_refl)|reflexivity|apply lem|first [exact Hl|same_load Hl]] end.
Ltac load_ends Hl lem := match type of Hl with loading [?t] _ => by apply (lem t) end.

(** The fetches that are waited for: the next of them follows, or the wait ends. *)
Lemma getPositions_drawable hex w w' p :
  getPositions baseUrl fetchImpl hex true w = (w', Ok p) → forallb drawable (elements (tg_data p)) = true.
Proof.
  intros (? & ? & _ & [_ H]%lift_Ok)%io_bind_Ok. apply check_list_shaped in H as (-> & l & -> & Hl); [|done].
  simpl. induction Hl as [|q l [Hq _] _ IH]; [done|]. simpl. rewrite IH, andb_true_r.
  apply Forall_cons in Hq as [Hq _]. unfold drawable. by destruct (field q "txid").
Qed.

Lemma loading_resume_load t s : other_work t = false → task_ok s t → loading [t] s → loading [] (resume t s).
Proof.
  intros Ht Hok Hl.
  assert (∀ w, task_ok (s <| world := w |>) t) as Hv by (intros w v c Hv; apply view_world; by apply Hok).
  destruct t; try discriminate Ht; cbn [resume]; eapply (loading_await _); try exact Hl; intros wd r Hm Hw;
    specialize (Hv wd); revert Hv Hw; generalize (s <| world := wd |>); clear Hok Hl; intros s' Hv Hl.
  - fill_ends Hv Hl fills_balance.
  - destruct (p ← r; _) as [[ps a]|] eqn:Hp; [|load_ends Hl loading_send_end].
    apply bind_Ok in Hp as (p & -> & (a' & _ & [= <- <-])%bind_Ok). apply getPositions_drawable in Hm.
    load_ends Hl loading_next.
  - destruct r; [load_ends Hl loading_next|load_ends Hl loading_send_end].
  - destruct r; load_ends Hl loading_send_end.
  - fill_ends Hv Hl fills_market.
  - unfold fill_position_loaded. destruct (p ← r; _) as [[]|]; [load_ends Hl loading_next|].
    fill_ends Hv Hl fills_failed.
  - unfold fill_utxos_loaded. destruct r; [load_ends Hl loading_next|].
    fill_ends Hv Hl fills_failed.
  - unfold fill_fee_loaded. destruct (resp ← r; _) as [[]|];
      [|fill_ends Hv Hl fills_failed].
    destruct (planFill _ _ _ _ _) as [plan|errors];
      [|fill_ends Hv Hl fills_refused].
    cbv zeta. fill_ends Hv Hl fills_review.
  - destruct r; load_ends Hl loading_sell_end.
  - unfold my_orders_loaded. destruct r; [fill_ends Hv Hl fills_my_orders|fill_ends Hv Hl fills_my_orders_failed].
Qed.

Lemma loading_remove i t s : tasks s !! i = Some t → loading [] s → loading [t] (remove_task i s).
Proof.
  intros Ht [[Hsd Hse] Hb Ho].
  assert (∀ p : task → bool, existsb p ([] ++ tasks s) = true → existsb p ([t] ++ tasks (remove_task i s)) = true) as Hp.
  { intros p. cbn. rewrite <- (take_drop_middle _ _ _ Ht) at 1. rewrite !existsb_app. simpl. rewrite !orb_true_iff. tauto. }
  split; [split|intros Hs; specialize (Hb Hs)|exact Ho]; [intros Hc Hn; apply Hp; auto..|].
  change (cur (remove_task i s)) with (cur s). destruct (cur s); try exact Hb; (split; [apply Hb|apply Hp, Hb]).
Qed.

Lemma loading_resume t s : task_ok s t → loading [t] s → loading [] (resume t s).
Proof.
  intros Hok Hl. destruct (other_work t) eqn:Ht; [|by apply loading_resume_load].
  apply loading_resume_other; [done|]. destruct (other_work_no_load t (page_id s) Ht) as (H1 & H2 & H3).
  by apply (loading_drop t).
Qed.

Lemma loading_step e s : inv s → loading [] s → loading [] (step e s).
Proof.
  intros Hinv Hl. destruct e as [k|id v|i|i ok|n e]; cbn [step].
  - destruct (buttons s !! k) as [h|] eqn:Hb; [|exact Hl]. apply loading_handler; [|exact Hl].
    eapply buttons_offered; [exact Hinv|]. by eapply list_elem_of_lookup_2.
  - destruct (find_page _ _); [same_load Hl|exact Hl].
  - destruct (tasks s !! i) as [t|] eqn:Ht; [|exact Hl]. pose proof (loading_remove i t s Ht Hl) as Hr.
    assert (task_ok (remove_task i s) t) as Hok by exact (Forall_lookup_1 _ _ _ _ (inv_tasks _ Hinv) Ht).
    destruct t; try exact Hl; by apply loading_resume.
  - destruct (tasks s !! i) as [[]|] eqn:Ht; try exact Hl. pose proof (loading_remove i _ s Ht Hl) as Hr.
    apply (loading_drop Tcopy) in Hr; [load_paints Hr|done..].
  - destruct e; try exact Hl; by apply loading_scan.
Qed.

Lemma reachable_loading s : reachable s → loading [] s.
Proof.
  intros (w & es & ->). assert (inv (loaded w) ∧ loading [] (loaded w)) as H.
  { split; [apply loaded_inv|]. unfold loaded. apply loading_render. by apply fed_elsewhere. }
  unfold run. revert H. generalize (loaded w). induction es as [|e es IH]; intros s [H1 H2]; [done|].
  simpl. apply IH. split; [by apply step_inv|by apply loading_step].
Qed.

(** ** The wait ends *)

(** A page with something on it and no skeleton. *)
Definition complete s : Prop := page s ≠ [] ∧ settled s = true.

(** A task the screen waits for. *)
Definition waited s (t : task) : bool :=
  match cur s with
  | Ssend => send_load t
  | Ssell => sell_load t
  | c => views c && view_load (page_id s) t
  end.

(** How many fetches are to come, with this one. *)
Definition rank (t : task) : nat :=
  match t with TsendPositions _ | TfillPosition _ _ => 3 | TsendUtxos _ _ | TfillUtxos _ _ _ _ => 2 | _ => 1 end.

Lemma unsettled_waited s : loading [] s → settled s = false → ∃ i t, tasks s !! i = Some t ∧ waited s t = true.
Proof.
  intros [[Hsd Hse] Hb _] Hs. specialize (Hb Hs). simpl in Hsd, Hse.
  assert (∀ p : task → bool, existsb p (tasks s) = true → ∃ i t, tasks s !! i = Some t ∧ p t = true) as Hex.
  { intros p (t & Hin & Hp)%existsb_exists. apply list_elem_of_In, list_elem_of_lookup in Hin as [i Hi]. eauto. }
  unfold waited. destruct (cur s); auto; destruct Hb as [Hv Hb]; try discriminate Hv; by apply Hex in Hb.
Qed.

Lemma send_end_complete f s :
  cur s = Ssend → (∀ d, ∃ l, sd_positions (f d) = Some l ∧ forallb drawable l = true) →
  complete (render_if Ssend (set_send f s)) ∧ cur (render_if Ssend (set_send f s)) = cur s.
Proof.
  intros Hc Hf. unfold render_if. change (cur (set_send f s)) with (cur s). rewrite Hc, bool_decide_true by done.
  destruct (Hf (sendState s)) as (l & Hl & Hd). destruct (render_draws (set_send f s)) as [Hb _].
  destruct (render_frame (set_send f s)) as [Hr [_ _ _ Hsd _ _ _ _ _]].
  assert (redirect (set_send f s) = Ssend) as Hrd by (unfold redirect; cbn; by rewrite Hc). rewrite Hrd in Hr.
  split; [|exact Hr]. split.
  - destruct (blank_positions (set_send f s)) as [Hbs _]. destruct (blank_state (set_send f s)) as (Hbc & _).
    destruct (drawn_send (sendState (blank (set_send f s))) (the_wallet (blank (set_send f s))) scanSupported l) as [n Hn];
      [by rewrite Hbs|done|].
    rewrite (render_page _ n); [done|by rewrite Hrd|]. unfold screen_part. by rewrite Hbc, Hrd, Hn.
  - apply not_false_iff_true. intros Hs. specialize (Hb Hs). rewrite Hr, Hsd in Hb. cbn in Hb. congruence.
Qed.

Lemma sell_end_complete f s :
  cur s = Ssell → (∀ d, ∃ l, se_positions (f d) = Some l ∧ forallb drawable l = true) →
  complete (render_if Ssell (set_sell f s)) ∧ cur (render_if Ssell (set_sell f s)) = cur s.
Proof.
  intros Hc Hf. unfold render_if. change (cur (set_sell f s)) with (cur s). rewrite Hc, bool_decide_true by done.
  destruct (Hf (sellState s)) as (l & Hl & Hd). destruct (render_draws (set_sell f s)) as [Hb _].
  destruct (render_frame (set_sell f s)) as [Hr [_ _ _ _ Hse _ _ _ _]].
  assert (redirect (set_sell f s) = Ssell) as Hrd by (unfold redirect; cbn; by rewrite Hc). rewrite Hrd in Hr.
  split; [|exact Hr]. split.
  - destruct (blank_positions (set_sell f s)) as [_ Hbs]. destruct (blank_state (set_sell f s)) as (Hbc & _).
    destruct (drawn_sell (sellState (blank (set_sell f s))) l) as [n Hn]; [by rewrite Hbs|done|].
    rewrite (render_page _ n); [done|by rewrite Hrd|]. unfold screen_part. by rewrite Hbc, Hrd, Hn.
  - apply not_false_iff_true. intros Hs. specialize (Hb Hs). rewrite Hr, Hse in Hb. cbn in Hb. congruence.
Qed.

(** After a task that is waited for: the page is complete, or the next is pending. *)
Definition advances (t : task) s s' : Prop :=
  cur s' = cur s
  ∧ (complete s' ∨ page s' = page s ∧ ∃ i t', tasks s' !! i = Some t' ∧ waited s' t' = true ∧ rank t = S (rank t')).

Lemma advances_end t s s' : complete s' ∧ cur s' = cur s → advances t s s'.
Proof. intros [Hs Hc]. split; [exact Hc|by left]. Qed.

Lemma advances_await {A} (m : io W A) k t s :
  (∀ w r, m (world s) = (w, r) → advances t (s <| world := w |>) (k r (s <| world := w |>))) → advances t s (await m k s).
Proof. intros Hk. unfold await. destruct (m (world s)) as [w r]. exact (Hk w r eq_refl). Qed.

(** What a task that is waited for finds. *)
Record expected (t : task) s : Prop := {
  ex_waited : waited s t = true;
  ex_page : page s ≠ [];
  ex_send : send_task t = true → cur s = Ssend ∧ send_load t = true;
  ex_sell : sell_load t = true → cur s = Ssell;
  ex_view : ∀ v c, task_view t = Some (v, c) → v = page_id s ∧ forallb outside (page s) = true
}.

Lemma waited_expected t s :
  task_ok s t → loading [t] s → page s ≠ [] → waited s t = true → expected t s ∧ other_work t = false.
Proof.
  intros Hok [_ _ Ho] Hp Hw. split; [split; [exact Hw|exact Hp|..]|].
  1,2: unfold waited in Hw; intros Ht; destruct (cur s); try done; exfalso; revert Hw; by destruct t.
  - intros v c Ht. destruct (view_not_positions t v c Ht) as [H1 H2].
    assert (views (cur s) = true ∧ view_load (page_id s) t = true) as [Hv Hl].
    { unfold waited in Hw. destruct (cur s); try (by apply andb_true_iff in Hw); congruence. }
    unfold view_load in Hl. rewrite Ht in Hl. apply Nat.eqb_eq in Hl. auto.
  - apply not_true_iff_false. intros (H1 & H2 & H3)%(other_work_no_load _ (page_id s)). unfold waited in Hw.
    destruct (cur s); try congruence; apply andb_true_iff in Hw as [_ Hw]; congruence.
Qed.

Lemma expected_fill t v c r s s' :
  expected t s → task_view t = Some (v, c) → fills r →
  page s' = page s → page_id s' = page_id s → cur s' = cur s → advances t s (fill_view v r s').
Proof.
  intros He Ht Hr Hp Hid Hc. destruct (ex_view _ _ He v c Ht) as (Hv & Ho). apply advances_end.
  split; [split|by destruct (fill_view_state v r s') as (-> & _)].
  - pose proof (ex_page _ _ He) as Hne. rewrite <- Hp in Hne. unfold fill_view. destruct r; [|done].
    case_match; [|done]. cbn. by destruct (page s').
  - apply fill_view_settled; [exact Hr|by rewrite Hid|by rewrite Hp].
Qed.

Lemma expected_next t t' s :
  expected t s → rank t = S (rank t') → (send_load t = true → send_load t' = true) → sell_load t' = sell_load t →
  task_view t' = task_view t → advances t s (add_task t' s).
Proof.
  intros He Hr H1 H2 H3. split; [done|]. right. split; [done|]. exists (length (tasks s)), t'.
  split_and!; [by apply list_lookup_middle| |exact Hr]. pose proof (ex_waited _ _ He) as Hw.
  unfold waited, view_load in *. change (cur (add_task t' s)) with (cur s). rewrite H2, H3. destruct (cur s); auto.
Qed.

Lemma expected_send_failed t e s : send_task t = true → expected t s → advances t s (send_load_failed e s).
Proof. intros Ht He. apply advances_end, send_end_complete; [by apply He|]. intros d. by exists []. Qed.

Ltac fill_shown He lem := eapply expected_fill; [exact He|reflexivity|apply lem|reflexivity..].

Lemma resume_advances t s : other_work t = false → expected t s → advances t s (resume t s).
Proof.
  intros Ht He. destruct t; try discriminate Ht; cbn [resume]; apply advances_await; intros wd r Hm;
    match type of He with expected ?t _ => assert (expected t (s <| world := wd |>)) as Hx by (by destruct He) end;
    revert Hx; generalize (s <| world := wd |>); clear He; intros s' He.
  - fill_shown He fills_balance.
  - destruct (p ← r; _) as [[ps a]|] eqn:Hp; [|by apply expected_send_failed].
    apply bind_Ok in Hp as (p & -> & (a' & _ & [= <- <-])%bind_Ok). apply getPositions_drawable in Hm. by apply expected_next.
  - destruct r; [by apply expected_next|by apply expected_send_failed].
  - destruct r; [|by apply expected_send_failed]. destruct (ex_send _ _ He eq_refl) as [Hc Hd].
    apply advances_end, send_end_complete; [exact Hc|]. intros d. by exists positions.
  - fill_shown He fills_market.
  - unfold fill_position_loaded. destruct (p ← r; _) as [[]|]; [by apply expected_next|fill_shown He fills_failed].
  - unfold fill_utxos_loaded. destruct r; [by apply expected_next|fill_shown He fills_failed].
  - unfold fill_fee_loaded. destruct (resp ← r; _) as [[]|]; [|fill_shown He fills_failed].
    destruct (planFill _ _ _ _ _); [fill_shown He fills_review|fill_shown He fills_refused].
  - pose proof (ex_sell _ _ He eq_refl) as Hc. destruct r as [p|e]; apply advances_end, sell_end_complete; try exact Hc; intros d;
      [apply getPositions_drawable in Hm; by eexists|by exists []].
  - unfold my_orders_loaded. destruct r; [fill_shown He fills_my_orders|fill_shown He fills_my_orders_failed].
Qed.

Lemma wait_ends n s i t :
  inv s → loading [] s → page s ≠ [] → tasks s !! i = Some t → waited s t = true → (rank t ≤ n)%nat →
  ∃ js, (length js ≤ n)%nat ∧ complete (run s (Complete <$> js)) ∧ cur (run s (Complete <$> js)) = cur s.
Proof.
  revert s i t. induction n as [|n IH]; intros s i t Hinv Hl Hp Ht Hw Hn; [by destruct t; simpl in Hn; lia|].
  assert (expected t (remove_task i s) ∧ other_work t = false) as [He Ho].
  { apply waited_expected; [exact (Forall_lookup_1 _ _ _ _ (inv_tasks _ Hinv) Ht)|by apply loading_remove|exact Hp|exact Hw]. }
  assert (step (Complete i) s = resume t (remove_task i s)) as Hstep by (cbn [step]; rewrite Ht; by destruct t).
  destruct (resume_advances t _ Ho He) as [Hc Hadv]. change (cur (remove_task i s)) with (cur s) in Hc.
  rewrite <- Hstep in Hc, Hadv. destruct Hadv as [Hs|(Hp' & j & t' & Ht' & Hw' & Hr)].
  - exists [i]. split_and!; [simpl; lia|exact Hs|exact Hc].
  - destruct (IH (step (Complete i) s) j t') as (js & Hlen & Hs & Hcs);
      [by apply step_inv|by apply loading_step|by rewrite Hp'|exact Ht'|exact Hw'|lia|].
    exists (i :: js). split_and!; [simpl; lia|exact Hs|exact (eq_trans Hcs Hc)].
Qed.

(** C17 No screen is left on its skeleton.  Whatever the user has done and the network
    has answered, wherever the page shows a skeleton the fetch that replaces it is
    pending: at most three completions of pending work, whether the network answers
    them or fails, lead to the same screen, drawn, without one.  So a skeleton can
    only last as long as the network says nothing. *)
Theorem skeletons_end s :
  reachable s → settled s = false →
  ∃ js, (length js ≤ 3)%nat ∧ complete (run s (Complete <$> js)) ∧ cur (run s (Complete <$> js)) = cur s.
Proof.
  intros Hr Hs. destruct (unsettled_waited s (reachable_loading s Hr) Hs) as (i & t & Ht & Hw).
  eapply (wait_ends 3 s i t); [by apply reachable_inv|by apply reachable_loading| |exact Ht|exact Hw|].
  - unfold settled in Hs. by destruct (page s).
  - destruct t; simpl; lia.
Qed.
End loads.
