(* ===== verification/FlowRuns.v ===== *)
(** * FlowRuns: runs of the application

    The machine of [Flow] run on a sample browser and a sample indexer, from the
    loaded page through restoring and unlocking a wallet.  Used to apply the
    theorems about reachable states, and to show where asynchronous work that is
    overtaken by the user does something the user did not ask for. *)

From stdpp Require Import base tactics option list numbers strings pretty relations.
From Stdlib Require Import ZArith Lia Ascii.
From S2P Require Import Prelude JsInt JsStr JsNum JsVal Effects Words Sha256 Addr Script Tx Payments Orders.
From S2P Require Import Transfer Market Mint Sell Cancel Api App Mnemonic Bip32 Wallet Dom Qrscan Views.
From S2P Require Import Flow FlowProps FlowLock FlowRefine FlowLoad.

(** ** A browser and an indexer *)

(** A curve module that knows one key. *)
Definition one_key : secp := Secp (λ _ _, Ok (replicate 70 48)) (λ _ _, Ok sample_key).

Definition listed_coin : jsval :=
  Obj [("txid", Str sample_txid); ("vout", Num (Int 0)); ("value", Num (Int 900000000000)); ("height", Num (Int 3))].
Definition listed_position : jsval :=
  Obj [("txid", Str sample_txid); ("vout", Num (Int 1)); ("height", Num (Int 3)); ("value", Num (Int 500000000000));
       ("multiplier", Num (Int 1000)); ("pubkey", Str (Script.bytesToHex sample_key)); ("origin", Str sample_origin)].
Definition listed_order (txid : string) (price : Z) : jsval :=
  Obj [("txid", Str txid); ("vout", Num (Int 1)); ("multiplier", Num (Int 5)); ("pubkey", Str "02"); ("script_sig", Str "00");
       ("payment_script", Str "51"); ("payment_value", Num (Int price)); ("created_at", Num (Int 1700000000));
       ("cancel_nonce", Str "00")].
Definition cheap_order : jsval := listed_order "aa" 100000000.
Definition dear_order : jsval := listed_order "bb" 300000000000.

Definition answer (q : request) : response :=
  let has := includes (rq_url q) in
  Response 200
    (Ok (if str_eqb (rq_method q) "POST" then Str sample_txid
         else if has "/utxos" then Arr [listed_coin]
         else if has "/positions" then Arr [listed_position]
         else if has "/position/" then listed_position
         else if has "/orders" then Arr [cheap_order; dear_order]
         else Obj [("sat_per_kb", Num (Int 1000)); ("source", Str "node")])) None.

(** The world is the requests made so far. *)
#[local] Existing Instance sample_page.
#[local] Instance sample_env : Env (list request) := {|
  baseUrl := "http://x"; fetchImpl q := λ log, (log ++ [q], Ok (answer q)); sleep _ := mret tt; now _ := 1700000000;
  curve := one_key; configured := Ok one_key; webcrypto := Some sample_subtle; random := sample_random;
  decode := sample_decode; has_detector := true; has_camera := true; can_play := true; detector_error := None
|}.
Abbreviation st := (appl (list request)).

(** Restore a wallet from its phrase, and unlock it. *)
Definition sign_in : list event :=
  [Click 1; Enter "mnemonic-input" abandon_about; Enter "restore-passphrase" "pw"; Click 0; Complete 0; Complete 0;
   Enter "unlock-passphrase" "pw"; Click 0; Complete 0].

Definition own_address : string := "WbxQT2A699rsd1RH7gTPANvUfaLZrZCN9k".
Definition own_key : bytes :=
  [98; 135; 173; 27; 54; 73; 88; 29; 124; 85; 205; 27; 54; 73; 88; 29; 124; 85; 205; 27; 54; 73; 88; 29; 124; 85; 205; 27;
   54; 73; 88; 28].
Definition open_wallet : wallet :=
  Wallet "mainnet" sample_subtle (Some own_key) (Some own_address) (Some abandon_about) false false
    (Some WHIPPET_KEY_PATH) false.
Definition own_stored : stored_wallet :=
  Stored 2 (Some (encryptPrivateKey sample_subtle (replicate 16 0) (replicate 12 0) (utf8 abandon_about) "pw"))
    PBKDF2_ITERATIONS (Some own_address) (Some "mainnet").
Definition opened : st :=
  render (App [open_wallet] (Some 0%nat) Swallet (Some own_stored) 2 None None freshMintState freshSendState
            freshMarketState freshSellState freshMyOrdersState [] 3 [] [] [] []).

Lemma sign_in_opens : run (loaded []) sign_in = opened.
Proof. vm_compute. reflexivity. Qed.

Lemma opened_reachable : reachable opened.
Proof. exists [], sign_in. symmetry. exact sign_in_opens. Qed.

Lemma run_reachable es : reachable (run opened es).
Proof. exists [], (sign_in ++ es). rewrite <- sign_in_opens. unfold run. by rewrite fold_left_app. Qed.

(** ** The theorems, applied *)


(** The send form opened with the camera on, the lists loaded behind it, the form
    filled in and its review. *)
Definition scanning : list event :=
  [Click 2; Click 0; Camera 0 (Granted (Stream true [true])); Camera 0 Played].
Definition lists_loaded : list event := scanning ++ [Complete 1; Complete 1; Complete 1].
Definition send_reviewed : list event :=
  lists_loaded ++ [Enter "send-amount" "2000"; Enter "send-pubkey" (Script.bytesToHex sample_key);
                   Enter "send-address" own_address; Click 2].


(** Requests are only added, and only [GET]s. *)
Definition only_gets (log log' : list request) : Prop :=
  ∃ new, log' = log ++ new ∧ Forall (λ q, rq_method q = "GET") new.

#[local] Instance only_gets_preorder : PreOrder only_gets.
Proof.
  split; [intros l; exists []; by rewrite app_nil_r|].
  intros l l' l'' (n & -> & Hn) (n' & -> & Hn'). exists (n ++ n'). rewrite (assoc_L (++)). split; [done|]. by apply Forall_app.
Qed.

Lemma opened_lock : run opened [Click 6] = lockWallet opened.
Proof.
  assert (buttons opened !! 6%nat = Some HlockWallet) as Hb by (vm_compute; reflexivity).
  unfold run. cbn [fold_left step]. rewrite Hb. reflexivity.
Qed.

Lemma locked_never_signs_witness :
  let s := run opened [Click 6] in
  let s' := step (Complete 0) s in
  keyless s' ∧ only_gets (world s) (world s').
Proof.
  intros s s'. apply (locked_never_signs only_gets s s').
  - intros q Hq log. exists [q]. split; [reflexivity|]. by constructor.
  - intros ms log. exists []. by rewrite app_nil_r.
  - apply run_reachable.
  - unfold s. rewrite opened_lock. apply (lock_keyless opened open_wallet); vm_compute; [reflexivity|by repeat constructor].
  - eapply quiet_step; [|apply quiet_refl]. intros k h Hk. discriminate Hk.
Defined.

(** The wallet screen as it opens, with its balance to come. *)
Lemma skeletons_end_witness :
  settled opened = false
  ∧ ∃ js, (length js ≤ 3)%nat ∧ complete (run opened (Complete <$> js)) ∧ cur (run opened (Complete <$> js)) = cur opened.
Proof.
  assert (settled opened = false) as Hs by (vm_compute; reflexivity).
  split; [exact Hs|exact (skeletons_end opened opened_reachable Hs)].
Defined.

Lemma loaded_agrees : agrees (loaded []) fresh_session.
Proof. by split; [| left | | |]; vm_compute. Qed.


(** ** Work that the user has overtaken *)

(** A mint on review; confirmed, with its broadcast in flight and the wallet
    screen open again. *)
Definition mint_reviewed : list event :=
  [Click 1; Enter "mint-ticker" "whip"; Enter "mint-multiplier" "5"; Enter "mint-amount" "2000"; Click 0; Complete 1].
Definition mint_in_flight : list event := mint_reviewed ++ [Click 0; Complete 1; Click 1; Click 1].

(** The Lock button and then the end of the broadcast: the wallet screen is back,
    with all its buttons, and no passphrase was asked for. *)
Lemma lock_screen_undone :
  reachable (run opened (mint_in_flight ++ [Click 6]))
  ∧ let locked := run opened (mint_in_flight ++ [Click 6]) in
    let s := step (Complete 1) locked in
    cur locked = Sunlock ∧ cur s = Swallet ∧ buttons s !! 6%nat = Some HlockWallet ∧ (_privKey <$> the_wallet s) = Some None.
Proof. split; [exact (run_reachable _)|]. vm_compute. done. Qed.

(** The same after signing out: the wallet screen is drawn without a wallet, which
    throws, and nothing is on the page. *)
Lemma sign_out_leaves_no_page :
  reachable (run opened (mint_in_flight ++ [Click 7; Complete 1]))
  ∧ let s := run opened (mint_in_flight ++ [Click 7; Complete 1]) in cur s = Swallet ∧ page s = [].
Proof. split; [exact (run_reachable _)|]. vm_compute. done. Qed.

(** [confirmMint] reads the plan again after loading the coins: the plan it
    publishes is the one made meanwhile, which nobody confirmed. *)
Definition mint_replanned : list event :=
  mint_reviewed ++ [Click 0; Click 1; Enter "mint-ticker" "other"; Enter "mint-multiplier" "5"; Enter "mint-amount" "3000";
                    Click 0; Complete 2; Complete 1].

Lemma mint_publishes_unconfirmed_plan :
  reachable (run opened mint_replanned)
  ∧ (mp_ticker <$> mt_plan (mintState (run opened (mint_reviewed ++ [Click 0])))) = Some "WHIP"
  ∧ match tasks (run opened mint_replanned) !! 1%nat with
    | Some (Tmint (Some plan) _ _ _) => mp_ticker plan = "OTHER" ∧ mp_amountSats plan = Int 300000000000
    | _ => False
    end.
Proof. split; [exact (run_reachable _)|]. vm_compute. done. Qed.

(** The reviews of two orders share one plan.  A review of the dear order is being
    prepared when the mint ends and moves the user to the wallet; the review of
    the cheap order shows a change of 8998.99 coins; the dear one's plan arrives,
    and Confirm fills the cheap order with it.  [buildFillTx] takes the change
    from the plan and the payment from the order, so 2999 coins more than the
    review says go to the miner. *)
Definition cheap_reviewed : list event :=
  mint_in_flight ++ [Click 3; Complete 3; Click 1; Complete 1; Click 3; Complete 5; Click 0; Complete 5; Complete 5; Complete 5].

Definition plans_crossed : list event := cheap_reviewed ++ [Complete 2; Complete 4; Complete 4].

Lemma fill_uses_plan_of_other_order :
  reachable (run opened plans_crossed)
  ∧ let s := run opened plans_crossed in
    mjoin (texts <$> page s) !! 12%nat = Some "8998.99000000 coins"
    ∧ match tasks (step (Click 0) s) !! 4%nat with
      | Some (Tfill plan _ order _ _) =>
          order = cheap_order ∧ fp_change plan = Int 599999000000
          ∧ Num (fp_paymentValue plan) = field dear_order "payment_value"
      | _ => False
      end.
Proof. split; [exact (run_reachable _)|]. vm_compute. done. Qed.

(** The lists arriving while the camera is on redraw the page: the Cancel button
    is gone and the camera stays on. *)
Lemma scan_overlay_lost :
  reachable (run opened lists_loaded)
  ∧ buttons (run opened scanning) !! 3%nat = Some (HabortScan 0)
  ∧ let s := run opened lists_loaded in
    forallb (λ h, match h with HabortScan _ => false | _ => true end) (buttons s) = true
    ∧ match scans s with
      | [(_, c)] => at_phase c = AwaitDetect ∧ camera c = Some (Stream true [true])
      | _ => False
      end.
Proof. split; [exact (run_reachable _)|]. vm_compute. done. Qed.

(** And what it sees then replaces the address on the review: the card says the
    scanned address was checked against the key, and it was not. *)
Definition scanned_late : event :=
  Camera 0 (Detected (Arr [Obj [("rawValue", Str "WfNVWcyyaLfRRzZeW2usyZFw5wrEs4HgbD")]])).

Lemma review_address_never_checked :
  reachable (run opened send_reviewed)
  ∧ let reviewed := run opened send_reviewed in
    let s := step scanned_late reviewed in
    mjoin (texts <$> page reviewed) !! 5%nat = Some own_address
    ∧ cur s = Ssend_review ∧ mjoin (texts <$> page s) !! 4%nat = Some "Address checked:"
    ∧ mjoin (texts <$> page s) !! 5%nat = Some "WfNVWcyyaLfRRzZeW2usyZFw5wrEs4HgbD".
Proof. split; [exact (run_reachable _)|]. vm_compute. done. Qed.

(** The stored wallet lives in the page: after a reload the application offers to
    create a wallet or to restore one from its phrase, and has none to unlock. *)
Lemma reload_forgets_wallet w :
  stg opened = Some own_stored ∧ stg (loaded w) = None ∧ buttons (loaded w) = [HcreateNewWallet; HrestoreWallet].
Proof. split_and!; reflexivity. Qed.
